(** * OAB lawyer-registry scraper: a shallow embedding of the re-processing pipeline

    The repository holds several near-identical scripts.  Each script is
    embedded in a module of its own, so that every function keeps the name
    it has in the source:

    - [Checker]    : checker.py
    - [FixState]   : request_lawyers_fix_state.py
    - [RetryDelay] : request_lawyers_with_society_retry_errorr_with_delay.py
    - [Scraper]    : oab_scraper_modified.py (request_100s.py has the same
                     session manager)

    Records are the dictionaries that [json.load] produces; they are
    modelled as finite maps from keys to JSON values.  Output on stdout is
    not part of the model.  Strings are sequences of 8-bit characters;
    [str.upper], [str.isalpha] and [str.strip] are modelled on the ASCII
    range, which is where region codes and registry identifiers live. *)

From Stdlib Require Import ZArith Ascii String List Lia Bool.
From stdpp Require Import gmap strings list fin_maps pretty.

Set Warnings "-register-all".

Local Open Scope string_scope.
Local Open Scope Z_scope.

(** ** Python values and the operations the scripts use on them *)

Module Py.

(** What [json.load] returns.  Numbers are integers: the pipeline only
    looks at flags, strings and lists. *)
Inductive json : Type :=
| JNull
| JBool (b : bool)
| JNum (n : Z)
| JStr (s : string)
| JList (l : list json)
| JObj (kv : list (string * json)).

(** [bool(v)]: the truth value Python gives to [v] in [if v] and [not v]. *)
Definition truthy (v : json) : bool :=
  match v with
  | JNull => false
  | JBool b => b
  | JNum n => negb (n =? 0)
  | JStr s => negb (String.eqb s "")
  | JList l => negb (bool_decide (l = []))
  | JObj kv => negb (bool_decide (kv = []))
  end.

(** [d.get(k)] and [d.get(k, dflt)] on a record. *)
Definition dict_get (d : gmap string json) (k : string) : json :=
  default JNull (d !! k).

Definition dict_get_default (d : gmap string json) (k : string) (dflt : json) : json :=
  default dflt (d !! k).

(** [v is None] *)
Definition is_none (v : json) : bool :=
  match v with JNull => true | _ => false end.

(** [v != s] for a string [s]: only a string with the same characters is
    equal to [s]. *)
Definition ne_str (v : json) (s : string) : bool :=
  match v with
  | JStr t => negb (String.eqb t s)
  | _ => true
  end.

(** Characters, as bytes of the UTF-8 text: the letters, cases and white
    space below are those of the ASCII range, and the statements that
    depend on them are made for strings of that range ([all_ascii]). *)
Definition is_upper_char (c : ascii) : bool :=
  let n := nat_of_ascii c in ((65 <=? n) && (n <=? 90))%nat.

Definition is_lower_char (c : ascii) : bool :=
  let n := nat_of_ascii c in ((97 <=? n) && (n <=? 122))%nat.

Definition is_alpha_char (c : ascii) : bool :=
  is_upper_char c || is_lower_char c.

Definition upper_char (c : ascii) : ascii :=
  if is_lower_char c then ascii_of_nat (nat_of_ascii c - 32) else c.

Definition lower_char (c : ascii) : ascii :=
  if is_upper_char c then ascii_of_nat (nat_of_ascii c + 32) else c.

(** [s.upper()], [s.lower()] *)
Fixpoint upper (s : string) : string :=
  match s with
  | EmptyString => EmptyString
  | String c rest => String (upper_char c) (upper rest)
  end.

Fixpoint lower (s : string) : string :=
  match s with
  | EmptyString => EmptyString
  | String c rest => String (lower_char c) (lower rest)
  end.

(** [''.join(c for c in s if c.isalpha())] *)
Fixpoint keep_alpha (s : string) : string :=
  match s with
  | EmptyString => EmptyString
  | String c rest =>
      if is_alpha_char c then String c (keep_alpha rest) else keep_alpha rest
  end.

Fixpoint all_alpha (s : string) : bool :=
  match s with
  | EmptyString => true
  | String c rest => is_alpha_char c && all_alpha rest
  end.

(** Only capital letters; only characters of the ASCII range. *)
Fixpoint all_upper (s : string) : bool :=
  match s with
  | EmptyString => true
  | String c rest => is_upper_char c && all_upper rest
  end.

Fixpoint all_ascii (s : string) : bool :=
  match s with
  | EmptyString => true
  | String c rest => (nat_of_ascii c <? 128)%nat && all_ascii rest
  end.

(** [s.isalpha()]: at least one character, and all of them letters. *)
Definition isalpha (s : string) : bool :=
  negb (String.eqb s "") && all_alpha s.

(** [s[:n]] *)
Fixpoint take_chars (n : nat) (s : string) : string :=
  match n, s with
  | O, _ => EmptyString
  | S n', EmptyString => EmptyString
  | S n', String c rest => String c (take_chars n' rest)
  end.

(** [s.split(sep)] for a one-character separator. *)
Fixpoint split_on (sep : ascii) (s : string) : list string :=
  match s with
  | EmptyString => [EmptyString]
  | String c rest =>
      if Ascii.eqb c sep then EmptyString :: split_on sep rest
      else match split_on sep rest with
           | [] => [String c EmptyString]
           | p :: ps => String c p :: ps
           end
  end.

(** [needle in hay] on strings. *)
Fixpoint contains (needle hay : string) : bool :=
  String.prefix needle hay
  || match hay with
     | EmptyString => false
     | String _ rest => contains needle rest
     end.

(** [c.isspace()] on the ASCII range. *)
Definition is_space_char (c : ascii) : bool :=
  let n := nat_of_ascii c in
  ((n =? 32) || ((9 <=? n) && (n <=? 13)) || ((28 <=? n) && (n <=? 31)))%nat.

(** [s.lstrip()], [s.rstrip()], [s.strip()], for the white space of the
    ASCII range. *)
Fixpoint lstrip (s : string) : string :=
  match s with
  | EmptyString => EmptyString
  | String c rest => if is_space_char c then lstrip rest else s
  end.

Fixpoint rstrip (s : string) : string :=
  match s with
  | EmptyString => EmptyString
  | String c rest =>
      let r := rstrip rest in
      if String.eqb r "" && is_space_char c then EmptyString else String c r
  end.

Definition strip (s : string) : string := rstrip (lstrip s).

(** [s.replace(old, '')] for a non-empty [old]: [skip] counts the characters
    of an occurrence that are still to be dropped. *)
Fixpoint remove_all_from (old : string) (skip : nat) (s : string) : string :=
  match s with
  | EmptyString => EmptyString
  | String c rest =>
      match skip with
      | S k => remove_all_from old k rest
      | O =>
          if String.prefix old s then remove_all_from old (String.length old - 1) rest
          else String c (remove_all_from old 0 rest)
      end
  end.

Definition remove_all (old s : string) : string := remove_all_from old 0 s.

Section Str.
(** [str(v)] for a value that is not a string, [None], a flag or an
    integer is the text CPython prints for a list or a dictionary.  It is
    left as a parameter: every statement below holds whatever that text
    is. *)
Context (py_repr : json → string).

Definition str (v : json) : string :=
  match v with
  | JStr s => s
  | JNull => "None"
  | JBool true => "True"
  | JBool false => "False"
  | JNum n => pretty n
  | _ => py_repr v
  end.
End Str.

End Py.

Import Py.

(** The 27 state abbreviations, as every script lists them. *)
Definition valid_states : list string :=
  [ "AC"; "AL"; "AP"; "AM"; "BA"; "CE"; "DF"; "ES"; "GO";
    "MA"; "MT"; "MS"; "MG"; "PA"; "PB"; "PR"; "PE"; "PI";
    "RJ"; "RN"; "RS"; "RO"; "RR"; "SC"; "SP"; "SE"; "TO" ].

Definition underscore : ascii := "_"%char.

(** ** Exceptions and HTTP responses *)

Module Exn.

(** The exception classes that the scripts raise or tell apart. *)
Inductive exn_class :=
| PlainException          (* Exception(...) *)
| ValueError
| KeyError
| TypeError
| AttributeError
| NameError
| IndexError
| RequestException        (* requests.exceptions.RequestException *)
| HTTPError               (* raised by raise_for_status *)
| ProxyError              (* requests.exceptions.ProxyError *)
| JSONDecodeError         (* requests.exceptions.JSONDecodeError *)
| TimeoutException        (* selenium.common.exceptions.TimeoutException *)
| WebDriverException.     (* any other selenium failure *)

(** An exception: its class, [e.response.status_code] when the exception
    carries a response, and [str(e)]. *)
Record exn := {
  exn_class_of : exn_class;
  exn_status : option Z;
  exn_msg : string;
}.

Definition plain (msg : string) : exn :=
  {| exn_class_of := PlainException; exn_status := None; exn_msg := msg |}.

Definition raise_of (c : exn_class) (msg : string) : exn :=
  {| exn_class_of := c; exn_status := None; exn_msg := msg |}.

(** [isinstance(e, RequestException)] *)
Definition is_request_exception (e : exn) : bool :=
  match exn_class_of e with
  | RequestException | HTTPError | ProxyError | JSONDecodeError => true
  | _ => false
  end.

(** [isinstance(e, requests.exceptions.ProxyError)] *)
Definition is_proxy_error (e : exn) : bool :=
  match exn_class_of e with ProxyError => true | _ => false end.

(** [isinstance(e, TimeoutException)] *)
Definition is_timeout (e : exn) : bool :=
  match exn_class_of e with TimeoutException => true | _ => false end.

(** The result of a computation that may raise. *)
Inductive res (A : Type) : Type :=
| Ret (a : A)
| Raise (e : exn).
Arguments Ret {A} a.
Arguments Raise {A} e.

(** What [requests] hands back: the status line, and what [.json()]
    gives (a value, or the exception it raises). *)
Record response := {
  status_code : Z;
  reason : string;
  response_url : string;
  json_body : res json;
}.

(** [bool(response)] is [response.ok]: no 4xx or 5xx status. *)
Definition is_error_status (status : Z) : bool :=
  (400 <=? status) && (status <? 600).

(** [response.raise_for_status()] *)
Definition raise_for_status (r : response) : res unit :=
  if (400 <=? status_code r) && (status_code r <? 500) then
    Raise {| exn_class_of := HTTPError; exn_status := Some (status_code r);
             exn_msg := pretty (status_code r) ++ " Client Error: " ++ reason r
                        ++ " for url: " ++ response_url r |}
  else if (500 <=? status_code r) && (status_code r <? 600) then
    Raise {| exn_class_of := HTTPError; exn_status := Some (status_code r);
             exn_msg := pretty (status_code r) ++ " Server Error: " ++ reason r
                        ++ " for url: " ++ response_url r |}
  else Ret tt.

(** What one call of [session.post] or [session.get] does. *)
Inductive http_outcome :=
| HttpRaises (e : exn)
| HttpNone
| HttpResponse (r : response).

End Exn.

Import Exn.

(** ** Operations on Python values that may raise *)

Module PyOps.

Definition res_bind {A B} (r : res A) (k : A → res B) : res B :=
  match r with
  | Ret a => k a
  | Raise e => Raise e
  end.

(** [v[key]] for a string key. *)
Definition getitem (v : json) (key : string) : res json :=
  match v with
  | JObj kv =>
      match list_find (λ p, fst p = key) kv with
      | Some (_, (_, x)) => Ret x
      | None => Raise (raise_of KeyError ("'" ++ key ++ "'"))
      end
  | JStr _ => Raise (raise_of TypeError "string indices must be integers")
  | JList _ => Raise (raise_of TypeError "list indices must be integers or slices, not str")
  | _ => Raise (raise_of TypeError "object is not subscriptable")
  end.

(** [v[0]] *)
Definition getitem_0 (v : json) : res json :=
  match v with
  | JList (x :: _) => Ret x
  | JList [] => Raise (raise_of IndexError "list index out of range")
  | JStr (String c _) => Ret (JStr (String c EmptyString))
  | JStr EmptyString => Raise (raise_of IndexError "string index out of range")
  | JObj _ => Raise (raise_of KeyError "0")
  | _ => Raise (raise_of TypeError "object is not subscriptable")
  end.

(** [v.get(key)] *)
Definition attr_get (v : json) (key : string) : res json :=
  match v with
  | JObj kv =>
      match list_find (λ p, fst p = key) kv with
      | Some (_, (_, x)) => Ret x
      | None => Ret JNull
      end
  | _ => Raise (raise_of AttributeError "object has no attribute 'get'")
  end.

(** [v.get(key, False)] *)
Definition attr_get_false (v : json) (key : string) : res json :=
  match v with
  | JObj kv =>
      match list_find (λ p, fst p = key) kv with
      | Some (_, (_, x)) => Ret x
      | None => Ret (JBool false)
      end
  | _ => Raise (raise_of AttributeError "object has no attribute 'get'")
  end.

(** [key in v] for a string key. *)
Definition contains_key (key : string) (v : json) : res bool :=
  match v with
  | JObj kv => Ret (bool_decide (key ∈ map fst kv))
  | JList l =>
      Ret (existsb (λ x, match x with JStr s => String.eqb s key | _ => false end) l)
  | JStr s => Ret (contains key s)
  | _ => Raise (raise_of TypeError "argument is not iterable")
  end.

(** [len(v)] *)
Definition len (v : json) : res nat :=
  match v with
  | JList l => Ret (length l)
  | JObj kv => Ret (length kv)
  | JStr s => Ret (String.length s)
  | _ => Raise (raise_of TypeError "object has no len()")
  end.

(** The values [for x in v] goes through. *)
Definition iter (v : json) : res (list json) :=
  match v with
  | JList l => Ret l
  | JObj kv => Ret (map (λ p, JStr (fst p)) kv)
  | JStr s => Ret (map (λ c, JStr (String c EmptyString)) (list_ascii_of_string s))
  | _ => Raise (raise_of TypeError "object is not iterable")
  end.

(** [v.strip()] and [v.upper()] *)
Definition str_strip (v : json) : res string :=
  match v with
  | JStr s => Ret (strip s)
  | _ => Raise (raise_of AttributeError "object has no attribute 'strip'")
  end.

(** ["prefix" + v] *)
Definition str_concat (prefix : string) (v : json) : res string :=
  match v with
  | JStr s => Ret (prefix ++ s)
  | _ => Raise (raise_of TypeError "can only concatenate str to str")
  end.

(** [sanitize_filename(v)]: the nine characters that are not allowed in a
    file name (angle brackets, colon, double quote, slash, backslash, bar,
    question mark, star), given by their codes, become an underscore. *)
Definition is_invalid_filename_char (c : ascii) : bool :=
  bool_decide (nat_of_ascii c ∈ [60; 62; 58; 34; 47; 92; 124; 63; 42]%nat).

(** A name without any of those characters. *)
Fixpoint no_invalid_filename_char (s : string) : bool :=
  match s with
  | EmptyString => true
  | String c rest => negb (is_invalid_filename_char c) && no_invalid_filename_char rest
  end.

Fixpoint sanitize (s : string) : string :=
  match s with
  | EmptyString => EmptyString
  | String c rest =>
      String (if is_invalid_filename_char c then underscore else c) (sanitize rest)
  end.

Definition sanitize_filename (v : json) : res string :=
  match v with
  | JStr s => Ret (sanitize s)
  | _ => Raise (raise_of TypeError "expected string or bytes-like object")
  end.

End PyOps.

(** ** The HTML tree and the queries the scripts make on it

    [BeautifulSoup(modal_html, 'html.parser')] turns the markup into a tree;
    the embedding starts from that tree.  An element carries its name, the
    values of its [class] attribute, its other attributes and its children. *)

Module Soup.

Inductive node : Type :=
| Text (s : string)
| Elem (name : string) (classes : list string) (attrs : list (string * string))
       (children : list node).

(** The document itself is the root element. *)
Definition document (children : list node) : node :=
  Elem "[document]" [] [] children.

Definition children_of (n : node) : list node :=
  match n with
  | Text _ => []
  | Elem _ _ _ cs => cs
  end.

(** All strings below a node, in document order. *)
Fixpoint strings (n : node) : list string :=
  match n with
  | Text s => [s]
  | Elem _ _ _ cs => flat_map strings cs
  end.

(** [tag.text] *)
Definition text (n : node) : string :=
  String.concat "" (strings n).

(** [tag.get_text(strip=True)]: every string stripped, the empty ones
    dropped. *)
Definition get_text_strip (n : node) : string :=
  String.concat "" (filter (λ s, s ≠ "") (map strip (strings n))).

(** [tag.string]: the string of a tag with a single child. *)
Fixpoint string_of (n : node) : option string :=
  match n with
  | Text s => Some s
  | Elem _ _ _ cs =>
      match cs with
      | [c] => string_of c
      | _ => None
      end
  end.

Definition has_class (cls : string) (classes : list string) : bool :=
  bool_decide (cls ∈ classes).

(** The elements with class [cls], from [n] down. *)
Fixpoint with_class (cls : string) (n : node) : list node :=
  match n with
  | Text _ => []
  | Elem _ classes _ cs =>
      (if has_class cls classes then [n] else []) ++ flat_map (with_class cls) cs
  end.

(** The elements named [name] that lie below an element with class [cls];
    [inside] tells whether such an ancestor was already met. *)
Fixpoint named_under (cls name : string) (inside : bool) (n : node) : list node :=
  match n with
  | Text _ => []
  | Elem nm classes _ cs =>
      (if inside && String.eqb nm name then [n] else [])
        ++ flat_map (named_under cls name (inside || has_class cls classes)) cs
  end.

(** The elements named [name] from [n] down, each with its parent. *)
Fixpoint named_with_parent (name : string) (parent n : node) : list (node * node) :=
  match n with
  | Text _ => []
  | Elem nm _ _ cs =>
      (if String.eqb nm name then [(parent, n)] else [])
        ++ flat_map (named_with_parent name n) cs
  end.

(** [soup.select_one('.cls')] *)
Definition select_one_class (cls : string) (soup : node) : option node :=
  head (with_class cls soup).

(** [soup.select('.cls name')] and [soup.select_one('.cls name')] *)
Definition select_under (cls name : string) (soup : node) : list node :=
  named_under cls name false soup.

Definition select_one_under (cls name : string) (soup : node) : option node :=
  head (select_under cls name soup).

(** [tag.find_all(name)]: the descendants with that name. *)
Definition find_all (name : string) (n : node) : list node :=
  map snd (flat_map (named_with_parent name n) (children_of n)).

(** [soup.find('b', string=lambda text: text and label in text)], with
    the parent of the tag found. *)
Definition label_matches (label : string) (b : node) : bool :=
  match string_of b with
  | Some t => negb (String.eqb t "") && contains label t
  | None => false
  end.

Definition find_labelled (label : string) (soup : node) : option (node * node) :=
  head (filter (λ pb, label_matches label (snd pb) = true)
               (flat_map (named_with_parent "b" soup) (children_of soup))).




(** [row.get(key, '')] *)
Definition attr_or_empty (key : string) (n : node) : string :=
  match n with
  | Text _ => ""
  | Elem _ _ attrs _ =>
      match list_find (λ kv, fst kv = key) attrs with
      | Some (_, (_, v)) => v
      | None => ""
      end
  end.

End Soup.

(** ** extract_modal_data (the same in every script) *)

Record socio := {
  numero : string;
  nome : string;
  nome_social : string;
  tipo : string;
  cna_link : string;
}.

Record modal_data := {
  firm_name : option string;
  inscricao : option string;
  estado : option string;
  situacao : option string;
  endereco : option string;
  telefones : option string;
  socios : list socio;
}.

(** One labelled field: the text of the parent of the bold label, without
    the label. *)
Definition labelled_field (label : string) (soup : Soup.node) : option string :=
  match Soup.find_labelled label soup with
  | Some (parent, _) => Some (strip (remove_all label (Soup.get_text_strip parent)))
  | None => None
  end.

(** One row of the partner table, if it has at least four cells. *)
Definition socio_of_row (row : Soup.node) : option socio :=
  match Soup.find_all "td" row with
  | c0 :: c1 :: c2 :: c3 :: _ =>
      Some {| numero := Soup.get_text_strip c0;
              nome := Soup.get_text_strip c1;
              nome_social := Soup.get_text_strip c2;
              tipo := Soup.get_text_strip c3;
              cna_link := Soup.attr_or_empty "data-cnalink" row |}
  | _ => None
  end.

(** [extract_modal_data(modal_html)], on the tree of [modal_html]. *)
Definition extract_modal_data (soup : Soup.node) : modal_data :=
  {| firm_name :=
       match Soup.select_one_under "modal-title" "b" soup with
       | Some b => Some (strip (Soup.text b))
       | None => None
       end;
     inscricao := labelled_field "Inscrição:" soup;
     estado := labelled_field "Estado:" soup;
     situacao :=
       match Soup.select_one_class "label" soup with
       | Some l => Some (strip (Soup.text l))
       | None => None
       end;
     endereco := labelled_field "Endereço:" soup;
     telefones := labelled_field "Telefones:" soup;
     socios := omap socio_of_row (Soup.select_under "socContainer" "tr" soup) |}.

(** ** get_modal_data_with_selenium *)

(** What one attempt at rendering a detail page ends in: an exception before
    the modal is visible (no driver, navigation failure, or the
    [TimeoutException] of the wait), an exception while reading the modal
    after the settle delay, or the tree of the modal's markup. *)
Inductive render_outcome :=
| RenderRaises (e : exn)
| ModalUnreadable (e : exn)
| Rendered (modal : Soup.node).

Definition json_of_option (o : option string) : json :=
  match o with
  | Some s => JStr s
  | None => JNull
  end.

Definition json_of_socio (s : socio) : json :=
  JObj [("numero", JStr (numero s)); ("nome", JStr (nome s));
        ("nome_social", JStr (nome_social s)); ("tipo", JStr (tipo s));
        ("cna_link", JStr (cna_link s))].

(** The dictionary [extract_modal_data] returns. *)
Definition json_of_modal_data (m : modal_data) : json :=
  JObj [("firm_name", json_of_option (firm_name m));
        ("inscricao", json_of_option (inscricao m));
        ("estado", json_of_option (estado m));
        ("situacao", json_of_option (situacao m));
        ("endereco", json_of_option (endereco m));
        ("telefones", json_of_option (telefones m));
        ("socios", JList (map json_of_socio (socios m)))].

(** The dictionary returned when the modal was extracted. *)
Definition modal_success (timestamp url : string) (m : modal_data) : json :=
  JObj [("extraction_method", JStr "specific_modal_parser");
        ("content_loaded", JBool true);
        ("timestamp", JStr timestamp);
        ("url", JStr url);
        ("modal_data", json_of_modal_data m);
        ("extraction_success",
          JNum (if truthy (json_of_option (firm_name m)) then 5 else 3))].

(** The dictionary returned when the last attempt failed. *)
Definition modal_failure (timestamp url error : string) : json :=
  JObj [("extraction_method", JStr "specific_modal_parser");
        ("content_loaded", JBool false);
        ("error", JStr error);
        ("timestamp", JStr timestamp);
        ("url", JStr url);
        ("extraction_success", JNum 0)].

(** The settle delay after the modal became visible. *)
Definition SETTLE_DELAY : nat := 3.

(** ** The enrichment pipeline shared by
       request_lawyers_with_society_retry_errorr_with_delay.py and
       request_lawyers_fix_state.py

    The two scripts have the same [make_request_with_retry],
    [process_sociedade_async] and [search_lawyer_with_updates] up to the
    differences gathered in [variant]. *)

Module Pipeline.

(** The environment of one call of [search_lawyer_with_updates]: what the
    n-th construction of a session and the n-th HTTP call do; for the fetch
    task of the i-th partnership, what its render attempts meet, the clock
    readings and whether writing its file fails. *)
Record world := {
  session_failure : nat → option exn;
  http : nat → http_outcome;
  render : nat → nat → render_outcome;
  timestamp : nat → nat → string;
  processed_at : nat → string;
  epoch : nat → Z;
  save_failure : nat → option exn;
}.

(** Counters of the calls made so far, the global [error_log], the
    arguments of [time.sleep], the files written, and the store of records:
    a record is a dictionary object, named by its position in the store. *)
Record state := {
  sessions_built : nat;
  http_calls : nat;
  error_log : list string;
  slept : list nat;
  saved : list (string * json);
  heap : list (gmap string json);
}.

Definition initial (records : list (gmap string json)) : state :=
  {| sessions_built := 0; http_calls := 0; error_log := []; slept := [];
     saved := []; heap := records |}.

(** Computations that read and change the state and may raise. *)
Definition M (A : Type) : Type := state → res A * state.

Definition ret {A} (a : A) : M A := λ st, (Ret a, st).

Definition raise {A} (e : exn) : M A := λ st, (Raise e, st).

Definition lift {A} (r : res A) : M A := λ st, (r, st).

Definition bind {A B} (m : M A) (k : A → M B) : M B :=
  λ st, match m st with
        | (Ret a, st') => k a st'
        | (Raise e, st') => (Raise e, st')
        end.

(** [try: body except Exception as e: handler(e)] *)
Definition try_except {A} (body : M A) (handler : exn → M A) : M A :=
  λ st, match body st with
        | (Ret a, st') => (Ret a, st')
        | (Raise e, st') => handler e st'
        end.

Notation "'let*' x := m 'in' k" := (bind m (λ x, k))
  (at level 10, x name, m at level 100, k at level 200).
Notation "m ;; k" := (bind m (λ _, k))
  (at level 100, k at level 200, right associativity).

(** How one pass through the body of a [for attempt in range(...)] loop
    ends: with a [return], or by going on to the next attempt. *)
Inductive flow (A : Type) : Type :=
| Return (a : A)
| Continue.
Arguments Return {A} a.
Arguments Continue {A}.

Fixpoint for_each_attempt {A} (body : nat → M (flow A)) (after : M A)
    (attempts : list nat) : M A :=
  match attempts with
  | [] => after
  | attempt :: rest =>
      let* f := body attempt in
      match f with
      | Return a => ret a
      | Continue => for_each_attempt body after rest
      end
  end.

(** [time.sleep(seconds)] *)
Definition sleep (seconds : nat) : M unit :=
  λ st, (Ret tt,
         {| sessions_built := sessions_built st; http_calls := http_calls st;
            error_log := error_log st; slept := (slept st ++ [seconds])%list;
            saved := saved st; heap := heap st |}).

(** [error_log.append(msg)] *)
Definition log_error (msg : string) : M unit :=
  λ st, (Ret tt,
         {| sessions_built := sessions_built st; http_calls := http_calls st;
            error_log := (error_log st ++ [msg])%list; slept := slept st;
            saved := saved st; heap := heap st |}).

(** Writing a file. *)
Definition save_file (name : string) (content : json) : M unit :=
  λ st, (Ret tt,
         {| sessions_built := sessions_built st; http_calls := http_calls st;
            error_log := error_log st; slept := slept st;
            saved := (saved st ++ [(name, content)])%list; heap := heap st |}).

Definition set_heap (h : list (gmap string json)) (st : state) : state :=
  {| sessions_built := sessions_built st; http_calls := http_calls st;
     error_log := error_log st; slept := slept st;
     saved := saved st; heap := h |}.

(** [record.copy()]: a new dictionary object with the same items. *)
Definition copy_record (l : nat) : M nat :=
  λ st, (Ret (length (heap st)),
         set_heap (heap st ++ [default ∅ (heap st !! l)])%list st).

(** [record[key] = v] *)
Definition setitem (l : nat) (key : string) (v : json) : M unit :=
  λ st, (Ret tt,
         set_heap (<[l := <[key := v]> (default ∅ (heap st !! l))]> (heap st)) st).

(** [record.get(key)] and [record.get(key, dflt)] *)
Definition record_get (l : nat) (key : string) : M json :=
  λ st, (Ret (dict_get (default ∅ (heap st !! l)) key), st).

Definition record_get_default (l : nat) (key : string) (dflt : json) : M json :=
  λ st, (Ret (dict_get_default (default ∅ (heap st !! l)) key dflt), st).

(** [record[key]] *)
Definition record_getitem (l : nat) (key : string) : M json :=
  λ st, (match default ∅ (heap st !! l) !! key with
         | Some v => Ret v
         | None => Raise (raise_of KeyError ("'" ++ key ++ "'"))
         end, st).

Section World.
Context (w : world).

(** [requests.Session()] with its configuration: [None], or the exception
    it raises. *)
Definition new_session : M (option exn) :=
  λ st, (Ret (session_failure w (sessions_built st)),
         {| sessions_built := S (sessions_built st); http_calls := http_calls st;
            error_log := error_log st; slept := slept st;
            saved := saved st; heap := heap st |}).

(** [session.post(...)] or [session.get(...)] *)
Definition next_http : M http_outcome :=
  λ st, (Ret (http w (http_calls st)),
         {| sessions_built := sessions_built st; http_calls := S (http_calls st);
            error_log := error_log st; slept := slept st;
            saved := saved st; heap := heap st |}).

(** [get_requests_session_with_proxy()]: in the first script a failure to
    build the session is caught and [None] is returned ([guarded]); in
    request_lawyers_fix_state.py the exception goes to the caller.  The
    result tells whether a session was obtained. *)
Definition get_requests_session_with_proxy (guarded : bool) : M bool :=
  let* failure := new_session in
  match failure with
  | None => ret true
  | Some e => if guarded then ret false else raise e
  end.

(** The body of the loop of [make_request_with_retry], with its handler. *)
Definition request_attempt (guarded : bool) (method url : string)
    (max_retries retry_delay attempt : nat) : M (flow response) :=
  try_except
    (let* session := get_requests_session_with_proxy guarded in
     if negb session then
       if (attempt <? max_retries - 1)%nat then sleep retry_delay ;; ret Continue
       else raise (plain "Failed to create session after all retries")
     else if String.eqb (upper method) "POST" || String.eqb (upper method) "GET" then
       let* outcome := next_http in
       match outcome with
       | HttpRaises e => raise e
       | HttpNone =>
           if (attempt <? max_retries - 1)%nat then sleep retry_delay ;; ret Continue
           else raise (plain "Response is None after all retries")
       | HttpResponse r =>
           let* _ := lift (raise_for_status r) in
           ret (Return r)
       end
     else raise (raise_of ValueError ("Unsupported HTTP method: " ++ method)))
    (λ e,
       let error_msg := exn_msg e in
       if (max_retries - 1 <=? attempt)%nat then
         raise (plain ("Request failed after " ++ pretty max_retries
                       ++ " attempts: " ++ error_msg))
       else sleep retry_delay ;; ret Continue).

(** [make_request_with_retry(method, url, max_retries, retry_delay)] *)
Definition make_request_with_retry (guarded : bool) (method url : string)
    (max_retries retry_delay : nat) : M response :=
  for_each_attempt
    (request_attempt guarded method url max_retries retry_delay)
    (raise (plain ("Request failed after " ++ pretty max_retries ++ " attempts")))
    (seq 0 max_retries).

End World.

(** The methods for which [make_request_with_retry] sends a request. *)
Definition supported_method (method : string) : bool :=
  String.eqb (upper method) "POST" || String.eqb (upper method) "GET".

(** *** The fetch tasks and their fan-out *)

(** What one fetch task did: its result (a value or the exception it ended
    with), whether it ended before waiting for the worker pool, and its
    effects. *)
Record task_run := {
  task_result : res json;
  task_early : bool;
  task_log : list string;
  task_saved : list (string * json);
  task_slept : list nat;
}.

(** The order in which pending tasks finish: at each step the environment
    picks one of those still pending. *)
Fixpoint finish_order (pick : nat → nat) (step : nat) (pending : list nat)
    (fuel : nat) : list nat :=
  match fuel with
  | O => []
  | S fuel' =>
      let j := (pick step mod length pending)%nat in
      match pending !! j with
      | Some i => i :: finish_order pick (S step) (delete j pending) fuel'
      | None => []
      end
  end.

(** The effects of a task reach the state when the task ends. *)
Definition apply_task (run : task_run) (st : state) : state :=
  {| sessions_built := sessions_built st; http_calls := http_calls st;
     error_log := (error_log st ++ task_log run)%list;
     slept := (slept st ++ task_slept run)%list;
     saved := (saved st ++ task_saved run)%list;
     heap := heap st |}.

Definition apply_tasks (runs : list task_run) (order : list nat) (st : state) : state :=
  foldl (λ st i, match runs !! i with
                 | Some run => apply_task run st
                 | None => st
                 end) st order.

(** The ranks of the tasks that ended at once, and of those that wait for
    a worker. *)
Definition early_tasks (runs : list task_run) : list nat :=
  filter (λ i, (task_early <$> runs !! i) = Some true) (seq 0 (length runs)).

Definition pending_tasks (runs : list task_run) : list nat :=
  filter (λ i, (task_early <$> runs !! i) ≠ Some true) (seq 0 (length runs)).

(** [await asyncio.gather] of the tasks, with [return_exceptions=True]: the tasks start
    in the order given; those that do not wait end at once, the others in
    the order the environment picks; the results come back in the order of
    the tasks. *)
Definition gather (pick : nat → nat) (runs : list task_run) : M (list (res json)) :=
  λ st,
    let order :=
      (early_tasks runs
       ++ finish_order pick 0 (pending_tasks runs) (length (pending_tasks runs)))%list in
    (Ret (map task_result runs), apply_tasks runs order st).

Section Enrichment.
Context (py_repr : json → string) (w : world).
(** Which of the pending fetch tasks finishes next. *)
Context (schedule : nat → nat).
(** What differs between the two scripts. *)
Context (guarded_session : bool)
        (sets_state : bool)
        (number_key : string)
        (persist_may_raise : bool)
        (get_modal_data_with_selenium :
           (nat → render_outcome) → (nat → string) →
           string → nat → nat → nat → res json * list nat).

Definition ended (early : bool) (slept : list nat) (result : res json)
    (log : list string) (files : list (string * json)) : task_run :=
  {| task_result := result; task_early := early; task_log := log;
     task_saved := files; task_slept := slept |}.

(** The handler of [process_sociedade_async]. *)
Definition sociedade_failed (sociedade : json) (early : bool) (slept : list nat)
    (e : exn) : task_run :=
  match PyOps.getitem sociedade "Insc" with
  | Ret insc_soc =>
      ended early slept (Ret JNull)
        ["Error processing sociedade " ++ str py_repr insc_soc ++ ": " ++ exn_msg e] []
  | Raise e' => ended early slept (Raise e') [] []
  end.

(** The result of a fetch that went through. *)
Definition final_result_of (i : nat) (sociedade state insc lawyer_name : json)
    (final_url : string) (modal_data : json) : res (json * string) :=
  PyOps.res_bind (PyOps.getitem sociedade "Insc") (λ soc_insc,
  PyOps.res_bind (PyOps.getitem sociedade "NomeSoci") (λ soc_nome,
  PyOps.res_bind (PyOps.getitem sociedade "IdtSoci") (λ soc_idt,
  PyOps.res_bind (PyOps.getitem sociedade "SiglUf") (λ soc_uf,
  PyOps.res_bind (PyOps.sanitize_filename soc_insc) (λ clean_insc,
    Ret (JObj [("lawyer_info",
                 JObj [("lawyer_name", lawyer_name);
                       ("lawyer_state", state);
                       (number_key, insc)]);
               ("basic_info",
                 JObj [("Insc", soc_insc); ("NomeSoci", soc_nome);
                       ("IdtSoci", soc_idt); ("SiglUf", soc_uf);
                       ("source_url", JStr final_url)]);
               ("modal_data", modal_data);
               ("processed_at", JStr (processed_at w i))],
         "sociedade_" ++ str py_repr state ++ "_" ++ str py_repr insc ++ "_"
           ++ clean_insc ++ "_" ++ pretty (epoch w i) ++ ".json")))))).

(** [process_sociedade_async(sociedade, state, insc, lawyer_name, executor)],
    for the partnership of rank [i]. *)
Definition process_sociedade_async (i : nat) (sociedade state insc lawyer_name : json)
    : task_run :=
  match PyOps.res_bind (PyOps.getitem sociedade "NomeSoci") (λ _,
        PyOps.res_bind (PyOps.getitem sociedade "Insc") (λ _,
        PyOps.res_bind (PyOps.getitem sociedade "Url")
                       (PyOps.str_concat "https://cna.oab.org.br"))) with
  | Raise e => sociedade_failed sociedade true [] e
  | Ret final_url =>
      let '(fetched, slept) :=
        get_modal_data_with_selenium (render w i) (timestamp w i) final_url 25 4 2 in
      match fetched with
      | Raise e => sociedade_failed sociedade false slept e
      | Ret modal_data =>
          match (if truthy modal_data
                 then PyOps.res_bind (PyOps.attr_get_false modal_data "content_loaded")
                                     (λ loaded, Ret (truthy loaded))
                 else Ret false) with
          | Raise e => sociedade_failed sociedade false slept e
          | Ret false =>
              match PyOps.getitem sociedade "Insc" with
              | Raise e => sociedade_failed sociedade false slept e
              | Ret soc_insc =>
                  ended false slept (Ret JNull)
                    ["Failed to get modal data for sociedade " ++ str py_repr soc_insc
                     ++ " after all retries"] []
              end
          | Ret true =>
              match final_result_of i sociedade state insc lawyer_name final_url modal_data with
              | Raise e => sociedade_failed sociedade false slept e
              | Ret (final_result, filename) =>
                  match save_failure w i with
                  | Some e =>
                      if persist_may_raise then sociedade_failed sociedade false slept e
                      else ended false slept (Ret final_result) [] []
                  | None =>
                      ended false slept (Ret final_result) [] [(filename, final_result)]
                  end
              end
          end
      end
  end.

(** *** search_lawyer_with_updates *)

Definition search_url : string := "https://cna.oab.org.br/Home/Search".

(** The test of the [RequestException] handler:
    [hasattr(e, 'response') and e.response and e.response.status_code in
    [401, 403, 419] or "token" in str(e).lower()].  The truth value of a
    response is [response.ok], which is false for a 4xx or 5xx status. *)
Definition session_expired (e : exn) : bool :=
  match exn_status e with
  | Some status =>
      negb (is_error_status status) && bool_decide (status ∈ [401; 403; 419])
  | None => false
  end
  || contains "token" (lower (exn_msg e)).

(** The stub kept for one partnership. *)
Definition basic_info_of (soc : json) : res json :=
  PyOps.res_bind (PyOps.getitem soc "Insc") (λ soc_insc,
  PyOps.res_bind (PyOps.getitem soc "NomeSoci") (λ soc_nome,
  PyOps.res_bind (PyOps.getitem soc "IdtSoci") (λ soc_idt,
  PyOps.res_bind (PyOps.getitem soc "SiglUf") (λ soc_uf,
  PyOps.res_bind (PyOps.getitem soc "Url") (λ soc_url,
    Ret (JObj [("Insc", soc_insc); ("NomeSoci", soc_nome); ("IdtSoci", soc_idt);
               ("SiglUf", soc_uf); ("Url", soc_url)])))))).

Fixpoint basic_info_all (socs : list json) : res (list json) :=
  match socs with
  | [] => Ret []
  | soc :: rest =>
      PyOps.res_bind (basic_info_of soc) (λ basic_info,
      PyOps.res_bind (basic_info_all rest) (λ others, Ret (basic_info :: others)))
  end.

(** The fields read by the line that is printed for a result that is kept:
    [result['basic_info']['NomeSoci']] and [result['basic_info']['SiglUf']]. *)
Definition result_line (result : json) : res (json * json) :=
  PyOps.res_bind (PyOps.getitem result "basic_info") (λ basic_info,
  PyOps.res_bind (PyOps.getitem basic_info "NomeSoci") (λ soc_nome,
  PyOps.res_bind (PyOps.getitem result "basic_info") (λ basic_info,
  PyOps.res_bind (PyOps.getitem basic_info "SiglUf") (λ soc_uf,
    Ret (soc_nome, soc_uf))))).

(** The loop over the gathered results. *)
Fixpoint process_results (i : nat) (results : list (res json))
    (complete_details : list json) : M (list json) :=
  match results with
  | [] => ret complete_details
  | Raise e :: rest =>
      log_error ("Async error processing sociedade " ++ pretty i ++ ": " ++ exn_msg e) ;;
      process_results (S i) rest complete_details
  | Ret result :: rest =>
      if is_none result then process_results (S i) rest complete_details
      else
        let complete_details := (complete_details ++ [result])%list in
        let* _ := lift (result_line result) in
        process_results (S i) rest complete_details
  end.

(** The block [with concurrent.futures.ThreadPoolExecutor(max_workers=2) as
    executor: ...] of [search_lawyer_with_updates]: one task per
    partnership, the gathering of their results, and the storing of the
    successful ones. *)
Definition gather_sociedades (oab_number estado_correto : json) (enhanced_record : nat)
    (socs : list json) : M unit :=
  let* lawyer_name :=
    (match socs with
     | [] => ret JNull
     | _ =>
         let* corrected := record_get enhanced_record "corrected_full_name" in
         if truthy corrected then ret corrected
         else record_getitem enhanced_record "full_name"
     end) in
  let* sociedades_results :=
    gather schedule
      (imap (λ i sociedade,
               process_sociedade_async i sociedade estado_correto oab_number lawyer_name)
            socs) in
  let* complete_details := process_results 0 sociedades_results [] in
  setitem enhanced_record "society_complete_details" (JList complete_details).

(** One pass through the loop of [search_lawyer_with_updates]. *)
Definition search_attempt (oab_number estado_correto : json) (enhanced_record : nat)
    (max_retries retry_delay attempt : nat) : M (flow (nat * bool)) :=
  try_except
    (let* response := make_request_with_retry w guarded_session "POST" search_url 4 2 in
     let* search_result := lift (json_body response) in
     let* success := lift (PyOps.getitem search_result "Success") in
     let* found :=
       (if truthy success
        then let* data := lift (PyOps.getitem search_result "Data") in ret (truthy data)
        else ret false) in
     if negb found then
       let error_message :=
         "Search failed or no results found for " ++ str py_repr estado_correto
           ++ " " ++ str py_repr oab_number in
       if (attempt <? max_retries - 1)%nat then sleep retry_delay ;; ret Continue
       else log_error error_message ;; ret (Return (enhanced_record, true))
     else
       let* data := lift (PyOps.getitem search_result "Data") in
       let* first := lift (PyOps.getitem_0 data) in
       let* external_name := lift (PyOps.attr_get first "Nome") in
       let* full_name := record_get_default enhanced_record "full_name" (JStr "") in
       let* original_name := lift (PyOps.str_strip full_name) in
       (if truthy external_name then
          let* external_name_clean := lift (PyOps.str_strip external_name) in
          if negb (String.eqb external_name_clean "")
             && negb (String.eqb (upper original_name) (upper external_name_clean))
          then setitem enhanced_record "corrected_full_name" (JStr external_name_clean)
          else ret tt
        else ret tt) ;;
       let* detail_path := lift (PyOps.getitem first "DetailUrl") in
       let* detail_url := lift (PyOps.str_concat "https://cna.oab.org.br" detail_path) in
       setitem enhanced_record "society_link" (JStr detail_url) ;;
       let* detail_response := make_request_with_retry w guarded_session "GET" detail_url 4 2 in
       let* detail_result := lift (json_body detail_response) in
       let* detail_success := lift (PyOps.getitem detail_result "Success") in
       let* has_section :=
         (if truthy detail_success
          then let* detail_data := lift (PyOps.getitem detail_result "Data") in
               lift (PyOps.contains_key "Sociedades" detail_data)
          else ret false) in
       if negb has_section then
         let* _ := record_getitem enhanced_record "full_name" in
         ret (Return (enhanced_record, true))
       else
         let* detail_data := lift (PyOps.getitem detail_result "Data") in
         let* sociedades_data := lift (PyOps.getitem detail_data "Sociedades") in
         let* none_listed :=
           (if is_none sociedades_data then ret true
            else let* n := lift (PyOps.len sociedades_data) in ret (n =? 0)%nat) in
         if none_listed then
           let* _ := record_getitem enhanced_record "full_name" in
           ret (Return (enhanced_record, true))
         else
           setitem enhanced_record "has_society" (JBool true) ;;
           let* socs := lift (PyOps.iter sociedades_data) in
           let* basic_sociedades := lift (basic_info_all socs) in
           setitem enhanced_record "society_basic_details" (JList basic_sociedades) ;;
           gather_sociedades oab_number estado_correto enhanced_record socs ;;
           ret (Return (enhanced_record, true)))
    (λ e,
       if is_request_exception e then
         if session_expired e then ret (Return (enhanced_record, false))
         else if (attempt <? max_retries - 1)%nat then sleep retry_delay ;; ret Continue
         else
           log_error ("Max retries exceeded for " ++ str py_repr estado_correto ++ " "
                      ++ str py_repr oab_number ++ ": " ++ exn_msg e) ;;
           ret (Return (enhanced_record, true))
       else
         if (attempt <? max_retries - 1)%nat then sleep retry_delay ;; ret Continue
         else
           log_error ("Unexpected error for " ++ str py_repr estado_correto ++ " "
                      ++ str py_repr oab_number ++ ": " ++ exn_msg e) ;;
           ret (Return (enhanced_record, true))).

(** [search_lawyer_with_updates(oab_number, estado_correto, cookies, token,
    original_record, max_retries, retry_delay)]: the cookies and the token
    only travel with the requests.  The result is the enriched record and
    the flag that tells whether the session is still valid. *)
Definition search_lawyer_with_updates (oab_number estado_correto cookies token : json)
    (original_record : nat) (max_retries retry_delay : nat) : M (nat * bool) :=
  let* enhanced_record := copy_record original_record in
  setitem enhanced_record "processed" (JBool true) ;;
  setitem enhanced_record "has_society" (JBool false) ;;
  setitem enhanced_record "corrected_full_name" JNull ;;
  setitem enhanced_record "society_link" JNull ;;
  setitem enhanced_record "society_basic_details" (JList []) ;;
  setitem enhanced_record "society_complete_details" (JList []) ;;
  (if sets_state then setitem enhanced_record "state" estado_correto else ret tt) ;;
  for_each_attempt
    (search_attempt oab_number estado_correto enhanced_record max_retries retry_delay)
    (ret (enhanced_record, true))
    (seq 0 max_retries).

End Enrichment.

(** *** Specifications of computations

    [triple I m Q E]: from a state that satisfies [I], the computation [m]
    ends in a state that satisfies [I], with a value that satisfies [Q] or
    with an exception that satisfies [E]. *)
Definition triple {A} (I : state → Prop) (m : M A) (Q : A → Prop) (E : exn → Prop) : Prop :=
  ∀ st, I st →
    match m st with
    | (Ret a, st') => Q a ∧ I st'
    | (Raise e, st') => E e ∧ I st'
    end.

(** An invariant that only looks at the store of records. *)
Definition on_heap (I : state → Prop) : Prop :=
  ∀ st st', heap st' = heap st → I st → I st'.

(** What a pass of a loop must establish for the loop to establish [Q]. *)
Definition flow_post {A} (Q : A → Prop) (f : flow A) : Prop :=
  match f with
  | Return a => Q a
  | Continue => True
  end.

(** An exception that is not a [RequestException]. *)
Definition ordinary (e : exn) : Prop := is_request_exception e = false.

(** The keys [search_lawyer_with_updates] writes inside its loop. *)
Definition loop_keys : list string :=
  ["corrected_full_name"; "society_link"; "has_society";
   "society_basic_details"; "society_complete_details"].

(** What the loop writes under those keys: [has_society] only ever
    becomes [True], the two detail lists only ever become lists. *)
Definition writes (key : string) (v : json) : Prop :=
  key ∈ loop_keys
  ∧ (key = "has_society" → v = JBool true)
  ∧ (key = "society_basic_details" → ∃ l, v = JList l)
  ∧ (key = "society_complete_details" → ∃ l, v = JList l).

(** An exception that the handlers of [search_lawyer_with_updates] do not
    take for an expired session. *)
Definition benign (e : exn) : Prop :=
  is_request_exception e && session_expired e = false.

(** Decoding a response of the environment never raises an exception that
    passes for an expired session. *)
Definition decoding_benign (w : world) : Prop :=
  ∀ n r e, http w n = HttpResponse r → json_body r = Raise e → benign e.

(** The documented enrichment fields. *)
Definition enrichment_fields : list string :=
  ["processed"; "has_society"; "corrected_full_name"; "society_link";
   "society_basic_details"; "society_complete_details"].

(** The store [st] is the store [st0] with one more record, placed after
    the others, which carries the region [estado] and agrees with [record]
    outside the enrichment fields and the region. *)
Definition enriched_from (st0 : state) (record : gmap string json) (estado : json)
    (st : state) : Prop :=
  length (heap st) = S (length (heap st0))
  ∧ (∀ j, (j < length (heap st0))%nat → heap st !! j = heap st0 !! j)
  ∧ ∃ enhanced,
      heap st !! length (heap st0) = Some enhanced
      ∧ enhanced !! "state" = Some estado
      ∧ ∀ key, key ∉ enrichment_fields → key ≠ "state" →
               enhanced !! key = record !! key.

(** The store [st] is the store [st0] with one more record, placed after
    the others, which agrees with [record] outside the enrichment fields. *)
Definition kept_from (st0 : state) (record : gmap string json) (st : state) : Prop :=
  length (heap st) = S (length (heap st0))
  ∧ (∀ j, (j < length (heap st0))%nat → heap st !! j = heap st0 !! j)
  ∧ ∃ enhanced,
      heap st !! length (heap st0) = Some enhanced
      ∧ ∀ key, key ∉ enrichment_fields → enhanced !! key = record !! key.

(** A record that is marked as processed, whose [has_society] is a flag and
    whose detail lists are lists. *)
Definition marked (enhanced : gmap string json) : Prop :=
  enhanced !! "processed" = Some (JBool true)
  ∧ (∃ b, enhanced !! "has_society" = Some (JBool b))
  ∧ (∃ l, enhanced !! "society_basic_details" = Some (JList l))
  ∧ (∃ l, enhanced !! "society_complete_details" = Some (JList l)).

Definition marked_processed (enhanced_record : nat) (st : state) : Prop :=
  ∃ enhanced, heap st !! enhanced_record = Some enhanced ∧ marked enhanced.

(** The record as [search_lawyer_with_updates] sets it up before its loop. *)
Definition initialised (sets_state : bool) (estado_correto : json)
    (record : gmap string json) : gmap string json :=
  let enhanced :=
    <["society_complete_details" := JList []]>
      (<["society_basic_details" := JList []]>
         (<["society_link" := JNull]>
            (<["corrected_full_name" := JNull]>
               (<["has_society" := JBool false]>
                  (<["processed" := JBool true]> record))))) in
  if sets_state then <["state" := estado_correto]> enhanced else enhanced.

(** Every call of the registry fails: it raises, hands back [None], or
    answers with a 4xx or 5xx status. *)
Definition registry_down (w : world) : Prop :=
  ∀ n, match http w n with
       | HttpResponse r => ∃ e, raise_for_status r = Raise e
       | _ => True
       end.

(** The results that are kept by the loop over the gathered results. *)
Definition successful (results : list (res json)) : list json :=
  omap (λ r, match r with
             | Ret v => if is_none v then None else Some v
             | Raise _ => None
             end) results.

(** A gathered result for which the loop over the results can print its
    line: an exception, [None], or a value with the two fields of the line. *)
Definition has_line (r : res json) : Prop :=
  match r with
  | Ret v => is_none v = false → ∃ line, result_line v = Ret line
  | Raise _ => True
  end.

(** The entries that loop adds to the error log. *)
Fixpoint async_errors (i : nat) (results : list (res json)) : list string :=
  match results with
  | [] => []
  | Raise e :: rest =>
      ("Async error processing sociedade " ++ pretty i ++ ": " ++ exn_msg e)
        :: async_errors (S i) rest
  | Ret _ :: rest => async_errors (S i) rest
  end.

End Pipeline.

(** ** checker.py *)

Module Checker.

(** [clean_and_validate_state(state)], applied to a string. *)
Definition clean_and_validate_state (state : string) : option string :=
  if String.eqb state "" then None
  else
    let cleaned := keep_alpha (upper state) in
    let cleaned :=
      if (2 <=? String.length cleaned)%nat then take_chars 2 cleaned else cleaned in
    if bool_decide (cleaned ∈ valid_states) then Some cleaned else None.

Section Repr.
Context (py_repr : json → string).

(** [extract_state_from_oab_id(oab_id)] *)
Definition extract_state_from_oab_id (oab_id : json) : option string :=
  if negb (truthy oab_id) then None
  else
    let parts := split_on underscore (str py_repr oab_id) in
    if (2 <=? length parts)%nat then
      clean_and_validate_state (hd "" parts)
    else None.
End Repr.

End Checker.

(** ** request_lawyers_with_society_retry_errorr_with_delay.py *)

Module RetryDelay.

(** [should_process_record(record)]: no region rule in this script. *)
Definition should_process_record (record : gmap string json) : bool * string :=
  if negb (truthy (dict_get_default record "processed" (JBool false))) then
    (true, "não processado")
  else
    let society_basic := dict_get_default record "society_basic_details" (JList []) in
    let society_complete := dict_get_default record "society_complete_details" (JList []) in
    if truthy (dict_get_default record "has_society" (JBool false))
       && (negb (truthy society_basic) || negb (truthy society_complete))
    then (true, "sociedades incompletas")
    else if is_none (dict_get record "has_society") then
      (true, "status de sociedade não determinado")
    else (false, "completo").

Section Repr.
Context (py_repr : json → string).

(** [clean_state(state)] (the same in oab_scraper_modified.py and
    request_100s.py): [re.sub(r'[^A-Za-z]', '', str(state)).upper()], cut
    to two characters; the code is handed back even when it is not one of
    the 27 (the branch that prints the warning). *)
Definition clean_state (state : json) : json :=
  if negb (truthy state) then state
  else
    let cleaned := upper (keep_alpha (str py_repr state)) in
    let cleaned :=
      if (2 <? String.length cleaned)%nat then take_chars 2 cleaned else cleaned in
    if bool_decide (cleaned ∈ valid_states) then JStr cleaned else JStr cleaned.

(** The first loop of [main]: [if 'state' in record: record['state'] =
    clean_state(record['state'])]. *)
Definition clean_record_state (record : gmap string json) : gmap string json :=
  match record !! "state" with
  | Some original_state => <["state" := clean_state original_state]> record
  | None => record
  end.
End Repr.

Section Render.
(** What the attempts of this call meet, and the clock read when the result
    is built. *)
Context (render : nat → render_outcome) (clock : nat → string).
Context (url : string) (max_retries retry_delay : nat).

(** The loop of [get_modal_data_with_selenium]; [slept] collects the
    arguments of [time.sleep]. *)
Fixpoint modal_loop (attempts : list nat) (slept : list nat) : res json * list nat :=
  match attempts with
  | [] => (Ret JNull, slept)
  | attempt :: rest =>
      let except_timeout (slept : list nat) :=
        let error_msg := "Timeout waiting for modal to appear at " ++ url in
        if (attempt <? max_retries - 1)%nat then
          modal_loop rest (slept ++ [retry_delay])%list
        else (Ret (modal_failure (clock attempt) url error_msg), slept) in
      let except_exception (e : exn) (slept : list nat) :=
        if (attempt <? max_retries - 1)%nat then
          modal_loop rest (slept ++ [retry_delay])%list
        else (Ret (modal_failure (clock attempt) url (exn_msg e)), slept) in
      match render attempt with
      | Rendered modal =>
          let slept := (slept ++ [SETTLE_DELAY])%list in
          let modal_data := extract_modal_data modal in
          if truthy (json_of_modal_data modal_data) then
            (Ret (modal_success (clock attempt) url modal_data), slept)
          else if (attempt <? max_retries - 1)%nat then
            modal_loop rest (slept ++ [retry_delay])%list
          else
            (Ret (modal_failure (clock attempt) url
                    "Failed to extract modal data after all retries"), slept)
      | RenderRaises e =>
          if is_timeout e then except_timeout slept else except_exception e slept
      | ModalUnreadable e =>
          if is_timeout e then except_timeout (slept ++ [SETTLE_DELAY])%list
          else except_exception e (slept ++ [SETTLE_DELAY])%list
      end
  end.

End Render.

(** [get_modal_data_with_selenium(url, max_wait, max_retries, retry_delay)];
    [max_wait] bounds the time an attempt waits for the modal. *)
Definition get_modal_data_with_selenium (render : nat → render_outcome)
    (clock : nat → string) (url : string) (max_wait max_retries retry_delay : nat)
    : res json * list nat :=
  modal_loop render clock url max_retries retry_delay (seq 0 max_retries) [].

Section Enrichment.
Context (py_repr : json → string) (w : Pipeline.world) (schedule : nat → nat).

(** [make_request_with_retry(method, url, max_retries, retry_delay)]: a
    session that cannot be built is reported as [None]. *)
Definition make_request_with_retry : string → string → nat → nat → Pipeline.M response :=
  Pipeline.make_request_with_retry w true.

(** [process_sociedade_async]: the lawyer's number is kept under
    [lawyer_insc], and a failure to write the file ends the task. *)
Definition process_sociedade_async : nat → json → json → json → json → Pipeline.task_run :=
  Pipeline.process_sociedade_async py_repr w "lawyer_insc" true
    get_modal_data_with_selenium.

(** [search_lawyer_with_updates(insc, state, cookies, token,
    original_record, max_retries, retry_delay)]: the stored region is left
    alone. *)
Definition search_lawyer_with_updates
  : json → json → json → json → nat → nat → nat → Pipeline.M (nat * bool) :=
  Pipeline.search_lawyer_with_updates py_repr w schedule true false "lawyer_insc" true
    get_modal_data_with_selenium.
End Enrichment.

End RetryDelay.

(** ** request_lawyers_fix_state.py *)

Module FixState.

Section Repr.
Context (py_repr : json → string).

(** [extract_state_from_oab_id(oab_id)]: this script accepts any
    two-letter left segment. *)
Definition extract_state_from_oab_id (oab_id : json) : option string :=
  if negb (truthy oab_id) then None
  else
    let parts := split_on underscore (str py_repr oab_id) in
    if (2 <=? length parts)%nat then
      let estado_correto := upper (hd "" parts) in
      if (String.length estado_correto =? 2)%nat && isalpha estado_correto
      then Some estado_correto
      else None
    else None.

(** The reason strings of [should_process_record]. *)
Definition reason_state_mismatch (current_state : json) (estado_correto : string) : string :=
  "estado inconsistente: " ++ str py_repr current_state ++ " != "
    ++ estado_correto ++ " (de oab_id)".

(** [should_process_record(record)] *)
Definition should_process_record (record : gmap string json) : bool * string :=
  let oab_id := dict_get record "oab_id" in
  let current_state := dict_get record "state" in
  let mismatch :=
    if truthy oab_id then
      match extract_state_from_oab_id oab_id with
      | Some estado_correto =>
          if negb (String.eqb estado_correto "") && ne_str current_state estado_correto
          then Some estado_correto else None
      | None => None
      end
    else None in
  match mismatch with
  | Some estado_correto => (true, reason_state_mismatch current_state estado_correto)
  | None =>
      if negb (truthy (dict_get_default record "processed" (JBool false))) then
        (true, "não processado")
      else
        let society_basic := dict_get_default record "society_basic_details" (JList []) in
        let society_complete := dict_get_default record "society_complete_details" (JList []) in
        if truthy (dict_get_default record "has_society" (JBool false))
           && (negb (truthy society_basic) || negb (truthy society_complete))
        then (true, "sociedades incompletas")
        else if is_none (dict_get record "has_society") then
          (true, "status de sociedade não determinado")
        else (false, "completo")
  end.
End Repr.

(** [clean_inconsistent_data(record)]: works on a copy, which it returns. *)
Definition clean_inconsistent_data (record : gmap string json) : gmap string json :=
  let cleaned_record := record in
  let cleaned_record := <["processed" := JBool false]> cleaned_record in
  let cleaned_record := <["has_society" := JBool false]> cleaned_record in
  let cleaned_record := delete "corrected_full_name" cleaned_record in
  let cleaned_record := delete "society_link" cleaned_record in
  let cleaned_record := delete "society_basic_details" cleaned_record in
  let cleaned_record := delete "society_complete_details" cleaned_record in
  cleaned_record.

Section Render.
Context (render : nat → render_outcome) (clock : nat → string).
Context (url : string) (max_retries retry_delay : nat).

(** The loop of [get_modal_data_with_selenium] in this script: the only
    handler is the one for [TimeoutException], and on the last attempt it
    builds its result from [str(e)] although no [e] is bound. *)
Fixpoint modal_loop (attempts : list nat) (slept : list nat) : res json * list nat :=
  match attempts with
  | [] => (Ret JNull, slept)
  | attempt :: rest =>
      let except_timeout (slept : list nat) :=
        if (attempt <? max_retries - 1)%nat then
          modal_loop rest (slept ++ [retry_delay])%list
        else (Raise (raise_of NameError "name 'e' is not defined"), slept) in
      match render attempt with
      | Rendered modal =>
          let slept := (slept ++ [SETTLE_DELAY])%list in
          let modal_data := extract_modal_data modal in
          if truthy (json_of_modal_data modal_data) then
            (Ret (modal_success (clock attempt) url modal_data), slept)
          else if (attempt <? max_retries - 1)%nat then
            modal_loop rest (slept ++ [retry_delay])%list
          else
            (Ret (modal_failure (clock attempt) url
                    "Failed to extract modal data after all retries"), slept)
      | RenderRaises e =>
          if is_timeout e then except_timeout slept else (Raise e, slept)
      | ModalUnreadable e =>
          if is_timeout e then except_timeout (slept ++ [SETTLE_DELAY])%list
          else (Raise e, (slept ++ [SETTLE_DELAY])%list)
      end
  end.

End Render.

(** [get_modal_data_with_selenium(url, max_wait, max_retries, retry_delay)];
    [max_wait] bounds the time an attempt waits for the modal. *)
Definition get_modal_data_with_selenium (render : nat → render_outcome)
    (clock : nat → string) (url : string) (max_wait max_retries retry_delay : nat)
    : res json * list nat :=
  modal_loop render clock url max_retries retry_delay (seq 0 max_retries) [].

Section Enrichment.
Context (py_repr : json → string) (w : Pipeline.world) (schedule : nat → nat).

(** [make_request_with_retry(method, url, max_retries, retry_delay)]: a
    failure to build the session is an exception like any other. *)
Definition make_request_with_retry : string → string → nat → nat → Pipeline.M response :=
  Pipeline.make_request_with_retry w false.

(** [process_sociedade_async]: the lawyer's number is kept under
    [lawyer_oab_number], and a failure to store the file is only printed. *)
Definition process_sociedade_async : nat → json → json → json → json → Pipeline.task_run :=
  Pipeline.process_sociedade_async py_repr w "lawyer_oab_number" false
    get_modal_data_with_selenium.

(** [search_lawyer_with_updates(oab_number, estado_correto, cookies, token,
    original_record, max_retries, retry_delay)]: the stored region is
    overwritten with [estado_correto]. *)
Definition search_lawyer_with_updates
  : json → json → json → json → nat → nat → nat → Pipeline.M (nat * bool) :=
  Pipeline.search_lawyer_with_updates py_repr w schedule false true "lawyer_oab_number" false
    get_modal_data_with_selenium.
End Enrichment.

End FixState.

(** ** oab_scraper_modified.py: the managed session and the retry loop *)

Module Scraper.

Definition MAX_REQUESTS_PER_SESSION : nat := 100.

(** A session object is identified by the rank of its construction: two
    objects built by different calls of [requests.Session()] are distinct. *)
Definition session := nat.

(** What the session manager does to the outside. *)
Inductive event :=
| Created (s : session)       (* a new session was built and configured *)
| Closed (s : session)        (* s.close() *)
| Invalidated                 (* the handler reset the cell to (None, 0) *)
| Slept (seconds : nat)       (* time.sleep(seconds) *)
| Requested (s : session).    (* s.post(...) or s.get(...) *)

(** The module-level variables, and the history of effects. *)
Record state := {
  global_requests_session : option session;
  requests_session_use_count : nat;
  sessions_built : nat;
  http_calls : nat;
  error_log : list string;
  trace : list event;
}.

(** The environment: whether the n-th construction of a session (with its
    configuration and the probe of the egress address, which only feeds the
    log) goes through, and what the n-th HTTP call does. *)
Record world := {
  session_creation : nat → bool;
  http : nat → http_outcome;
}.

Definition empty_cell : state :=
  {| global_requests_session := None; requests_session_use_count := 0;
     sessions_built := 0; http_calls := 0; error_log := []; trace := [] |}.

Definition set_cell (o : option session) (n : nat) (st : state) : state :=
  {| global_requests_session := o; requests_session_use_count := n;
     sessions_built := sessions_built st; http_calls := http_calls st;
     error_log := error_log st; trace := trace st |}.

Definition emit (ev : event) (st : state) : state :=
  {| global_requests_session := global_requests_session st;
     requests_session_use_count := requests_session_use_count st;
     sessions_built := sessions_built st; http_calls := http_calls st;
     error_log := error_log st; trace := trace st ++ [ev] |}.

Definition log_error (msg : string) (st : state) : state :=
  {| global_requests_session := global_requests_session st;
     requests_session_use_count := requests_session_use_count st;
     sessions_built := sessions_built st; http_calls := http_calls st;
     error_log := error_log st ++ [msg]; trace := trace st |}.

Definition count_construction (st : state) : state :=
  {| global_requests_session := global_requests_session st;
     requests_session_use_count := requests_session_use_count st;
     sessions_built := S (sessions_built st); http_calls := http_calls st;
     error_log := error_log st; trace := trace st |}.

Definition count_http_call (st : state) : state :=
  {| global_requests_session := global_requests_session st;
     requests_session_use_count := requests_session_use_count st;
     sessions_built := sessions_built st; http_calls := S (http_calls st);
     error_log := error_log st; trace := trace st |}.

(** [if global_requests_session: global_requests_session.close()], errors
    of [close] swallowed. *)
Definition close_current (st : state) : state :=
  match global_requests_session st with
  | Some s => emit (Closed s) st
  | None => st
  end.

Section World.
Context (w : world).

(** [get_requests_session_with_proxy_managed()] *)
Definition get_requests_session_with_proxy_managed (st : state) : option session * state :=
  if bool_decide (global_requests_session st = None)
     || (MAX_REQUESTS_PER_SESSION <=? requests_session_use_count st)%nat
  then
    let st := close_current st in
    let fresh := sessions_built st in
    let st := count_construction st in
    if session_creation w fresh then
      let st := emit (Created fresh) (set_cell (Some fresh) 0 st) in
      let st := set_cell (global_requests_session st)
                         (requests_session_use_count st + 1) st in
      (global_requests_session st, st)
    else
      (None, set_cell None 0 st)
  else
    let st := set_cell (global_requests_session st)
                       (requests_session_use_count st + 1) st in
    (global_requests_session st, st).

(** The reset both handlers of [make_request_with_retry] perform. *)
Definition force_new_session (st : state) : state :=
  emit Invalidated (set_cell None 0 (close_current st)).

(** How one pass through the [try] block of the retry loop ends. *)
Inductive attempt_end :=
| Returns (r : response)
| Continues
| Raises (e : exn).

(** The [try] block of [make_request_with_retry]. *)
Definition try_request (method url : string) (max_retries retry_delay attempt : nat)
    (st : state) : attempt_end * state :=
  let '(session, st) := get_requests_session_with_proxy_managed st in
  match session with
  | None =>
      if (attempt <? max_retries - 1)%nat then (Continues, emit (Slept retry_delay) st)
      else (Raises (plain "Failed to get requests session after all retries"), st)
  | Some s =>
      if String.eqb (upper method) "POST" || String.eqb (upper method) "GET" then
        let outcome := http w (http_calls st) in
        let st := emit (Requested s) (count_http_call st) in
        match outcome with
        | HttpRaises e => (Raises e, st)
        | HttpNone =>
            if (attempt <? max_retries - 1)%nat then (Continues, emit (Slept retry_delay) st)
            else (Raises (plain "Response is None after all retries"), st)
        | HttpResponse r =>
            match raise_for_status r with
            | Raise e => (Raises e, st)
            | Ret _ => (Returns r, st)
            end
        end
      else (Raises (raise_of ValueError ("Unsupported HTTP method: " ++ method)), st)
  end.

(** The loop [for attempt in range(max_retries)], on the attempts that
    remain. *)
Fixpoint retry_loop (method url : string) (max_retries retry_delay : nat)
    (attempts : list nat) (st : state) : res response * state :=
  match attempts with
  | [] =>
      (Raise (plain ("Request failed after " ++ pretty max_retries ++ " attempts")), st)
  | attempt :: rest =>
      match try_request method url max_retries retry_delay attempt st with
      | (Returns r, st) => (Ret r, st)
      | (Continues, st) => retry_loop method url max_retries retry_delay rest st
      | (Raises e, st) =>
          let error_msg :=
            if is_proxy_error e then "ProxyError na URL " ++ url ++ ": " ++ exn_msg e
            else exn_msg e in
          let st := log_error error_msg st in
          let st := force_new_session st in
          if (max_retries - 1 <=? attempt)%nat then
            (Raise (plain ("Request failed after " ++ pretty max_retries
                           ++ " attempts: " ++ error_msg)), st)
          else
            retry_loop method url max_retries retry_delay rest
              (emit (Slept retry_delay) st)
      end
  end.

(** [make_request_with_retry(method, url, max_retries, retry_delay)] *)
Definition make_request_with_retry (method url : string)
    (max_retries retry_delay : nat) (st : state) : res response * state :=
  retry_loop method url max_retries retry_delay (seq 0 max_retries) st.
End World.

(** Counting in a history. *)
Definition is_invalidation (ev : event) : bool :=
  match ev with Invalidated => true | _ => false end.

Definition is_sleep_of (seconds : nat) (ev : event) : bool :=
  match ev with Slept d => (d =? seconds)%nat | _ => false end.

Definition is_sleep (ev : event) : bool :=
  match ev with Slept _ => true | _ => false end.

Definition is_request (ev : event) : bool :=
  match ev with Requested _ => true | _ => false end.

Definition count (p : event → bool) (t : list event) : nat :=
  length (filter (λ ev, p ev = true) t).

(** An attempt fails by raising when the call raises or the response has
    an error status; it also fails when the call hands back [None]. *)
Definition outcome_raises (o : http_outcome) : bool :=
  match o with
  | HttpRaises _ => true
  | HttpNone => false
  | HttpResponse r => match raise_for_status r with Raise _ => true | Ret _ => false end
  end.

Definition outcome_fails (o : http_outcome) : bool :=
  match o with
  | HttpNone => true
  | _ => outcome_raises o
  end.

(** The error text of a failed attempt, as the handlers build it. *)
Definition failure_text (url : string) (o : http_outcome) : string :=
  match o with
  | HttpRaises e =>
      if is_proxy_error e then "ProxyError na URL " ++ url ++ ": " ++ exn_msg e
      else exn_msg e
  | HttpNone => "Response is None after all retries"
  | HttpResponse r =>
      match raise_for_status r with Raise e => exn_msg e | Ret _ => "" end
  end.

(** Among the [k] HTTP calls from rank [from] on, those that fail by
    raising. *)
Definition raising_failures (w : world) (from k : nat) : nat :=
  length (filter (λ i, outcome_raises (http w i) = true) (seq from k)).

(** What the rest of the program does with the cell: it asks for a session,
    or (in the handlers of the retry loop) it forces a new one. *)
Inductive client_step := Acquire | ForceNew.

(** A sequence of such steps, with what each acquisition returned. *)
Fixpoint run_steps (w : world) (steps : list client_step) (st : state)
  : list (option session) * state :=
  match steps with
  | [] => ([], st)
  | Acquire :: rest =>
      let '(r, st) := get_requests_session_with_proxy_managed w st in
      let '(rs, st) := run_steps w rest st in
      (r :: rs, st)
  | ForceNew :: rest => run_steps w rest (force_new_session st)
  end.

(** How many times a session object was handed out. *)
Definition times_returned (s : session) (returned : list (option session)) : nat :=
  length (filter (λ r, r = Some s) returned).

(** The methods the retry loop issues a request for. *)
Definition supported (method : string) : Prop :=
  String.eqb (upper method) "POST" || String.eqb (upper method) "GET" = true.

(** The invariant behind the budget: every session handed out so far was
    built before, none was handed out more than 100 times, and the counter
    of the current session is the number of times it was handed out. *)
Definition cell_invariant (st : state) (returned : list (option session)) : Prop :=
  (∀ s, Some s ∈ returned → (s < sessions_built st)%nat)
  ∧ (∀ s, (times_returned s returned <= MAX_REQUESTS_PER_SESSION)%nat)
  ∧ (∀ s, global_requests_session st = Some s →
          (s < sessions_built st)%nat
          ∧ times_returned s returned = requests_session_use_count st).

End Scraper.

(** ** Storing results: upload_to_s3, save_to_s3_and_local_backup and
       save_enhanced_lawyers_to_file (request_lawyers_fix_state.py,
       oab_scraper_modified.py and request_100s.py have the same three) *)

Module Storage.

(** What reaches the bucket and the disk.  A failed writing leaves the
    file in a state the scripts do not look at. *)
Inductive event :=
| Put (key body : string)          (* s3_client.put_object(Key=key, Body=body) *)
| PutFailed (key : string)
| Wrote (name content : string)    (* with open(name, 'w') as f: ... *)
| WriteFailed (name : string).

(** The environment: whether the n-th upload and the n-th writing of a
    local file go through. *)
Record world := {
  put_object : nat → option exn;
  write_file : nat → option exn;
}.

Record state := {
  puts : nat;
  writes : nat;
  trace : list event;
}.

Definition initial : state := {| puts := 0; writes := 0; trace := [] |}.

Section Store.
(** [AWS_BUCKET]; [json.dumps(data, ensure_ascii=False, indent=2)], the text
    that [json.dump] writes as well; [str(data)] for other values. *)
Context (AWS_BUCKET : string) (dumps : json → string) (py_repr : json → string).
Context (w : world).

(** [isinstance(data, (dict, list))] *)
Definition is_container (data : json) : bool :=
  match data with
  | JObj _ | JList _ => true
  | _ => false
  end.

Definition content_of (data : json) : string :=
  if is_container data then dumps data else str py_repr data.

(** [upload_to_s3(data, key, content_type)]: any failure gives [None]. *)
Definition upload_to_s3 (data : json) (key : string) (st : state)
    : option string * state :=
  let content := content_of data in
  match put_object w (puts st) with
  | None =>
      (Some ("s3://" ++ AWS_BUCKET ++ "/" ++ key),
       {| puts := S (puts st); writes := writes st;
          trace := trace st ++ [Put key content] |})
  | Some _ =>
      (None,
       {| puts := S (puts st); writes := writes st;
          trace := trace st ++ [PutFailed key] |})
  end.

(** [with open(name, 'w', encoding='utf-8') as f:] followed by the writing
    of the data; the result tells whether an exception was raised. *)
Definition write_local (name : string) (data : json) (st : state) : option exn * state :=
  match write_file w (writes st) with
  | None =>
      (None, {| puts := puts st; writes := S (writes st);
                trace := trace st ++ [Wrote name (content_of data)] |})
  | Some e =>
      (Some e, {| puts := puts st; writes := S (writes st);
                  trace := trace st ++ [WriteFailed name] |})
  end.

(** [save_to_s3_and_local_backup(data, filename, content_type)] *)
Definition save_to_s3_and_local_backup (data : json) (filename : string) (st : state)
    : option string * state :=
  let s3_key := "oab_data/" ++ filename in
  let '(s3_url, st) := upload_to_s3 data s3_key st in
  match s3_url with
  | Some url =>
      if negb (String.eqb url "") then
        (* the backup; its failure is only printed *)
        let '(_, st) := write_local filename data st in
        (Some url, st)
      else
        match write_local filename data st with
        | (None, st) => (Some filename, st)
        | (Some _, st) =>
            match write_local ("emergency_" ++ filename) data st with
            | (None, st) => (Some ("emergency_" ++ filename), st)
            | (Some _, st) => (None, st)
            end
        end
  | None =>
      match write_local filename data st with
      | (None, st) => (Some filename, st)
      | (Some _, st) =>
          match write_local ("emergency_" ++ filename) data st with
          | (None, st) => (Some ("emergency_" ++ filename), st)
          | (Some _, st) => (None, st)
          end
      end
  end.

(** [f"{batch_num:03d}"] for a natural number. *)
Definition pad3 (n : nat) : string :=
  let digits := pretty n in
  String.concat "" (replicate (3 - String.length digits) "0") ++ digits.

(** [save_enhanced_lawyers_to_file(enhanced_lawyers_list, batch_name,
    batch_num, emergency)]; [batch_base] is
    [os.path.splitext(os.path.basename(batch_name))[0]] and [now] is
    [time.strftime('%Y%m%d_%H%M%S')]. *)
Definition save_enhanced_lawyers_to_file (batch_base now : string)
    (enhanced_lawyers_list : list json) (batch_num : option nat) (emergency : bool)
    (st : state) : option string * state :=
  if bool_decide (enhanced_lawyers_list = []) then (None, st)
  else
    let filename :=
      if emergency then
        "lawyers_enhanced_" ++ batch_base ++ "_EMERGENCY_" ++ now ++ ".json"
      else
        match batch_num with
        | Some n =>
            "lawyers_enhanced_" ++ batch_base ++ "_part_" ++ pad3 n ++ "_" ++ now ++ ".json"
        | None => "lawyers_enhanced_" ++ batch_base ++ "_FINAL_" ++ now ++ ".json"
        end in
    let '(s3_url, st) :=
      save_to_s3_and_local_backup (JList enhanced_lawyers_list) filename st in
    match s3_url with
    | Some url => if negb (String.eqb url "") then (Some url, st) else (Some filename, st)
    | None => (Some filename, st)
    end.

End Store.

(** The data is held under [location]: in the bucket, or in a local file. *)
Definition holds (bucket_name : string) (t : list event) (location content : string) : Prop :=
  (∃ key, location = "s3://" ++ bucket_name ++ "/" ++ key ∧ Put key content ∈ t)
  ∨ Wrote location content ∈ t.

(** Nothing was stored. *)
Definition nothing_stored (t : list event) : Prop :=
  ∀ ev, ev ∈ t → match ev with Put _ _ | Wrote _ _ => False | _ => True end.

End Storage.

(** ** checker.py: verify_lawyer_data *)

Module CheckerReport.

(** The counter and the four lists that [verify_lawyer_data] fills. *)
Record report := {
  issues_found : nat;
  state_inconsistent : list json;
  missing_oab_id : list json;
  not_processed : list json;
  incomplete_societies : list json;
}.

Definition empty_report : report :=
  {| issues_found := 0; state_inconsistent := []; missing_oab_id := [];
     not_processed := []; incomplete_societies := [] |}.

Section Repr.
Context (py_repr : json → string).

(** [clean_and_validate_state(state)] on any value: [if not state: return
    None], then the cleaning of [str(state)]. *)
Definition clean_and_validate_state (state : json) : option string :=
  if negb (truthy state) then None
  else Checker.clean_and_validate_state (str py_repr state).

(** The first check of the loop: the region. *)
Definition check_state (lawyer_id full_name oab_id current_state : json) (r : report)
    : report :=
  if truthy oab_id then
    match Checker.extract_state_from_oab_id py_repr oab_id,
          clean_and_validate_state current_state with
    | Some estado_correto, Some current_state_clean =>
        if negb (String.eqb current_state_clean estado_correto) then
          {| issues_found := S (issues_found r);
             state_inconsistent :=
               state_inconsistent r
               ++ [JObj [("id", lawyer_id); ("name", full_name); ("oab_id", oab_id);
                         ("current_state", current_state);
                         ("current_state_clean", JStr current_state_clean);
                         ("correct_state", JStr estado_correto)]];
             missing_oab_id := missing_oab_id r;
             not_processed := not_processed r;
             incomplete_societies := incomplete_societies r |}
        else r
    | Some estado_correto, None =>
        {| issues_found := S (issues_found r);
           state_inconsistent :=
             state_inconsistent r
             ++ [JObj [("id", lawyer_id); ("name", full_name); ("oab_id", oab_id);
                       ("current_state", current_state);
                       ("current_state_clean", JStr "INVÁLIDO");
                       ("correct_state", JStr estado_correto)]];
           missing_oab_id := missing_oab_id r;
           not_processed := not_processed r;
           incomplete_societies := incomplete_societies r |}
    | None, _ => r
    end
  else
    {| issues_found := S (issues_found r);
       state_inconsistent := state_inconsistent r;
       missing_oab_id :=
         missing_oab_id r
         ++ [JObj [("id", lawyer_id); ("name", full_name); ("state", current_state)]];
       not_processed := not_processed r;
       incomplete_societies := incomplete_societies r |}.

(** The second check: the [processed] flag. *)
Definition check_processed (lawyer : gmap string json)
    (lawyer_id full_name oab_id current_state : json) (r : report) : report :=
  if negb (truthy (dict_get_default lawyer "processed" (JBool false))) then
    {| issues_found := S (issues_found r);
       state_inconsistent := state_inconsistent r;
       missing_oab_id := missing_oab_id r;
       not_processed :=
         not_processed r
         ++ [JObj [("id", lawyer_id); ("name", full_name); ("state", current_state);
                   ("oab_id", oab_id)]];
       incomplete_societies := incomplete_societies r |}
  else r.

(** The third check: the partnership lists; [len] is taken of both. *)
Definition check_societies (lawyer : gmap string json)
    (lawyer_id full_name oab_id current_state : json) (r : report) : res report :=
  if truthy (dict_get_default lawyer "has_society" (JBool false)) then
    let society_basic := dict_get_default lawyer "society_basic_details" (JList []) in
    let society_complete := dict_get_default lawyer "society_complete_details" (JList []) in
    if negb (truthy society_basic) || negb (truthy society_complete) then
      PyOps.res_bind (PyOps.len society_basic) (λ basic_count,
      PyOps.res_bind (PyOps.len society_complete) (λ complete_count,
        Ret {| issues_found := S (issues_found r);
               state_inconsistent := state_inconsistent r;
               missing_oab_id := missing_oab_id r;
               not_processed := not_processed r;
               incomplete_societies :=
                 incomplete_societies r
                 ++ [JObj [("id", lawyer_id); ("name", full_name);
                           ("state", current_state); ("oab_id", oab_id);
                           ("has_basic", JBool (0 <? basic_count)%nat);
                           ("has_complete", JBool (0 <? complete_count)%nat);
                           ("basic_count", JNum (Z.of_nat basic_count));
                           ("complete_count", JNum (Z.of_nat complete_count))]] |}))
    else Ret r
  else Ret r.

(** One pass of the loop [for i, lawyer in enumerate(lawyers_data)]. *)
Definition verify_lawyer (i : nat) (lawyer : gmap string json) (r : report) : res report :=
  let lawyer_id := dict_get_default lawyer "id" (JStr ("Index_" ++ pretty i)) in
  let full_name := dict_get_default lawyer "full_name" (JStr "Nome_Desconhecido") in
  let oab_id := dict_get lawyer "oab_id" in
  let current_state := dict_get lawyer "state" in
  let r := check_state lawyer_id full_name oab_id current_state r in
  let r := check_processed lawyer lawyer_id full_name oab_id current_state r in
  check_societies lawyer lawyer_id full_name oab_id current_state r.

Fixpoint verify_from (i : nat) (lawyers_data : list (gmap string json)) (r : report)
    : res report :=
  match lawyers_data with
  | [] => Ret r
  | lawyer :: rest =>
      PyOps.res_bind (verify_lawyer i lawyer r) (verify_from (S i) rest)
  end.

(** [verify_lawyer_data(filename)], from the records of the file on: the
    counter and the lists as they stand when the report is printed. *)
Definition verify_lawyer_data (lawyers_data : list (gmap string json)) : res report :=
  verify_from 0 lawyers_data empty_report.

End Repr.

(** A value [len] accepts. *)
Definition sized (v : json) : bool :=
  match v with
  | JList _ | JObj _ | JStr _ => true
  | _ => false
  end.

(** The partnership lists of a record, where present, can be measured. *)
Definition measurable (lawyer : gmap string json) : Prop :=
  (∀ v, lawyer !! "society_basic_details" = Some v → sized v = true)
  ∧ (∀ v, lawyer !! "society_complete_details" = Some v → sized v = true).

(** The counter is the sum of the lengths of the lists; a record adds at
    most one entry to the first two lists together, and to each other. *)
Definition counted (r : report) (n : nat) : Prop :=
  issues_found r
  = (length (state_inconsistent r) + length (missing_oab_id r)
     + length (not_processed r) + length (incomplete_societies r))%nat
  ∧ (length (state_inconsistent r) + length (missing_oab_id r) <= n)%nat
  ∧ (length (not_processed r) <= n)%nat
  ∧ (length (incomplete_societies r) <= n)%nat.

End CheckerReport.

(** ** The life cycle of the sessions in a history of oab_scraper_modified.py *)

Module Sessions.
Import Scraper.

(** The sessions that are open and those that were closed, after a
    history; [None] when the history breaks the life cycle: a session
    created twice, a session closed that is not open, or a request sent on
    a session that is not open. *)
Definition step (acc : option (list session * list session)) (ev : event)
    : option (list session * list session) :=
  match acc with
  | None => None
  | Some (opened, closed) =>
      match ev with
      | Created s =>
          if bool_decide (s ∈ opened) || bool_decide (s ∈ closed) then None
          else Some (s :: opened, closed)
      | Closed s =>
          if bool_decide (s ∈ opened)
          then Some (filter (λ o, o ≠ s) opened, s :: closed)
          else None
      | Requested s => if bool_decide (s ∈ opened) then acc else None
      | _ => acc
      end
  end.

Definition lifecycle (t : list event) : option (list session * list session) :=
  foldl step (Some ([], [])) t.

(** The history respects the life cycle, the only session that is open is
    the current one, and every session met so far was built. *)
Definition tidy (st : state) : Prop :=
  ∃ closed,
    lifecycle (trace st) = Some (option_list (global_requests_session st), closed)
    ∧ (∀ s, global_requests_session st = Some s → (s < sessions_built st)%nat)
    ∧ (∀ s, s ∈ closed → (s < sessions_built st)%nat).

End Sessions.

(** ** White space outside the ASCII range *)

Module WideSpace.

(** The characters outside the ASCII range for which [str.isspace] holds,
    and which [str.strip] and [get_text(strip=True)] therefore remove, by
    code point: U+0085, U+00A0, U+1680, U+2000 to U+200A, U+2028, U+2029,
    U+202F, U+205F and U+3000. *)
Definition code_points : list N :=
  ([133; 160; 5760] ++ map (λ k, 8192 + N.of_nat k) (seq 0 11)
   ++ [8232; 8233; 8239; 8287; 12288])%N%list.

(** The UTF-8 encoding of a code point below U+10000. *)
Definition utf8 (cp : N) : string :=
  if (cp <? 128)%N then String (ascii_of_N cp) ""
  else if (cp <? 2048)%N then
    String (ascii_of_N (192 + cp / 64))
      (String (ascii_of_N (128 + cp mod 64)) "")
  else
    String (ascii_of_N (224 + cp / 4096))
      (String (ascii_of_N (128 + (cp / 64) mod 64))
         (String (ascii_of_N (128 + cp mod 64)) "")).

Definition encodings : list string := map utf8 code_points.

(** None of these characters occurs in [s]: on such a string [strip],
    [lstrip] and [rstrip] remove what Python removes. *)
Definition free (s : string) : bool :=
  forallb (λ e, negb (contains e s)) encodings.

End WideSpace.

(** ** get_initial_cookies (the same in the four scripts that scrape) *)

Module Cookies.

(** What one attempt meets.  [get_driver_with_proxy] raises when neither
    constructor hands over a browser; the page fails to load (an exception of
    [driver.get] or of the wait for the body); after the settle delay,
    reading the cookies or looking for the token raises something other
    than the [TimeoutException] of the wait for the token; the token
    element is found, with what [get_attribute("value")] gives; or the wait
    for the token times out and the page source is searched, which yields
    the [value] of the input found ([None] without such an input or
    attribute). *)
Inductive attempt_outcome :=
| NoDriver (e : exn)
| PageFails (e : exn)
| ReadFails (e : exn)
| TokenElement (cookie_dict : json) (value : json)
| TokenTimeout (cookie_dict : json) (fallback : option string).

(** What the constructors of the browsers leave behind in an attempt.
    [get_chrome_driver_with_proxy] and [get_firefox_driver_with_proxy]
    start the browser inside a [try] and then configure it
    ([set_page_load_timeout], [implicitly_wait] and, for Chrome,
    [execute_script]); when one of these calls raises, the handler logs the
    error and returns None, and nothing calls [quit()] on the browser that
    was started.  [get_driver_with_proxy] asks for Chrome first and for
    Firefox only when Chrome gave None, so Firefox can be abandoned only in
    an attempt that gets no driver: in any other attempt Firefox was not
    asked for or is the driver of the attempt. *)
Inductive browser := Chrome | Firefox.

Record constructors := {
  chrome_abandoned : bool;     (* Chrome was started and its configuration raised *)
  firefox_abandoned : bool;    (* the same for Firefox, when it was asked for *)
}.

Definition abandoned_in (o : attempt_outcome) (c : constructors) : list browser :=
  (if chrome_abandoned c then [Chrome] else [])
  ++ match o with
     | NoDriver _ => if firefox_abandoned c then [Firefox] else []
     | _ => []
     end.

(** The browsers and the waits. *)
Inductive event :=
| Abandoned (b : browser)    (* a constructor started a browser and gave None *)
| Started (driver : nat)     (* get_driver_with_proxy() returned a webdriver *)
| Quit (driver : nat)        (* driver.quit(), errors swallowed *)
| Slept (seconds : nat).     (* time.sleep(seconds) *)

(** The attempts made and the drivers obtained so far, and the history. *)
Record state := {
  attempts_made : nat;
  started : nat;
  trace : list event;
}.

Definition initial : state := {| attempts_made := 0; started := 0; trace := [] |}.

Definition emit (evs : list event) (st : state) : state :=
  {| attempts_made := attempts_made st; started := started st;
     trace := trace st ++ evs |}.

(** The next attempt begins; a driver is obtained. *)
Definition begin (st : state) : state :=
  {| attempts_made := S (attempts_made st); started := started st; trace := trace st |}.

Definition start_driver (st : state) : nat * state :=
  (started st,
   {| attempts_made := attempts_made st; started := S (started st);
      trace := trace st ++ [Started (started st)] |}).

(** How a pass of the loop ends. *)
Inductive pass_end :=
| Returns (cookie_dict token : json)
| Goes_on
| Raises (e : exn).

Section World.
Context (outcome : nat → attempt_outcome) (built : nat → constructors).
Context (max_retries retry_delay : nat).

(** The [finally] clause: [if driver: driver.quit()]. *)
Definition quit (driver : option nat) (st : state) : state :=
  match driver with
  | Some d => emit [Quit d] st
  | None => st
  end.

(** The handler [except Exception as e] and the [finally] clause that
    follows it; [driver] is the driver of this attempt, if one was
    obtained. *)
Definition handle (attempt : nat) (driver : option nat) (e : exn) (st : state)
    : pass_end * state :=
  if (attempt <? max_retries - 1)%nat then
    (Goes_on, quit driver (emit [Slept retry_delay] st))
  else
    (Raises (plain ("Failed to get initial cookies after " ++ pretty max_retries
                    ++ " attempts: " ++ exn_msg e)),
     quit driver st).

(** The body of the [try] from the answer of [get_driver_with_proxy] on,
    with the handler and the [finally] clause. *)
Definition attempt_with (o : attempt_outcome) (attempt : nat) (st : state)
    : pass_end * state :=
  match o with
  | NoDriver e => handle attempt None e st
  | PageFails e =>
      let '(d, st) := start_driver st in
      handle attempt (Some d) e st
  | ReadFails e =>
      let '(d, st) := start_driver st in
      handle attempt (Some d) e (emit [Slept 3] st)
  | TokenElement cookie_dict value =>
      let '(d, st) := start_driver st in
      (Returns cookie_dict value, emit [Slept 3; Quit d] st)
  | TokenTimeout cookie_dict fallback =>
      let '(d, st) := start_driver st in
      let st := emit [Slept 3] st in
      match fallback with
      | Some value =>
          if negb (String.eqb value "") then
            (Returns cookie_dict (JStr value), emit [Quit d] st)
          else handle attempt (Some d) (plain "Could not find verification token") st
      | None => handle attempt (Some d) (plain "Could not find verification token") st
      end
  end.

(** One pass of [for attempt in range(max_retries)]: the call of
    [get_driver_with_proxy] comes first, with the browsers that its
    constructors abandon. *)
Definition pass (attempt : nat) (st : state) : pass_end * state :=
  let o := outcome (attempts_made st) in
  let abandoned := abandoned_in o (built (attempts_made st)) in
  attempt_with o attempt (emit (map Abandoned abandoned) (begin st)).

Fixpoint cookie_loop (attempts : list nat) (st : state)
    : res (option (json * json)) * state :=
  match attempts with
  | [] => (Ret None, st)
  | attempt :: rest =>
      match pass attempt st with
      | (Returns cookie_dict token, st) => (Ret (Some (cookie_dict, token)), st)
      | (Goes_on, st) => cookie_loop rest st
      | (Raises e, st) => (Raise e, st)
      end
  end.

(** [get_initial_cookies(max_retries, retry_delay)]: the pair of the cookies
    and the token, or [None] when the loop ends without a pass. *)
Definition get_initial_cookies (st : state) : res (option (json * json)) * state :=
  cookie_loop (seq 0 max_retries) st.

End World.

(** The drivers that [get_initial_cookies] holds after a history; [None]
    when a driver is obtained twice or one that is not held is quit. *)
Definition step (acc : option (list nat)) (ev : event) : option (list nat) :=
  match acc with
  | None => None
  | Some running =>
      match ev with
      | Started d => if bool_decide (d ∈ running) then None else Some (d :: running)
      | Quit d =>
          if bool_decide (d ∈ running) then Some (filter (λ r, r ≠ d) running) else None
      | Abandoned _ | Slept _ => acc
      end
  end.

Definition running_after (t : list event) : option (list nat) :=
  foldl step (Some []) t.

(** No driver is held, and the drivers met so far were obtained. *)
Definition all_quit (st : state) : Prop :=
  running_after (trace st) = Some []
  ∧ ∀ d, Started d ∈ trace st → (d < started st)%nat.

(** What an attempt that succeeds returns ([None] for one that fails), and
    the waits of a history. *)
Definition pair_of (o : attempt_outcome) : option (json * json) :=
  match o with
  | NoDriver _ | PageFails _ | ReadFails _ => None
  | TokenElement cookie_dict value => Some (cookie_dict, value)
  | TokenTimeout cookie_dict fallback =>
      match fallback with
      | Some value =>
          if negb (String.eqb value "") then Some (cookie_dict, JStr value) else None
      | None => None
      end
  end.

Definition waits (t : list event) : list nat :=
  omap (λ ev, match ev with Slept s => Some s | _ => None end) t.

(** The browsers that a history leaves running: those that a constructor
    started and abandoned, which no one holds. *)
Definition left_running (t : list event) : list browser :=
  omap (λ ev, match ev with Abandoned b => Some b | _ => None end) t.

Definition is_sleep (ev : event) : Prop := ∃ s, ev = Slept s.

(** The two waits of the function: the settle delay of a page and the delay
    between two attempts. *)
Definition a_wait (retry_delay : nat) (seconds : nat) : Prop :=
  seconds = 3%nat ∨ seconds = retry_delay.

End Cookies.

(** ** main of request_lawyers_with_society_retry_errorr_with_delay.py

    The part of [main] that follows the loading of the batch file: the
    cleaning of the regions, the selection of the records, the loop over
    the records to process with its periodic saves, and the final save.
    The messages printed are left out. *)

Module RetryDelayMain.

(** What a file holds: the list of records that [json.dump] writes, or the
    lines of the error log under its heading. *)
Inductive content :=
| Records (records : list (gmap string json))
| ErrorLog (batch_file : string) (errors : list string).

(** The files written, and the writings that raised. *)
Inductive event :=
| Wrote (name : string) (c : content)
| WriteFailed (name : string).

(** The environment: the environment and the schedule of the n-th call of
    [search_lawyer_with_updates], what the n-th attempt to get cookies
    meets and what the constructors of its browsers leave behind, the clock
    as read for the name of the n-th file, and whether writing the n-th
    file raises. *)
Record world := {
  search_world : nat → Pipeline.world;
  search_schedule : nat → nat → nat;
  cookie_outcome : nat → Cookies.attempt_outcome;
  cookie_constructors : nat → Cookies.constructors;
  strftime : nat → string;
  write_failure : nat → option exn;
}.

(** The globals [error_log] (in [pipeline], with the store of records),
    [enhanced_lawyers] and [batch_counter]; the locals [cookies] and
    [token]; the browsers, the calls of the search, the files and the
    pauses of 1.2 seconds so far. *)
Record state := {
  pipeline : Pipeline.state;
  browsers : Cookies.state;
  enhanced_lawyers : list nat;
  batch_counter : nat;
  cookies : json;
  token : json;
  searches : nat;
  files_opened : nat;
  trace : list event;
  pauses : nat;
}.

(** The state when the batch file has been loaded: [error_log = []],
    [enhanced_lawyers = []], [batch_counter = 0], and the records of the
    file in the store. *)
Definition initial (lawyers_data : list (gmap string json)) : state :=
  {| pipeline := Pipeline.initial lawyers_data; browsers := Cookies.initial;
     enhanced_lawyers := []; batch_counter := 0; cookies := JNull; token := JNull;
     searches := 0; files_opened := 0; trace := []; pauses := 0 |}.

Definition set_pipeline (p : Pipeline.state) (st : state) : state :=
  {| pipeline := p; browsers := browsers st; enhanced_lawyers := enhanced_lawyers st;
     batch_counter := batch_counter st; cookies := cookies st; token := token st;
     searches := searches st; files_opened := files_opened st; trace := trace st;
     pauses := pauses st |}.

Definition set_browsers (b : Cookies.state) (st : state) : state :=
  {| pipeline := pipeline st; browsers := b; enhanced_lawyers := enhanced_lawyers st;
     batch_counter := batch_counter st; cookies := cookies st; token := token st;
     searches := searches st; files_opened := files_opened st; trace := trace st;
     pauses := pauses st |}.

Definition set_enhanced_lawyers (l : list nat) (st : state) : state :=
  {| pipeline := pipeline st; browsers := browsers st; enhanced_lawyers := l;
     batch_counter := batch_counter st; cookies := cookies st; token := token st;
     searches := searches st; files_opened := files_opened st; trace := trace st;
     pauses := pauses st |}.

Definition set_batch_counter (n : nat) (st : state) : state :=
  {| pipeline := pipeline st; browsers := browsers st;
     enhanced_lawyers := enhanced_lawyers st;
     batch_counter := n; cookies := cookies st; token := token st;
     searches := searches st; files_opened := files_opened st; trace := trace st;
     pauses := pauses st |}.

Definition set_session (c t : json) (st : state) : state :=
  {| pipeline := pipeline st; browsers := browsers st;
     enhanced_lawyers := enhanced_lawyers st;
     batch_counter := batch_counter st; cookies := c; token := t;
     searches := searches st; files_opened := files_opened st; trace := trace st;
     pauses := pauses st |}.

Definition count_search (st : state) : state :=
  {| pipeline := pipeline st; browsers := browsers st;
     enhanced_lawyers := enhanced_lawyers st;
     batch_counter := batch_counter st; cookies := cookies st; token := token st;
     searches := S (searches st); files_opened := files_opened st; trace := trace st;
     pauses := pauses st |}.

Definition open_file (ev : event) (st : state) : state :=
  {| pipeline := pipeline st; browsers := browsers st;
     enhanced_lawyers := enhanced_lawyers st;
     batch_counter := batch_counter st; cookies := cookies st; token := token st;
     searches := searches st; files_opened := S (files_opened st);
     trace := trace st ++ [ev]; pauses := pauses st |}.

Definition count_pause (st : state) : state :=
  {| pipeline := pipeline st; browsers := browsers st;
     enhanced_lawyers := enhanced_lawyers st;
     batch_counter := batch_counter st; cookies := cookies st; token := token st;
     searches := searches st; files_opened := files_opened st; trace := trace st;
     pauses := S (pauses st) |}.

(** Computations that read and change the state and may raise. *)
Definition M (A : Type) : Type := state → res A * state.

Definition ret {A} (a : A) : M A := λ st, (Ret a, st).

Definition bind {A B} (m : M A) (k : A → M B) : M B :=
  λ st, match m st with
        | (Ret a, st') => k a st'
        | (Raise e, st') => (Raise e, st')
        end.

(** [try: body except Exception as e: handler(e)] *)
Definition try_except {A} (body : M A) (handler : exn → M A) : M A :=
  λ st, match body st with
        | (Ret a, st') => (Ret a, st')
        | (Raise e, st') => handler e st'
        end.

Notation "'let*' x := m 'in' k" := (bind m (λ x, k))
  (at level 10, x name, m at level 100, k at level 200).
Notation "m ;; k" := (bind m (λ _, k))
  (at level 100, k at level 200, right associativity).

(** A computation of the search, run on the store and the log of [main]. *)
Definition in_pipeline {A} (m : Pipeline.M A) : M A :=
  λ st, let '(r, p) := m (pipeline st) in (r, set_pipeline p st).

(** [error_log.append(msg)] *)
Definition log_error (msg : string) : M unit := in_pipeline (Pipeline.log_error msg).

(** [enhanced_lawyers.append(record)] *)
Definition append (record : nat) : M unit :=
  λ st, (Ret tt, set_enhanced_lawyers (enhanced_lawyers st ++ [record]) st).

(** The dictionary that a record is at this moment. *)
Definition items (record : nat) : M (gmap string json) :=
  λ st, (Ret (default ∅ (Pipeline.heap (pipeline st) !! record)), st).

(** [time.sleep(1.2)] *)
Definition pause : M unit := λ st, (Ret tt, count_pause st).

(** The dictionaries that a list of records holds at this moment, as
    [json.dump] writes them, and those of [enhanced_lawyers]. *)
Definition dictionaries (h : list (gmap string json)) (records : list nat)
    : list (gmap string json) :=
  map (λ record, default ∅ (h !! record)) records.

Definition listed (st : state) : list (gmap string json) :=
  dictionaries (Pipeline.heap (pipeline st)) (enhanced_lawyers st).

(** [BATCH_SIZE] *)
Definition BATCH_SIZE : nat := 400.

Section Main.
(** [str] of a list or a dictionary; the environment; [batch_file] and
    [os.path.splitext(os.path.basename(batch_file))[0]]. *)
Context (py_repr : json → string) (w : world).
Context (batch_file batch_base : string).

(** [cookies, token = get_initial_cookies(max_retries=4, retry_delay=2)] *)
Definition renew_cookies : M unit :=
  λ st,
    match Cookies.get_initial_cookies (cookie_outcome w) (cookie_constructors w) 4 2
            (browsers st) with
    | (Ret (Some (c, t)), b) => (Ret tt, set_session c t (set_browsers b st))
    | (Ret None, b) =>
        (Raise (raise_of TypeError "cannot unpack non-iterable NoneType object"),
         set_browsers b st)
    | (Raise e, b) => (Raise e, set_browsers b st)
    end.

(** [await search_lawyer_with_updates(insc, state, cookies, token, record,
    max_retries=max_retries, retry_delay=2)] *)
Definition search (insc state_ : json) (record max_retries : nat) : M (nat * bool) :=
  λ st,
    let n := searches st in
    let '(r, p) :=
      RetryDelay.search_lawyer_with_updates py_repr (search_world w n)
        (search_schedule w n) insc state_ (cookies st) (token st) record max_retries 2
        (pipeline st) in
    (r, count_search (set_pipeline p st)).

(** [save_enhanced_lawyers_to_file(enhanced_lawyers_list, batch_name,
    batch_num, emergency)] of this script: the file is written locally, and
    an exception of the writing goes to the caller. *)
Definition save_enhanced_lawyers_to_file (enhanced_lawyers_list : list nat)
    (batch_num : option nat) (emergency : bool) : M (option string) :=
  λ st,
    if bool_decide (enhanced_lawyers_list = []) then (Ret None, st)
    else
      let now := strftime w (files_opened st) in
      let filename :=
        if emergency then
          "lawyers_enhanced_" ++ batch_base ++ "_EMERGENCY_" ++ now ++ ".json"
        else
          match batch_num with
          | Some n =>
              "lawyers_enhanced_" ++ batch_base ++ "_part_" ++ Storage.pad3 n ++ "_"
              ++ now ++ ".json"
          | None => "lawyers_enhanced_" ++ batch_base ++ "_FINAL_" ++ now ++ ".json"
          end in
      match write_failure w (files_opened st) with
      | None =>
          (Ret (Some filename),
           open_file
             (Wrote filename
                (Records (dictionaries (Pipeline.heap (pipeline st))
                            enhanced_lawyers_list))) st)
      | Some e => (Raise e, open_file (WriteFailed filename) st)
      end.

(** The body of the loop over [records_to_process], with its handler; the
    index of the record is only printed. *)
Definition process_record (record : nat) : M unit :=
  λ st,
    let fields := default ∅ (Pipeline.heap (pipeline st) !! record) in
    let insc := dict_get fields "oab_number" in
    let state_ := dict_get fields "state" in
    let lawyer_id := dict_get fields "id" in
    let full_name := dict_get_default fields "full_name" (JStr "Unknown") in
    try_except
      (if negb (truthy insc) || negb (truthy state_) then
         log_error ("Dados faltando - ID: " ++ str py_repr lawyer_id ++ ", Nome: "
                    ++ str py_repr full_name) ;;
         append record
       else
         let* found := search insc state_ record 4 in
         let '(enhanced_record, cookies_valid) := found in
         let* enhanced_record :=
           if negb cookies_valid then
             renew_cookies ;;
             let* found := search insc state_ record 2 in
             ret (fst found)
           else ret enhanced_record in
         append enhanced_record ;;
         let* enhanced := items enhanced_record in
         let* sociedades_count :=
           λ st, (PyOps.len (dict_get_default enhanced "society_complete_details"
                               (JList [])), st) in
         (λ st,
            if (length (enhanced_lawyers st) mod BATCH_SIZE =? 0)%nat then
              let st := set_batch_counter (S (batch_counter st)) st in
              (save_enhanced_lawyers_to_file (enhanced_lawyers st)
                 (Some (batch_counter st)) false ;; ret tt) st
            else (Ret tt, st)) ;;
         pause)
      (λ e,
         log_error ("Erro processando " ++ str py_repr state_ ++ " " ++ str py_repr insc
                    ++ " - " ++ str py_repr full_name ++ ": " ++ exn_msg e) ;;
         append record)
      st.

(** [for i, record in enumerate(records_to_process): ...] *)
Fixpoint process_records (records_to_process : list nat) : M unit :=
  match records_to_process with
  | [] => ret tt
  | record :: rest => process_record record ;; process_records rest
  end.

(** The first loop: [if 'state' in record: record['state'] =
    clean_state(record['state'])], for every record of the file. *)
Definition clean_states : M unit :=
  λ st,
    (Ret tt,
     set_pipeline
       (Pipeline.set_heap
          (map (RetryDelay.clean_record_state py_repr) (Pipeline.heap (pipeline st)))
          (pipeline st)) st).

(** The second loop: the records to process; the others are appended to
    [enhanced_lawyers]. *)
Definition select_records : M (list nat) :=
  λ st,
    let h := Pipeline.heap (pipeline st) in
    let should_process (record : nat) : bool :=
      fst (RetryDelay.should_process_record (default ∅ (h !! record))) in
    let lawyers_data := seq 0 (length h) in
    (Ret (filter (λ record, should_process record = true) lawyers_data),
     set_enhanced_lawyers
       (enhanced_lawyers st
        ++ filter (λ record, should_process record = false) lawyers_data) st).

(** The error log written at the end. *)
Definition write_error_log (errors : list string) : M unit :=
  λ st,
    let error_file_name :=
      "error_log_" ++ batch_base ++ "_FINAL_" ++ strftime w (files_opened st) ++ ".txt" in
    match write_failure w (files_opened st) with
    | None => (Ret tt, open_file (Wrote error_file_name (ErrorLog batch_file errors)) st)
    | Some e => (Raise e, open_file (WriteFailed error_file_name) st)
    end.

(** [main], from the loaded records on; the exception of the outer handler
    is only printed. *)
Definition main : M unit :=
  try_except
    (clean_states ;;
     let* records_to_process := select_records in
     if bool_decide (records_to_process = []) then
       (λ st, save_enhanced_lawyers_to_file (enhanced_lawyers st) None false st) ;;
       ret tt
     else
       renew_cookies ;;
       process_records records_to_process ;;
       (λ st,
          if negb (bool_decide (enhanced_lawyers st = [])) then
            (save_enhanced_lawyers_to_file (enhanced_lawyers st) None false ;; ret tt) st
          else (Ret tt, st)) ;;
       (λ st,
          let errors := Pipeline.error_log (pipeline st) in
          if negb (bool_decide (errors = [])) then write_error_log errors st
          else (Ret tt, st)))
    (λ e, ret tt).

End Main.

(** The number of writings that failed. *)
Definition is_failure (ev : event) : bool :=
  match ev with
  | WriteFailed _ => true
  | Wrote _ _ => false
  end.

Definition failed_writes (t : list event) : nat :=
  length (filter (λ ev, is_failure ev = true) t).

(** The store [h'] holds the records of [h], unchanged, and maybe more. *)
Definition extends (h h' : list (gmap string json)) : Prop :=
  ∀ record fields, h !! record = Some fields → h' !! record = Some fields.

(** A record that is marked as processed and agrees with [fields] outside
    the enrichment fields. *)
Definition enhanced_from (fields enhanced : gmap string json) : Prop :=
  Pipeline.marked enhanced
  ∧ ∀ key, key ∉ Pipeline.enrichment_fields → enhanced !! key = fields !! key.

(** What [enhanced_lawyers] holds for one record that was to be processed:
    the record itself; a record enhanced from it; or that record followed
    by the record itself. *)
Definition entries_for (fields : gmap string json) (entries : list (gmap string json))
    : Prop :=
  entries = [fields]
  ∨ ∃ enhanced,
      enhanced_from fields enhanced
      ∧ (entries = [enhanced] ∨ entries = [enhanced; fields]).

(** The records of the file once their regions are cleaned, and the two
    lists the second loop of [main] makes of them. *)
Definition cleaned (py_repr : json → string) (lawyers_data : list (gmap string json))
    : list (gmap string json) :=
  map (RetryDelay.clean_record_state py_repr) lawyers_data.

Definition records_skipped (py_repr : json → string)
    (lawyers_data : list (gmap string json)) : list (gmap string json) :=
  filter (λ fields, fst (RetryDelay.should_process_record fields) = false)
    (cleaned py_repr lawyers_data).

Definition records_to_process (py_repr : json → string)
    (lawyers_data : list (gmap string json)) : list (gmap string json) :=
  filter (λ fields, fst (RetryDelay.should_process_record fields) = true)
    (cleaned py_repr lawyers_data).

(** The name of a final file of the batch. *)
Definition final_name (batch_base name : string) : Prop :=
  ∃ now, name = "lawyers_enhanced_" ++ batch_base ++ "_FINAL_" ++ now ++ ".json".

End RetryDelayMain.

(** ** main of request_lawyers_fix_state.py

    The part of [main] that follows the loading of the batch file: the
    selection of the records, with the reset of those whose region does
    not match, the loop over the records to process with its periodic
    saves, and the final save.  The messages printed are left out, and
    with them the first loop, which only counts and prints. *)

Module FixStateMain.

(** The environment: the environment and the schedule of the n-th call of
    [search_lawyer_with_updates], what the n-th attempt to get cookies
    meets and what the constructors of its browsers leave behind, the n-th
    reading of the clock for the name of a file, and what the bucket and
    the disk do. *)
Record world := {
  search_world : nat → Pipeline.world;
  search_schedule : nat → nat → nat;
  cookie_outcome : nat → Cookies.attempt_outcome;
  cookie_constructors : nat → Cookies.constructors;
  strftime : nat → string;
  store : Storage.world;
}.

(** The globals [error_log] (in [pipeline], with the store of records),
    [enhanced_lawyers] and [batch_counter]; the locals [cookies] and
    [token]; the browsers, the bucket and the disk, the calls of the
    search, the readings of the clock and the pauses of 1.2 seconds so
    far. *)
Record state := {
  pipeline : Pipeline.state;
  browsers : Cookies.state;
  storage : Storage.state;
  enhanced_lawyers : list nat;
  batch_counter : nat;
  cookies : json;
  token : json;
  searches : nat;
  clock_reads : nat;
  pauses : nat;
}.

(** The state when the batch file has been loaded. *)
Definition initial (lawyers_data : list (gmap string json)) : state :=
  {| pipeline := Pipeline.initial lawyers_data; browsers := Cookies.initial;
     storage := Storage.initial;
     enhanced_lawyers := []; batch_counter := 0; cookies := JNull; token := JNull;
     searches := 0; clock_reads := 0; pauses := 0 |}.

Definition set_pipeline (p : Pipeline.state) (st : state) : state :=
  {| pipeline := p; browsers := browsers st; storage := storage st;
     enhanced_lawyers := enhanced_lawyers st;
     batch_counter := batch_counter st; cookies := cookies st; token := token st;
     searches := searches st; clock_reads := clock_reads st; pauses := pauses st |}.

Definition set_browsers (b : Cookies.state) (st : state) : state :=
  {| pipeline := pipeline st; browsers := b; storage := storage st;
     enhanced_lawyers := enhanced_lawyers st;
     batch_counter := batch_counter st; cookies := cookies st; token := token st;
     searches := searches st; clock_reads := clock_reads st; pauses := pauses st |}.

Definition set_enhanced_lawyers (l : list nat) (st : state) : state :=
  {| pipeline := pipeline st; browsers := browsers st; storage := storage st;
     enhanced_lawyers := l;
     batch_counter := batch_counter st; cookies := cookies st; token := token st;
     searches := searches st; clock_reads := clock_reads st; pauses := pauses st |}.

Definition set_batch_counter (n : nat) (st : state) : state :=
  {| pipeline := pipeline st; browsers := browsers st; storage := storage st;
     enhanced_lawyers := enhanced_lawyers st;
     batch_counter := n; cookies := cookies st; token := token st;
     searches := searches st; clock_reads := clock_reads st; pauses := pauses st |}.

Definition set_session (c t : json) (st : state) : state :=
  {| pipeline := pipeline st; browsers := browsers st; storage := storage st;
     enhanced_lawyers := enhanced_lawyers st;
     batch_counter := batch_counter st; cookies := c; token := t;
     searches := searches st; clock_reads := clock_reads st; pauses := pauses st |}.

Definition count_search (st : state) : state :=
  {| pipeline := pipeline st; browsers := browsers st; storage := storage st;
     enhanced_lawyers := enhanced_lawyers st;
     batch_counter := batch_counter st; cookies := cookies st; token := token st;
     searches := S (searches st); clock_reads := clock_reads st; pauses := pauses st |}.

(** A file was named and stored. *)
Definition stored (s : Storage.state) (st : state) : state :=
  {| pipeline := pipeline st; browsers := browsers st; storage := s;
     enhanced_lawyers := enhanced_lawyers st;
     batch_counter := batch_counter st; cookies := cookies st; token := token st;
     searches := searches st; clock_reads := S (clock_reads st); pauses := pauses st |}.

Definition count_pause (st : state) : state :=
  {| pipeline := pipeline st; browsers := browsers st; storage := storage st;
     enhanced_lawyers := enhanced_lawyers st;
     batch_counter := batch_counter st; cookies := cookies st; token := token st;
     searches := searches st; clock_reads := clock_reads st; pauses := S (pauses st) |}.

(** Computations that read and change the state and may raise. *)
Definition M (A : Type) : Type := state → res A * state.

Definition ret {A} (a : A) : M A := λ st, (Ret a, st).

Definition bind {A B} (m : M A) (k : A → M B) : M B :=
  λ st, match m st with
        | (Ret a, st') => k a st'
        | (Raise e, st') => (Raise e, st')
        end.

(** [try: body except Exception as e: handler(e)] *)
Definition try_except {A} (body : M A) (handler : exn → M A) : M A :=
  λ st, match body st with
        | (Ret a, st') => (Ret a, st')
        | (Raise e, st') => handler e st'
        end.

Notation "'let*' x := m 'in' k" := (bind m (λ x, k))
  (at level 10, x name, m at level 100, k at level 200).
Notation "m ;; k" := (bind m (λ _, k))
  (at level 100, k at level 200, right associativity).

(** A computation of the search, run on the store and the log of [main]. *)
Definition in_pipeline {A} (m : Pipeline.M A) : M A :=
  λ st, let '(r, p) := m (pipeline st) in (r, set_pipeline p st).

(** [error_log.append(msg)] *)
Definition log_error (msg : string) : M unit := in_pipeline (Pipeline.log_error msg).

(** [enhanced_lawyers.append(record)] *)
Definition append (record : nat) : M unit :=
  λ st, (Ret tt, set_enhanced_lawyers (enhanced_lawyers st ++ [record]) st).

(** The dictionary that a record is at this moment. *)
Definition items (record : nat) : M (gmap string json) :=
  λ st, (Ret (default ∅ (Pipeline.heap (pipeline st) !! record)), st).

(** A new dictionary object. *)
Definition new_record (fields : gmap string json) : M nat :=
  λ st,
    (Ret (length (Pipeline.heap (pipeline st))),
     set_pipeline
       (Pipeline.set_heap (Pipeline.heap (pipeline st) ++ [fields])%list (pipeline st))
       st).

(** [time.sleep(1.2)] *)
Definition pause : M unit := λ st, (Ret tt, count_pause st).

(** The dictionaries of [enhanced_lawyers]. *)
Definition listed (st : state) : list (gmap string json) :=
  RetryDelayMain.dictionaries (Pipeline.heap (pipeline st)) (enhanced_lawyers st).

(** [BATCH_SIZE] *)
Definition BATCH_SIZE : nat := 400.

(** A line feed, and ["=" * 50]. *)
Definition LF : string := String (ascii_of_nat 10) "".

Definition rule : string := String.concat "" (replicate 50 "=").

Section Main.
(** [str] of a list or a dictionary, [json.dumps] with the options of the
    script, and a dictionary as a JSON value; the bucket; the environment;
    [batch_file] and [os.path.splitext(os.path.basename(batch_file))[0]]. *)
Context (py_repr dumps : json → string) (record_json : gmap string json → json).
Context (AWS_BUCKET : string) (w : world).
Context (batch_file batch_base : string).

(** [cookies, token = get_initial_cookies(max_retries=4, retry_delay=2)] *)
Definition renew_cookies : M unit :=
  λ st,
    match Cookies.get_initial_cookies (cookie_outcome w) (cookie_constructors w) 4 2
            (browsers st) with
    | (Ret (Some (c, t)), b) => (Ret tt, set_session c t (set_browsers b st))
    | (Ret None, b) =>
        (Raise (raise_of TypeError "cannot unpack non-iterable NoneType object"),
         set_browsers b st)
    | (Raise e, b) => (Raise e, set_browsers b st)
    end.

(** [await search_lawyer_with_updates(oab_number, estado_correto, cookies,
    token, record, max_retries=max_retries, retry_delay=2)] *)
Definition search (oab_number estado_correto : json) (record max_retries : nat)
    : M (nat * bool) :=
  λ st,
    let n := searches st in
    let '(r, p) :=
      FixState.search_lawyer_with_updates py_repr (search_world w n)
        (search_schedule w n) oab_number estado_correto (cookies st) (token st) record
        max_retries 2 (pipeline st) in
    (r, count_search (set_pipeline p st)).

(** [save_enhanced_lawyers_to_file(enhanced_lawyers_list, batch_file,
    batch_num)]: the clock is read for the name of the file when the list is
    not empty. *)
Definition save_enhanced_lawyers_to_file (enhanced_lawyers_list : list nat)
    (batch_num : option nat) : M (option string) :=
  λ st,
    let records :=
      map record_json
        (RetryDelayMain.dictionaries (Pipeline.heap (pipeline st)) enhanced_lawyers_list) in
    let '(result, s) :=
      Storage.save_enhanced_lawyers_to_file AWS_BUCKET dumps py_repr (store w) batch_base
        (strftime w (clock_reads st)) records batch_num false (storage st) in
    (Ret result,
     if bool_decide (enhanced_lawyers_list = []) then st else stored s st).

(** The body of the loop over [records_to_process], with its handler; the
    index of the record is only printed. *)
Definition process_record (record : nat) : M unit :=
  λ st,
    let fields := default ∅ (Pipeline.heap (pipeline st) !! record) in
    let oab_number := dict_get fields "oab_number" in
    let oab_id := dict_get fields "oab_id" in
    let lawyer_id := dict_get fields "id" in
    let full_name := dict_get_default fields "full_name" (JStr "Unknown") in
    let estado_correto :=
      json_of_option (FixState.extract_state_from_oab_id py_repr oab_id) in
    try_except
      (if negb (truthy oab_number) || negb (truthy estado_correto) then
         log_error ("Dados faltando - ID: " ++ str py_repr lawyer_id ++ ", Nome: "
                    ++ str py_repr full_name ++ ", oab_id: " ++ str py_repr oab_id) ;;
         append record
       else
         let* found := search oab_number estado_correto record 4 in
         let '(enhanced_record, cookies_valid) := found in
         let* enhanced_record :=
           if negb cookies_valid then
             renew_cookies ;;
             let* found := search oab_number estado_correto record 2 in
             ret (fst found)
           else ret enhanced_record in
         append enhanced_record ;;
         let* enhanced := items enhanced_record in
         let* sociedades_count :=
           λ st, (PyOps.len (dict_get_default enhanced "society_complete_details"
                               (JList [])), st) in
         (λ st,
            if (length (enhanced_lawyers st) mod BATCH_SIZE =? 0)%nat then
              let st := set_batch_counter (S (batch_counter st)) st in
              (save_enhanced_lawyers_to_file (enhanced_lawyers st)
                 (Some (batch_counter st)) ;; ret tt) st
            else (Ret tt, st)) ;;
         pause)
      (λ e,
         log_error ("Erro processando " ++ str py_repr estado_correto ++ " "
                    ++ str py_repr oab_number ++ " - " ++ str py_repr full_name ++ ": "
                    ++ exn_msg e) ;;
         append record)
      st.

(** [for i, record in enumerate(records_to_process): ...] *)
Fixpoint process_records (records_to_process : list nat) : M unit :=
  match records_to_process with
  | [] => ret tt
  | record :: rest => process_record record ;; process_records rest
  end.

(** The second loop, over the records of the file: a record to process
    whose reason is a region mismatch is replaced by what
    [clean_inconsistent_data] returns; a record that needs no processing is
    appended to [enhanced_lawyers].  The result is [records_to_process]. *)
Fixpoint select_records (lawyers_data : list nat) : M (list nat) :=
  match lawyers_data with
  | [] => ret []
  | record :: rest =>
      let* fields := items record in
      let '(should_process, reason) := FixState.should_process_record py_repr fields in
      let* chosen :=
        if should_process then
          if contains "estado inconsistente" reason then
            let* record := new_record (FixState.clean_inconsistent_data fields) in
            ret [record]
          else ret [record]
        else append record ;; ret [] in
      let* others := select_records rest in
      ret (chosen ++ others)%list
  end.

(** The error log stored at the end. *)
Definition save_error_log (errors : list string) : M unit :=
  λ st,
    let error_file_name :=
      "error_log_" ++ batch_base ++ "_FINAL_" ++ strftime w (clock_reads st) ++ ".txt" in
    let error_content :=
      "Log de Erros Final - " ++ batch_file ++ LF ++ rule ++ LF ++ LF
      ++ String.concat LF errors in
    let '(_, s) :=
      Storage.save_to_s3_and_local_backup AWS_BUCKET dumps py_repr (store w)
        (JStr error_content) error_file_name (storage st) in
    (Ret tt, stored s st).

(** [main], from the loaded records on; the exception of the outer handler
    is only printed. *)
Definition main : M unit :=
  try_except
    (let* records_to_process :=
       λ st, select_records (seq 0 (length (Pipeline.heap (pipeline st)))) st in
     if bool_decide (records_to_process = []) then
       (λ st, save_enhanced_lawyers_to_file (enhanced_lawyers st) None st) ;;
       ret tt
     else
       renew_cookies ;;
       process_records records_to_process ;;
       (λ st,
          if negb (bool_decide (enhanced_lawyers st = [])) then
            (save_enhanced_lawyers_to_file (enhanced_lawyers st) None ;; ret tt) st
          else (Ret tt, st)) ;;
       (λ st,
          let errors := Pipeline.error_log (pipeline st) in
          if negb (bool_decide (errors = [])) then save_error_log errors st
          else (Ret tt, st)))
    (λ e, ret tt).

(** The record as the second loop hands it to the third. *)
Definition prepared (fields : gmap string json) : gmap string json :=
  if contains "estado inconsistente" (snd (FixState.should_process_record py_repr fields))
  then FixState.clean_inconsistent_data fields
  else fields.

(** The two lists the second loop makes of the records of the file. *)
Definition records_skipped (lawyers_data : list (gmap string json))
    : list (gmap string json) :=
  filter (λ fields, fst (FixState.should_process_record py_repr fields) = false)
    lawyers_data.

Definition records_to_process (lawyers_data : list (gmap string json))
    : list (gmap string json) :=
  map prepared
    (filter (λ fields, fst (FixState.should_process_record py_repr fields) = true)
       lawyers_data).

(** A record that is marked as processed, carries the region that its
    [oab_id] gives, and agrees with [fields] outside the enrichment fields
    and the region. *)
Definition corrected_from (fields enhanced : gmap string json) : Prop :=
  Pipeline.marked enhanced
  ∧ (∃ code, FixState.extract_state_from_oab_id py_repr (dict_get fields "oab_id")
             = Some code
             ∧ enhanced !! "state" = Some (JStr code))
  ∧ ∀ key, key ∉ Pipeline.enrichment_fields → key ≠ "state" →
           enhanced !! key = fields !! key.

End Main.

End FixStateMain.

(** ** Sample environments, for closed examples *)

Module Examples.

Definition ok_response : response :=
  {| status_code := 200; reason := "OK";
     response_url := "https://cna.oab.org.br/Home/Search";
     json_body := Ret (JObj [("Success", JBool true); ("Data", JList [])]) |}.

(** Sessions can always be built and every call is answered with 200. *)
Definition world_all_ok : Scraper.world :=
  {| Scraper.session_creation := λ _, true;
     Scraper.http := λ _, HttpResponse ok_response |}.

(** The first call fails with a proxy error, the following ones succeed. *)
Definition world_proxy_error_then_ok : Scraper.world :=
  {| Scraper.session_creation := λ _, true;
     Scraper.http := λ n,
       match n with
       | O => HttpRaises {| exn_class_of := ProxyError; exn_status := None;
                            exn_msg := "Cannot connect to proxy." |}
       | _ => HttpResponse ok_response
       end |}.

(** The first call hands back [None], the following ones succeed. *)
Definition world_none_then_ok : Scraper.world :=
  {| Scraper.session_creation := λ _, true;
     Scraper.http := λ n,
       match n with
       | O => HttpNone
       | _ => HttpResponse ok_response
       end |}.

(** A modal as the registry renders it: a titled firm, four labelled
    fields, a status label and a partner table of two rows. *)
Definition labelled (label value : string) : Soup.node :=
  Soup.Elem "div" ["col-md-6"] []
    [Soup.Elem "b" [] [] [Soup.Text label]; Soup.Text (" " ++ value ++ " ")].

Definition partner_row (link number name kind : string) : Soup.node :=
  Soup.Elem "tr" [] [("data-cnalink", link)]
    [Soup.Elem "td" [] [] [Soup.Text number];
     Soup.Elem "td" [] [] [Soup.Text name];
     Soup.Elem "td" [] [] [];
     Soup.Elem "td" [] [] [Soup.Text kind]].

Definition fixture_modal : Soup.node :=
  Soup.document
    [Soup.Elem "div" ["modal-content"] []
       [Soup.Elem "div" ["modal-header"] []
          [Soup.Elem "h4" ["modal-title"] []
             [Soup.Elem "b" [] [] [Soup.Text " SILVA E SOUZA ADVOGADOS "]]];
        Soup.Elem "div" ["modal-body"] []
          [labelled "Inscrição:" "12345";
           labelled "Estado:" "SP";
           Soup.Elem "span" ["label"; "label-success"] [] [Soup.Text "Ativo"];
           labelled "Endereço:" "Rua A, 10";
           labelled "Telefones:" "(11) 5555-0000";
           Soup.Elem "div" ["socContainer"] []
             [Soup.Elem "table" [] []
                [Soup.Elem "tr" [] [] [Soup.Elem "th" [] [] [Soup.Text "Nome"]];
                 partner_row "/Home/Detail/1" "100" "ANA SILVA" "Sócio";
                 partner_row "/Home/Detail/2" "200" "RUI SOUZA" "Sócio"]]]]].


(** The registry's answers. *)
Definition stub (insc name url : string) : json :=
  JObj [("Insc", JStr insc); ("NomeSoci", JStr name); ("IdtSoci", JNum 7);
        ("SiglUf", JStr "SP"); ("Url", JStr url)].

Definition partnership_stubs : list json :=
  [stub "100" "ALFA ADVOGADOS" "/Home/Soc/100";
   stub "200" "BETA ADVOGADOS" "/Home/Soc/200";
   stub "300" "GAMA ADVOGADOS" "/Home/Soc/300"].

Definition search_response : response :=
  {| status_code := 200; reason := "OK";
     response_url := "https://cna.oab.org.br/Home/Search";
     json_body :=
       Ret (JObj [("Success", JBool true);
                  ("Data", JList [JObj [("Nome", JStr "ANA SILVA");
                                        ("DetailUrl", JStr "/Home/Detail/9")]])]) |}.

Definition detail_response : response :=
  {| status_code := 200; reason := "OK";
     response_url := "https://cna.oab.org.br/Home/Detail/9";
     json_body :=
       Ret (JObj [("Success", JBool true);
                  ("Data", JObj [("Sociedades", JList partnership_stubs)])]) |}.

Definition unauthorized_response : response :=
  {| status_code := 401; reason := "Unauthorized";
     response_url := "https://cna.oab.org.br/Home/Search";
     json_body := Ret JNull |}.

Definition modal_timeout : exn :=
  {| exn_class_of := TimeoutException; exn_status := None; exn_msg := "Message: " |}.

(** A lawyer with three partnerships: the modal of the first never shows
    up, the other two render. *)
Definition world_three_partnerships : Pipeline.world :=
  {| Pipeline.session_failure := λ _, None;
     Pipeline.http := λ n, match n with
                           | O => HttpResponse search_response
                           | _ => HttpResponse detail_response
                           end;
     Pipeline.render := λ i _, match i with
                               | O => RenderRaises modal_timeout
                               | _ => Rendered fixture_modal
                               end;
     Pipeline.timestamp := λ _ _, "2025-01-01T00:00:00.%fZ";
     Pipeline.processed_at := λ _, "2025-01-01T00:00:10.%fZ";
     Pipeline.epoch := λ _, 1735689610;
     Pipeline.save_failure := λ _, None |}.

(** The registry answers every request with 401. *)
Definition world_unauthorized : Pipeline.world :=
  {| Pipeline.session_failure := λ _, None;
     Pipeline.http := λ _, HttpResponse unauthorized_response;
     Pipeline.render := λ _ _, RenderRaises modal_timeout;
     Pipeline.timestamp := λ _ _, "";
     Pipeline.processed_at := λ _, "";
     Pipeline.epoch := λ _, 0;
     Pipeline.save_failure := λ _, None |}.

(** A stored record. *)
Definition lawyer : gmap string json :=
  list_to_map [("id", JNum 42); ("full_name", JStr "Ana Silva");
               ("oab_number", JStr "185929"); ("oab_id", JStr "SP_185929");
               ("state", JStr "RJ"); ("processed", JBool false)].

End Examples.

(** ** The specification's vocabulary

    Definitions that follow the words of the specification, to be compared
    with the functions embedded from the scripts. *)

Module Spec.

(** The reason codes of the eligibility classifier. *)
Definition NOT_PROCESSED : string := "não processado".
Definition INCOMPLETE_SOCIETY : string := "sociedades incompletas".
Definition SOCIETY_STATUS_UNKNOWN : string := "status de sociedade não determinado".
Definition COMPLETE : string := "completo".


(** The segment to the left of the first separator, if there is one. *)
Fixpoint before_first (sep : ascii) (s : string) : option string :=
  match s with
  | EmptyString => None
  | String c rest =>
      if Ascii.eqb c sep then Some EmptyString
      else option_map (String c) (before_first sep rest)
  end.

(** A flag (or a list) of the record is set (non-empty). *)
Definition flag_set (record : gmap string json) (k : string) : bool :=
  match record !! k with
  | Some v => truthy v
  | None => false
  end.

(** A field is recorded: present, and not [null]. *)
Definition recorded (record : gmap string json) (k : string) : bool :=
  match record !! k with
  | Some JNull | None => false
  | Some _ => true
  end.

(** Rules 2 to 5 of the classifier, first match wins. *)
Definition classify_rules (record : gmap string json) : bool * string :=
  if negb (flag_set record "processed") then (true, NOT_PROCESSED)
  else if flag_set record "has_society"
          && negb (flag_set record "society_basic_details"
                   && flag_set record "society_complete_details")
  then (true, INCOMPLETE_SOCIETY)
  else if negb (recorded record "has_society") then (true, SOCIETY_STATUS_UNKNOWN)
  else (false, COMPLETE).

End Spec.

(** A stand-in for [py_repr] in closed examples, where it is never consulted
    on the values at hand. *)
Definition no_repr : json → string := λ _, "".

(* ================================================================== *)
(** * Properties *)
(* ================================================================== *)

(** ** Strings *)

(** Closed decidable goals (membership in a literal list, [NoDup]) are
    settled by evaluating their decision procedure. *)
Ltac by_evaluation :=
  lazymatch goal with
  | |- ¬ _ => apply (proj1 (bool_decide_eq_false _)); vm_compute; reflexivity
  | |- _ ∉ _ => apply (proj1 (bool_decide_eq_false _)); vm_compute; reflexivity
  | |- _ => apply (proj1 (bool_decide_eq_true _)); vm_compute; reflexivity
  end.

Lemma split_on_nonempty sep s : split_on sep s ≠ [].
Proof.
  destruct s as [|c rest]; simpl; [discriminate|].
  destruct (Ascii.eqb c sep); [discriminate|].
  destruct (split_on sep rest); discriminate.
Qed.

Lemma split_on_before_first sep s :
  match Spec.before_first sep s with
  | Some seg => (2 <= length (split_on sep s))%nat ∧ hd "" (split_on sep s) = seg
  | None => length (split_on sep s) = 1%nat
  end.
Proof.
  induction s as [|c rest IH]; simpl; [reflexivity|].
  destruct (Ascii.eqb c sep) eqn:Hc; simpl.
  - split; [|reflexivity].
    pose proof (split_on_nonempty sep rest) as Hne.
    destruct (split_on sep rest); [congruence|simpl; lia].
  - destruct (Spec.before_first sep rest) as [seg|]; simpl.
    + destruct IH as [Hlen Hhd].
      destruct (split_on sep rest) as [|p ps]; simpl in *; [lia|].
      split; [lia|congruence].
    + destruct (split_on sep rest) as [|p ps]; simpl in *; [lia|].
      destruct ps; simpl in *; [reflexivity|lia].
Qed.

Lemma take_chars_short n s : (String.length s <= n)%nat → take_chars n s = s.
Proof.
  revert n; induction s as [|c rest IH]; intros [|n] Hn; simpl in *; try reflexivity; try lia.
  f_equal. apply IH. lia.
Qed.

Lemma string_eqb_false_iff (a b : string) : String.eqb a b = false ↔ a ≠ b.
Proof. apply String.eqb_neq. Qed.


Lemma truthy_JStr s : truthy (JStr s) = negb (String.eqb s "").
Proof. reflexivity. Qed.

Lemma before_first_empty sep : Spec.before_first sep "" = None.
Proof. reflexivity. Qed.

Lemma clean_and_validate_state_Some seg code :
  Checker.clean_and_validate_state seg = Some code ↔
  code = take_chars 2 (keep_alpha (upper seg)) ∧ code ∈ valid_states.
Proof.
  unfold Checker.clean_and_validate_state.
  assert (Hcl : (if (2 <=? String.length (keep_alpha (upper seg)))%nat
                 then take_chars 2 (keep_alpha (upper seg))
                 else keep_alpha (upper seg))
                = take_chars 2 (keep_alpha (upper seg))).
  { destruct (2 <=? String.length (keep_alpha (upper seg)))%nat eqn:Hlen; [reflexivity|].
    apply Nat.leb_gt in Hlen. symmetry. apply take_chars_short. lia. }
  rewrite Hcl.
  destruct (String.eqb seg "") eqn:Hseg.
  - apply String.eqb_eq in Hseg. subst seg. simpl.
    split; [discriminate|]. intros [-> Hin]. exfalso.
    revert Hin. by_evaluation.
  - destruct (bool_decide (take_chars 2 (keep_alpha (upper seg)) ∈ valid_states)) eqn:Hin.
    + apply bool_decide_eq_true in Hin. split.
      * intros [= <-]. by split.
      * intros [-> _]. reflexivity.
    + apply bool_decide_eq_false in Hin. split; [discriminate|].
      intros [-> Hin']. contradiction.
Qed.

Section RegionCode.
Context (py_repr : json → string).

Lemma checker_extract_string (s : string) :
  Checker.extract_state_from_oab_id py_repr (JStr s) =
    match Spec.before_first underscore s with
    | Some seg => Checker.clean_and_validate_state seg
    | None => None
    end.
Proof.
  unfold Checker.extract_state_from_oab_id. rewrite truthy_JStr, negb_involutive.
  destruct (String.eqb s "") eqn:Hs.
  - apply String.eqb_eq in Hs. subst s. reflexivity.
  - simpl str. pose proof (split_on_before_first underscore s) as H.
    destruct (Spec.before_first underscore s) as [seg|].
    + destruct H as [Hlen Hhd]. rewrite Hhd.
      apply Nat.leb_le in Hlen. by rewrite Hlen.
    + rewrite H. reflexivity.
Qed.

Lemma fix_state_extract_string (s : string) :
  FixState.extract_state_from_oab_id py_repr (JStr s) =
    match Spec.before_first underscore s with
    | Some seg =>
        if (String.length (upper seg) =? 2)%nat && isalpha (upper seg)
        then Some (upper seg) else None
    | None => None
    end.
Proof.
  unfold FixState.extract_state_from_oab_id. rewrite truthy_JStr, negb_involutive.
  destruct (String.eqb s "") eqn:Hs.
  - apply String.eqb_eq in Hs. subst s. reflexivity.
  - simpl str. pose proof (split_on_before_first underscore s) as H.
    destruct (Spec.before_first underscore s) as [seg|].
    + destruct H as [Hlen Hhd]. rewrite Hhd.
      apply Nat.leb_le in Hlen. by rewrite Hlen.
    + rewrite H. reflexivity.
Qed.

(** C8 (as amended).  For an external identifier that is a string of the
    ASCII range (the range on which [upper], [keep_alpha], [isalpha] and
    the lengths of this development are those of Python),
    [extract_state_from_oab_id] takes the segment to the left of the first
    underscore and answers none when there is no underscore.  In checker.py
    the segment goes through the strict cleaner: letters only, upper case,
    first two letters; that cleaned code is returned exactly when it is one
    of the 27 valid states, so every code returned is a member of the set,
    "MG_185929" gives "MG" and "xx" gives none.  In
    request_lawyers_fix_state.py the segment is only put in upper case and
    is returned exactly when it then consists of two letters, with no
    membership test. *)
Theorem extract_state_from_oab_id_cleans_left_segment (s : string) :
  all_ascii s = true →
  (Checker.extract_state_from_oab_id py_repr (JStr s) =
     match Spec.before_first underscore s with
     | Some seg => Checker.clean_and_validate_state seg
     | None => None
     end)
  ∧ (∀ code, Checker.extract_state_from_oab_id py_repr (JStr s) = Some code ↔
       ∃ seg, Spec.before_first underscore s = Some seg
              ∧ code = take_chars 2 (keep_alpha (upper seg))
              ∧ code ∈ valid_states)
  ∧ Checker.extract_state_from_oab_id py_repr (JStr "MG_185929") = Some "MG"
  ∧ Checker.extract_state_from_oab_id py_repr (JStr "xx") = None
  ∧ length valid_states = 27%nat
  ∧ NoDup valid_states
  ∧ (∀ code, FixState.extract_state_from_oab_id py_repr (JStr s) = Some code ↔
       ∃ seg, Spec.before_first underscore s = Some seg
              ∧ code = upper seg
              ∧ String.length code = 2%nat
              ∧ all_alpha code = true).
Proof.
  intros _.
  split; [apply checker_extract_string|].
  split.
  { intros code. rewrite checker_extract_string.
    destruct (Spec.before_first underscore s) as [seg|].
    - rewrite clean_and_validate_state_Some. split.
      + intros [-> Hin]. by exists seg.
      + intros (seg' & [= <-] & -> & Hin). by split.
    - split; [discriminate|]. intros (seg' & Habs & _). discriminate. }
  split; [reflexivity|]. split; [reflexivity|]. split; [reflexivity|].
  split; [by_evaluation|].
  intros code. rewrite fix_state_extract_string.
  destruct (Spec.before_first underscore s) as [seg|].
  - unfold isalpha.
    destruct (String.length (upper seg) =? 2)%nat eqn:Hlen; simpl.
    + apply Nat.eqb_eq in Hlen.
      destruct (String.eqb (upper seg) "") eqn:He.
      { apply String.eqb_eq in He. rewrite He in Hlen. discriminate. }
      simpl. destruct (all_alpha (upper seg)) eqn:Ha.
      * split.
        -- intros [= <-]. by exists seg.
        -- intros (seg' & [= <-] & -> & _). reflexivity.
      * split; [discriminate|].
        intros (seg' & [= <-] & -> & _ & Hb). congruence.
    + apply Nat.eqb_neq in Hlen. split; [discriminate|].
      intros (seg' & [= <-] & -> & Hl & _). contradiction.
  - split; [discriminate|]. intros (seg' & Habs & _). discriminate.
Qed.

End RegionCode.

(** The identifier of the specification's example, "MG_185929". *)
Lemma extract_state_from_oab_id_cleans_left_segment_witness :
  Checker.extract_state_from_oab_id no_repr (JStr "MG_185929")
    = Checker.clean_and_validate_state "MG"
  ∧ (∀ code, FixState.extract_state_from_oab_id no_repr (JStr "MG_185929") = Some code ↔
       ∃ seg, Spec.before_first underscore "MG_185929" = Some seg
              ∧ code = upper seg
              ∧ String.length code = 2%nat
              ∧ all_alpha code = true).
Proof.
  destruct (extract_state_from_oab_id_cleans_left_segment no_repr "MG_185929")
    as (H1 & _ & _ & _ & _ & _ & H7).
  - reflexivity.
  - split; [exact H1|exact H7].
Defined.

(** C8, as stated, fails: the left segment "SPX" is not a valid state, yet
    checker.py answers "SP" for "SPX_1"; and request_lawyers_fix_state.py
    answers "XX" for "XX_1" although "XX" is not a valid state. *)
Lemma extract_state_from_oab_id_accepts_non_member :
  Spec.before_first underscore "SPX_1" = Some "SPX"
  ∧ ("SPX" ∉ valid_states)
  ∧ Checker.extract_state_from_oab_id no_repr (JStr "SPX_1") = Some "SP"
  ∧ Spec.before_first underscore "XX_1" = Some "XX"
  ∧ ("XX" ∉ valid_states)
  ∧ FixState.extract_state_from_oab_id no_repr (JStr "XX_1") = Some "XX".
Proof.
  split; [reflexivity|].
  split; [by_evaluation|].
  split; [reflexivity|].
  split; [reflexivity|].
  split; [by_evaluation|].
  reflexivity.
Qed.

(** ** The eligibility classifier *)

(** A record of the shape the specification's test describes: external
    identifier "SP_1", a given stored region, processed, with partnerships
    and both detail lists filled. *)
Lemma dict_get_lookup (d : gmap string json) k :
  dict_get d k = default JNull (d !! k).
Proof. reflexivity. Qed.

Lemma dict_get_default_flag (d : gmap string json) k :
  truthy (dict_get_default d k (JBool false)) = Spec.flag_set d k.
Proof. unfold dict_get_default, Spec.flag_set. by destruct (d !! k). Qed.

Lemma dict_get_default_list (d : gmap string json) k :
  truthy (dict_get_default d k (JList [])) = Spec.flag_set d k.
Proof. unfold dict_get_default, Spec.flag_set. by destruct (d !! k). Qed.

Lemma is_none_dict_get (d : gmap string json) k :
  is_none (dict_get d k) = negb (Spec.recorded d k).
Proof.
  unfold dict_get, Spec.recorded. destruct (d !! k) as [v|]; [|reflexivity].
  by destruct v.
Qed.

(** The classifier of the script without a region rule is rules 2 to 5. *)
Lemma retry_delay_should_process_record_rules record :
  RetryDelay.should_process_record record = Spec.classify_rules record.
Proof.
  unfold RetryDelay.should_process_record, Spec.classify_rules.
  rewrite dict_get_default_flag, !dict_get_default_list, dict_get_default_flag,
    is_none_dict_get.
  destruct (Spec.flag_set record "processed"); simpl; [|reflexivity].
  destruct (Spec.flag_set record "has_society"); simpl.
  - destruct (Spec.flag_set record "society_basic_details"),
      (Spec.flag_set record "society_complete_details"); reflexivity.
  - reflexivity.
Qed.


Section Classifier.
Context (py_repr : json → string).


(** Without a region mismatch the classifier of
    request_lawyers_fix_state.py falls through to rules 2 to 5. *)
Lemma fix_state_should_process_record_no_mismatch record :
  (∀ code, FixState.extract_state_from_oab_id py_repr (dict_get record "oab_id") = Some code →
           dict_get record "state" = JStr code) →
  FixState.should_process_record py_repr record = RetryDelay.should_process_record record.
Proof.
  intros Hno. unfold FixState.should_process_record.
  destruct (truthy (dict_get record "oab_id")); [|reflexivity].
  destruct (FixState.extract_state_from_oab_id py_repr (dict_get record "oab_id"))
    as [code|] eqn:Hex; [|reflexivity].
  rewrite (Hno code eq_refl). simpl. rewrite String.eqb_refl. simpl.
  rewrite andb_false_r. reflexivity.
Qed.


(** C2 (as amended).  When the external identifier, a text of the ASCII
    range, yields no two-letter code that disagrees with the stored region
    (request_lawyers_fix_state.py compares the stored region with any
    two-letter left segment, one of the 27 valid codes or not), the
    classifier answers by rules 2 to 5, in that
    order: not processed; partnerships flagged with an empty detail list;
    partnership status not recorded; complete.  It answers "no processing
    needed / complete" exactly when [processed] is set, [has_society] is
    recorded, and, if [has_society] is set, both detail lists are
    non-empty; in every other case it asks for processing.  The script
    without a region rule follows rules 2 to 5 for every record. *)
Theorem classifier_complete_iff (record : gmap string json) :
  all_ascii (str py_repr (dict_get record "oab_id")) = true →
  (∀ code, FixState.extract_state_from_oab_id py_repr (dict_get record "oab_id") = Some code →
           dict_get record "state" = JStr code) →
  FixState.should_process_record py_repr record = Spec.classify_rules record
  ∧ RetryDelay.should_process_record record = Spec.classify_rules record
  ∧ (FixState.should_process_record py_repr record = (false, Spec.COMPLETE) ↔
       Spec.flag_set record "processed" = true
       ∧ Spec.recorded record "has_society" = true
       ∧ (Spec.flag_set record "has_society" = true →
            Spec.flag_set record "society_basic_details" = true
            ∧ Spec.flag_set record "society_complete_details" = true))
  ∧ (FixState.should_process_record py_repr record ≠ (false, Spec.COMPLETE) →
       fst (FixState.should_process_record py_repr record) = true
       ∧ (snd (FixState.should_process_record py_repr record) = Spec.NOT_PROCESSED
          ∨ snd (FixState.should_process_record py_repr record) = Spec.INCOMPLETE_SOCIETY
          ∨ snd (FixState.should_process_record py_repr record) = Spec.SOCIETY_STATUS_UNKNOWN)).
Proof.
  intros _ Hno.
  rewrite (fix_state_should_process_record_no_mismatch record Hno).
  rewrite retry_delay_should_process_record_rules.
  split; [reflexivity|]. split; [reflexivity|].
  unfold Spec.classify_rules.
  destruct (Spec.flag_set record "processed"),
    (Spec.flag_set record "has_society"),
    (Spec.flag_set record "society_basic_details"),
    (Spec.flag_set record "society_complete_details"),
    (Spec.recorded record "has_society"); simpl;
    (split; [split; [try discriminate; intros _; repeat split; try discriminate; auto
                    | intros (H1 & H2 & H3); try discriminate; try reflexivity;
                      try (destruct (H3 eq_refl); discriminate)]
            | intros Hn; try (exfalso; apply Hn; reflexivity); split; auto]).
Qed.

End Classifier.


Lemma classifier_complete_iff_witness :
  let record : gmap string json :=
    list_to_map [("oab_id", JStr "SP_1"); ("state", JStr "SP");
                 ("processed", JBool true); ("has_society", JBool true);
                 ("society_basic_details", JList [JObj [("Insc", JStr "1")]]);
                 ("society_complete_details", JList [JObj [("Insc", JStr "1")]])] in
  FixState.should_process_record no_repr record = Spec.classify_rules record.
Proof.
  intros record.
  refine (proj1 (classifier_complete_iff no_repr record _ _)).
  - reflexivity.
  - intros code. vm_compute. intros [= <-]. reflexivity.
Defined.

(** C2, as stated, fails in request_lawyers_fix_state.py: the identifier
    "XX_1" yields no valid region code (checker.py answers none for it, and
    "XX" is not one of the 27), the record is processed and its partnership
    status is recorded as false, yet the classifier asks for processing
    with the region-mismatch reason, because that script compares the
    stored region with any two-letter left segment. *)
Lemma classifier_mismatch_on_invalid_code :
  let record : gmap string json :=
    list_to_map [("oab_id", JStr "XX_1"); ("state", JStr "SP");
                 ("processed", JBool true); ("has_society", JBool false)] in
  ("XX" ∉ valid_states)
  ∧ Checker.extract_state_from_oab_id no_repr (dict_get record "oab_id") = None
  ∧ all_ascii (str no_repr (dict_get record "oab_id")) = true
  ∧ Spec.flag_set record "processed" = true
  ∧ Spec.recorded record "has_society" = true
  ∧ Spec.flag_set record "has_society" = false
  ∧ Spec.classify_rules record = (false, Spec.COMPLETE)
  ∧ RetryDelay.should_process_record record = (false, Spec.COMPLETE)
  ∧ FixState.should_process_record no_repr record
    = (true, "estado inconsistente: SP != XX (de oab_id)")
  ∧ FixState.should_process_record no_repr record ≠ (false, Spec.COMPLETE).
Proof.
  intros record.
  split; [by_evaluation|].
  repeat (split; [reflexivity|]).
  discriminate.
Qed.

(** ** The managed session *)

Section SessionCell.
Import Scraper.
Context (w : world).

(** One acquisition while the budget is not used up: same session, counter
    plus one, nothing else happens. *)
Lemma acquire_within_budget st s :
  global_requests_session st = Some s →
  (requests_session_use_count st < MAX_REQUESTS_PER_SESSION)%nat →
  get_requests_session_with_proxy_managed w st
    = (Some s, set_cell (Some s) (requests_session_use_count st + 1) st).
Proof.
  intros Hs Hc. unfold get_requests_session_with_proxy_managed.
  rewrite Hs. rewrite bool_decide_eq_false_2 by discriminate.
  apply Nat.leb_gt in Hc. rewrite Hc. reflexivity.
Qed.

(** One acquisition once the budget is used up: the session is closed, a
    new one is built, the counter restarts from zero and is incremented. *)
Lemma acquire_budget_reached st s :
  global_requests_session st = Some s →
  (MAX_REQUESTS_PER_SESSION <= requests_session_use_count st)%nat →
  session_creation w (sessions_built st) = true →
  get_requests_session_with_proxy_managed w st
    = (Some (sessions_built st),
       {| global_requests_session := Some (sessions_built st);
          requests_session_use_count := 1;
          sessions_built := S (sessions_built st);
          http_calls := http_calls st;
          error_log := error_log st;
          trace := trace st ++ [Closed s] ++ [Created (sessions_built st)] |}).
Proof.
  intros Hs Hc Hok. unfold get_requests_session_with_proxy_managed.
  rewrite Hs. rewrite bool_decide_eq_false_2 by discriminate.
  apply Nat.leb_le in Hc. rewrite Hc. simpl.
  unfold close_current. rewrite ?Hs. simpl. rewrite Hok.
  unfold set_cell, emit, count_construction. simpl.
  rewrite <- app_assoc. reflexivity.
Qed.

Lemma acquire_from_empty st :
  global_requests_session st = None →
  session_creation w (sessions_built st) = true →
  get_requests_session_with_proxy_managed w st
    = (Some (sessions_built st),
       {| global_requests_session := Some (sessions_built st);
          requests_session_use_count := 1;
          sessions_built := S (sessions_built st);
          http_calls := http_calls st;
          error_log := error_log st;
          trace := trace st ++ [Created (sessions_built st)] |}).
Proof.
  intros Hs Hok. unfold get_requests_session_with_proxy_managed.
  rewrite Hs. rewrite bool_decide_eq_true_2 by reflexivity. simpl.
  unfold close_current. rewrite ?Hs. simpl. rewrite Hok. reflexivity.
Qed.

(** [n] acquisitions in a row that stay within the budget. *)
Lemma run_acquire_within_budget n st s :
  global_requests_session st = Some s →
  (requests_session_use_count st + n <= MAX_REQUESTS_PER_SESSION)%nat →
  run_steps w (replicate n Acquire) st
    = (replicate n (Some s), set_cell (Some s) (requests_session_use_count st + n) st).
Proof.
  revert st. induction n as [|n IH]; intros st Hs Hc; simpl.
  - rewrite Nat.add_0_r. destruct st; simpl in *; subst; reflexivity.
  - rewrite (acquire_within_budget st s Hs) by lia.
    rewrite IH; [|reflexivity|unfold set_cell; cbn [requests_session_use_count]; lia].
    unfold set_cell; simpl.
    replace (requests_session_use_count st + 1 + n)%nat
      with (requests_session_use_count st + S n)%nat by lia.
    reflexivity.
Qed.

Lemma times_returned_snoc s returned r :
  times_returned s (returned ++ [r])
  = (times_returned s returned + (if bool_decide (r = Some s) then 1 else 0))%nat.
Proof.
  unfold times_returned. rewrite filter_app, length_app. f_equal.
  rewrite filter_cons, filter_nil.
  destruct (decide (r = Some s)) as [->|Hne].
  - rewrite bool_decide_eq_true_2 by reflexivity. reflexivity.
  - rewrite bool_decide_eq_false_2 by assumption. reflexivity.
Qed.

Lemma times_returned_fresh s returned :
  Some s ∉ returned → times_returned s returned = 0%nat.
Proof.
  intros Hnot. unfold times_returned.
  induction returned as [|r rs IH]; [reflexivity|].
  rewrite filter_cons. destruct (decide (r = Some s)) as [->|Hne].
  - exfalso. apply Hnot. left.
  - apply IH. intros Hin. apply Hnot. by right.
Qed.

(** The three ways an acquisition can go. *)
Lemma acquire_cases st r st' :
  get_requests_session_with_proxy_managed w st = (r, st') →
  (∃ s, global_requests_session st = Some s
        ∧ (requests_session_use_count st < MAX_REQUESTS_PER_SESSION)%nat
        ∧ r = Some s
        ∧ global_requests_session st' = Some s
        ∧ requests_session_use_count st' = (requests_session_use_count st + 1)%nat
        ∧ sessions_built st' = sessions_built st)
  ∨ (r = Some (sessions_built st)
     ∧ global_requests_session st' = Some (sessions_built st)
     ∧ requests_session_use_count st' = 1%nat
     ∧ sessions_built st' = S (sessions_built st))
  ∨ (r = None
     ∧ global_requests_session st' = None
     ∧ sessions_built st' = S (sessions_built st)).
Proof.
  unfold get_requests_session_with_proxy_managed.
  destruct (bool_decide (global_requests_session st = None)
            || (MAX_REQUESTS_PER_SESSION <=? requests_session_use_count st)%nat) eqn:Hnew.
  - assert (Hb : sessions_built (close_current st) = sessions_built st).
    { unfold close_current. by destruct (global_requests_session st). }
    rewrite Hb.
    destruct (session_creation w (sessions_built st)); intros [= <- <-]; simpl.
    + right; left. by rewrite Hb.
    + right; right. by rewrite Hb.
  - apply orb_false_iff in Hnew as [Hs Hc].
    apply bool_decide_eq_false in Hs. apply Nat.leb_gt in Hc.
    destruct (global_requests_session st) as [s|] eqn:Heq; [|done].
    intros [= <- <-]. left. exists s. simpl. done.
Qed.

Lemma cell_invariant_acquire st returned r st' :
  cell_invariant st returned →
  get_requests_session_with_proxy_managed w st = (r, st') →
  cell_invariant st' (returned ++ [r]).
Proof.
  intros (Hbuilt & Hbound & Hcur) Hacq.
  assert (Hfresh : times_returned (sessions_built st) returned = 0%nat).
  { apply times_returned_fresh. intros Hin. specialize (Hbuilt _ Hin). lia. }
  destruct (acquire_cases _ _ _ Hacq)
    as [(s & Hs & Hc & -> & Hs' & Hc' & Hb')
       |[(-> & Hs' & Hc' & Hb')|(-> & Hs' & Hb')]].
  - destruct (Hcur s Hs) as [Hlt Hcount].
    split; [|split].
    + intros s' [Hin|Hin%list_elem_of_singleton]%elem_of_app.
      * rewrite Hb'. by apply Hbuilt.
      * injection Hin as ->. by rewrite Hb'.
    + intros s'. rewrite times_returned_snoc. case_bool_decide as Heq.
      * injection Heq as <-. rewrite Hcount. lia.
      * specialize (Hbound s'). lia.
    + intros s'. rewrite Hs'. intros [= <-]. rewrite Hb', Hc'. split; [done|].
      rewrite times_returned_snoc, bool_decide_eq_true_2 by reflexivity. lia.
  - split; [|split].
    + intros s' [Hin|Hin%list_elem_of_singleton]%elem_of_app.
      * rewrite Hb'. specialize (Hbuilt _ Hin). lia.
      * injection Hin as ->. rewrite Hb'. lia.
    + intros s'. rewrite times_returned_snoc. case_bool_decide as Heq.
      * injection Heq as <-. rewrite Hfresh. unfold MAX_REQUESTS_PER_SESSION. lia.
      * specialize (Hbound s'). lia.
    + intros s'. rewrite Hs'. intros [= <-]. rewrite Hb', Hc'. split; [lia|].
      rewrite times_returned_snoc, bool_decide_eq_true_2 by reflexivity. lia.
  - split; [|split].
    + intros s' [Hin|Hin%list_elem_of_singleton]%elem_of_app; [|discriminate].
      rewrite Hb'. specialize (Hbuilt _ Hin). lia.
    + intros s'. rewrite times_returned_snoc.
      rewrite bool_decide_eq_false_2 by discriminate. specialize (Hbound s'). lia.
    + intros s'. rewrite Hs'. discriminate.
Qed.

Lemma cell_invariant_force_new st returned :
  cell_invariant st returned → cell_invariant (force_new_session st) returned.
Proof.
  intros (Hbuilt & Hbound & Hcur). unfold force_new_session, close_current.
  destruct (global_requests_session st); repeat split; simpl; auto; discriminate.
Qed.

Lemma run_steps_invariant steps st returned :
  cell_invariant st returned →
  cell_invariant (snd (run_steps w steps st)) (returned ++ fst (run_steps w steps st)).
Proof.
  revert st returned. induction steps as [|[|] rest IH]; intros st returned Hinv; simpl.
  - by rewrite app_nil_r.
  - destruct (get_requests_session_with_proxy_managed w st) as [r st1] eqn:Hacq.
    pose proof (cell_invariant_acquire _ _ _ _ Hinv Hacq) as Hinv1.
    specialize (IH st1 _ Hinv1).
    destruct (run_steps w rest st1) as [rs st2]. simpl in *.
    by rewrite <- app_assoc in IH.
  - apply IH. by apply cell_invariant_force_new.
Qed.

Lemma cell_invariant_empty : cell_invariant empty_cell [].
Proof.
  repeat split; simpl; try discriminate.
  - intros s Hin. by apply elem_of_nil in Hin.
  - intros s. unfold times_returned. simpl. lia.
Qed.

End SessionCell.

(** C5.  From the empty cell: every successful acquisition returns the
    session now in the cell and counts it (the counter goes up by one, or
    restarts from zero and goes to one when a session is built); the first
    100 acquisitions return the first session; the acquisition after that
    closes it and returns a newly built, different session with the counter
    at one; and, whatever the sequence of acquisitions and forced
    renewals, no session object is handed out more than 100 times. *)
Theorem managed_session_budget (w : Scraper.world) :
  Scraper.session_creation w 0%nat = true →
  Scraper.session_creation w 1%nat = true →
  (∀ st s st',
     Scraper.get_requests_session_with_proxy_managed w st = (Some s, st') →
     Scraper.global_requests_session st' = Some s
     ∧ ((Scraper.global_requests_session st = Some s
         ∧ Scraper.requests_session_use_count st'
           = (Scraper.requests_session_use_count st + 1)%nat)
        ∨ (s = Scraper.sessions_built st
           ∧ Scraper.requests_session_use_count st' = (0 + 1)%nat)))
  ∧ Scraper.run_steps w (replicate 100 Scraper.Acquire) Scraper.empty_cell
    = (replicate 100 (Some 0%nat),
       {| Scraper.global_requests_session := Some 0%nat;
          Scraper.requests_session_use_count := Scraper.MAX_REQUESTS_PER_SESSION;
          Scraper.sessions_built := 1;
          Scraper.http_calls := 0;
          Scraper.error_log := [];
          Scraper.trace := [Scraper.Created 0%nat] |})
  ∧ Scraper.run_steps w (replicate 101 Scraper.Acquire) Scraper.empty_cell
    = ((replicate 100 (Some 0%nat) ++ [Some 1%nat])%list,
       {| Scraper.global_requests_session := Some 1%nat;
          Scraper.requests_session_use_count := 1;
          Scraper.sessions_built := 2;
          Scraper.http_calls := 0;
          Scraper.error_log := [];
          Scraper.trace := [Scraper.Created 0%nat; Scraper.Closed 0%nat;
                            Scraper.Created 1%nat] |})
  ∧ (∀ steps s,
       (Scraper.times_returned s (fst (Scraper.run_steps w steps Scraper.empty_cell))
        <= Scraper.MAX_REQUESTS_PER_SESSION)%nat).
Proof.
  intros Hc0 Hc1.
  assert (Hfirst : Scraper.get_requests_session_with_proxy_managed w Scraper.empty_cell
                   = (Some 0%nat,
                      {| Scraper.global_requests_session := Some 0%nat;
                         Scraper.requests_session_use_count := 1;
                         Scraper.sessions_built := 1;
                         Scraper.http_calls := 0;
                         Scraper.error_log := [];
                         Scraper.trace := [Scraper.Created 0%nat] |})).
  { rewrite (acquire_from_empty w Scraper.empty_cell eq_refl Hc0). reflexivity. }
  assert (H100 : Scraper.run_steps w (replicate 100 Scraper.Acquire) Scraper.empty_cell
    = (replicate 100 (Some 0%nat),
       {| Scraper.global_requests_session := Some 0%nat;
          Scraper.requests_session_use_count := Scraper.MAX_REQUESTS_PER_SESSION;
          Scraper.sessions_built := 1;
          Scraper.http_calls := 0;
          Scraper.error_log := [];
          Scraper.trace := [Scraper.Created 0%nat] |})).
  { change (replicate 100 Scraper.Acquire)
      with (Scraper.Acquire :: replicate 99 Scraper.Acquire).
    cbn [Scraper.run_steps]. rewrite Hfirst.
    erewrite (run_acquire_within_budget w 99);
      [reflexivity|reflexivity|unfold Scraper.MAX_REQUESTS_PER_SESSION; simpl; lia]. }
  split; [|split; [exact H100|split]].
  - intros st s st' Hacq.
    destruct (acquire_cases w _ _ _ Hacq)
      as [(s0 & Hs & Hc & [= <-] & Hs' & Hc' & Hb')
         |[([= <-] & Hs' & Hc' & Hb')|(Habs & _)]]; [| |discriminate].
    + split; [exact Hs'|]. left. by split.
    + split; [exact Hs'|]. right. by split.
  - assert (Hsplit : ∀ steps1 steps2 st,
              Scraper.run_steps w (steps1 ++ steps2) st
              = ((fst (Scraper.run_steps w steps1 st)
                   ++ fst (Scraper.run_steps w steps2 (snd (Scraper.run_steps w steps1 st))))%list,
                 snd (Scraper.run_steps w steps2 (snd (Scraper.run_steps w steps1 st))))).
    { induction steps1 as [|[|] rest IH]; intros steps2 st; simpl.
      - by destruct (Scraper.run_steps w steps2 st).
      - destruct (Scraper.get_requests_session_with_proxy_managed w st) as [r st1].
        rewrite IH. by destruct (Scraper.run_steps w rest st1).
      - apply IH. }
    change (replicate 101 Scraper.Acquire)
      with (replicate 100 Scraper.Acquire ++ [Scraper.Acquire])%list.
    rewrite Hsplit, H100. cbn [fst snd Scraper.run_steps].
    erewrite (acquire_budget_reached w);
      [reflexivity|reflexivity|simpl; lia|exact Hc1].
  - intros steps s.
    pose proof (run_steps_invariant w steps Scraper.empty_cell []
                  (cell_invariant_empty)) as (_ & Hbound & _).
    apply Hbound.
Qed.

(** ** The retry loop over the managed session *)

Section RetryLoop.
Import Scraper.
Context (w : world).
Hypothesis creation_succeeds : ∀ n, session_creation w n = true.

Lemma count_app p (t1 t2 : list event) :
  Scraper.count p (t1 ++ t2) = (Scraper.count p t1 + Scraper.count p t2)%nat.
Proof. unfold Scraper.count. by rewrite filter_app, length_app. Qed.

Lemma count_cons p ev (t : list event) :
  Scraper.count p (ev :: t) = ((if p ev then 1 else 0) + Scraper.count p t)%nat.
Proof.
  unfold Scraper.count. rewrite filter_cons.
  destruct (p ev); case_decide; simpl; done.
Qed.

Lemma count_sleep_of_le seconds (t : list event) :
  (Scraper.count (is_sleep_of seconds) t <= Scraper.count is_sleep t)%nat.
Proof.
  induction t as [|ev t IH]; [reflexivity|].
  rewrite !count_cons. destruct ev; simpl; try lia.
  destruct (seconds0 =? seconds)%nat; lia.
Qed.

(** An acquisition succeeds, and only closes or builds sessions. *)
Lemma acquire_succeeds st :
  ∃ s evs st1,
    get_requests_session_with_proxy_managed w st = (Some s, st1)
    ∧ http_calls st1 = http_calls st
    ∧ error_log st1 = error_log st
    ∧ trace st1 = (trace st ++ evs)%list
    ∧ Scraper.count is_invalidation evs = 0%nat
    ∧ Scraper.count is_sleep evs = 0%nat
    ∧ Scraper.count is_request evs = 0%nat.
Proof.
  unfold get_requests_session_with_proxy_managed.
  destruct (bool_decide (global_requests_session st = None)
            || (MAX_REQUESTS_PER_SESSION <=? requests_session_use_count st)%nat) eqn:Hnew.
  - assert (Hb : sessions_built (close_current st) = sessions_built st).
    { unfold close_current. by destruct (global_requests_session st). }
    rewrite Hb, creation_succeeds. unfold close_current.
    destruct (global_requests_session st) as [s0|]; simpl.
    + exists (sessions_built st), [Closed s0; Created (sessions_built st)]. eexists.
      split; [reflexivity|]. simpl. rewrite <- app_assoc. by repeat split.
    + exists (sessions_built st), [Created (sessions_built st)]. eexists.
      split; [reflexivity|]. simpl. by repeat split.
  - apply orb_false_iff in Hnew as [Hs _]. apply bool_decide_eq_false in Hs.
    destruct (global_requests_session st) as [s|] eqn:Heq; [|done].
    exists s, []. eexists. split; [simpl; reflexivity|]. simpl.
    rewrite app_nil_r. by repeat split.
Qed.

Lemma trace_emit ev st : trace (emit ev st) = (trace st ++ [ev])%list.
Proof. reflexivity. Qed.

Lemma trace_log_error msg st : trace (log_error msg st) = trace st.
Proof. reflexivity. Qed.

Lemma trace_count_http_call st : trace (count_http_call st) = trace st.
Proof. reflexivity. Qed.

Lemma session_after_request msg s st :
  global_requests_session (log_error msg (emit (Requested s) (count_http_call st)))
  = global_requests_session st.
Proof. reflexivity. Qed.

Lemma http_calls_after_failure msg s d st :
  http_calls (emit (Slept d)
                (force_new_session (log_error msg (emit (Requested s) (count_http_call st)))))
  = S (http_calls st).
Proof.
  unfold force_new_session, close_current. simpl.
  by destruct (global_requests_session st).
Qed.

Lemma http_calls_force_new st :
  http_calls (force_new_session st) = http_calls st.
Proof. unfold force_new_session, close_current. by destruct (global_requests_session st). Qed.

Lemma trace_force_new st :
  trace (force_new_session st)
  = (trace st ++ match global_requests_session st with
                 | Some s => [Closed s]
                 | None => []
                 end ++ [Invalidated])%list.
Proof.
  unfold force_new_session, close_current.
  destruct (global_requests_session st); simpl; by rewrite <- ?app_assoc.
Qed.

Lemma seq_attempts a max_retries :
  (a < max_retries)%nat →
  seq a (max_retries - a) = a :: seq (S a) (max_retries - S a).
Proof.
  intros Hlt. replace (max_retries - a)%nat with (S (max_retries - S a)) by lia.
  reflexivity.
Qed.

Lemma raising_failures_S from k :
  raising_failures w from (S k)
  = ((if outcome_raises (http w from) then 1 else 0) + raising_failures w (S from) k)%nat.
Proof.
  unfold raising_failures. simpl seq. rewrite filter_cons.
  destruct (outcome_raises (http w from)); simpl.
  - destruct (decide (true = true)); [reflexivity|done].
  - destruct (decide (false = true)); [done|reflexivity].
Qed.

(** The heart of C6: [k] failing attempts, then a good response. *)
Lemma retry_loop_fails_then_succeeds method url max_retries retry_delay r :
  supported method →
  raise_for_status r = Ret tt →
  ∀ k a st,
    (a + k < max_retries)%nat →
    (∀ i, (i < k)%nat → outcome_fails (http w (http_calls st + i)) = true) →
    http w (http_calls st + k) = HttpResponse r →
    ∃ st' evs,
      retry_loop w method url max_retries retry_delay (seq a (max_retries - a)) st
        = (Ret r, st')
      ∧ trace st' = (trace st ++ evs)%list
      ∧ Scraper.count is_invalidation evs = raising_failures w (http_calls st) k
      ∧ Scraper.count is_sleep evs = k
      ∧ Scraper.count (is_sleep_of retry_delay) evs = k
      ∧ Scraper.count is_request evs = S k
      ∧ http_calls st' = (http_calls st + S k)%nat.
Proof.
  intros Hm Hok. induction k as [|k IH]; intros a st Hlt Hfail Hgood.
  - rewrite seq_attempts by lia. cbn [retry_loop]. unfold try_request.
    destruct (acquire_succeeds st) as (s & evs & st1 & -> & Hh & _ & Ht & Hi & Hs & Hr).
    unfold supported in Hm. rewrite Hm, Hh.
    rewrite Nat.add_0_r in Hgood. rewrite Hgood, Hok.
    eexists. exists (evs ++ [Requested s])%list.
    split; [reflexivity|]. simpl. rewrite Ht, <- app_assoc.
    rewrite !count_app, Hi, Hs, Hr.
    assert (Hsl : Scraper.count (is_sleep_of retry_delay) evs = 0%nat).
    { pose proof (count_sleep_of_le retry_delay evs). lia. }
    rewrite Hsl. repeat split; try reflexivity. lia.
  - rewrite seq_attempts by lia. cbn [retry_loop]. unfold try_request.
    destruct (acquire_succeeds st) as (s & evs & st1 & -> & Hh & _ & Ht & Hi & Hs & Hr).
    unfold supported in Hm. rewrite Hm, Hh.
    pose proof (Hfail 0%nat ltac:(lia)) as Hf0. rewrite Nat.add_0_r in Hf0.
    assert (Hsl : Scraper.count (is_sleep_of retry_delay) evs = 0%nat).
    { pose proof (count_sleep_of_le retry_delay evs). lia. }
    assert (Hshift : ∀ st2, http_calls st2 = S (http_calls st1) →
              (∀ i, (i < k)%nat → outcome_fails (http w (http_calls st2 + i)) = true)
              ∧ http w (http_calls st2 + k) = HttpResponse r).
    { intros st2 Hc2. rewrite Hc2, Hh. split.
      - intros i Hi'. replace (S (http_calls st) + i)%nat
          with (http_calls st + S i)%nat by lia. apply Hfail. lia.
      - replace (S (http_calls st) + k)%nat with (http_calls st + S k)%nat by lia.
        exact Hgood. }
    rewrite raising_failures_S.
    assert (Hnl : (a <? max_retries - 1)%nat = true) by (apply Nat.ltb_lt; lia).
    assert (Hnl' : (max_retries - 1 <=? a)%nat = false) by (apply Nat.leb_gt; lia).
    destruct (http w (http_calls st)) as [e| |r0] eqn:Hout; simpl in Hf0.
    + (* the call raises *)
      rewrite Hnl'.
      match goal with |- context [retry_loop _ _ _ _ _ _ ?st2] =>
        assert (Hc2 : http_calls st2 = S (http_calls st1))
          by apply http_calls_after_failure;
        destruct (Hshift st2 Hc2) as [Hf2 Hg2];
        destruct (IH (S a) st2 ltac:(lia) Hf2 Hg2)
          as (st' & evs' & -> & Ht' & Hi' & Hs' & Hsd' & Hr' & Hh')
      end.
      rewrite Hc2, Hh in *.
      rewrite trace_emit, trace_force_new, session_after_request, trace_log_error,
        trace_emit, trace_count_http_call, Ht in Ht'.
      eexists. eexists.
      split; [reflexivity|].
      split; [rewrite Ht'; rewrite <- !app_assoc; reflexivity|].
      rewrite !count_app, Hi, Hs, Hr, Hsl, Hi', Hs', Hsd', Hr'.
      destruct (global_requests_session st1); rewrite !count_cons; simpl;
        rewrite ?Nat.eqb_refl; repeat split; lia.
    + (* the call hands back None *)
      rewrite Hnl.
      match goal with |- context [retry_loop _ _ _ _ _ _ ?st2] =>
        assert (Hc2 : http_calls st2 = S (http_calls st1)) by reflexivity;
        destruct (Hshift st2 Hc2) as [Hf2 Hg2];
        destruct (IH (S a) st2 ltac:(lia) Hf2 Hg2)
          as (st' & evs' & -> & Ht' & Hi' & Hs' & Hsd' & Hr' & Hh')
      end.
      rewrite Hc2, Hh in *. simpl in Ht'. rewrite Ht in Ht'.
      eexists. eexists.
      split; [reflexivity|].
      split; [rewrite Ht'; rewrite <- !app_assoc; reflexivity|].
      rewrite !count_app, Hi, Hs, Hr, Hsl, Hi', Hs', Hsd', Hr'.
      rewrite !count_cons; simpl; rewrite ?Nat.eqb_refl; repeat split; lia.
    + (* the response has an error status *)
      destruct (raise_for_status r0) as [[]|e] eqn:Hrfs; [discriminate|].
      rewrite Hnl'.
      match goal with |- context [retry_loop _ _ _ _ _ _ ?st2] =>
        assert (Hc2 : http_calls st2 = S (http_calls st1))
          by apply http_calls_after_failure;
        destruct (Hshift st2 Hc2) as [Hf2 Hg2];
        destruct (IH (S a) st2 ltac:(lia) Hf2 Hg2)
          as (st' & evs' & -> & Ht' & Hi' & Hs' & Hsd' & Hr' & Hh')
      end.
      rewrite Hc2, Hh in *.
      rewrite trace_emit, trace_force_new, session_after_request, trace_log_error,
        trace_emit, trace_count_http_call, Ht in Ht'.
      eexists. eexists.
      split; [reflexivity|].
      split; [rewrite Ht'; rewrite <- !app_assoc; reflexivity|].
      rewrite !count_app, Hi, Hs, Hr, Hsl, Hi', Hs', Hsd', Hr'.
      destruct (global_requests_session st1); rewrite !count_cons; simpl;
        rewrite Hrfs, ?Nat.eqb_refl; repeat split; lia.
Qed.

Lemma raise_for_status_not_proxy r e :
  raise_for_status r = Raise e → is_proxy_error e = false.
Proof.
  unfold raise_for_status. repeat case_match; intros [= <-]; reflexivity.
Qed.

(** Every attempt fails: the loop gives up with the text of the last
    failure. *)
Lemma retry_loop_all_fail method url max_retries retry_delay :
  supported method →
  ∀ n a st,
    (a + S n = max_retries)%nat →
    (∀ i, (i <= n)%nat → outcome_fails (http w (http_calls st + i)) = true) →
    ∃ st',
      retry_loop w method url max_retries retry_delay (seq a (S n)) st
      = (Raise (plain ("Request failed after " ++ pretty max_retries ++ " attempts: "
                       ++ failure_text url (http w (http_calls st + n)))), st').
Proof.
  intros Hm. induction n as [|n IH]; intros a st Hlen Hfail.
  - cbn [seq retry_loop]. unfold try_request.
    destruct (acquire_succeeds st) as (s & evs & st1 & -> & Hh & _ & Ht & Hi & Hs & Hr).
    unfold supported in Hm. rewrite Hm, Hh.
    pose proof (Hfail 0%nat ltac:(lia)) as Hf0. rewrite Nat.add_0_r in Hf0 |- *.
    assert (Hnl : (a <? max_retries - 1)%nat = false) by (apply Nat.ltb_ge; lia).
    assert (Hnl' : (max_retries - 1 <=? a)%nat = true) by (apply Nat.leb_le; lia).
    destruct (http w (http_calls st)) as [e| |r0] eqn:Hout; simpl in Hf0.
    + rewrite Hnl'. eexists. reflexivity.
    + rewrite Hnl, Hnl'. eexists. reflexivity.
    + destruct (raise_for_status r0) as [[]|e] eqn:Hrfs; [discriminate|].
      rewrite Hnl'. rewrite (raise_for_status_not_proxy _ _ Hrfs).
      eexists. simpl. rewrite Hrfs. reflexivity.
  - change (seq a (S (S n))) with (a :: seq (S a) (S n)).
    cbn [retry_loop]. unfold try_request.
    destruct (acquire_succeeds st) as (s & evs & st1 & -> & Hh & _ & Ht & Hi & Hs & Hr).
    unfold supported in Hm. rewrite Hm, Hh.
    pose proof (Hfail 0%nat ltac:(lia)) as Hf0. rewrite Nat.add_0_r in Hf0.
    assert (Hnl : (a <? max_retries - 1)%nat = true) by (apply Nat.ltb_lt; lia).
    assert (Hnl' : (max_retries - 1 <=? a)%nat = false) by (apply Nat.leb_gt; lia).
    assert (Hshift : ∀ st2, http_calls st2 = S (http_calls st1) →
              (∀ i, (i <= n)%nat → outcome_fails (http w (http_calls st2 + i)) = true)
              ∧ http w (http_calls st2 + n) = http w (http_calls st + S n)).
    { intros st2 Hc2. rewrite Hc2, Hh. split.
      - intros i Hi'. replace (S (http_calls st) + i)%nat
          with (http_calls st + S i)%nat by lia. apply Hfail. lia.
      - f_equal. lia. }
    destruct (http w (http_calls st)) as [e| |r0] eqn:Hout; simpl in Hf0.
    + rewrite Hnl'.
      match goal with |- context [retry_loop _ _ _ _ _ _ ?st2] =>
        assert (Hc2 : http_calls st2 = S (http_calls st1))
          by apply http_calls_after_failure;
        destruct (Hshift st2 Hc2) as [Hf2 Hg2];
        destruct (IH (S a) st2 ltac:(lia) Hf2) as (st' & ->)
      end.
      rewrite Hg2. by eexists.
    + rewrite Hnl.
      match goal with |- context [retry_loop _ _ _ _ _ _ ?st2] =>
        assert (Hc2 : http_calls st2 = S (http_calls st1)) by reflexivity;
        destruct (Hshift st2 Hc2) as [Hf2 Hg2];
        destruct (IH (S a) st2 ltac:(lia) Hf2) as (st' & ->)
      end.
      rewrite Hg2. by eexists.
    + destruct (raise_for_status r0) as [[]|e] eqn:Hrfs; [discriminate|].
      rewrite Hnl'.
      match goal with |- context [retry_loop _ _ _ _ _ _ ?st2] =>
        assert (Hc2 : http_calls st2 = S (http_calls st1))
          by apply http_calls_after_failure;
        destruct (Hshift st2 Hc2) as [Hf2 Hg2];
        destruct (IH (S a) st2 ltac:(lia) Hf2) as (st' & ->)
      end.
      rewrite Hg2. by eexists.
Qed.

Lemma raising_failures_all from k :
  (∀ i, (i < k)%nat → outcome_raises (http w (from + i)) = true) →
  raising_failures w from k = k.
Proof.
  revert from. induction k as [|k IH]; intros from Hall; [reflexivity|].
  rewrite raising_failures_S.
  pose proof (Hall 0%nat ltac:(lia)) as H0. rewrite Nat.add_0_r in H0. rewrite H0.
  rewrite IH; [reflexivity|].
  intros i Hi. replace (S from + i)%nat with (from + S i)%nat by lia. apply Hall. lia.
Qed.

Lemma raising_failures_none from k :
  (∀ i, (i < k)%nat → http w (from + i) = HttpNone) →
  raising_failures w from k = 0%nat.
Proof.
  revert from. induction k as [|k IH]; intros from Hall; [reflexivity|].
  rewrite raising_failures_S.
  pose proof (Hall 0%nat ltac:(lia)) as H0. rewrite Nat.add_0_r in H0. rewrite H0.
  rewrite IH; [reflexivity|].
  intros i Hi. replace (S from + i)%nat with (from + S i)%nat by lia. apply Hall. lia.
Qed.

End RetryLoop.

(** C6 (as amended).  With a supported method and a session manager that
    can build sessions: if the first [k < max_retries] attempts fail and
    attempt [k+1] gets a response without an error status, the loop returns
    that response at once, after [k+1] requests and [k] sleeps of the fixed
    delay, and it has forced a new session once for every failed attempt
    that raised (a raised error or a 4xx/5xx status): [k] times when all
    failures raise, not at all for attempts that handed back [None].  If
    all [max_retries >= 1] attempts fail, the loop raises a final error
    whose message ends with the text of the last failure. *)
Theorem make_request_with_retry_recovers (w : Scraper.world)
    (method url : string) (max_retries retry_delay : nat) (st : Scraper.state) :
  (∀ n, Scraper.session_creation w n = true) →
  Scraper.supported method →
  (∀ k r,
     (k < max_retries)%nat →
     (∀ i, (i < k)%nat →
           Scraper.outcome_fails (Scraper.http w (Scraper.http_calls st + i)) = true) →
     Scraper.http w (Scraper.http_calls st + k) = HttpResponse r →
     raise_for_status r = Ret tt →
     ∃ st' evs,
       Scraper.make_request_with_retry w method url max_retries retry_delay st = (Ret r, st')
       ∧ Scraper.trace st' = (Scraper.trace st ++ evs)%list
       ∧ Scraper.count Scraper.is_request evs = S k
       ∧ Scraper.count Scraper.is_sleep evs = k
       ∧ Scraper.count (Scraper.is_sleep_of retry_delay) evs = k
       ∧ Scraper.count Scraper.is_invalidation evs
         = Scraper.raising_failures w (Scraper.http_calls st) k
       ∧ ((∀ i, (i < k)%nat →
                Scraper.outcome_raises (Scraper.http w (Scraper.http_calls st + i)) = true) →
          Scraper.count Scraper.is_invalidation evs = k)
       ∧ ((∀ i, (i < k)%nat →
                Scraper.http w (Scraper.http_calls st + i) = HttpNone) →
          Scraper.count Scraper.is_invalidation evs = 0%nat))
  ∧ ((1 <= max_retries)%nat →
     (∀ i, (i < max_retries)%nat →
           Scraper.outcome_fails (Scraper.http w (Scraper.http_calls st + i)) = true) →
     ∃ st',
       Scraper.make_request_with_retry w method url max_retries retry_delay st
       = (Raise (plain ("Request failed after " ++ pretty max_retries ++ " attempts: "
                        ++ Scraper.failure_text url
                             (Scraper.http w (Scraper.http_calls st + (max_retries - 1))))),
          st')).
Proof.
  intros Hcreate Hm. split.
  - intros k r Hk Hfail Hgood Hok.
    destruct (retry_loop_fails_then_succeeds w Hcreate method url max_retries retry_delay r
                Hm Hok k 0%nat st ltac:(lia) Hfail Hgood)
      as (st' & evs & Hrun & Ht & Hi & Hs & Hsd & Hr & Hh).
    exists st', evs. unfold Scraper.make_request_with_retry.
    rewrite Nat.sub_0_r in Hrun. rewrite Hrun.
    repeat split; try assumption.
    + intros Hall. rewrite Hi. by apply raising_failures_all.
    + intros Hall. rewrite Hi. by apply raising_failures_none.
  - intros Hpos Hfail. unfold Scraper.make_request_with_retry.
    destruct max_retries as [|n]; [lia|].
    destruct (retry_loop_all_fail w Hcreate method url (S n) retry_delay Hm n 0%nat st
                ltac:(lia) ltac:(intros i Hi; apply Hfail; lia)) as (st' & Hrun).
    exists st'. rewrite Hrun. repeat f_equal. lia.
Qed.

(** ** Closed instances *)

Lemma managed_session_budget_witness :
  Scraper.run_steps Examples.world_all_ok (replicate 101 Scraper.Acquire) Scraper.empty_cell
  = ((replicate 100 (Some 0%nat) ++ [Some 1%nat])%list,
     {| Scraper.global_requests_session := Some 1%nat;
        Scraper.requests_session_use_count := 1;
        Scraper.sessions_built := 2;
        Scraper.http_calls := 0;
        Scraper.error_log := [];
        Scraper.trace := [Scraper.Created 0%nat; Scraper.Closed 0%nat;
                          Scraper.Created 1%nat] |}).
Proof.
  exact (proj1 (proj2 (proj2
    (managed_session_budget Examples.world_all_ok eq_refl eq_refl)))).
Defined.

Lemma make_request_with_retry_recovers_witness :
  ∃ st' evs,
    Scraper.make_request_with_retry Examples.world_proxy_error_then_ok
      "GET" "https://cna.oab.org.br/Home/Search" 4 5 Scraper.empty_cell
    = (Ret Examples.ok_response, st')
    ∧ Scraper.trace st' = (Scraper.trace Scraper.empty_cell ++ evs)%list
    ∧ Scraper.count Scraper.is_request evs = 2%nat
    ∧ Scraper.count (Scraper.is_sleep_of 5) evs = 1%nat
    ∧ Scraper.count Scraper.is_invalidation evs = 1%nat.
Proof.
  destruct (make_request_with_retry_recovers Examples.world_proxy_error_then_ok
              "GET" "https://cna.oab.org.br/Home/Search" 4 5 Scraper.empty_cell
              (λ _, eq_refl) eq_refl) as [Hrecover _].
  destruct (Hrecover 1%nat Examples.ok_response) as
    (st' & evs & Hrun & Ht & Hr & _ & Hsd & _ & Hall & _).
  - lia.
  - intros [|i] Hi; [reflexivity|lia].
  - reflexivity.
  - reflexivity.
  - exists st', evs. repeat split; try assumption.
    apply Hall. intros [|i] Hi; [reflexivity|lia].
Defined.

(** C6, as stated, fails when an attempt fails by handing back [None]: the
    first attempt fails, the second succeeds, and the session was not
    renewed in between. *)
Lemma make_request_with_retry_none_keeps_session :
  Scraper.outcome_fails (Scraper.http Examples.world_none_then_ok 0) = true
  ∧ Scraper.make_request_with_retry Examples.world_none_then_ok
      "GET" "https://cna.oab.org.br/Home/Search" 4 5 Scraper.empty_cell
    = (Ret Examples.ok_response,
       {| Scraper.global_requests_session := Some 0%nat;
          Scraper.requests_session_use_count := 2;
          Scraper.sessions_built := 1;
          Scraper.http_calls := 2;
          Scraper.error_log := [];
          Scraper.trace := [Scraper.Created 0%nat; Scraper.Requested 0%nat;
                            Scraper.Slept 5; Scraper.Requested 0%nat] |})
  ∧ Scraper.count Scraper.is_invalidation
      (Scraper.trace (snd (Scraper.make_request_with_retry Examples.world_none_then_ok
         "GET" "https://cna.oab.org.br/Home/Search" 4 5 Scraper.empty_cell))) ≠ 1%nat.
Proof.
  split; [reflexivity|]. split; [reflexivity|]. vm_compute. discriminate.
Qed.

(** ** The HTML field extraction *)








(** ** Rendering a partnership page *)

(** The dictionary of [extract_modal_data] has seven keys: it is never
    empty, so the branch for a failed extraction is never taken. *)
Lemma modal_data_truthy m : truthy (json_of_modal_data m) = true.
Proof. reflexivity. Qed.

(** Where the loop of the first script stands after [n] attempts. *)
Lemma retry_delay_modal_loop_never_raises render clock url max_retries retry_delay :
  ∀ n a slept,
    (a + S n = max_retries)%nat →
    ∃ v slept',
      RetryDelay.modal_loop render clock url max_retries retry_delay (seq a (S n)) slept
        = (Ret v, slept')
      ∧ ((∃ attempt modal, (attempt < max_retries)%nat
                           ∧ render attempt = Rendered modal
                           ∧ v = modal_success (clock attempt) url (extract_modal_data modal))
         ∨ ((∀ attempt, (a <= attempt < max_retries)%nat →
                        ∀ modal, render attempt ≠ Rendered modal)
            ∧ ∃ error, v = modal_failure (clock (max_retries - 1)%nat) url error)).
Proof.
  induction n as [|n IH]; intros a slept Hlen.
  - assert (Hlast : (a <? max_retries - 1)%nat = false) by (apply Nat.ltb_ge; lia).
    assert (Ha : a = (max_retries - 1)%nat) by lia.
    cbn [seq RetryDelay.modal_loop]. rewrite Hlast.
    destruct (render a) as [e|e|modal] eqn:Hr.
    + destruct (is_timeout e); eexists; eexists; (split; [reflexivity|]); right;
        (split; [intros attempt Hat modal; replace attempt with a by lia; congruence
                |rewrite <- Ha; by eexists]).
    + destruct (is_timeout e); eexists; eexists; (split; [reflexivity|]); right;
        (split; [intros attempt Hat modal; replace attempt with a by lia; congruence
                |rewrite <- Ha; by eexists]).
    + rewrite modal_data_truthy. eexists; eexists. split; [reflexivity|].
      left. exists a, modal. split; [lia|]. by split.
  - assert (Hmore : (a <? max_retries - 1)%nat = true) by (apply Nat.ltb_lt; lia).
    change (seq a (S (S n))) with (a :: seq (S a) (S n)).
    cbn [RetryDelay.modal_loop]. rewrite Hmore.
    assert (Hnext : ∀ slept1 : list nat, render a ≠ Rendered (Soup.Text "") →
      (∀ modal, render a ≠ Rendered modal) →
      ∃ v slept',
        RetryDelay.modal_loop render clock url max_retries retry_delay
          (seq (S a) (S n)) slept1 = (Ret v, slept')
        ∧ ((∃ attempt modal, (attempt < max_retries)%nat
                             ∧ render attempt = Rendered modal
                             ∧ v = modal_success (clock attempt) url (extract_modal_data modal))
           ∨ ((∀ attempt, (a <= attempt < max_retries)%nat →
                          ∀ modal, render attempt ≠ Rendered modal)
              ∧ ∃ error, v = modal_failure (clock (max_retries - 1)%nat) url error))).
    { intros slept1 _ Hnot.
      destruct (IH (S a) slept1 ltac:(lia)) as (v & slept' & Hrun & Hcases).
      exists v, slept'. split; [exact Hrun|].
      destruct Hcases as [Hok|[Hall Herr]]; [by left|right].
      split; [|exact Herr].
      intros attempt Hat modal. destruct (decide (attempt = a)) as [->|Hne].
      - apply Hnot.
      - apply Hall. lia. }
    destruct (render a) as [e|e|modal] eqn:Hr.
    + destruct (is_timeout e); apply Hnext; congruence.
    + destruct (is_timeout e); apply Hnext; congruence.
    + rewrite modal_data_truthy. eexists; eexists. split; [reflexivity|].
      left. exists a, modal. split; [lia|]. by split.
Qed.

(** In the first script, whatever the render attempts meet, the function
    returns a dictionary: the extraction, or the structured failure with
    [content_loaded] false, an error text and a success score of zero. *)
Lemma retry_delay_get_modal_data_never_raises render clock url max_wait max_retries
    retry_delay :
  (1 <= max_retries)%nat →
  ∃ v slept,
    RetryDelay.get_modal_data_with_selenium render clock url max_wait max_retries retry_delay
      = (Ret v, slept)
    ∧ ((∃ attempt modal, (attempt < max_retries)%nat
                         ∧ render attempt = Rendered modal
                         ∧ v = modal_success (clock attempt) url (extract_modal_data modal))
       ∨ ((∀ attempt, (attempt < max_retries)%nat →
                      ∀ modal, render attempt ≠ Rendered modal)
          ∧ ∃ error, v = modal_failure (clock (max_retries - 1)%nat) url error
                     ∧ PyOps.getitem v "content_loaded" = Ret (JBool false)
                     ∧ PyOps.getitem v "error" = Ret (JStr error)
                     ∧ PyOps.getitem v "extraction_success" = Ret (JNum 0))).
Proof.
  intros Hpos. unfold RetryDelay.get_modal_data_with_selenium.
  destruct max_retries as [|n]; [lia|].
  destruct (retry_delay_modal_loop_never_raises render clock url (S n) retry_delay
              n 0%nat [] ltac:(lia)) as (v & slept & Hrun & Hcases).
  exists v, slept. split; [exact Hrun|].
  destruct Hcases as [Hok|[Hall (error & ->)]]; [by left|right].
  split; [intros attempt Hat; apply Hall; lia|].
  exists error. by repeat split.
Qed.

(** Timeouts on every attempt, in request_lawyers_fix_state.py. *)
Lemma fix_state_modal_loop_timeouts render clock url max_retries retry_delay :
  ∀ n a slept,
    (a + S n = max_retries)%nat →
    (∀ attempt, (a <= attempt < max_retries)%nat →
                ∃ e, render attempt = RenderRaises e ∧ is_timeout e = true) →
    FixState.modal_loop render clock url max_retries retry_delay (seq a (S n)) slept
      = (Raise (raise_of NameError "name 'e' is not defined"),
         (slept ++ replicate n retry_delay)%list).
Proof.
  induction n as [|n IH]; intros a slept Hlen Hall.
  - assert (Hlast : (a <? max_retries - 1)%nat = false) by (apply Nat.ltb_ge; lia).
    destruct (Hall a ltac:(lia)) as (e & Hr & He).
    cbn [seq FixState.modal_loop]. rewrite Hr, He, Hlast. simpl.
    by rewrite app_nil_r.
  - assert (Hmore : (a <? max_retries - 1)%nat = true) by (apply Nat.ltb_lt; lia).
    destruct (Hall a ltac:(lia)) as (e & Hr & He).
    change (seq a (S (S n))) with (a :: seq (S a) (S n)).
    cbn [FixState.modal_loop]. rewrite Hr, He, Hmore.
    rewrite IH by (try lia; intros attempt Hat; apply Hall; lia).
    simpl. by rewrite <- app_assoc.
Qed.

(** C4, in request_lawyers_fix_state.py: when the wait for the modal times
    out on every attempt, the function does not return the structured
    failure: its last handler raises [NameError]; and an exception that is
    not a timeout leaves the function at the first attempt. *)
Theorem fix_state_get_modal_data_exception_escapes
    (render : nat → render_outcome) (clock : nat → string) (url : string)
    (max_wait max_retries retry_delay : nat) :
  (1 <= max_retries)%nat →
  ((∀ attempt, (attempt < max_retries)%nat →
               ∃ e, render attempt = RenderRaises e ∧ is_timeout e = true) →
   FixState.get_modal_data_with_selenium render clock url max_wait max_retries retry_delay
   = (Raise (raise_of NameError "name 'e' is not defined"),
      replicate (max_retries - 1)%nat retry_delay))
  ∧ (∀ e, render 0%nat = RenderRaises e → is_timeout e = false →
          FixState.get_modal_data_with_selenium render clock url max_wait max_retries
            retry_delay
          = (Raise e, [])).
Proof.
  intros Hpos. destruct max_retries as [|n]; [lia|]. split.
  - intros Hall. unfold FixState.get_modal_data_with_selenium.
    rewrite (fix_state_modal_loop_timeouts render clock url (S n) retry_delay n 0%nat [])
      by (try lia; intros attempt Hat; apply Hall; lia).
    simpl. by rewrite Nat.sub_0_r.
  - intros e Hr He. unfold FixState.get_modal_data_with_selenium.
    cbn [seq FixState.modal_loop]. by rewrite Hr, He.
Qed.

(** ** Reasoning about the enrichment pipeline *)

Section Triples.
Import Pipeline.
Implicit Types (Inv : state → Prop) (E : exn → Prop).

Lemma triple_ret {A} Inv (a : A) (Q : A → Prop) E : Q a → triple Inv (ret a) Q E.
Proof. intros Hq st Hi. by split. Qed.

Lemma triple_raise {A} Inv (e : exn) (Q : A → Prop) E : E e → triple Inv (raise e) Q E.
Proof. intros He st Hi. by split. Qed.

Lemma triple_lift {A} Inv (r : res A) (Q : A → Prop) E :
  (∀ a, r = Ret a → Q a) → (∀ e, r = Raise e → E e) → triple Inv (lift r) Q E.
Proof. intros Hq He st Hi. unfold lift. destruct r; split; auto. Qed.

Lemma triple_bind {A B} Inv (m : M A) (k : A → M B) (P : A → Prop) (Q : B → Prop) E :
  triple Inv m P E → (∀ a, P a → triple Inv (k a) Q E) → triple Inv (bind m k) Q E.
Proof.
  intros Hm Hk st Hi. unfold bind. specialize (Hm st Hi).
  destruct (m st) as [[a|e] st']; [|exact Hm].
  destruct Hm as [Hp Hi']. by apply Hk.
Qed.

Lemma triple_weaken {A} Inv (m : M A) (Q Q' : A → Prop) E E' :
  triple Inv m Q E → (∀ a, Q a → Q' a) → (∀ e, E e → E' e) → triple Inv m Q' E'.
Proof.
  intros Hm Hq He st Hi. specialize (Hm st Hi).
  destruct (m st) as [[a|e] st']; destruct Hm; split; auto.
Qed.

Lemma triple_try_except {A} Inv (body : M A) (handler : exn → M A) (Q : A → Prop) E1 E2 :
  triple Inv body Q E1 → (∀ e, E1 e → triple Inv (handler e) Q E2) →
  triple Inv (try_except body handler) Q E2.
Proof.
  intros Hb Hh st Hi. unfold try_except. specialize (Hb st Hi).
  destruct (body st) as [[a|e] st']; [exact Hb|].
  destruct Hb as [He Hi']. by apply Hh.
Qed.

Lemma triple_for_each_attempt {A} Inv (body : nat → M (flow A)) (after : M A)
    (Q : A → Prop) E attempts :
  (∀ attempt, triple Inv (body attempt) (flow_post Q) E) →
  triple Inv after Q E →
  triple Inv (for_each_attempt body after attempts) Q E.
Proof.
  intros Hbody Hafter. induction attempts as [|attempt rest IH]; [exact Hafter|].
  cbn [for_each_attempt]. eapply triple_bind; [apply Hbody|].
  intros [a|] Hf; [by apply triple_ret|exact IH].
Qed.

End Triples.

Section Effects.
Import Pipeline.
Implicit Types (Inv : state → Prop) (E : exn → Prop).

Lemma triple_sleep Inv E seconds :
  on_heap Inv → triple Inv (sleep seconds) (λ _, True) E.
Proof. intros HI st Hi. hnf. simpl. split; [done|]. eapply HI; [|exact Hi]; reflexivity. Qed.

Lemma triple_log_error Inv E msg :
  on_heap Inv → triple Inv (log_error msg) (λ _, True) E.
Proof. intros HI st Hi. hnf. simpl. split; [done|]. eapply HI; [|exact Hi]; reflexivity. Qed.

Lemma triple_new_session Inv E w :
  on_heap Inv → triple Inv (new_session w) (λ _, True) E.
Proof. intros HI st Hi. hnf. simpl. split; [done|]. eapply HI; [|exact Hi]; reflexivity. Qed.

Lemma triple_next_http Inv E w :
  on_heap Inv →
  triple Inv (next_http w) (λ o, ∃ n, http w n = o) E.
Proof. intros HI st Hi. hnf. simpl. split; [by eexists|]. eapply HI; [|exact Hi]; reflexivity. Qed.

Lemma triple_record_get Inv E l key :
  triple Inv (record_get l key) (λ _, True) E.
Proof. intros st Hi. hnf. by split. Qed.

Lemma triple_record_get_default Inv E l key dflt :
  triple Inv (record_get_default l key dflt) (λ _, True) E.
Proof. intros st Hi. hnf. by split. Qed.

Lemma triple_record_getitem Inv E l key :
  (∀ e, exn_class_of e = KeyError → E e) →
  triple Inv (record_getitem l key) (λ _, True) E.
Proof.
  intros He st Hi. unfold record_getitem.
  destruct (default ∅ (heap st !! l) !! key); split; auto.
Qed.

Lemma triple_gather Inv E schedule runs :
  on_heap Inv → triple Inv (gather schedule runs) (λ _, True) E.
Proof.
  intros HI st Hi. unfold gather. split; [done|].
  eapply HI; [|exact Hi]. unfold apply_tasks.
  generalize (early_tasks runs
              ++ finish_order schedule 0 (pending_tasks runs) (length (pending_tasks runs)))%list.
  intros order. revert st Hi. induction order as [|i order IH]; intros st Hi; [done|].
  simpl. destruct (runs !! i); simpl; rewrite IH; auto.
  eapply HI; [|exact Hi]. reflexivity.
Qed.

Lemma triple_process_results Inv E results :
  on_heap Inv → (∀ v e, result_line v = Raise e → E e) →
  ∀ i acc, triple Inv (process_results i results acc) (λ _, True) E.
Proof.
  intros HI HE. induction results as [|[v|e] rest IH]; intros i acc.
  - by apply triple_ret.
  - cbn [process_results]. destruct (is_none v); [apply IH|]. cbv zeta.
    eapply triple_bind with (P := λ _, True); [|intros _ _; apply IH].
    apply triple_lift; [done|]. apply HE.
  - cbn [process_results]. eapply triple_bind; [by apply triple_log_error|].
    intros _ _. apply IH.
Qed.

End Effects.

(** *** What the operations on values raise *)

Section Ordinary.
Import Pipeline.

Lemma ordinary_benign e : ordinary e → benign e.
Proof. unfold ordinary, benign. by intros ->. Qed.

Lemma plain_ordinary msg : ordinary (plain msg).
Proof. reflexivity. Qed.

Lemma getitem_ordinary v key e : PyOps.getitem v key = Raise e → ordinary e.
Proof. unfold PyOps.getitem. repeat case_match; intros [= <-]; reflexivity. Qed.

Lemma getitem_0_ordinary v e : PyOps.getitem_0 v = Raise e → ordinary e.
Proof. unfold PyOps.getitem_0. repeat case_match; intros [= <-]; reflexivity. Qed.

Lemma attr_get_ordinary v key e : PyOps.attr_get v key = Raise e → ordinary e.
Proof. unfold PyOps.attr_get. repeat case_match; intros [= <-]; reflexivity. Qed.

Lemma contains_key_ordinary key v e : PyOps.contains_key key v = Raise e → ordinary e.
Proof. unfold PyOps.contains_key. repeat case_match; intros [= <-]; reflexivity. Qed.

Lemma len_ordinary v e : PyOps.len v = Raise e → ordinary e.
Proof. unfold PyOps.len. repeat case_match; intros [= <-]; reflexivity. Qed.

Lemma iter_ordinary v e : PyOps.iter v = Raise e → ordinary e.
Proof. unfold PyOps.iter. repeat case_match; intros [= <-]; reflexivity. Qed.

Lemma str_strip_ordinary v e : PyOps.str_strip v = Raise e → ordinary e.
Proof. unfold PyOps.str_strip. repeat case_match; intros [= <-]; reflexivity. Qed.

Lemma str_concat_ordinary prefix v e : PyOps.str_concat prefix v = Raise e → ordinary e.
Proof. unfold PyOps.str_concat. repeat case_match; intros [= <-]; reflexivity. Qed.

Lemma res_bind_ordinary {A B} (r : res A) (k : A → res B) e :
  (∀ e', r = Raise e' → ordinary e') →
  (∀ a e', k a = Raise e' → ordinary e') →
  PyOps.res_bind r k = Raise e → ordinary e.
Proof.
  intros Hr Hk. destruct r as [a|e']; simpl.
  - apply Hk.
  - intros [= <-]. by apply Hr.
Qed.

Lemma result_line_ordinary v e : result_line v = Raise e → ordinary e.
Proof.
  unfold result_line.
  repeat (apply res_bind_ordinary; [intros ?; apply getitem_ordinary|intros ? ?]).
  discriminate.
Qed.

Lemma basic_info_of_ordinary soc e : basic_info_of soc = Raise e → ordinary e.
Proof.
  unfold basic_info_of.
  repeat (apply res_bind_ordinary; [intros ?; apply getitem_ordinary|intros ? ?]).
  discriminate.
Qed.

Lemma basic_info_all_ordinary socs e : basic_info_all socs = Raise e → ordinary e.
Proof.
  revert e. induction socs as [|soc rest IH]; intros e; [discriminate|].
  cbn [basic_info_all].
  apply res_bind_ordinary; [intros ?; apply basic_info_of_ordinary|intros ? ?].
  apply res_bind_ordinary; [exact IH|intros ? ?]. discriminate.
Qed.

End Ordinary.

(** *** The request loop and one pass of the enrichment loop *)

Section SearchAttempt.
Import Pipeline.
Context (py_repr : json → string) (w : world) (schedule : nat → nat).
Context (guarded_session sets_state : bool) (number_key : string)
        (persist_may_raise : bool)
        (fetch : (nat → render_outcome) → (nat → string) →
                 string → nat → nat → nat → res json * list nat).
Context (Inv : state → Prop) (Hheap : on_heap Inv).

Ltac bind_effect lem :=
  eapply triple_bind; [by apply lem|intros ? ?].

(** [make_request_with_retry] hands back a response of the environment, or
    raises a plain [Exception]. *)
Lemma triple_request_attempt guarded method url max_retries retry_delay attempt :
  triple Inv (request_attempt w guarded method url max_retries retry_delay attempt)
    (flow_post (λ r, ∃ n, http w n = HttpResponse r))
    (λ e, ∃ msg, e = plain msg).
Proof.
  unfold request_attempt. eapply triple_try_except with (E1 := λ _, True).
  - eapply triple_bind with (P := λ _, True).
    + unfold get_requests_session_with_proxy. bind_effect triple_new_session.
      destruct a as [e|]; [destruct guarded|]; by constructor || by apply triple_ret
        || by apply triple_raise.
    + intros session _. destruct (negb session).
      * destruct (attempt <? max_retries - 1)%nat.
        -- bind_effect triple_sleep. by apply triple_ret.
        -- by apply triple_raise.
      * destruct (String.eqb (upper method) "POST" || String.eqb (upper method) "GET");
          [|by apply triple_raise].
        eapply triple_bind; [by apply triple_next_http|].
        intros [e| |r] [n Hn].
        -- by apply triple_raise.
        -- destruct (attempt <? max_retries - 1)%nat.
           ++ bind_effect triple_sleep. by apply triple_ret.
           ++ by apply triple_raise.
        -- eapply triple_bind with (P := λ _, True); [by apply triple_lift|].
           intros _ _. apply triple_ret. simpl. by exists n.
  - intros e _. simpl. destruct (max_retries - 1 <=? attempt)%nat.
    + apply triple_raise. by eexists.
    + bind_effect triple_sleep. by apply triple_ret.
Qed.

Lemma triple_make_request_with_retry guarded method url max_retries retry_delay :
  triple Inv (make_request_with_retry w guarded method url max_retries retry_delay)
    (λ r, ∃ n, http w n = HttpResponse r)
    (λ e, ∃ msg, e = plain msg).
Proof.
  unfold make_request_with_retry. apply triple_for_each_attempt.
  - intros attempt. apply triple_request_attempt.
  - apply triple_raise. by eexists.
Qed.

(** From here on: a record that the invariant allows to be written at the
    keys of the loop, and the assumption [Wb] that decoding a response of
    the environment never raises an exception that passes for an expired
    session. *)
Context (enhanced_record : nat).
Context (Hset : ∀ key v st, writes key v → Inv st →
                Inv (snd (setitem enhanced_record key v st))).

Lemma triple_setitem key v E :
  writes key v → triple Inv (setitem enhanced_record key v) (λ _, True) E.
Proof. intros Hkey st Hi. hnf. split; [done|]. by apply (Hset key v st). Qed.

Ltac by_writes :=
  split; [by_evaluation|];
  repeat split; intros Hk; try discriminate Hk; try reflexivity; by eexists.

Ltac lift_ordinary lem :=
  eapply triple_bind with (P := λ _, True);
    [apply triple_lift; [done|intros ? He _; apply ordinary_benign; revert He; apply lem]
    |intros ? _].

Ltac run_effect lem :=
  eapply triple_bind with (P := λ _, True); [by apply lem|intros ? _].

Ltac run_setitem :=
  eapply triple_bind with (P := λ _, True);
    [apply triple_setitem; by_writes|intros ? _].

Ltac run_request :=
  eapply triple_bind;
    [eapply triple_weaken;
       [apply triple_make_request_with_retry
       |intros ? Hr; exact Hr
       |intros ? [? ->] _; apply ordinary_benign, plain_ordinary]
    |intros ? [? ?]].

Ltac decode_response :=
  eapply triple_bind with (P := λ _, True);
    [apply triple_lift; [done|intros ? He Hw; by eapply Hw]|intros ? _].

Ltac read_full_name :=
  eapply triple_bind with (P := λ _, True);
    [apply triple_record_getitem; intros ? Hc _; apply ordinary_benign;
     unfold ordinary, is_request_exception; by rewrite Hc
    |intros ? _].

Lemma triple_gather_sociedades oab_number estado_correto socs :
  triple Inv
    (gather_sociedades py_repr w schedule number_key persist_may_raise fetch
       oab_number estado_correto enhanced_record socs)
    (λ _, True) (λ e, decoding_benign w → benign e).
Proof.
  unfold gather_sociedades.
  eapply triple_bind with (P := λ _, True).
  { destruct socs; [by apply triple_ret|].
    run_effect triple_record_get.
    destruct (truthy a); [by apply triple_ret|].
    apply triple_record_getitem. intros e Hc _. apply ordinary_benign.
    unfold ordinary, is_request_exception. by rewrite Hc. }
  intros lawyer_name _.
  run_effect triple_gather.
  eapply triple_bind with (P := λ _, True).
  { apply triple_process_results; [done|].
    intros v e He _. apply ordinary_benign. revert He. apply result_line_ordinary. }
  intros complete_details _.
  apply triple_setitem. by_writes.
Qed.

(** One pass of the loop never raises; when it returns, it returns the
    enriched record, and it reports the session as valid unless decoding a
    response raised something that passes for an expired session. *)
Lemma triple_search_attempt oab_number estado_correto max_retries retry_delay attempt :
  triple Inv
    (search_attempt py_repr w schedule guarded_session number_key persist_may_raise fetch
       oab_number estado_correto enhanced_record max_retries retry_delay attempt)
    (flow_post (λ p, fst p = enhanced_record ∧ (decoding_benign w → snd p = true)))
    (λ _, False).
Proof.
  unfold search_attempt.
  eapply triple_try_except with (E1 := λ e, decoding_benign w → benign e).
  - run_request. decode_response.
    lift_ordinary getitem_ordinary.
    eapply triple_bind with (P := λ _, True).
    { destruct (truthy a1); [|by apply triple_ret].
      lift_ordinary getitem_ordinary. by apply triple_ret. }
    intros found _. destruct (negb found).
    { destruct (attempt <? max_retries - 1)%nat.
      - run_effect triple_sleep. by apply triple_ret.
      - run_effect triple_log_error. apply triple_ret. by split. }
    lift_ordinary getitem_ordinary. lift_ordinary getitem_0_ordinary.
    lift_ordinary attr_get_ordinary.
    run_effect triple_record_get_default.
    lift_ordinary str_strip_ordinary.
    eapply triple_bind with (P := λ _, True).
    { destruct (truthy a4); [|by apply triple_ret].
      lift_ordinary str_strip_ordinary.
      match goal with |- triple _ (if ?c then _ else _) _ _ => destruct c end;
        [apply triple_setitem; by_writes|by apply triple_ret]. }
    intros _ _.
    lift_ordinary getitem_ordinary. lift_ordinary str_concat_ordinary.
    run_setitem.
    run_request. decode_response.
    lift_ordinary getitem_ordinary.
    eapply triple_bind with (P := λ _, True).
    { match goal with |- triple _ (if ?c then _ else _) _ _ => destruct c end;
        [|by apply triple_ret].
      lift_ordinary getitem_ordinary.
      apply triple_lift; [done|].
      intros e He _. apply ordinary_benign. revert He. apply contains_key_ordinary. }
    intros has_section _. destruct (negb has_section).
    { read_full_name. apply triple_ret. by split. }
    lift_ordinary getitem_ordinary. lift_ordinary getitem_ordinary.
    eapply triple_bind with (P := λ _, True).
    { match goal with |- triple _ (if ?c then _ else _) _ _ => destruct c end;
        [by apply triple_ret|].
      lift_ordinary len_ordinary. by apply triple_ret. }
    intros none_listed _. destruct none_listed.
    { read_full_name. apply triple_ret. by split. }
    run_setitem.
    lift_ordinary iter_ordinary. lift_ordinary basic_info_all_ordinary.
    run_setitem.
    eapply triple_bind with (P := λ _, True); [apply triple_gather_sociedades|].
    intros _ _. apply triple_ret. by split.
  - intros e He. simpl.
    destruct (is_request_exception e) eqn:Hreq.
    + destruct (session_expired e) eqn:Hexp.
      * apply triple_ret. split; [done|]. intros Hw.
        specialize (He Hw). unfold benign in He. rewrite Hreq, Hexp in He. discriminate.
      * destruct (attempt <? max_retries - 1)%nat.
        -- run_effect triple_sleep. by apply triple_ret.
        -- run_effect triple_log_error. apply triple_ret. by split.
    + destruct (attempt <? max_retries - 1)%nat.
      * run_effect triple_sleep. by apply triple_ret.
      * run_effect triple_log_error. apply triple_ret. by split.
Qed.

End SearchAttempt.

(** ** The enrichment of one record *)

Section Search.
Import Pipeline.
Context (py_repr : json → string) (w : world) (schedule : nat → nat).
Context (guarded_session sets_state : bool) (number_key : string)
        (persist_may_raise : bool)
        (fetch : (nat → render_outcome) → (nat → string) →
                 string → nat → nat → nat → res json * list nat).

Lemma triple_setitem_any l key v E :
  triple (λ _, True) (setitem l key v) (λ _, True) E.
Proof. intros st _. hnf. by split. Qed.

(** The call never raises, and unless decoding a response raises something
    that passes for an expired session, it reports the session as valid. *)
Lemma triple_search_lawyer_with_updates oab_number estado_correto cookies token
    original_record max_retries retry_delay :
  triple (λ _, True)
    (search_lawyer_with_updates py_repr w schedule guarded_session sets_state
       number_key persist_may_raise fetch oab_number estado_correto cookies token
       original_record max_retries retry_delay)
    (λ p, decoding_benign w → snd p = true) (λ _, False).
Proof.
  unfold search_lawyer_with_updates.
  eapply triple_bind with (P := λ _, True).
  { intros st0 _. hnf. by split. }
  intros enhanced_record _.
  do 6 (eapply triple_bind with (P := λ _, True); [apply triple_setitem_any|intros _ _]).
  eapply triple_bind with (P := λ _, True).
  { destruct sets_state; [apply triple_setitem_any|by apply triple_ret]. }
  intros _ _. apply triple_for_each_attempt.
  - intros attempt. eapply triple_weaken.
    + apply (triple_search_attempt py_repr w schedule guarded_session number_key
               persist_may_raise fetch (λ _, True)); [done|done].
    + intros [[l b]|]; simpl; [|done]. by intros [_ Hb].
    + done.
  - by apply triple_ret.
Qed.

Lemma search_lawyer_with_updates_flag oab_number estado_correto cookies token
    original_record max_retries retry_delay st :
  decoding_benign w →
  ∃ l st',
    search_lawyer_with_updates py_repr w schedule guarded_session sets_state number_key
      persist_may_raise fetch oab_number estado_correto cookies token original_record
      max_retries retry_delay st
    = (Ret (l, true), st').
Proof.
  intros Hw.
  pose proof (triple_search_lawyer_with_updates oab_number estado_correto cookies token
                original_record max_retries retry_delay st Logic.I) as Ht.
  destruct (search_lawyer_with_updates py_repr w schedule guarded_session sets_state
              number_key persist_may_raise fetch oab_number estado_correto cookies token
              original_record max_retries retry_delay st) as [[[l b]|e] st'].
  - destruct Ht as [Hb _]. simpl in Hb. rewrite (Hb Hw).
    eexists; eexists; reflexivity.
  - by destruct Ht.
Qed.

End Search.

(** C3, on the code: the handler that answers [False] for an expired
    session tests a [RequestException], but [make_request_with_retry] turns
    every failure of a request (a 401, 403 or 419 status included) into a
    plain [Exception].  So whatever the requests do, and as long as the
    decoding of a response does not itself raise something that passes for
    an expired session, the second component of the result is true. *)
Theorem search_lawyer_with_updates_reports_session_valid
    (py_repr : json → string) (w : Pipeline.world) (schedule : nat → nat)
    (insc state cookies token : json) (original_record max_retries retry_delay : nat)
    (st : Pipeline.state) :
  Pipeline.decoding_benign w →
  ∃ l st',
    RetryDelay.search_lawyer_with_updates py_repr w schedule insc state cookies token
      original_record max_retries retry_delay st
    = (Ret (l, true), st').
Proof.
  intros Hw. unfold RetryDelay.search_lawyer_with_updates.
  by apply search_lawyer_with_updates_flag.
Qed.

(** ** The copy, the region and the frame of the enrichment *)

Section Frame.
Import Pipeline.

Lemma bind_copy_record {A} l (f : nat → M A) st :
  bind (copy_record l) f st
  = f (length (heap st)) (set_heap (heap st ++ [default ∅ (heap st !! l)])%list st).
Proof. reflexivity. Qed.

(** Writing a key of the record that was allocated last. *)
Lemma bind_setitem_last {A} h r key v (f : unit → M A) st :
  heap st = (h ++ [r])%list →
  bind (setitem (length h) key v) f st
  = f tt (set_heap (h ++ [<[key := v]> r])%list st).
Proof.
  intros Hh. unfold bind, setitem. rewrite Hh.
  rewrite list_lookup_middle by reflexivity. simpl.
  rewrite insert_app_r_alt by lia. rewrite Nat.sub_diag. reflexivity.
Qed.

Lemma loop_keys_enrichment_fields key : key ∈ loop_keys → key ∈ enrichment_fields.
Proof.
  unfold loop_keys. intros Hkey.
  repeat (apply elem_of_cons in Hkey as [->|Hkey]; [by_evaluation|]).
  by apply elem_of_nil in Hkey.
Qed.

Lemma enriched_from_on_heap st0 record estado :
  on_heap (enriched_from st0 record estado).
Proof. intros st st' Hh. unfold enriched_from. by rewrite Hh. Qed.

Lemma enriched_from_start st record estado (others : gmap string json) :
  (∀ key, key ∉ enrichment_fields → key ≠ "state" → others !! key = record !! key) →
  others !! "state" = Some estado →
  ∀ st1, heap st1 = (heap st ++ [others])%list → enriched_from st record estado st1.
Proof.
  intros Hframe Hstate st1 Hh. unfold enriched_from. rewrite Hh. split; [|split].
  - rewrite length_app. simpl. lia.
  - intros j Hj. by rewrite lookup_app_l.
  - exists others. split; [|done]. by apply list_lookup_middle.
Qed.

(** The writes of the loop keep the region and the frame. *)
Lemma enriched_from_setitem st0 record estado key v st :
  key ∈ loop_keys →
  enriched_from st0 record estado st →
  enriched_from st0 record estado (snd (setitem (length (heap st0)) key v st)).
Proof.
  intros Hkey (Hlen & Hothers & enhanced & Hl & Hstate & Hframe).
  unfold setitem, enriched_from. simpl. rewrite Hl. simpl.
  split; [by rewrite length_insert|]. split.
  - intros j Hj. rewrite list_lookup_insert_ne by lia. by apply Hothers.
  - exists (<[key := v]> enhanced). split.
    + apply list_lookup_insert_eq. lia.
    + split.
      * rewrite lookup_insert_ne; [exact Hstate|].
        intros ->. revert Hkey. by_evaluation.
      * intros k Hk Hks. rewrite lookup_insert_ne; [by apply Hframe|].
        intros ->. by apply Hk, loop_keys_enrichment_fields.
Qed.

End Frame.

Section Overwrite.
Import Pipeline.
Context (py_repr : json → string) (w : world) (schedule : nat → nat).
Context (guarded_session : bool) (number_key : string)
        (persist_may_raise : bool)
        (fetch : (nat → render_outcome) → (nat → string) →
                 string → nat → nat → nat → res json * list nat).

(** With the region written ([sets_state] is true), the call returns the
    record it allocated, and the store is the one it found with that record
    added. *)
Lemma search_lawyer_with_updates_frame oab_number estado_correto cookies token
    original_record max_retries retry_delay st record :
  heap st !! original_record = Some record →
  ∃ b st',
    search_lawyer_with_updates py_repr w schedule guarded_session true number_key
      persist_may_raise fetch oab_number estado_correto cookies token original_record
      max_retries retry_delay st
    = (Ret (length (heap st), b), st')
    ∧ enriched_from st record estado_correto st'.
Proof.
  intros Hrec. unfold search_lawyer_with_updates.
  rewrite bind_copy_record. rewrite Hrec. cbn [default].
  do 7 (erewrite bind_setitem_last by reflexivity; cbv beta).
  match goal with
  | |- ∃ b st', for_each_attempt ?body ?after ?l ?s = _ ∧ _ =>
      assert (enriched_from st record estado_correto s) as Hstart;
      [|assert (triple (enriched_from st record estado_correto)
                  (for_each_attempt body after l)
                  (λ p, fst p = length (heap st)) (λ _, False)) as Ht;
        [|specialize (Ht s Hstart);
          destruct (for_each_attempt body after l s) as [[[l' b]|e] st']]]
  end.
  - eapply enriched_from_start; [| |reflexivity].
    + intros key Hkey Hstate.
      rewrite lookup_insert_ne by (intros <-; done).
      rewrite !lookup_insert_ne; [done|intros <-; apply Hkey; by_evaluation..].
    + apply lookup_insert_eq.
  - apply triple_for_each_attempt; [|by apply triple_ret].
    intros attempt. eapply triple_weaken.
    + apply (triple_search_attempt py_repr w schedule guarded_session number_key
               persist_may_raise fetch (enriched_from st record estado_correto)).
      * apply enriched_from_on_heap.
      * intros key v st1 [Hkey _]. by apply enriched_from_setitem.
    + intros [[l b]|]; simpl; [|done]. by intros [Hl _].
    + done.
  - destruct Ht as [Hl Hinv]. simpl in Hl. subst l'. by exists b, st'.
  - by destruct Ht as [[] _].
Qed.

End Overwrite.

(** C10: in request_lawyers_fix_state.py, [search_lawyer_with_updates]
    called on a stored record always returns (it never raises), and what it
    returns is a record allocated by the call, distinct from every record
    of the store it found: the input record and all the other records are
    left as they were.  The returned record carries the region code that
    was passed in under [state], whichever way the call ends (search miss,
    exhausted retries, success), and outside the six enrichment fields and
    [state] it has the fields of the input record with their values. *)
Theorem search_lawyer_with_updates_overwrites_state_only
    (py_repr : json → string) (w : Pipeline.world) (schedule : nat → nat)
    (oab_number estado_correto cookies token : json)
    (original_record max_retries retry_delay : nat)
    (st : Pipeline.state) (record : gmap string json) :
  Pipeline.heap st !! original_record = Some record →
  ∃ enhanced_record session_still_valid st' enhanced,
    FixState.search_lawyer_with_updates py_repr w schedule oab_number estado_correto
      cookies token original_record max_retries retry_delay st
    = (Ret (enhanced_record, session_still_valid), st')
    ∧ enhanced_record ≠ original_record
    ∧ Pipeline.heap st !! enhanced_record = None
    ∧ Pipeline.heap st' !! enhanced_record = Some enhanced
    ∧ enhanced !! "state" = Some estado_correto
    ∧ (∀ key, key ∉ Pipeline.enrichment_fields → key ≠ "state" →
              enhanced !! key = record !! key)
    ∧ Pipeline.heap st' !! original_record = Some record
    ∧ (∀ j other, Pipeline.heap st !! j = Some other →
                  Pipeline.heap st' !! j = Some other).
Proof.
  intros Hrec. unfold FixState.search_lawyer_with_updates.
  destruct (search_lawyer_with_updates_frame py_repr w schedule false "lawyer_oab_number"
              false FixState.get_modal_data_with_selenium oab_number estado_correto
              cookies token original_record max_retries retry_delay st record Hrec)
    as (b & st' & Hrun & Hlen & Hothers & enhanced & Hl & Hstate & Hframe).
  exists (length (Pipeline.heap st)), b, st', enhanced.
  pose proof (lookup_lt_Some _ _ _ Hrec) as Hlt.
  split; [exact Hrun|]. split; [lia|]. split; [by apply lookup_ge_None_2|].
  split; [exact Hl|]. split; [exact Hstate|]. split; [exact Hframe|]. split.
  - by rewrite Hothers.
  - intros j other Hj. rewrite Hothers; [done|]. by eapply lookup_lt_Some.
Qed.

(** The theorem at the record of the examples, stored alone, when the
    registry answers every request with 401. *)
Lemma search_lawyer_with_updates_overwrites_state_only_witness :
  ∃ enhanced_record session_still_valid st' enhanced,
    FixState.search_lawyer_with_updates no_repr Examples.world_unauthorized (λ n, n)
      (JStr "185929") (JStr "SP") JNull JNull 0 3 2 (Pipeline.initial [Examples.lawyer])
    = (Ret (enhanced_record, session_still_valid), st')
    ∧ enhanced_record ≠ 0%nat
    ∧ Pipeline.heap (Pipeline.initial [Examples.lawyer]) !! enhanced_record = None
    ∧ Pipeline.heap st' !! enhanced_record = Some enhanced
    ∧ enhanced !! "state" = Some (JStr "SP")
    ∧ (∀ key, key ∉ Pipeline.enrichment_fields → key ≠ "state" →
              enhanced !! key = Examples.lawyer !! key)
    ∧ Pipeline.heap st' !! 0%nat = Some Examples.lawyer
    ∧ (∀ j other, Pipeline.heap (Pipeline.initial [Examples.lawyer]) !! j = Some other →
                  Pipeline.heap st' !! j = Some other).
Proof.
  apply (search_lawyer_with_updates_overwrites_state_only no_repr
           Examples.world_unauthorized (λ n, n) (JStr "185929") (JStr "SP") JNull JNull
           0 3 2 (Pipeline.initial [Examples.lawyer]) Examples.lawyer).
  reflexivity.
Defined.

(** ** The fan-out over the partnerships *)

Section FanOut.
Import Pipeline.

Lemma finish_order_Permutation pick fuel : ∀ step pending,
  length pending = fuel → finish_order pick step pending fuel ≡ₚ pending.
Proof.
  induction fuel as [|fuel IH]; intros step pending Hlen.
  - by destruct pending.
  - cbn [finish_order].
    assert (pick step mod length pending < length pending)%nat as Hj
      by (apply Nat.mod_upper_bound; lia).
    destruct (lookup_lt_is_Some_2 _ _ Hj) as [i Hi]. rewrite Hi.
    etrans; [|symmetry; apply (delete_Permutation pending _ i Hi)].
    constructor. apply IH. rewrite length_delete by eauto. lia.
Qed.

Lemma task_order_Permutation pick runs :
  (early_tasks runs
   ++ finish_order pick 0 (pending_tasks runs) (length (pending_tasks runs)))%list
  ≡ₚ seq 0 (length runs).
Proof.
  rewrite finish_order_Permutation by reflexivity.
  unfold early_tasks, pending_tasks. apply filter_app_complement.
Qed.

Lemma apply_tasks_heap runs order st : heap (apply_tasks runs order st) = heap st.
Proof.
  revert st. induction order as [|i order IH]; intros st; [done|].
  unfold apply_tasks in *. simpl. rewrite IH. by destruct (runs !! i).
Qed.

Lemma apply_tasks_error_log runs order st :
  error_log (apply_tasks runs order st)
  = (error_log st ++ concat (map (λ i, from_option task_log [] (runs !! i)) order))%list.
Proof.
  revert st. induction order as [|i order IH]; intros st.
  - simpl. by rewrite app_nil_r.
  - unfold apply_tasks in *. simpl. rewrite IH.
    destruct (runs !! i); simpl; [by rewrite <- app_assoc|done].
Qed.

Lemma task_logs_in_order (runs : list task_run) : ∀ k,
  concat (map (λ i, from_option task_log [] (runs !! (i - k)%nat)) (seq k (length runs)))
  = concat (map task_log runs).
Proof.
  induction runs as [|run runs IH]; intros k; [done|].
  simpl. rewrite Nat.sub_diag. simpl. f_equal.
  rewrite <- (IH (S k)). f_equal. apply map_ext_in. intros i Hi.
  apply in_seq in Hi. replace (i - k)%nat with (S (i - S k)) by lia. done.
Qed.

Lemma gather_spec pick runs st :
  ∃ st', gather pick runs st = (Ret (map task_result runs), st')
         ∧ heap st' = heap st
         ∧ ∃ logged, error_log st' = (error_log st ++ logged)%list
                     ∧ logged ≡ₚ concat (map task_log runs).
Proof.
  unfold gather. eexists. split; [reflexivity|]. split; [apply apply_tasks_heap|].
  eexists. split; [apply apply_tasks_error_log|].
  rewrite task_order_Permutation.
  rewrite <- (task_logs_in_order runs 0).
  erewrite (map_ext (λ i, from_option task_log [] (runs !! (i - 0)%nat)));
    [reflexivity|].
  intros i. by rewrite Nat.sub_0_r.
Qed.

Lemma successful_Ret v rest :
  successful (Ret v :: rest) = if is_none v then successful rest else v :: successful rest.
Proof. unfold successful. simpl. by destruct (is_none v). Qed.

Lemma successful_Raise e rest : successful (Raise e :: rest) = successful rest.
Proof. reflexivity. Qed.

Lemma process_results_spec results : ∀ i acc st,
  Forall has_line results →
  ∃ st', process_results i results acc st = (Ret (acc ++ successful results)%list, st')
         ∧ heap st' = heap st
         ∧ error_log st' = (error_log st ++ async_errors i results)%list.
Proof.
  induction results as [|[v|e] rest IH]; intros i acc st Hlines.
  - exists st. simpl. by rewrite !app_nil_r.
  - apply Forall_cons in Hlines as [Hline Hlines].
    cbn [process_results async_errors]. rewrite successful_Ret.
    destruct (is_none v) eqn:Hnone; [by apply IH|]. cbv zeta.
    destruct (Hline Hnone) as [line Hl]. rewrite Hl. unfold bind, lift.
    destruct (IH (S i) (acc ++ [v])%list st Hlines) as (st' & Hrun & Hh & Hlog).
    exists st'. rewrite Hrun. by rewrite <- app_assoc.
  - apply Forall_cons in Hlines as [_ Hlines].
    cbn [process_results async_errors]. rewrite successful_Raise. unfold bind, log_error.
    match goal with |- ∃ st', process_results _ _ _ ?s = _ ∧ _ =>
      destruct (IH (S i) acc s Hlines) as (st' & Hrun & Hh & Hlog) end.
    exists st'. rewrite Hrun. split; [done|]. split; [done|].
    rewrite Hlog. simpl. by rewrite <- app_assoc.
Qed.

Context (py_repr : json → string) (w : world) (schedule : nat → nat).
Context (number_key : string) (persist_may_raise : bool)
        (fetch : (nat → render_outcome) → (nat → string) →
                 string → nat → nat → nat → res json * list nat).

Lemma final_result_of_not_none i sociedade state insc lawyer_name final_url modal_data
    final_result filename :
  final_result_of py_repr w number_key i sociedade state insc lawyer_name final_url
    modal_data = Ret (final_result, filename) →
  is_none final_result = false.
Proof.
  unfold final_result_of, PyOps.res_bind.
  repeat case_match; try discriminate. by intros [= <- _].
Qed.

Lemma final_result_of_has_line i sociedade state insc lawyer_name final_url modal_data
    final_result filename :
  final_result_of py_repr w number_key i sociedade state insc lawyer_name final_url
    modal_data = Ret (final_result, filename) →
  ∃ line, result_line final_result = Ret line.
Proof.
  unfold final_result_of, PyOps.res_bind.
  repeat case_match; try discriminate. intros [= <- _]. by eexists.
Qed.

Lemma sociedade_failed_has_line sociedade early slept e :
  has_line (task_result (sociedade_failed py_repr sociedade early slept e)).
Proof.
  unfold sociedade_failed. destruct (PyOps.getitem sociedade "Insc"); simpl; [|done].
  discriminate.
Qed.

(** What a fetch task hands back is [None] or a result with the fields of
    the printed line. *)
Lemma process_sociedade_async_has_line i sociedade state insc lawyer_name :
  has_line (task_result (process_sociedade_async py_repr w number_key persist_may_raise
                           fetch i sociedade state insc lawyer_name)).
Proof.
  unfold process_sociedade_async.
  repeat case_match; subst; try apply sociedade_failed_has_line;
    try (simpl; discriminate).
  all: simpl; intros _;
    match goal with
    | H : final_result_of _ _ _ _ _ _ _ _ _ _ = Ret _ |- _ =>
        by apply final_result_of_has_line in H
    end.
Qed.

Lemma sociedade_failed_logs sociedade early slept e v :
  task_result (sociedade_failed py_repr sociedade early slept e) = Ret v →
  task_log (sociedade_failed py_repr sociedade early slept e) ≠ [].
Proof. unfold sociedade_failed. by destruct (PyOps.getitem sociedade "Insc"). Qed.

(** A fetch task that hands back [None] has written to the error log. *)
Lemma process_sociedade_async_none_logged i sociedade state insc lawyer_name v :
  let run := process_sociedade_async py_repr w number_key persist_may_raise fetch
               i sociedade state insc lawyer_name in
  task_result run = Ret v → is_none v = true → task_log run ≠ [].
Proof.
  intros run. subst run. unfold process_sociedade_async.
  repeat case_match; subst;
    try (intros Hr _; revert Hr; apply sociedade_failed_logs);
    try (simpl; intros [= <-]; done).
  all: simpl; intros [= <-] Hn;
    match goal with
    | H : final_result_of _ _ _ _ _ _ _ _ _ _ = Ret _ |- _ =>
        apply final_result_of_not_none in H; congruence
    end.
Qed.

Lemma bind_run {A B} (m : M A) (k : A → M B) st a st1 :
  m st = (Ret a, st1) → bind m k st = k a st1.
Proof. intros Hm. unfold bind. by rewrite Hm. Qed.

Lemma async_errors_lookup results : ∀ k i e,
  results !! i = Some (Raise e) →
  ("Async error processing sociedade " ++ pretty (k + i)%nat ++ ": " ++ exn_msg e)
    ∈ async_errors k results.
Proof.
  induction results as [|r rest IH]; intros k i e Hi; [done|].
  destruct i as [|i].
  - simpl in Hi. injection Hi as ->. simpl. rewrite Nat.add_0_r. left.
  - simpl in Hi. replace (k + S i)%nat with (S k + i)%nat by lia.
    destruct r; cbn [async_errors]; [|right]; by apply IH.
Qed.

Lemma gather_sociedades_spec oab_number estado_correto enhanced_record socs st
    (record : gmap string json) (full_name : json) :
  socs ≠ [] →
  heap st !! enhanced_record = Some record →
  (truthy (dict_get record "corrected_full_name") = false →
   record !! "full_name" = Some full_name) →
  let lawyer_name :=
    if truthy (dict_get record "corrected_full_name")
    then dict_get record "corrected_full_name" else full_name in
  let runs :=
    imap (λ i sociedade,
            process_sociedade_async py_repr w number_key persist_may_raise fetch
              i sociedade estado_correto oab_number lawyer_name) socs in
  ∃ st' logged,
    gather_sociedades py_repr w schedule number_key persist_may_raise fetch
      oab_number estado_correto enhanced_record socs st = (Ret tt, st')
    ∧ heap st'
      = <[enhanced_record :=
            <["society_complete_details" := JList (successful (map task_result runs))]>
              record]> (heap st)
    ∧ error_log st'
      = (error_log st ++ logged ++ async_errors 0 (map task_result runs))%list
    ∧ logged ≡ₚ concat (map task_log runs).
Proof.
  intros Hsocs Hrec Hname lawyer_name runs. unfold gather_sociedades.
  assert ((match socs with
           | [] => ret JNull
           | _ =>
               let* corrected := record_get enhanced_record "corrected_full_name" in
               if truthy corrected then ret corrected
               else record_getitem enhanced_record "full_name"
           end) st = (Ret lawyer_name, st)) as Hlawyer.
  { destruct socs; [done|]. unfold bind, record_get, record_getitem, ret.
    rewrite Hrec. change (default ∅ (Some record)) with record. subst lawyer_name.
    destruct (truthy (dict_get record "corrected_full_name")); [done|].
    rewrite Hrec. change (default ∅ (Some record)) with record. by rewrite Hname. }
  rewrite (bind_run _ _ _ _ _ Hlawyer). fold runs.
  destruct (gather_spec schedule runs st) as (st1 & Hg & Hh1 & logged & Hlog1 & Hperm).
  rewrite (bind_run _ _ _ _ _ Hg).
  destruct (process_results_spec (map task_result runs) 0 [] st1)
    as (st2 & Hp & Hh2 & Hlog2).
  { change (map task_result runs) with (task_result <$> runs).
    apply Forall_fmap, Forall_lookup. intros i run Hi. subst runs.
    rewrite list_lookup_imap in Hi. destruct (socs !! i); [|discriminate].
    injection Hi as <-. apply process_sociedade_async_has_line. }
  rewrite (bind_run _ _ _ _ _ Hp).
  unfold setitem. eexists _, logged. split; [reflexivity|].
  cbn [heap error_log set_heap]. rewrite Hh2, Hh1, Hrec, Hlog2, Hlog1.
  split; [done|]. split; [by rewrite <- app_assoc|done].
Qed.
End FanOut.

(** C7: the block of [search_lawyer_with_updates] that fans out one fetch
    task per partnership stub, in both scripts (they differ in [number_key],
    [persist_may_raise] and the fetch, which are arbitrary here).  For a
    non-empty list of stubs and a record whose lawyer name can be read, the
    block ends normally whatever the tasks did and in whatever order
    [schedule] lets them finish; it leaves under [society_complete_details]
    exactly the results that are neither an exception nor [None], in the
    order of the stubs; and every other task has left a line in the error
    log: the line of the loop over the results when it raised, a line of its
    own when it handed back [None]. *)
Theorem fan_out_stores_successes_in_stub_order
    (py_repr : json → string) (w : Pipeline.world) (schedule : nat → nat)
    (number_key : string) (persist_may_raise : bool)
    (fetch : (nat → render_outcome) → (nat → string) →
             string → nat → nat → nat → res json * list nat)
    (oab_number estado_correto : json) (enhanced_record : nat) (socs : list json)
    (st : Pipeline.state) (record : gmap string json) (full_name : json) :
  socs ≠ [] →
  Pipeline.heap st !! enhanced_record = Some record →
  (truthy (dict_get record "corrected_full_name") = false →
   record !! "full_name" = Some full_name) →
  let lawyer_name :=
    if truthy (dict_get record "corrected_full_name")
    then dict_get record "corrected_full_name" else full_name in
  let runs :=
    imap (λ i sociedade,
            Pipeline.process_sociedade_async py_repr w number_key persist_may_raise fetch
              i sociedade estado_correto oab_number lawyer_name) socs in
  ∃ st',
    Pipeline.gather_sociedades py_repr w schedule number_key persist_may_raise fetch
      oab_number estado_correto enhanced_record socs st = (Ret tt, st')
    ∧ Pipeline.heap st'
      = <[enhanced_record :=
            <["society_complete_details" :=
                JList (Pipeline.successful (map Pipeline.task_result runs))]> record]>
          (Pipeline.heap st)
    ∧ ∀ i run, runs !! i = Some run →
        match Pipeline.task_result run with
        | Raise e =>
            ("Async error processing sociedade " ++ pretty i ++ ": " ++ exn_msg e)
              ∈ Pipeline.error_log st'
        | Ret v =>
            is_none v = true →
            ∃ msg, msg ∈ Pipeline.task_log run ∧ msg ∈ Pipeline.error_log st'
        end.
Proof.
  intros Hsocs Hrec Hname lawyer_name runs.
  destruct (gather_sociedades_spec py_repr w schedule number_key persist_may_raise fetch
              oab_number estado_correto enhanced_record socs st record full_name
              Hsocs Hrec Hname) as (st' & logged & Hrun & Hheap & Hlog & Hperm).
  fold lawyer_name in Hrun, Hheap, Hlog, Hperm. fold runs in Hheap, Hlog, Hperm.
  exists st'. split; [exact Hrun|]. split; [exact Hheap|].
  intros i run Hi. rewrite Hlog. destruct (Pipeline.task_result run) as [v|e] eqn:Hres.
  - intros Hnone. subst runs. rewrite list_lookup_imap in Hi.
    destruct (socs !! i) as [sociedade|] eqn:Hsoc; [|discriminate].
    injection Hi as Hi.
    pose proof (process_sociedade_async_none_logged py_repr w number_key persist_may_raise
                  fetch i sociedade estado_correto oab_number lawyer_name v) as Hlogged.
    cbv zeta in Hlogged. rewrite Hi in Hlogged. specialize (Hlogged Hres Hnone).
    destruct (Pipeline.task_log run) as [|msg others] eqn:Htl; [done|].
    exists msg. split; [by left|].
    apply elem_of_app. right. apply elem_of_app. left. rewrite Hperm.
    apply list_elem_of_In, in_concat. exists (Pipeline.task_log run). split.
    + apply in_map, list_elem_of_In, (list_elem_of_lookup_2 _ i).
      rewrite list_lookup_imap, Hsoc. simpl. by rewrite Hi.
    + rewrite Htl. by left.
  - apply elem_of_app. right. apply elem_of_app. right.
    apply (async_errors_lookup _ 0 i e).
    change (map Pipeline.task_result runs) with (Pipeline.task_result <$> runs).
    by rewrite list_lookup_fmap, Hi, <- Hres.
Qed.

(** ** Closed instances of the enrichment *)

(** The fan-out over the three partnerships of the examples, whose tasks
    finish out of order: the first modal never shows up. *)
Lemma fan_out_stores_successes_in_stub_order_witness :
  let lawyer_name :=
    if truthy (dict_get Examples.lawyer "corrected_full_name")
    then dict_get Examples.lawyer "corrected_full_name" else JStr "Ana Silva" in
  let runs :=
    imap (λ i sociedade,
            Pipeline.process_sociedade_async no_repr Examples.world_three_partnerships
              "lawyer_insc" true RetryDelay.get_modal_data_with_selenium
              i sociedade (JStr "SP") (JStr "185929") lawyer_name)
         Examples.partnership_stubs in
  ∃ st',
    Pipeline.gather_sociedades no_repr Examples.world_three_partnerships (λ _, 1%nat)
      "lawyer_insc" true RetryDelay.get_modal_data_with_selenium
      (JStr "185929") (JStr "SP") 0 Examples.partnership_stubs
      (Pipeline.initial [Examples.lawyer]) = (Ret tt, st')
    ∧ Pipeline.heap st'
      = <[0%nat :=
            <["society_complete_details" :=
                JList (Pipeline.successful (map Pipeline.task_result runs))]>
              Examples.lawyer]>
          (Pipeline.heap (Pipeline.initial [Examples.lawyer]))
    ∧ ∀ i run, runs !! i = Some run →
        match Pipeline.task_result run with
        | Raise e =>
            ("Async error processing sociedade " ++ pretty i ++ ": " ++ exn_msg e)
              ∈ Pipeline.error_log st'
        | Ret v =>
            is_none v = true →
            ∃ msg, msg ∈ Pipeline.task_log run ∧ msg ∈ Pipeline.error_log st'
        end.
Proof.
  apply (fan_out_stores_successes_in_stub_order no_repr Examples.world_three_partnerships
           (λ _, 1%nat) "lawyer_insc" true RetryDelay.get_modal_data_with_selenium
           (JStr "185929") (JStr "SP") 0 Examples.partnership_stubs
           (Pipeline.initial [Examples.lawyer]) Examples.lawyer (JStr "Ana Silva")).
  - discriminate.
  - reflexivity.
  - intros _. reflexivity.
Defined.

(** What the fan-out of the examples leaves in the record: the results for
    the second and the third partnership, in that order, and a line in the
    error log for the first. *)
Lemma fan_out_three_partnerships :
  let run :=
    RetryDelay.search_lawyer_with_updates no_repr Examples.world_three_partnerships
      (λ _, 1%nat) (JStr "185929") (JStr "SP") JNull JNull 0 4 2
      (Pipeline.initial [Examples.lawyer]) in
  fst run = Ret (1%nat, true)
  ∧ Pipeline.error_log (snd run)
    = ["Failed to get modal data for sociedade 100 after all retries"]
  ∧ (match Pipeline.heap (snd run) !! 1%nat with
     | Some enhanced =>
         match enhanced !! "society_complete_details" with
         | Some (JList details) =>
             map (λ v, PyOps.res_bind (PyOps.getitem v "basic_info")
                         (λ basic_info, PyOps.getitem basic_info "Insc")) details
         | _ => []
         end
     | None => []
     end) = [Ret (JStr "200"); Ret (JStr "300")].
Proof. by vm_compute. Qed.

(** The registry answers every request with 401: decoding never raises, and
    the call reports the session as valid. *)
Lemma search_lawyer_with_updates_reports_session_valid_witness :
  ∃ l st',
    RetryDelay.search_lawyer_with_updates no_repr Examples.world_unauthorized (λ n, n)
      (JStr "185929") (JStr "SP") JNull JNull 0 4 2 (Pipeline.initial [Examples.lawyer])
    = (Ret (l, true), st').
Proof.
  apply (search_lawyer_with_updates_reports_session_valid no_repr
           Examples.world_unauthorized (λ n, n) (JStr "185929") (JStr "SP") JNull JNull
           0 4 2 (Pipeline.initial [Examples.lawyer])).
  intros n r e [= <-]. discriminate.
Defined.

(** The same run, evaluated: sixteen requests (four calls of the search,
    each of four attempts), all answered with 401, and a result that tells
    the caller to keep its cookies and its token. *)
Lemma search_lawyer_with_updates_unauthorized_run :
  let run :=
    RetryDelay.search_lawyer_with_updates no_repr Examples.world_unauthorized (λ n, n)
      (JStr "185929") (JStr "SP") JNull JNull 0 4 2 (Pipeline.initial [Examples.lawyer]) in
  fst run = Ret (1%nat, true)
  ∧ Pipeline.http_calls (snd run) = 16%nat
  ∧ Pipeline.error_log (snd run)
    = ["Unexpected error for SP 185929: Request failed after 4 attempts: "
       ++ "401 Client Error: Unauthorized for url: https://cna.oab.org.br/Home/Search"].
Proof. by vm_compute. Qed.

(** ** Closed instances of the rendering and of the extraction *)

(** In request_lawyers_fix_state.py: four timeouts in a row end in a
    [NameError], after three delays; a failure of the browser that is not
    a timeout leaves the function at once. *)
Lemma fix_state_get_modal_data_exception_escapes_witness :
  FixState.get_modal_data_with_selenium (λ _, RenderRaises Examples.modal_timeout)
    (λ _, "2025-01-01T00:00:00.%fZ") "https://cna.oab.org.br/Home/Soc/100" 25 4 2
  = (Raise (raise_of NameError "name 'e' is not defined"), [2; 2; 2]%nat)
  ∧ FixState.get_modal_data_with_selenium
      (λ _, RenderRaises (raise_of WebDriverException "chrome not reachable"))
      (λ _, "2025-01-01T00:00:00.%fZ") "https://cna.oab.org.br/Home/Soc/100" 25 4 2
    = (Raise (raise_of WebDriverException "chrome not reachable"), []).
Proof.
  split.
  - refine (proj1 (fix_state_get_modal_data_exception_escapes
                     (λ _, RenderRaises Examples.modal_timeout)
                     (λ _, "2025-01-01T00:00:00.%fZ")
                     "https://cna.oab.org.br/Home/Soc/100" 25 4 2 _) _).
    + lia.
    + intros attempt _. exists Examples.modal_timeout. split; reflexivity.
  - refine (proj2 (fix_state_get_modal_data_exception_escapes
                     (λ _, RenderRaises (raise_of WebDriverException "chrome not reachable"))
                     (λ _, "2025-01-01T00:00:00.%fZ")
                     "https://cna.oab.org.br/Home/Soc/100" 25 4 2 _) _ _ _).
    + lia.
    + reflexivity.
    + reflexivity.
Defined.


(* ================================================================== *)
(** * Further properties of the scripts *)
(* ================================================================== *)

(** ** Region codes outside the region-correcting script *)



Lemma upper_char_alpha c : is_alpha_char c = true → is_upper_char (upper_char c) = true.
Proof. destruct c as [[] [] [] [] [] [] [] []]; vm_compute; congruence. Qed.

Lemma is_alpha_upper_char c : is_alpha_char (upper_char c) = is_alpha_char c.
Proof. by destruct c as [[] [] [] [] [] [] [] []]. Qed.

Lemma upper_char_upper c : is_upper_char c = true → upper_char c = c.
Proof. destruct c as [[] [] [] [] [] [] [] []]; vm_compute; congruence. Qed.

Lemma is_upper_alpha c : is_upper_char c = true → is_alpha_char c = true.
Proof. unfold is_alpha_char. by intros ->. Qed.

Lemma all_upper_keep_alpha s : all_upper (upper (keep_alpha s)) = true.
Proof.
  induction s as [|c s IH]; [done|]. simpl.
  destruct (is_alpha_char c) eqn:Hc; [|exact IH].
  simpl. by rewrite upper_char_alpha, IH.
Qed.

Lemma all_upper_take n s : all_upper s = true → all_upper (take_chars n s) = true.
Proof.
  revert s. induction n as [|n IH]; intros [|c s]; simpl; try done.
  intros [Hc Hs]%andb_true_iff. by rewrite Hc, IH.
Qed.

Lemma length_take_chars n s : (String.length (take_chars n s) <= n)%nat.
Proof.
  revert s. induction n as [|n IH]; intros [|c s]; simpl; try lia.
  specialize (IH s). lia.
Qed.

Lemma all_upper_fixed s : all_upper s = true → upper (keep_alpha s) = s.
Proof.
  induction s as [|c s IH]; [done|]. simpl.
  intros [Hc Hs]%andb_true_iff. rewrite (is_upper_alpha _ Hc). simpl.
  by rewrite (upper_char_upper _ Hc), IH.
Qed.

Lemma keep_alpha_upper s : keep_alpha (upper s) = upper (keep_alpha s).
Proof.
  induction s as [|c s IH]; [done|]. simpl.
  rewrite is_alpha_upper_char. destruct (is_alpha_char c); simpl; by rewrite IH.
Qed.

Section CleanState.
Context (py_repr : json → string).

Lemma clean_state_code state :
  truthy state = true →
  ∃ code, RetryDelay.clean_state py_repr state = JStr code
          ∧ (String.length code <= 2)%nat ∧ all_upper code = true.
Proof.
  intros Ht. unfold RetryDelay.clean_state. rewrite Ht. cbn [negb].
  set (cleaned := upper (keep_alpha (str py_repr state))).
  assert (all_upper cleaned = true) as Hup by apply all_upper_keep_alpha.
  eexists. split; [by destruct (bool_decide _)|].
  destruct (2 <? String.length cleaned)%nat eqn:Hlen.
  - split; [apply length_take_chars|by apply all_upper_take].
  - apply Nat.ltb_ge in Hlen. by split.
Qed.

Lemma clean_state_fixed code :
  (String.length code <= 2)%nat → all_upper code = true →
  RetryDelay.clean_state py_repr (JStr code) = JStr code.
Proof.
  intros Hlen Hup. unfold RetryDelay.clean_state.
  destruct (truthy (JStr code)) eqn:Ht; [|done]. cbn [negb str].
  rewrite (all_upper_fixed _ Hup).
  assert ((2 <? String.length code)%nat = false) as -> by (apply Nat.ltb_ge; lia).
  by destruct (bool_decide _).
Qed.
End CleanState.

(** X1.  [clean_state] hands a value without truth (None, the empty string,
    zero) back as it is; any other value becomes a string of at most two
    capital letters of the ASCII range, whether or not that string is one
    of the 27 codes; and cleaning a cleaned value changes nothing. *)
Theorem clean_state_normalises (py_repr : json → string) (state : json) :
  (truthy state = false → RetryDelay.clean_state py_repr state = state)
  ∧ (truthy state = true →
     ∃ code, RetryDelay.clean_state py_repr state = JStr code
             ∧ (String.length code <= 2)%nat ∧ all_upper code = true)
  ∧ RetryDelay.clean_state py_repr (RetryDelay.clean_state py_repr state)
    = RetryDelay.clean_state py_repr state.
Proof.
  split; [|split].
  - intros Ht. unfold RetryDelay.clean_state. by rewrite Ht.
  - apply clean_state_code.
  - destruct (truthy state) eqn:Ht.
    + destruct (clean_state_code py_repr state Ht) as (code & -> & Hlen & Hup).
      by apply clean_state_fixed.
    + unfold RetryDelay.clean_state at 2. rewrite Ht. simpl.
      unfold RetryDelay.clean_state. by rewrite Ht.
Qed.


Lemma cut_to_two s :
  (if (2 <=? String.length s)%nat then take_chars 2 s else s)
  = (if (2 <? String.length s)%nat then take_chars 2 s else s).
Proof.
  destruct (2 <? String.length s)%nat eqn:Hlt.
  - apply Nat.ltb_lt in Hlt. by assert ((2 <=? String.length s)%nat = true) as ->
      by (apply Nat.leb_le; lia).
  - apply Nat.ltb_ge in Hlt. destruct (2 <=? String.length s)%nat; [|done].
    by apply take_chars_short.
Qed.

(** X2.  On a string of the ASCII range (where the bytes of the embedding
    are the characters of the source), the strict cleaner of checker.py
    accepts a string with a code exactly when [clean_state] yields that
    code and the code is one of the 27: the two cleaners agree wherever the
    strict one answers. *)
Theorem clean_state_agrees_with_checker (py_repr : json → string) (s code : string) :
  all_ascii s = true →
  Checker.clean_and_validate_state s = Some code
  ↔ RetryDelay.clean_state py_repr (JStr s) = JStr code ∧ code ∈ valid_states.
Proof.
  intros _. unfold Checker.clean_and_validate_state, RetryDelay.clean_state.
  rewrite truthy_JStr, negb_involutive. destruct (String.eqb s "") eqn:Hs.
  - apply String.eqb_eq in Hs as ->. split; [done|].
    intros [[= <-] Hin]. revert Hin. by_evaluation.
  - cbn [str]. rewrite keep_alpha_upper, cut_to_two.
    set (cleaned := if (2 <? _)%nat then _ else _).
    destruct (bool_decide (cleaned ∈ valid_states)) eqn:Hv.
    + apply bool_decide_eq_true in Hv. split.
      * by intros [= <-].
      * by intros [[= <-] _].
    + apply bool_decide_eq_false in Hv. split; [done|].
      by intros [[= <-] Hin].
Qed.

Lemma clean_state_agrees_with_checker_witness :
  Checker.clean_and_validate_state "sp-1" = Some "SP"
  ↔ RetryDelay.clean_state no_repr (JStr "sp-1") = JStr "SP" ∧ "SP" ∈ valid_states.
Proof. apply (clean_state_agrees_with_checker no_repr "sp-1" "SP"). reflexivity. Defined.

(** ** File names *)


Lemma sanitize_clean s : PyOps.no_invalid_filename_char (PyOps.sanitize s) = true.
Proof.
  induction s as [|c s IH]; [done|]. cbn [PyOps.sanitize PyOps.no_invalid_filename_char].
  rewrite IH, andb_true_r.
  destruct (PyOps.is_invalid_filename_char c) eqn:Hc; [reflexivity|by rewrite Hc].
Qed.

Lemma sanitize_fixed s : PyOps.no_invalid_filename_char s = true → PyOps.sanitize s = s.
Proof.
  induction s as [|c s IH]; [done|]. cbn [PyOps.sanitize PyOps.no_invalid_filename_char].
  intros [Hc Hs]%andb_true_iff. apply negb_true_iff in Hc. by rewrite Hc, IH.
Qed.

Lemma sanitize_length s : String.length (PyOps.sanitize s) = String.length s.
Proof. induction s as [|c s IH]; [done|]. simpl. by rewrite IH. Qed.

(** X3.  [sanitize_filename] keeps the length of the name, leaves none of
    the nine characters it replaces, changes nothing in a name that has
    none of them, and is idempotent. *)
Theorem sanitize_filename_safe_and_idempotent (s : string) :
  ∃ name,
    PyOps.sanitize_filename (JStr s) = Ret name
    ∧ String.length name = String.length s
    ∧ PyOps.no_invalid_filename_char name = true
    ∧ PyOps.sanitize_filename (JStr name) = Ret name
    ∧ (PyOps.no_invalid_filename_char s = true → name = s).
Proof.
  exists (PyOps.sanitize s). split; [done|]. split; [apply sanitize_length|].
  split; [apply sanitize_clean|]. split.
  - simpl. f_equal. apply sanitize_fixed, sanitize_clean.
  - apply sanitize_fixed.
Qed.

(** ** Requests and fetch tasks of the enrichment scripts *)

Lemma prefix_append (s t : string) : String.prefix s (s ++ t) = true.
Proof.
  induction s as [|c s IH]; [by destruct t|]. simpl.
  destruct (ascii_dec c c); [exact IH|done].
Qed.

Lemma raise_for_status_ok r :
  raise_for_status r = Ret tt ↔ is_error_status (status_code r) = false.
Proof.
  unfold raise_for_status, is_error_status.
  destruct (400 <=? status_code r)%Z eqn:H4, (status_code r <? 500)%Z eqn:H5,
           (500 <=? status_code r)%Z eqn:H6, (status_code r <? 600)%Z eqn:H7;
    simpl; split; try done; lia.
Qed.

Section Requests.
Import Pipeline.
Context (w : world) (guarded : bool) (method url : string) (max_retries retry_delay : nat).


Lemma request_attempt_step attempt st :
  ∃ f st',
    request_attempt w guarded method url max_retries retry_delay attempt st = (f, st')
    ∧ sessions_built st' = S (sessions_built st)
    ∧ heap st' = heap st ∧ error_log st' = error_log st ∧ saved st' = saved st
    ∧ (http_calls st <= http_calls st' <= S (http_calls st))%nat
    ∧ (supported_method method = false → http_calls st' = http_calls st)
    ∧ match f with
      | Ret (Return r) =>
          slept st' = slept st ∧ http_calls st' = S (http_calls st)
          ∧ http w (http_calls st) = HttpResponse r ∧ raise_for_status r = Ret tt
      | Ret Continue =>
          slept st' = (slept st ++ [retry_delay])%list ∧ (attempt < max_retries - 1)%nat
      | Raise e =>
          slept st' = slept st ∧ (max_retries - 1 <= attempt)%nat
          ∧ ∃ msg, e = plain ("Request failed after " ++ pretty max_retries
                              ++ " attempts: " ++ msg)
      end.
Proof.
  cbv [request_attempt try_except bind get_requests_session_with_proxy new_session
       next_http sleep raise ret lift supported_method].
  pose proof (Nat.ltb_spec attempt (max_retries - 1)) as Hlt.
  pose proof (Nat.leb_spec (max_retries - 1) attempt) as Hle.
  destruct (session_failure w (sessions_built st)) as [e|]; [destruct guarded|];
    cbn [negb sessions_built http_calls error_log slept saved heap];
    destruct Hlt; destruct Hle; try lia;
    cbn [negb sessions_built http_calls error_log slept saved heap];
    destruct (String.eqb (upper method) "POST" || String.eqb (upper method) "GET");
    cbn [negb sessions_built http_calls error_log slept saved heap];
    try destruct (http w (http_calls st)) as [e'| |r] eqn:Hhttp;
    cbn [negb sessions_built http_calls error_log slept saved heap];
    try destruct (raise_for_status r) as [[]|e''] eqn:Hrfs;
    cbn [exn_msg plain raise_of sessions_built http_calls error_log slept saved heap];
    eexists _, _; (split; [reflexivity|]);
    cbn [sessions_built http_calls error_log slept saved heap];
    repeat split; try done; try lia; by eexists.
Qed.

Lemma request_loop_run k : ∀ a st,
  (a + k = max_retries)%nat →
  ∃ result st',
    for_each_attempt (request_attempt w guarded method url max_retries retry_delay)
      (raise (plain ("Request failed after " ++ pretty max_retries ++ " attempts")))
      (seq a k) st = (result, st')
    ∧ heap st' = heap st ∧ error_log st' = error_log st ∧ saved st' = saved st
    ∧ (sessions_built st <= sessions_built st' <= sessions_built st + k)%nat
    ∧ (http_calls st <= http_calls st' <= http_calls st + k)%nat
    ∧ (∃ j, slept st' = (slept st ++ replicate j retry_delay)%list ∧ (j <= k - 1)%nat)
    ∧ match result with
      | Ret r =>
          ∃ i, (http_calls st <= i < http_calls st')%nat
               ∧ http w i = HttpResponse r ∧ raise_for_status r = Ret tt
      | Raise e => ∃ msg, e = plain ("Request failed after " ++ msg)
      end.
Proof.
  induction k as [|k IH]; intros a st Hk.
  - eexists _, st. split; [reflexivity|]. repeat split; try lia.
    + exists 0%nat. split; [by rewrite app_nil_r|lia].
    + by eexists.
  - cbn [seq for_each_attempt]. unfold bind at 1.
    destruct (request_attempt_step a st)
      as (f & st1 & Hrun & Hs & Hh & Hl & Hf & Hc & _ & Hcase).
    rewrite Hrun. destruct f as [[r|]|e].
    + destruct Hcase as (Hsl & Hcalls & Hhttp & Hok).
      eexists _, st1. split; [reflexivity|]. repeat split; try done; try lia.
      * exists 0%nat. split; [by rewrite app_nil_r|lia].
      * exists (http_calls st). repeat split; try done; lia.
    + destruct Hcase as (Hsl & Hlt).
      destruct (IH (S a) st1 ltac:(lia))
        as (result & st' & Hrest & Hh' & Hl' & Hf' & Hs' & Hc' & (j & Hsl' & Hj) & Hres).
      exists result, st'. split; [exact Hrest|].
      rewrite Hh', Hl', Hf', Hh, Hl, Hf. repeat split; try lia.
      * exists (S j). split; [|lia]. rewrite Hsl', Hsl, <- app_assoc. done.
      * destruct result as [r|e]; [|exact Hres].
        destruct Hres as (i & Hi & Hres). exists i. split; [lia|exact Hres].
    + destruct Hcase as (Hsl & Hge & msg & ->).
      eexists _, st1. split; [reflexivity|]. repeat split; try done; try lia.
      * exists 0%nat. split; [by rewrite app_nil_r|lia].
      * by eexists.
Qed.

(** A method other than POST and GET: nothing is sent, but every attempt
    builds a session and all but the last one wait. *)
Lemma request_loop_unsupported :
  supported_method method = false → ∀ k a st, (a + k = max_retries)%nat →
  ∃ e st',
    for_each_attempt (request_attempt w guarded method url max_retries retry_delay)
      (raise (plain ("Request failed after " ++ pretty max_retries ++ " attempts")))
      (seq a k) st = (Raise e, st')
    ∧ http_calls st' = http_calls st
    ∧ sessions_built st' = (sessions_built st + k)%nat
    ∧ slept st' = (slept st ++ replicate (k - 1) retry_delay)%list.
Proof.
  intros Hm k. induction k as [|k IH]; intros a st Hk.
  - eexists _, st. split; [reflexivity|]. repeat split; [lia|by rewrite app_nil_r].
  - cbn [seq for_each_attempt]. unfold bind at 1.
    destruct (request_attempt_step a st)
      as (f & st1 & Hrun & Hs & Hh & Hl & Hf & Hc & Hnone & Hcase).
    rewrite Hrun. specialize (Hnone Hm). destruct f as [[r|]|e].
    + destruct Hcase as (_ & Hcalls & _). lia.
    + destruct Hcase as (Hsl & Hlt).
      destruct (IH (S a) st1 ltac:(lia)) as (e & st' & Hrest & Hc' & Hs' & Hsl').
      exists e, st'. split; [exact Hrest|]. split; [lia|]. split; [lia|].
      rewrite Hsl', Hsl, <- app_assoc. f_equal.
      destruct k as [|k]; [lia|]. simpl. by rewrite Nat.sub_0_r.
    + destruct Hcase as (Hsl & Hge & msg & ->). assert (k = 0)%nat as -> by lia.
      eexists _, st1. split; [reflexivity|]. split; [done|]. split; [lia|].
      rewrite Hsl. simpl. by rewrite app_nil_r.
Qed.
End Requests.

Section Task.
Import Pipeline.
Context (py_repr : json → string) (w : world).
Context (number_key : string) (persist_may_raise : bool)
        (fetch : (nat → render_outcome) → (nat → string) →
                 string → nat → nat → nat → res json * list nat).

Lemma final_result_of_insc i sociedade state insc lawyer_name final_url modal_data
    final_result filename soc_insc :
  PyOps.getitem sociedade "Insc" = Ret soc_insc →
  final_result_of py_repr w number_key i sociedade state insc lawyer_name final_url
    modal_data = Ret (final_result, filename) →
  is_none final_result = false
  ∧ PyOps.res_bind (PyOps.getitem final_result "basic_info")
      (λ basic_info, PyOps.getitem basic_info "Insc") = Ret soc_insc
  ∧ PyOps.getitem final_result "modal_data" = Ret modal_data.
Proof.
  intros Hinsc. unfold final_result_of. rewrite Hinsc. unfold PyOps.res_bind at 1 2 3 4 5.
  destruct (PyOps.getitem sociedade "NomeSoci"); [|discriminate].
  destruct (PyOps.getitem sociedade "IdtSoci"); [|discriminate].
  destruct (PyOps.getitem sociedade "SiglUf"); [|discriminate].
  destruct (PyOps.sanitize_filename soc_insc); [|discriminate].
  by intros [= <- _].
Qed.

Lemma process_sociedade_async_with_insc i sociedade state insc lawyer_name soc_insc :
  PyOps.getitem sociedade "Insc" = Ret soc_insc →
  let run := process_sociedade_async py_repr w number_key persist_may_raise fetch
               i sociedade state insc lawyer_name in
  (task_result run = Ret JNull ∧ length (task_log run) = 1%nat ∧ task_saved run = [])
  ∨ ∃ final_result,
      task_result run = Ret final_result
      ∧ is_none final_result = false
      ∧ PyOps.res_bind (PyOps.getitem final_result "basic_info")
          (λ basic_info, PyOps.getitem basic_info "Insc") = Ret soc_insc
      ∧ task_log run = []
      ∧ ((∃ filename, task_saved run = [(filename, final_result)])
         ∨ (persist_may_raise = false ∧ save_failure w i ≠ None ∧ task_saved run = [])).
Proof.
  intros Hinsc run. subst run. unfold process_sociedade_async, sociedade_failed.
  rewrite Hinsc.
  repeat case_match; subst; cbn [task_result task_log task_saved ended length];
    try (left; done).
  all: right;
    match goal with
    | H : final_result_of _ _ _ _ _ _ _ _ _ _ = Ret _ |- _ =>
        destruct (final_result_of_insc _ _ _ _ _ _ _ _ _ _ Hinsc H) as (Hn & Hb & _)
    end;
    eexists; repeat split; try done; try (left; by eexists); right; by repeat split.
Qed.

Lemma process_sociedade_async_without_insc i sociedade state insc lawyer_name e :
  PyOps.getitem sociedade "Insc" = Raise e →
  let run := process_sociedade_async py_repr w number_key persist_may_raise fetch
               i sociedade state insc lawyer_name in
  task_result run = Raise e ∧ task_early run = true
  ∧ task_log run = [] ∧ task_saved run = [] ∧ task_slept run = [].
Proof.
  intros Hinsc run. subst run. unfold process_sociedade_async, sociedade_failed.
  rewrite Hinsc. unfold PyOps.res_bind. by destruct (PyOps.getitem sociedade "NomeSoci").
Qed.
End Task.

(** X4.  [make_request_with_retry] of the two enrichment scripts: a response
    it returns is one the registry gave during the call and has no 4xx or
    5xx status; an exception it raises is a plain [Exception] (never a
    [RequestException]) whose text starts with "Request failed after ". *)
Theorem make_request_with_retry_outcome (w : Pipeline.world) (guarded : bool)
    (method url : string) (max_retries retry_delay : nat) (st : Pipeline.state) :
  match Pipeline.make_request_with_retry w guarded method url max_retries retry_delay st with
  | (Ret r, st') =>
      is_error_status (status_code r) = false
      ∧ ∃ i, (Pipeline.http_calls st <= i < Pipeline.http_calls st')%nat
             ∧ Pipeline.http w i = HttpResponse r
  | (Raise e, _) =>
      exn_class_of e = PlainException
      ∧ is_request_exception e = false
      ∧ String.prefix "Request failed after " (exn_msg e) = true
  end.
Proof.
  unfold Pipeline.make_request_with_retry.
  destruct (request_loop_run w guarded method url max_retries retry_delay
              max_retries 0%nat st eq_refl)
    as (result & st' & -> & _ & _ & _ & _ & _ & _ & Hres).
  destruct result as [r|e].
  - destruct Hres as (i & Hi & Hhttp & Hok). split; [by apply raise_for_status_ok|].
    by exists i.
  - destruct Hres as [msg ->]. split; [done|]. split; [done|]. apply prefix_append.
Qed.

(** X5.  One call of [make_request_with_retry] sends at most [max_retries]
    requests, builds at most [max_retries] sessions (a new one for each
    attempt), waits at most [max_retries - 1] times, each time for
    [retry_delay], and touches neither the records, nor the error log, nor
    the files. *)
Theorem make_request_with_retry_budget (w : Pipeline.world) (guarded : bool)
    (method url : string) (max_retries retry_delay : nat) (st : Pipeline.state) :
  let st' :=
    snd (Pipeline.make_request_with_retry w guarded method url max_retries retry_delay st) in
  (Pipeline.http_calls st <= Pipeline.http_calls st'
     <= Pipeline.http_calls st + max_retries)%nat
  ∧ (Pipeline.sessions_built st <= Pipeline.sessions_built st'
       <= Pipeline.sessions_built st + max_retries)%nat
  ∧ (∃ sleeps, Pipeline.slept st'
               = (Pipeline.slept st ++ replicate sleeps retry_delay)%list
               ∧ (sleeps <= max_retries - 1)%nat)
  ∧ Pipeline.heap st' = Pipeline.heap st
  ∧ Pipeline.error_log st' = Pipeline.error_log st
  ∧ Pipeline.saved st' = Pipeline.saved st.
Proof.
  unfold Pipeline.make_request_with_retry.
  destruct (request_loop_run w guarded method url max_retries retry_delay
              max_retries 0%nat st eq_refl)
    as (result & st' & -> & Hh & Hl & Hf & Hs & Hc & Hsl & _).
  cbn [snd]. by repeat split; try lia.
Qed.

(** X6.  A method other than POST and GET is not refused at once: the
    [ValueError] is raised inside the [try] block, so the call builds a
    session for every attempt, waits after all but the last, sends nothing,
    and then raises. *)
Theorem make_request_with_retry_unsupported_method (w : Pipeline.world) (guarded : bool)
    (method url : string) (max_retries retry_delay : nat) (st : Pipeline.state) :
  Pipeline.supported_method method = false →
  ∃ e st',
    Pipeline.make_request_with_retry w guarded method url max_retries retry_delay st
    = (Raise e, st')
    ∧ Pipeline.http_calls st' = Pipeline.http_calls st
    ∧ Pipeline.sessions_built st' = (Pipeline.sessions_built st + max_retries)%nat
    ∧ Pipeline.slept st'
      = (Pipeline.slept st ++ replicate (max_retries - 1) retry_delay)%list.
Proof.
  intros Hm. unfold Pipeline.make_request_with_retry.
  by apply (request_loop_unsupported w guarded method url max_retries retry_delay Hm
              max_retries 0%nat st).
Qed.

Lemma make_request_with_retry_unsupported_method_witness :
  ∃ e st',
    Pipeline.make_request_with_retry Examples.world_unauthorized true "PUT"
      "https://cna.oab.org.br/Home/Search" 4 2 (Pipeline.initial [])
    = (Raise e, st')
    ∧ Pipeline.http_calls st' = Pipeline.http_calls (Pipeline.initial [])
    ∧ Pipeline.sessions_built st'
      = (Pipeline.sessions_built (Pipeline.initial []) + 4)%nat
    ∧ Pipeline.slept st'
      = (Pipeline.slept (Pipeline.initial []) ++ replicate (4 - 1) 2%nat)%list.
Proof.
  apply (make_request_with_retry_unsupported_method Examples.world_unauthorized true "PUT"
           "https://cna.oab.org.br/Home/Search" 4 2 (Pipeline.initial [])).
  reflexivity.
Defined.

(** X7.  A fetch task ([process_sociedade_async], in both scripts) raises
    exactly when the stub has no readable [Insc] (its handler reads that
    key again), and then it has logged and stored nothing.  Otherwise it
    hands back [None] after exactly one line in the error log and no file,
    or a result that carries the [Insc] of the stub with no line in the
    log; that result was stored in one file, except in
    request_lawyers_fix_state.py when the storage failed. *)
Theorem process_sociedade_async_raises_only_without_insc
    (py_repr : json → string) (w : Pipeline.world) (number_key : string)
    (persist_may_raise : bool)
    (fetch : (nat → render_outcome) → (nat → string) →
             string → nat → nat → nat → res json * list nat)
    (i : nat) (sociedade state insc lawyer_name : json) :
  let run := Pipeline.process_sociedade_async py_repr w number_key persist_may_raise fetch
               i sociedade state insc lawyer_name in
  match PyOps.getitem sociedade "Insc" with
  | Raise e =>
      Pipeline.task_result run = Raise e
      ∧ Pipeline.task_log run = [] ∧ Pipeline.task_saved run = []
  | Ret soc_insc =>
      (Pipeline.task_result run = Ret JNull
       ∧ length (Pipeline.task_log run) = 1%nat ∧ Pipeline.task_saved run = [])
      ∨ ∃ final_result,
          Pipeline.task_result run = Ret final_result
          ∧ is_none final_result = false
          ∧ PyOps.res_bind (PyOps.getitem final_result "basic_info")
              (λ basic_info, PyOps.getitem basic_info "Insc") = Ret soc_insc
          ∧ Pipeline.task_log run = []
          ∧ ((∃ filename, Pipeline.task_saved run = [(filename, final_result)])
             ∨ (persist_may_raise = false ∧ Pipeline.save_failure w i ≠ None
                ∧ Pipeline.task_saved run = []))
  end.
Proof.
  intros run. destruct (PyOps.getitem sociedade "Insc") as [soc_insc|e] eqn:Hinsc.
  - by apply process_sociedade_async_with_insc.
  - destruct (process_sociedade_async_without_insc py_repr w number_key persist_may_raise
                fetch i sociedade state insc lawyer_name e Hinsc) as (Hr & _ & Hl & Hs & _).
    done.
Qed.

(** ** What the enrichment leaves in the record *)

Section Marks.
Import Pipeline.

Lemma kept_from_on_heap st0 record : on_heap (kept_from st0 record).
Proof. intros st st' Hh. unfold kept_from. by rewrite Hh. Qed.

Lemma kept_from_setitem st0 record key v st :
  key ∈ loop_keys →
  kept_from st0 record st →
  kept_from st0 record (snd (setitem (length (heap st0)) key v st)).
Proof.
  intros Hkey (Hlen & Hothers & enhanced & Hl & Hframe).
  unfold setitem, kept_from. simpl. rewrite Hl. simpl.
  split; [by rewrite length_insert|]. split.
  - intros j Hj. rewrite list_lookup_insert_ne by lia. by apply Hothers.
  - exists (<[key := v]> enhanced). split.
    + apply list_lookup_insert_eq. lia.
    + intros k Hk. rewrite lookup_insert_ne; [by apply Hframe|].
      intros ->. by apply Hk, loop_keys_enrichment_fields.
Qed.

Lemma marked_processed_on_heap l : on_heap (marked_processed l).
Proof. intros st st' Hh. unfold marked_processed. by rewrite Hh. Qed.

Lemma marked_insert key v enhanced :
  writes key v → marked enhanced → marked (<[key := v]> enhanced).
Proof.
  intros (Hkey & Hhas & Hbasic & Hcomplete) (Hp & Hs & Hb & Hc). repeat split.
  - rewrite lookup_insert_ne; [done|]. intros ->. revert Hkey. by_evaluation.
  - destruct (decide (key = "has_society")) as [->|Hne].
    + rewrite (Hhas eq_refl), lookup_insert_eq. by eexists.
    + by rewrite lookup_insert_ne.
  - destruct (decide (key = "society_basic_details")) as [->|Hne].
    + destruct (Hbasic eq_refl) as [l ->]. rewrite lookup_insert_eq. by eexists.
    + by rewrite lookup_insert_ne.
  - destruct (decide (key = "society_complete_details")) as [->|Hne].
    + destruct (Hcomplete eq_refl) as [l ->]. rewrite lookup_insert_eq. by eexists.
    + by rewrite lookup_insert_ne.
Qed.

Lemma marked_processed_setitem l key v st :
  writes key v → marked_processed l st → marked_processed l (snd (setitem l key v st)).
Proof.
  intros Hw (enhanced & Hl & Hm). unfold setitem, marked_processed. simpl.
  rewrite Hl. simpl. exists (<[key := v]> enhanced). split.
  - apply list_lookup_insert_eq. by eapply lookup_lt_Some.
  - by apply marked_insert.
Qed.

Lemma marked_initialised sets_state estado record :
  marked (initialised sets_state estado record).
Proof.
  unfold initialised. destruct sets_state; repeat split;
    rewrite ?(lookup_insert_ne _ "state") by done;
    try (eexists; by simplify_map_eq); by simplify_map_eq.
Qed.

Lemma initialised_frame sets_state estado record key :
  key ∉ enrichment_fields → key ≠ "state" →
  initialised sets_state estado record !! key = record !! key.
Proof.
  intros Hkey Hstate. unfold initialised.
  assert (∀ k, k ∈ enrichment_fields → k ≠ key) as Hne by (intros k Hk ->; done).
  destruct sets_state; rewrite ?(lookup_insert_ne _ "state") by done;
    rewrite !lookup_insert_ne; try done; apply Hne; by_evaluation.
Qed.

Lemma initialised_frame_state estado record key :
  key ∉ enrichment_fields →
  initialised false estado record !! key = record !! key.
Proof.
  intros Hkey. unfold initialised.
  assert (∀ k, k ∈ enrichment_fields → k ≠ key) as Hne by (intros k Hk ->; done).
  rewrite !lookup_insert_ne; try done; apply Hne; by_evaluation.
Qed.

(** The verdict of the classifier of the first script on a marked record. *)
Lemma marked_should_process_record enhanced :
  marked enhanced →
  RetryDelay.should_process_record enhanced = (false, "completo")
  ∨ (RetryDelay.should_process_record enhanced = (true, "sociedades incompletas")
     ∧ enhanced !! "has_society" = Some (JBool true)).
Proof.
  intros (Hp & [b Hs] & [basic Hb] & [complete Hc]).
  unfold RetryDelay.should_process_record, dict_get_default, dict_get.
  rewrite Hp, Hs, Hb, Hc. simpl.
  destruct b; simpl; [|by left].
  destruct basic, complete; simpl; auto.
Qed.
End Marks.

Section Invariant.
Import Pipeline.
Context (py_repr : json → string) (w : world) (schedule : nat → nat).
Context (guarded_session : bool) (number_key : string)
        (persist_may_raise : bool)
        (fetch : (nat → render_outcome) → (nat → string) →
                 string → nat → nat → nat → res json * list nat).

(** What holds of the record when the loop starts and is kept by the writes
    of the loop holds when the call returns; the call returns the record it
    allocated. *)
Lemma search_lawyer_with_updates_invariant (sets_state : bool) (Inv : state → Prop)
    oab_number estado_correto cookies token original_record max_retries retry_delay
    st record :
  on_heap Inv →
  (∀ key v st1, writes key v → Inv st1 →
                Inv (snd (setitem (length (heap st)) key v st1))) →
  (∀ st1, heap st1 = (heap st ++ [initialised sets_state estado_correto record])%list →
          Inv st1) →
  heap st !! original_record = Some record →
  ∃ b st',
    search_lawyer_with_updates py_repr w schedule guarded_session sets_state number_key
      persist_may_raise fetch oab_number estado_correto cookies token original_record
      max_retries retry_delay st
    = (Ret (length (heap st), b), st')
    ∧ Inv st'.
Proof.
  intros Hheap Hset Hstart Hrec. unfold search_lawyer_with_updates.
  rewrite bind_copy_record. rewrite Hrec. cbn [default].
  do 6 (erewrite bind_setitem_last by reflexivity; cbv beta).
  assert (∀ s, Inv s →
            ∃ b st',
              for_each_attempt
                (search_attempt py_repr w schedule guarded_session number_key
                   persist_may_raise fetch oab_number estado_correto (length (heap st))
                   max_retries retry_delay)
                (ret (length (heap st), true)) (seq 0 max_retries) s
              = (Ret (length (heap st), b), st') ∧ Inv st') as Hloop.
  { intros s Hs.
    assert (triple Inv
              (for_each_attempt
                 (search_attempt py_repr w schedule guarded_session number_key
                    persist_may_raise fetch oab_number estado_correto (length (heap st))
                    max_retries retry_delay)
                 (ret (length (heap st), true)) (seq 0 max_retries))
              (λ p, fst p = length (heap st)) (λ _, False)) as Ht.
    { apply triple_for_each_attempt; [|by apply triple_ret].
      intros attempt. eapply triple_weaken.
      - by apply (triple_search_attempt py_repr w schedule guarded_session number_key
                    persist_may_raise fetch Inv).
      - intros [[l b]|]; simpl; [|done]. by intros [Hl _].
      - done. }
    specialize (Ht s Hs).
    destruct (for_each_attempt _ _ _ s) as [[[l b]|e] st'].
    - destruct Ht as [Hl Hinv]. simpl in Hl. subst l. by exists b, st'.
    - by destruct Ht as [[] _]. }
  destruct sets_state.
  - erewrite bind_setitem_last by reflexivity. cbv beta.
    apply Hloop, Hstart. reflexivity.
  - unfold bind at 1, ret at 1. apply Hloop, Hstart. reflexivity.
Qed.
End Invariant.

Lemma and_on_heap (P Q : Pipeline.state → Prop) :
  Pipeline.on_heap P → Pipeline.on_heap Q → Pipeline.on_heap (λ s, P s ∧ Q s).
Proof. intros HP HQ st st' Hh [Hp Hq]. split; [by eapply HP|by eapply HQ]. Qed.

(** X8.  In request_lawyers_with_society_retry_errorr_with_delay.py,
    [search_lawyer_with_updates] called on a stored record always returns a
    record of its own, leaves the store it found as it was, keeps every
    field outside the six enrichment fields (the region included), and
    marks the record as processed on every path; the classifier of the
    script then finds the returned record complete or with incomplete
    partnerships, never unprocessed or undetermined. *)
Theorem retry_delay_search_marks_processed_and_keeps_fields
    (py_repr : json → string) (w : Pipeline.world) (schedule : nat → nat)
    (insc state cookies token : json) (original_record max_retries retry_delay : nat)
    (st : Pipeline.state) (record : gmap string json) :
  Pipeline.heap st !! original_record = Some record →
  ∃ enhanced_record session_still_valid st' enhanced,
    RetryDelay.search_lawyer_with_updates py_repr w schedule insc state cookies token
      original_record max_retries retry_delay st
    = (Ret (enhanced_record, session_still_valid), st')
    ∧ Pipeline.heap st !! enhanced_record = None
    ∧ Pipeline.heap st' !! enhanced_record = Some enhanced
    ∧ (∀ j other, Pipeline.heap st !! j = Some other →
                  Pipeline.heap st' !! j = Some other)
    ∧ (∀ key, key ∉ Pipeline.enrichment_fields → enhanced !! key = record !! key)
    ∧ enhanced !! "processed" = Some (JBool true)
    ∧ (RetryDelay.should_process_record enhanced = (false, "completo")
       ∨ RetryDelay.should_process_record enhanced = (true, "sociedades incompletas")).
Proof.
  intros Hrec. unfold RetryDelay.search_lawyer_with_updates.
  destruct (search_lawyer_with_updates_invariant py_repr w schedule true "lawyer_insc" true
              RetryDelay.get_modal_data_with_selenium false
              (λ s, Pipeline.kept_from st record s
                    ∧ Pipeline.marked_processed (length (Pipeline.heap st)) s)
              insc state cookies token original_record max_retries retry_delay st record)
    as (b & st' & Hrun & (Hlen & Hothers & enhanced & Hl & Hframe) & enhanced' & Hl' & Hm).
  - apply and_on_heap; [apply kept_from_on_heap|apply marked_processed_on_heap].
  - intros key v st1 Hw [Hk Hm]. split.
    + apply kept_from_setitem; [by destruct Hw|done].
    + by apply marked_processed_setitem.
  - intros st1 Hh. split.
    + unfold Pipeline.kept_from. rewrite Hh. split; [|split].
      * rewrite length_app. simpl. lia.
      * intros j Hj. by rewrite lookup_app_l.
      * eexists. split; [by apply list_lookup_middle|].
        intros key Hkey. by apply initialised_frame_state.
    + unfold Pipeline.marked_processed. rewrite Hh. eexists.
      split; [by apply list_lookup_middle|]. apply marked_initialised.
  - exact Hrec.
  - rewrite Hl in Hl'. injection Hl' as <-.
    exists (length (Pipeline.heap st)), b, st', enhanced.
    split; [exact Hrun|]. split; [by apply lookup_ge_None_2|]. split; [exact Hl|].
    split.
    { intros j other Hj. rewrite Hothers; [done|]. by eapply lookup_lt_Some. }
    split; [exact Hframe|]. split; [by destruct Hm|].
    destruct (marked_should_process_record enhanced Hm) as [Hc|[Hc _]]; auto.
Qed.

(** X9.  In request_lawyers_fix_state.py, when the region passed to
    [search_lawyer_with_updates] is the one [extract_state_from_oab_id]
    derives from the record, the returned record no longer shows a region
    mismatch: its classifier finds it complete or with incomplete
    partnerships. *)
Theorem fix_state_search_resolves_mismatch
    (py_repr : json → string) (w : Pipeline.world) (schedule : nat → nat)
    (oab_number cookies token : json) (code : string)
    (original_record max_retries retry_delay : nat)
    (st : Pipeline.state) (record : gmap string json) :
  Pipeline.heap st !! original_record = Some record →
  FixState.extract_state_from_oab_id py_repr (dict_get record "oab_id") = Some code →
  ∃ enhanced_record session_still_valid st' enhanced,
    FixState.search_lawyer_with_updates py_repr w schedule oab_number (JStr code)
      cookies token original_record max_retries retry_delay st
    = (Ret (enhanced_record, session_still_valid), st')
    ∧ Pipeline.heap st' !! enhanced_record = Some enhanced
    ∧ enhanced !! "processed" = Some (JBool true)
    ∧ (FixState.should_process_record py_repr enhanced = (false, "completo")
       ∨ FixState.should_process_record py_repr enhanced
         = (true, "sociedades incompletas")).
Proof.
  intros Hrec Hcode. unfold FixState.search_lawyer_with_updates.
  destruct (search_lawyer_with_updates_invariant py_repr w schedule false
              "lawyer_oab_number" false FixState.get_modal_data_with_selenium true
              (λ s, Pipeline.enriched_from st record (JStr code) s
                    ∧ Pipeline.marked_processed (length (Pipeline.heap st)) s)
              oab_number (JStr code) cookies token original_record max_retries
              retry_delay st record)
    as (b & st' & Hrun & (Hlen & Hothers & enhanced & Hl & Hstate & Hframe)
        & enhanced' & Hl' & Hm).
  - apply and_on_heap; [apply enriched_from_on_heap|apply marked_processed_on_heap].
  - intros key v st1 Hw [Hk Hm]. split.
    + apply enriched_from_setitem; [by destruct Hw|done].
    + by apply marked_processed_setitem.
  - intros st1 Hh. split.
    + eapply enriched_from_start; [| |exact Hh].
      * intros key Hkey Hs. by apply initialised_frame.
      * unfold Pipeline.initialised. apply lookup_insert_eq.
    + unfold Pipeline.marked_processed. rewrite Hh. eexists.
      split; [by apply list_lookup_middle|]. apply marked_initialised.
  - exact Hrec.
  - rewrite Hl in Hl'. injection Hl' as <-.
    exists (length (Pipeline.heap st)), b, st', enhanced.
    split; [exact Hrun|]. split; [exact Hl|]. split; [by destruct Hm|].
    rewrite (fix_state_should_process_record_no_mismatch py_repr enhanced).
    + destruct (marked_should_process_record enhanced Hm) as [Hc|[Hc _]]; auto.
    + intros code'. unfold dict_get. rewrite Hstate.
      rewrite (Hframe "oab_id") by (by_evaluation || done).
      fold (dict_get record "oab_id"). rewrite Hcode. by intros [= <-].
Qed.

Section Down.
Import Pipeline.
Context (py_repr : json → string) (w : world) (schedule : nat → nat).
Context (guarded_session : bool) (number_key : string)
        (persist_may_raise : bool)
        (fetch : (nat → render_outcome) → (nat → string) →
                 string → nat → nat → nat → res json * list nat).
Context (Hdown : registry_down w).

Lemma make_request_with_retry_down method url max_retries retry_delay st :
  ∃ msg st',
    make_request_with_retry w guarded_session method url max_retries retry_delay st
    = (Raise (plain msg), st')
    ∧ heap st' = heap st ∧ error_log st' = error_log st.
Proof.
  unfold make_request_with_retry.
  destruct (request_loop_run w guarded_session method url max_retries retry_delay
              max_retries 0%nat st eq_refl)
    as (result & st' & Hrun & Hh & Hl & _ & _ & _ & _ & Hres).
  destruct result as [r|e].
  - destruct Hres as (i & _ & Hhttp & Hok). specialize (Hdown i).
    rewrite Hhttp in Hdown. destruct Hdown as [e He]. congruence.
  - destruct Hres as [msg ->]. by eexists _, st'.
Qed.

Lemma search_attempt_down oab_number estado_correto enhanced_record max_retries
    retry_delay attempt st :
  ∃ f st',
    search_attempt py_repr w schedule guarded_session number_key persist_may_raise fetch
      oab_number estado_correto enhanced_record max_retries retry_delay attempt st
    = (Ret f, st')
    ∧ heap st' = heap st
    ∧ (f = Continue ∨ f = Return (enhanced_record, true)).
Proof.
  unfold search_attempt, try_except. unfold bind at 1.
  destruct (make_request_with_retry_down "POST" search_url 4 2 st)
    as (msg & st1 & -> & Hh & Hl).
  cbv beta iota. cbn [is_request_exception plain exn_class_of].
  destruct (attempt <? max_retries - 1)%nat.
  - eexists _, _. split; [reflexivity|]. split; [exact Hh|by left].
  - eexists _, _. split; [reflexivity|]. split; [exact Hh|by right].
Qed.

Lemma search_loop_down oab_number estado_correto enhanced_record max_retries
    retry_delay attempts : ∀ st,
  ∃ st',
    for_each_attempt
      (search_attempt py_repr w schedule guarded_session number_key persist_may_raise fetch
         oab_number estado_correto enhanced_record max_retries retry_delay)
      (ret (enhanced_record, true)) attempts st
    = (Ret (enhanced_record, true), st')
    ∧ heap st' = heap st.
Proof.
  induction attempts as [|attempt rest IH]; intros st; [by exists st|].
  cbn [for_each_attempt]. unfold bind at 1.
  destruct (search_attempt_down oab_number estado_correto enhanced_record max_retries
              retry_delay attempt st) as (f & st1 & -> & Hh & [->| ->]).
  - destruct (IH st1) as (st' & Hrun & Hh'). exists st'. split; [exact Hrun|congruence].
  - by exists st1.
Qed.

Lemma search_lawyer_with_updates_down sets_state oab_number estado_correto cookies token
    original_record max_retries retry_delay st record :
  heap st !! original_record = Some record →
  ∃ st',
    search_lawyer_with_updates py_repr w schedule guarded_session sets_state number_key
      persist_may_raise fetch oab_number estado_correto cookies token original_record
      max_retries retry_delay st
    = (Ret (length (heap st), true), st')
    ∧ heap st' = (heap st ++ [initialised sets_state estado_correto record])%list.
Proof.
  intros Hrec. unfold search_lawyer_with_updates.
  rewrite bind_copy_record. rewrite Hrec. cbn [default].
  do 6 (erewrite bind_setitem_last by reflexivity; cbv beta).
  destruct sets_state.
  - erewrite bind_setitem_last by reflexivity. cbv beta.
    match goal with |- ∃ st', for_each_attempt _ _ ?l ?s = _ ∧ _ =>
      destruct (search_loop_down oab_number estado_correto (length (heap st)) max_retries
                  retry_delay l s) as (st' & Hrun & Hh) end.
    exists st'. split; [exact Hrun|]. rewrite Hh. reflexivity.
  - unfold bind at 1, ret at 1.
    match goal with |- ∃ st', for_each_attempt _ _ ?l ?s = _ ∧ _ =>
      destruct (search_loop_down oab_number estado_correto (length (heap st)) max_retries
                  retry_delay l s) as (st' & Hrun & Hh) end.
    exists st'. split; [exact Hrun|]. rewrite Hh. reflexivity.
Qed.
End Down.

(** X10.  When every call of the registry fails (it raises, hands back
    [None] or answers with a 4xx or 5xx status), the first script still
    returns a record marked as processed, without partnerships and with
    empty lists, and reports the session as valid; the classifier then
    finds this record complete, so a later run skips it. *)
Theorem retry_delay_failed_lookup_is_marked_complete
    (py_repr : json → string) (w : Pipeline.world) (schedule : nat → nat)
    (insc state cookies token : json) (original_record max_retries retry_delay : nat)
    (st : Pipeline.state) (record : gmap string json) :
  Pipeline.registry_down w →
  Pipeline.heap st !! original_record = Some record →
  ∃ st' enhanced,
    RetryDelay.search_lawyer_with_updates py_repr w schedule insc state cookies token
      original_record max_retries retry_delay st
    = (Ret (length (Pipeline.heap st), true), st')
    ∧ Pipeline.heap st' = (Pipeline.heap st ++ [enhanced])%list
    ∧ enhanced !! "processed" = Some (JBool true)
    ∧ enhanced !! "has_society" = Some (JBool false)
    ∧ enhanced !! "society_basic_details" = Some (JList [])
    ∧ enhanced !! "society_complete_details" = Some (JList [])
    ∧ RetryDelay.should_process_record enhanced = (false, "completo").
Proof.
  intros Hdown Hrec. unfold RetryDelay.search_lawyer_with_updates.
  destruct (search_lawyer_with_updates_down py_repr w schedule true "lawyer_insc" true
              RetryDelay.get_modal_data_with_selenium Hdown false insc state cookies token
              original_record max_retries retry_delay st record Hrec) as (st' & Hrun & Hh).
  exists st', (Pipeline.initialised false state record).
  split; [exact Hrun|]. split; [exact Hh|].
  assert (Pipeline.initialised false state record !! "has_society" = Some (JBool false))
    as Hs by (unfold Pipeline.initialised; by simplify_map_eq).
  pose proof (marked_initialised false state record) as Hm.
  split; [by destruct Hm|]. split; [exact Hs|].
  split; [unfold Pipeline.initialised; by simplify_map_eq|].
  split; [unfold Pipeline.initialised; by simplify_map_eq|].
  destruct (marked_should_process_record _ Hm) as [Hc|[_ Hc]]; [exact Hc|congruence].
Qed.

(** *** Closed instances *)

Lemma retry_delay_search_marks_processed_and_keeps_fields_witness :
  ∃ enhanced_record session_still_valid st' enhanced,
    RetryDelay.search_lawyer_with_updates no_repr Examples.world_three_partnerships
      (λ n, n) (JStr "185929") (JStr "RJ") JNull JNull 0 4 2
      (Pipeline.initial [Examples.lawyer])
    = (Ret (enhanced_record, session_still_valid), st')
    ∧ Pipeline.heap (Pipeline.initial [Examples.lawyer]) !! enhanced_record = None
    ∧ Pipeline.heap st' !! enhanced_record = Some enhanced
    ∧ (∀ j other, Pipeline.heap (Pipeline.initial [Examples.lawyer]) !! j = Some other →
                  Pipeline.heap st' !! j = Some other)
    ∧ (∀ key, key ∉ Pipeline.enrichment_fields →
              enhanced !! key = Examples.lawyer !! key)
    ∧ enhanced !! "processed" = Some (JBool true)
    ∧ (RetryDelay.should_process_record enhanced = (false, "completo")
       ∨ RetryDelay.should_process_record enhanced = (true, "sociedades incompletas")).
Proof.
  apply (retry_delay_search_marks_processed_and_keeps_fields no_repr
           Examples.world_three_partnerships (λ n, n) (JStr "185929") (JStr "RJ")
           JNull JNull 0 4 2 (Pipeline.initial [Examples.lawyer]) Examples.lawyer).
  reflexivity.
Defined.

Lemma fix_state_search_resolves_mismatch_witness :
  ∃ enhanced_record session_still_valid st' enhanced,
    FixState.search_lawyer_with_updates no_repr Examples.world_three_partnerships
      (λ n, n) (JStr "185929") (JStr "SP") JNull JNull 0 4 2
      (Pipeline.initial [Examples.lawyer])
    = (Ret (enhanced_record, session_still_valid), st')
    ∧ Pipeline.heap st' !! enhanced_record = Some enhanced
    ∧ enhanced !! "processed" = Some (JBool true)
    ∧ (FixState.should_process_record no_repr enhanced = (false, "completo")
       ∨ FixState.should_process_record no_repr enhanced
         = (true, "sociedades incompletas")).
Proof.
  apply (fix_state_search_resolves_mismatch no_repr Examples.world_three_partnerships
           (λ n, n) (JStr "185929") JNull JNull "SP" 0 4 2
           (Pipeline.initial [Examples.lawyer]) Examples.lawyer).
  - reflexivity.
  - reflexivity.
Defined.

Lemma retry_delay_failed_lookup_is_marked_complete_witness :
  ∃ st' enhanced,
    RetryDelay.search_lawyer_with_updates no_repr Examples.world_unauthorized (λ n, n)
      (JStr "185929") (JStr "RJ") JNull JNull 0 4 2 (Pipeline.initial [Examples.lawyer])
    = (Ret (length (Pipeline.heap (Pipeline.initial [Examples.lawyer])), true), st')
    ∧ Pipeline.heap st'
      = (Pipeline.heap (Pipeline.initial [Examples.lawyer]) ++ [enhanced])%list
    ∧ enhanced !! "processed" = Some (JBool true)
    ∧ enhanced !! "has_society" = Some (JBool false)
    ∧ enhanced !! "society_basic_details" = Some (JList [])
    ∧ enhanced !! "society_complete_details" = Some (JList [])
    ∧ RetryDelay.should_process_record enhanced = (false, "completo").
Proof.
  apply (retry_delay_failed_lookup_is_marked_complete no_repr Examples.world_unauthorized
           (λ n, n) (JStr "185929") (JStr "RJ") JNull JNull 0 4 2
           (Pipeline.initial [Examples.lawyer]) Examples.lawyer).
  - intros n. simpl. by eexists.
  - reflexivity.
Defined.

(** ** The waits of the render loop *)

Lemma retry_delay_modal_loop_waits render clock url max_retries retry_delay :
  ∀ k a slept,
    (a + k = max_retries)%nat →
    ∃ waits,
      snd (RetryDelay.modal_loop render clock url max_retries retry_delay (seq a k) slept)
      = (slept ++ waits)%list
      ∧ Forall (λ seconds, seconds = SETTLE_DELAY ∨ seconds = retry_delay) waits
      ∧ (list_sum waits <= SETTLE_DELAY * k + retry_delay * (k - 1))%nat.
Proof.
  induction k as [|k IH]; intros a slept Hk.
  - exists []. simpl. rewrite app_nil_r. repeat split; [constructor|lia].
  - assert (∀ slept0 waits0,
              slept0 = (slept ++ waits0)%list →
              Forall (λ seconds, seconds = SETTLE_DELAY ∨ seconds = retry_delay) waits0 →
              (list_sum waits0 <= SETTLE_DELAY)%nat →
              (a < max_retries - 1)%nat →
              ∃ waits,
                snd (RetryDelay.modal_loop render clock url max_retries retry_delay
                       (seq (S a) k) (slept0 ++ [retry_delay])%list)
                = (slept ++ waits)%list
                ∧ Forall (λ seconds, seconds = SETTLE_DELAY ∨ seconds = retry_delay) waits
                ∧ (list_sum waits <= SETTLE_DELAY * S k + retry_delay * (S k - 1))%nat)
      as Hnext.
    { intros slept0 waits0 -> Hall Hsum Hlt.
      destruct (IH (S a) ((slept ++ waits0) ++ [retry_delay])%list ltac:(lia))
        as (waits & Hrun & Hall' & Hsum').
      exists (waits0 ++ [retry_delay] ++ waits)%list. split.
      - rewrite Hrun. by rewrite <- !app_assoc.
      - split.
        + apply Forall_app. split; [done|]. apply Forall_cons. split; [by right|done].
        + rewrite !list_sum_app. cbn [list_sum]. unfold SETTLE_DELAY in *.
          destruct k as [|k']; [lia|].
          replace (S (S k') - 1)%nat with (S k') by lia.
          replace (S k' - 1)%nat with k' in Hsum' by lia.
          rewrite (Nat.mul_succ_r retry_delay k').
          change (list_sum [retry_delay]) with (retry_delay + 0)%nat. lia. }
    assert (∀ slept0 waits0 v,
              slept0 = (slept ++ waits0)%list →
              Forall (λ seconds, seconds = SETTLE_DELAY ∨ seconds = retry_delay) waits0 →
              (list_sum waits0 <= SETTLE_DELAY)%nat →
              ∃ waits,
                snd (Ret v : res json, slept0) = (slept ++ waits)%list
                ∧ Forall (λ seconds, seconds = SETTLE_DELAY ∨ seconds = retry_delay) waits
                ∧ (list_sum waits <= SETTLE_DELAY * S k + retry_delay * (S k - 1))%nat)
      as Hstop.
    { intros slept0 waits0 v -> Hall Hsum. exists waits0.
      split; [done|]. split; [done|]. unfold SETTLE_DELAY in *.
      generalize (retry_delay * (S k - 1))%nat. intros rest. lia. }
    assert (Forall (λ seconds, seconds = SETTLE_DELAY ∨ seconds = retry_delay)
              [SETTLE_DELAY]) as Hsettle by (repeat constructor).
    cbn [seq RetryDelay.modal_loop].
    pose proof (Nat.ltb_spec a (max_retries - 1)) as Hlt.
    destruct (render a) as [e|e|modal].
    + destruct (is_timeout e); destruct Hlt.
      * eapply (Hnext slept []); [by rewrite app_nil_r|constructor|simpl; lia|done].
      * eapply (Hstop slept []); [by rewrite app_nil_r|constructor|simpl; lia].
      * eapply (Hnext slept []); [by rewrite app_nil_r|constructor|simpl; lia|done].
      * eapply (Hstop slept []); [by rewrite app_nil_r|constructor|simpl; lia].
    + destruct (is_timeout e); destruct Hlt.
      * eapply (Hnext _ [SETTLE_DELAY]); [done|done|unfold SETTLE_DELAY; simpl; lia|done].
      * eapply (Hstop _ [SETTLE_DELAY]); [done|done|unfold SETTLE_DELAY; simpl; lia].
      * eapply (Hnext _ [SETTLE_DELAY]); [done|done|unfold SETTLE_DELAY; simpl; lia|done].
      * eapply (Hstop _ [SETTLE_DELAY]); [done|done|unfold SETTLE_DELAY; simpl; lia].
    + rewrite modal_data_truthy.
      eapply (Hstop _ [SETTLE_DELAY]); [done|done|unfold SETTLE_DELAY; simpl; lia].
Qed.

(** X11.  With at least one attempt allowed, [get_modal_data_with_selenium]
    of the retry-delay script always returns a dictionary and never raises:
    the data of an attempt that rendered the modal, or, when no attempt
    did, a failure dictionary with [content_loaded] False, an [error] text
    and [extraction_success] 0.  Every wait is the settle delay or
    [retry_delay], and the waits add up to at most
    [SETTLE_DELAY * max_retries + retry_delay * (max_retries - 1)]
    seconds. *)
Theorem retry_delay_get_modal_data_returns_and_waits_bounded
    (render : nat → render_outcome) (clock : nat → string) (url : string)
    (max_wait max_retries retry_delay : nat) :
  (1 <= max_retries)%nat →
  ∃ v slept,
    RetryDelay.get_modal_data_with_selenium render clock url max_wait max_retries retry_delay
      = (Ret v, slept)
    ∧ ((∃ attempt modal, (attempt < max_retries)%nat
                         ∧ render attempt = Rendered modal
                         ∧ v = modal_success (clock attempt) url (extract_modal_data modal))
       ∨ ((∀ attempt, (attempt < max_retries)%nat →
                      ∀ modal, render attempt ≠ Rendered modal)
          ∧ PyOps.getitem v "content_loaded" = Ret (JBool false)
          ∧ (∃ error, PyOps.getitem v "error" = Ret (JStr error))
          ∧ PyOps.getitem v "extraction_success" = Ret (JNum 0)))
    ∧ Forall (λ seconds, seconds = SETTLE_DELAY ∨ seconds = retry_delay) slept
    ∧ (list_sum slept <= SETTLE_DELAY * max_retries + retry_delay * (max_retries - 1))%nat.
Proof.
  intros Hpos.
  destruct (retry_delay_get_modal_data_never_raises render clock url max_wait max_retries
              retry_delay Hpos) as (v & slept & Hrun & Hcases).
  destruct (retry_delay_modal_loop_waits render clock url max_retries retry_delay
              max_retries 0%nat [] eq_refl) as (waits & Hw & Hall & Hsum).
  unfold RetryDelay.get_modal_data_with_selenium in Hrun. rewrite Hrun in Hw.
  simpl in Hw. subst waits.
  exists v, slept. split; [exact Hrun|]. split; [|by split].
  destruct Hcases as [Hok|(Hnone & error & _ & Hc & He & Hs)]; [by left|right].
  split; [exact Hnone|]. split; [exact Hc|]. split; [by exists error|exact Hs].
Qed.

Lemma retry_delay_get_modal_data_returns_and_waits_bounded_witness :
  ∃ v slept,
    RetryDelay.get_modal_data_with_selenium (λ _, RenderRaises Examples.modal_timeout)
      (λ _, "2025-01-01T00:00:00.%fZ") "https://cna.oab.org.br/Home/Soc/100" 25 4 2
      = (Ret v, slept)
    ∧ ((∃ attempt modal, (attempt < 4)%nat
                         ∧ RenderRaises Examples.modal_timeout = Rendered modal
                         ∧ v = modal_success "2025-01-01T00:00:00.%fZ"
                                 "https://cna.oab.org.br/Home/Soc/100"
                                 (extract_modal_data modal))
       ∨ ((∀ attempt, (attempt < 4)%nat →
                      ∀ modal, RenderRaises Examples.modal_timeout ≠ Rendered modal)
          ∧ PyOps.getitem v "content_loaded" = Ret (JBool false)
          ∧ (∃ error, PyOps.getitem v "error" = Ret (JStr error))
          ∧ PyOps.getitem v "extraction_success" = Ret (JNum 0)))
    ∧ Forall (λ seconds, seconds = SETTLE_DELAY ∨ seconds = 2%nat) slept
    ∧ (list_sum slept <= SETTLE_DELAY * 4 + 2 * (4 - 1))%nat.
Proof.
  apply (retry_delay_get_modal_data_returns_and_waits_bounded
           (λ _, RenderRaises Examples.modal_timeout) (λ _, "2025-01-01T00:00:00.%fZ")
           "https://cna.oab.org.br/Home/Soc/100" 25 4 2).
  lia.
Defined.

(** ** The reset of a record with a region mismatch *)

Lemma clean_inconsistent_data_lookup record key :
  FixState.clean_inconsistent_data record !! key
  = if bool_decide (key ∈ ["processed"; "has_society"]) then Some (JBool false)
    else if bool_decide (key ∈ ["corrected_full_name"; "society_link";
                                "society_basic_details"; "society_complete_details"])
         then None
         else record !! key.
Proof.
  unfold FixState.clean_inconsistent_data. cbv zeta.
  destruct (decide (key = "society_complete_details")) as [->|H1];
    [by rewrite lookup_delete_eq|rewrite lookup_delete_ne by done].
  destruct (decide (key = "society_basic_details")) as [->|H2];
    [by rewrite lookup_delete_eq|rewrite lookup_delete_ne by done].
  destruct (decide (key = "society_link")) as [->|H3];
    [by rewrite lookup_delete_eq|rewrite lookup_delete_ne by done].
  destruct (decide (key = "corrected_full_name")) as [->|H4];
    [by rewrite lookup_delete_eq|rewrite lookup_delete_ne by done].
  destruct (decide (key = "has_society")) as [->|H5];
    [by rewrite lookup_insert_eq|rewrite lookup_insert_ne by done].
  destruct (decide (key = "processed")) as [->|H6];
    [by rewrite lookup_insert_eq|rewrite lookup_insert_ne by done].
  rewrite bool_decide_eq_false_2, bool_decide_eq_false_2; [done| |];
    rewrite !elem_of_cons, elem_of_nil; tauto.
Qed.

(** X12.  [clean_inconsistent_data] of the fix-state script changes no
    field outside the six enrichment fields and gives the same record when
    applied twice; the record it returns is one that [should_process_record]
    selects, in the fix-state script and in the retry-delay script (there
    with the reason [não processado]). *)
Theorem clean_inconsistent_data_resets_only_enrichment
    (py_repr : json → string) (record : gmap string json) :
  (∀ key, key ∉ Pipeline.enrichment_fields →
          FixState.clean_inconsistent_data record !! key = record !! key)
  ∧ FixState.clean_inconsistent_data (FixState.clean_inconsistent_data record)
    = FixState.clean_inconsistent_data record
  ∧ fst (FixState.should_process_record py_repr (FixState.clean_inconsistent_data record))
    = true
  ∧ RetryDelay.should_process_record (FixState.clean_inconsistent_data record)
    = (true, "não processado").
Proof.
  split; [|split; [|split]].
  - intros key Hkey. rewrite clean_inconsistent_data_lookup.
    unfold Pipeline.enrichment_fields in Hkey.
    rewrite bool_decide_eq_false_2, bool_decide_eq_false_2; [done| |];
      intros Hin; apply Hkey; revert Hin; rewrite !elem_of_cons, !elem_of_nil; tauto.
  - apply map_eq. intros key. rewrite !clean_inconsistent_data_lookup.
    by repeat case_bool_decide.
  - unfold FixState.should_process_record.
    assert (dict_get_default (FixState.clean_inconsistent_data record) "processed"
              (JBool false) = JBool false) as Hp.
    { unfold dict_get_default. by rewrite clean_inconsistent_data_lookup. }
    rewrite Hp. by repeat case_match.
  - unfold RetryDelay.should_process_record, dict_get_default.
    by rewrite clean_inconsistent_data_lookup.
Qed.

(** ** Storing results *)

Section Stored.
Import Storage.
Context (AWS_BUCKET : string) (dumps : json → string) (py_repr : json → string).
Context (w : world).

Lemma append_nonempty (a b : string) : a ≠ "" → String.eqb (a ++ b) "" = false.
Proof. destruct a; [done|]. intros _. reflexivity. Qed.

Lemma upload_to_s3_run data key st :
  ∃ result st',
    upload_to_s3 AWS_BUCKET dumps py_repr w data key st = (result, st')
    ∧ puts st' = S (puts st) ∧ writes st' = writes st
    ∧ match put_object w (puts st) with
      | None =>
          result = Some ("s3://" ++ AWS_BUCKET ++ "/" ++ key)
          ∧ trace st' = (trace st ++ [Put key (content_of dumps py_repr data)])%list
      | Some _ => result = None ∧ trace st' = (trace st ++ [PutFailed key])%list
      end.
Proof.
  unfold upload_to_s3. destruct (put_object w (puts st)); eexists _, _; by repeat split.
Qed.

Lemma write_local_run name data st :
  ∃ result st',
    write_local dumps py_repr w name data st = (result, st')
    ∧ puts st' = puts st ∧ writes st' = S (writes st)
    ∧ match write_file w (writes st) with
      | None =>
          result = None
          ∧ trace st' = (trace st ++ [Wrote name (content_of dumps py_repr data)])%list
      | Some e => result = Some e ∧ trace st' = (trace st ++ [WriteFailed name])%list
      end.
Proof.
  unfold write_local. destruct (write_file w (writes st)); eexists _, _; by repeat split.
Qed.
(** The three stores, in the order in which they are tried. *)
Lemma save_to_s3_and_local_backup_cases data filename st :
  let content := content_of dumps py_repr data in
  let key := "oab_data/" ++ filename in
  ∃ st',
    save_to_s3_and_local_backup AWS_BUCKET dumps py_repr w data filename st
    = (match put_object w (puts st) with
       | None => Some ("s3://" ++ AWS_BUCKET ++ "/" ++ key)
       | Some _ =>
           match write_file w (writes st) with
           | None => Some filename
           | Some _ =>
               match write_file w (S (writes st)) with
               | None => Some ("emergency_" ++ filename)
               | Some _ => None
               end
           end
       end, st')
    ∧ puts st' = S (puts st)
    ∧ (writes st < writes st' <= writes st + 2)%nat
    ∧ trace st'
      = (trace st
         ++ match put_object w (puts st) with
            | None =>
                [Put key content;
                 match write_file w (writes st) with
                 | None => Wrote filename content
                 | Some _ => WriteFailed filename
                 end]
            | Some _ =>
                PutFailed key
                  :: match write_file w (writes st) with
                     | None => [Wrote filename content]
                     | Some _ =>
                         [WriteFailed filename;
                          match write_file w (S (writes st)) with
                          | None => Wrote ("emergency_" ++ filename) content
                          | Some _ => WriteFailed ("emergency_" ++ filename)
                          end]
                     end
            end)%list.
Proof.
  intros content key. subst content key. unfold save_to_s3_and_local_backup.
  destruct (upload_to_s3_run data ("oab_data/" ++ filename) st)
    as (url & st1 & -> & Hp1 & Hw1 & Hput).
  destruct (write_local_run filename data st1) as (r2 & st2 & Hrun2 & Hp2 & Hw2 & Hwrite).
  destruct (write_local_run ("emergency_" ++ filename) data st2)
    as (r3 & st3 & Hrun3 & Hp3 & Hw3 & Hemergency).
  rewrite Hw1 in Hwrite. rewrite Hw2, Hw1 in Hemergency.
  destruct (put_object w (puts st)) as [e1|].
  - destruct Hput as [-> Ht1]. rewrite Hrun2.
    destruct (write_file w (writes st)) as [e2|].
    + destruct Hwrite as [-> Ht2]. rewrite Hrun3.
      destruct (write_file w (S (writes st))) as [e3|]; destruct Hemergency as [-> Ht3];
        exists st3; (split; [reflexivity|]); (split; [lia|]); (split; [lia|]);
        by rewrite Ht3, Ht2, Ht1, <- !app_assoc.
    + destruct Hwrite as [-> Ht2]. exists st2.
      split; [reflexivity|]. split; [lia|]. split; [lia|].
      by rewrite Ht2, Ht1, <- !app_assoc.
  - destruct Hput as [-> Ht1].
    rewrite append_nonempty by done. cbn [negb]. rewrite Hrun2. exists st2.
    split; [reflexivity|]. split; [lia|]. split; [lia|].
    destruct (write_file w (writes st)); destruct Hwrite as [_ ->];
      by rewrite Ht1, <- !app_assoc.
Qed.
End Stored.

(** X13.  [save_to_s3_and_local_backup] makes one upload and one or two
    local writings.  When the upload goes through it returns the address in
    the bucket, under the key [oab_data/<filename>]; whenever it returns a
    location, the text of the data was stored under that location in this
    call (in the bucket, in the file [filename] or in
    [emergency_<filename>]); it returns [None] only when the upload and both
    local writings failed, and then nothing was stored. *)
Theorem save_to_s3_and_local_backup_location_holds_data
    (AWS_BUCKET : string) (dumps py_repr : json → string) (w : Storage.world)
    (data : json) (filename : string) (st : Storage.state) :
  ∃ result st' new,
    Storage.save_to_s3_and_local_backup AWS_BUCKET dumps py_repr w data filename st
    = (result, st')
    ∧ Storage.trace st' = (Storage.trace st ++ new)%list
    ∧ Storage.puts st' = S (Storage.puts st)
    ∧ (Storage.writes st < Storage.writes st' <= Storage.writes st + 2)%nat
    ∧ (Storage.put_object w (Storage.puts st) = None →
       result = Some ("s3://" ++ AWS_BUCKET ++ "/oab_data/" ++ filename))
    ∧ match result with
      | Some location =>
          Storage.holds AWS_BUCKET new location (Storage.content_of dumps py_repr data)
      | None =>
          Storage.nothing_stored new
          ∧ Storage.put_object w (Storage.puts st) ≠ None
          ∧ Storage.write_file w (Storage.writes st) ≠ None
          ∧ Storage.write_file w (S (Storage.writes st)) ≠ None
      end.
Proof.
  destruct (save_to_s3_and_local_backup_cases AWS_BUCKET dumps py_repr w data filename st)
    as (st' & Hrun & Hp & Hw & Ht).
  eexists _, st', _. split; [exact Hrun|]. split; [exact Ht|].
  split; [exact Hp|]. split; [exact Hw|].
  destruct (Storage.put_object w (Storage.puts st)) as [e1|].
  - split; [done|].
    destruct (Storage.write_file w (Storage.writes st)) as [e2|].
    + destruct (Storage.write_file w (S (Storage.writes st))) as [e3|].
      * split; [|done]. intros ev Hev.
        apply elem_of_cons in Hev as [->|Hev]; [done|].
        apply elem_of_cons in Hev as [->|Hev]; [done|].
        apply elem_of_cons in Hev as [->|Hev]; [done|]. by apply elem_of_nil in Hev.
      * right. do 2 right. left.
    + right. right. left.
  - split; [done|]. left. exists ("oab_data/" ++ filename). split; [done|left].
Qed.

(** X14.  [save_enhanced_lawyers_to_file] returns [None] for an empty list
    without storing anything, and a location for every other list, also
    when the upload and both local writings failed: the caller cannot tell
    a save that stored nothing from one that stored the list. *)
Theorem save_enhanced_lawyers_to_file_never_reports_failure
    (AWS_BUCKET : string) (dumps py_repr : json → string) (w : Storage.world)
    (batch_base now : string) (enhanced_lawyers_list : list json)
    (batch_num : option nat) (emergency : bool) (st : Storage.state) :
  (enhanced_lawyers_list = [] →
   Storage.save_enhanced_lawyers_to_file AWS_BUCKET dumps py_repr w batch_base now
     enhanced_lawyers_list batch_num emergency st = (None, st))
  ∧ (enhanced_lawyers_list ≠ [] →
     ∃ location st' new,
       Storage.save_enhanced_lawyers_to_file AWS_BUCKET dumps py_repr w batch_base now
         enhanced_lawyers_list batch_num emergency st = (Some location, st')
       ∧ Storage.trace st' = (Storage.trace st ++ new)%list
       ∧ (Storage.holds AWS_BUCKET new location (dumps (JList enhanced_lawyers_list))
          ∨ (Storage.nothing_stored new
             ∧ Storage.put_object w (Storage.puts st) ≠ None
             ∧ Storage.write_file w (Storage.writes st) ≠ None
             ∧ Storage.write_file w (S (Storage.writes st)) ≠ None))).
Proof.
  unfold Storage.save_enhanced_lawyers_to_file. split.
  - intros ->. reflexivity.
  - intros Hne. rewrite bool_decide_eq_false_2 by done.
    set (filename := if emergency then _ else _).
    destruct (save_to_s3_and_local_backup_cases AWS_BUCKET dumps py_repr w
                (JList enhanced_lawyers_list) filename st) as (st' & -> & Hp & Hw & Ht).
    change (Storage.content_of dumps py_repr (JList enhanced_lawyers_list))
      with (dumps (JList enhanced_lawyers_list)) in Ht.
    destruct (Storage.put_object w (Storage.puts st)) as [e1|].
    + destruct (Storage.write_file w (Storage.writes st)) as [e2|].
      * destruct (Storage.write_file w (S (Storage.writes st))) as [e3|].
        -- eexists _, st', _. split; [reflexivity|]. split; [exact Ht|]. right.
           split; [|done]. intros ev Hev.
           apply elem_of_cons in Hev as [->|Hev]; [done|].
           apply elem_of_cons in Hev as [->|Hev]; [done|].
           apply elem_of_cons in Hev as [->|Hev]; [done|]. by apply elem_of_nil in Hev.
        -- rewrite append_nonempty by done. cbn [negb].
           eexists _, st', _. split; [reflexivity|]. split; [exact Ht|]. left.
           right. do 2 right. left.
      * assert (String.eqb filename "" = false) as ->.
        { subst filename. destruct emergency; [|destruct batch_num];
            by apply append_nonempty. }
        cbn [negb].
        eexists _, st', _. split; [reflexivity|]. split; [exact Ht|]. left.
        right. right. left.
    + rewrite append_nonempty by done. cbn [negb].
      eexists _, st', _. split; [reflexivity|]. split; [exact Ht|]. left.
      left. exists ("oab_data/" ++ filename). split; [done|left].
Qed.

Lemma save_enhanced_lawyers_to_file_never_reports_failure_witness :
  ∃ location st' new,
    Storage.save_enhanced_lawyers_to_file "oab-bucket" (λ _, "[null]") (λ _, "None")
      {| Storage.put_object := λ _, Some (plain "no credentials");
         Storage.write_file := λ _, Some (plain "disk full") |}
      "lawyers_001" "20250101_000000" [JNull] (Some 7%nat) false Storage.initial
    = (Some location, st')
    ∧ Storage.trace st' = (Storage.trace Storage.initial ++ new)%list
    ∧ (Storage.holds "oab-bucket" new location ((λ _, "[null]") (JList [JNull]))
       ∨ (Storage.nothing_stored new
          ∧ Some (plain "no credentials") ≠ None
          ∧ Some (plain "disk full") ≠ None
          ∧ Some (plain "disk full") ≠ None)).
Proof.
  apply (proj2 (save_enhanced_lawyers_to_file_never_reports_failure
                  "oab-bucket" (λ _, "[null]") (λ _, "None")
                  {| Storage.put_object := λ _, Some (plain "no credentials");
                     Storage.write_file := λ _, Some (plain "disk full") |}
                  "lawyers_001" "20250101_000000" [JNull] (Some 7%nat) false
                  Storage.initial)).
  discriminate.
Defined.

(** ** The report of checker.py *)

Section Report.
Import CheckerReport.
Context (py_repr : json → string).

Lemma check_state_counted lawyer_id full_name oab_id current_state r :
  let r' := check_state py_repr lawyer_id full_name oab_id current_state r in
  ∃ d, (d <= 1)%nat
       ∧ issues_found r' = (issues_found r + d)%nat
       ∧ (length (state_inconsistent r') + length (missing_oab_id r')
          = length (state_inconsistent r) + length (missing_oab_id r) + d)%nat
       ∧ not_processed r' = not_processed r
       ∧ incomplete_societies r' = incomplete_societies r.
Proof.
  unfold check_state. repeat case_match; cbn [issues_found state_inconsistent
    missing_oab_id not_processed incomplete_societies];
    rewrite ?length_app; cbn [length];
    first [exists 0%nat; repeat split; lia | exists 1%nat; repeat split; lia].
Qed.

Lemma check_processed_counted lawyer lawyer_id full_name oab_id current_state r :
  let r' := check_processed lawyer lawyer_id full_name oab_id current_state r in
  ∃ d, (d <= 1)%nat
       ∧ issues_found r' = (issues_found r + d)%nat
       ∧ length (not_processed r') = (length (not_processed r) + d)%nat
       ∧ state_inconsistent r' = state_inconsistent r
       ∧ missing_oab_id r' = missing_oab_id r
       ∧ incomplete_societies r' = incomplete_societies r.
Proof.
  unfold check_processed. case_match; cbn [issues_found state_inconsistent
    missing_oab_id not_processed incomplete_societies];
    rewrite ?length_app; cbn [length];
    first [exists 0%nat; repeat split; lia | exists 1%nat; repeat split; lia].
Qed.

Lemma check_societies_counted lawyer lawyer_id full_name oab_id current_state r r' :
  check_societies lawyer lawyer_id full_name oab_id current_state r = Ret r' →
  ∃ d, (d <= 1)%nat
       ∧ issues_found r' = (issues_found r + d)%nat
       ∧ length (incomplete_societies r') = (length (incomplete_societies r) + d)%nat
       ∧ state_inconsistent r' = state_inconsistent r
       ∧ missing_oab_id r' = missing_oab_id r
       ∧ not_processed r' = not_processed r.
Proof.
  unfold check_societies, PyOps.res_bind.
  repeat case_match; try discriminate; intros [= <-];
    cbn [issues_found state_inconsistent missing_oab_id not_processed
         incomplete_societies];
    rewrite ?length_app; cbn [length];
    first [exists 0%nat; repeat split; lia | exists 1%nat; repeat split; lia].
Qed.

Lemma verify_lawyer_counted i lawyer r r' n :
  counted r n → verify_lawyer py_repr i lawyer r = Ret r' → counted r' (S n).
Proof.
  intros (Hsum & Hfirst & Hsecond & Hthird). unfold verify_lawyer. cbv zeta.
  set (lawyer_id := dict_get_default lawyer "id" _).
  set (full_name := dict_get_default lawyer "full_name" _).
  destruct (check_state_counted lawyer_id full_name (dict_get lawyer "oab_id")
              (dict_get lawyer "state") r) as (d1 & Hd1 & Hi1 & Hl1 & Hn1 & Hc1).
  set (r1 := check_state _ _ _ _ _ _) in *.
  destruct (check_processed_counted lawyer lawyer_id full_name (dict_get lawyer "oab_id")
              (dict_get lawyer "state") r1) as (d2 & Hd2 & Hi2 & Hl2 & Hs2 & Hm2 & Hc2).
  set (r2 := check_processed _ _ _ _ _ _) in *.
  intros Hrun.
  destruct (check_societies_counted _ _ _ _ _ _ _ Hrun)
    as (d3 & Hd3 & Hi3 & Hl3 & Hs3 & Hm3 & Hn3).
  unfold counted. rewrite Hi3, Hi2, Hi1, Hl3, Hs3, Hm3, Hn3, Hs2, Hm2, Hl2, Hc2, Hn1, Hc1.
  repeat split; lia.
Qed.

Lemma verify_from_counted lawyers_data : ∀ i r r' n,
  counted r n → verify_from py_repr i lawyers_data r = Ret r' →
  counted r' (n + length lawyers_data).
Proof.
  induction lawyers_data as [|lawyer rest IH]; intros i r r' n Hr.
  - intros [= <-]. by rewrite Nat.add_0_r.
  - cbn [verify_from length].
    destruct (verify_lawyer py_repr i lawyer r) as [r1|e] eqn:Hone; [|discriminate].
    cbn [PyOps.res_bind]. intros Hrest.
    replace (n + S (length rest))%nat with (S n + length rest)%nat by lia.
    eapply IH; [|exact Hrest]. by eapply verify_lawyer_counted.
Qed.

Lemma len_raises v e :
  PyOps.len v = Raise e → sized v = false ∧ exn_class_of e = TypeError.
Proof. destruct v; simpl; try discriminate; by intros [= <-]. Qed.

Lemma len_sized v : sized v = true → ∃ n, PyOps.len v = Ret n.
Proof. destruct v; simpl; try discriminate; by eexists. Qed.

Lemma default_list_unsized (o : option json) :
  sized (default (JList []) o) = false → ∃ v, o = Some v ∧ sized v = false.
Proof. destruct o as [v|]; [by exists v|discriminate]. Qed.

(** What makes the loop raise is [len] of a value without a length. *)
Lemma check_societies_raises lawyer lawyer_id full_name oab_id current_state r e :
  check_societies lawyer lawyer_id full_name oab_id current_state r = Raise e →
  exn_class_of e = TypeError ∧ ¬ measurable lawyer.
Proof.
  unfold check_societies, dict_get_default.
  destruct (truthy (default (JBool false) (lawyer !! "has_society"))); [|discriminate].
  cbv zeta. destruct (negb _ || negb _); [|discriminate].
  destruct (PyOps.len (default (JList []) (lawyer !! "society_basic_details")))
    as [basic_count|e1] eqn:Hb; cbn [PyOps.res_bind].
  - destruct (PyOps.len (default (JList []) (lawyer !! "society_complete_details")))
      as [complete_count|e2] eqn:Hc; cbn [PyOps.res_bind]; [discriminate|].
    intros [= <-]. apply len_raises in Hc as [Hc He]. split; [exact He|].
    apply default_list_unsized in Hc as (v & Hv & Hs). intros [_ Hm].
    specialize (Hm v Hv). congruence.
  - intros [= <-]. apply len_raises in Hb as [Hb He]. split; [exact He|].
    apply default_list_unsized in Hb as (v & Hv & Hs). intros [Hm _].
    specialize (Hm v Hv). congruence.
Qed.

Lemma verify_lawyer_raises i lawyer r e :
  verify_lawyer py_repr i lawyer r = Raise e →
  exn_class_of e = TypeError ∧ ¬ measurable lawyer.
Proof. unfold verify_lawyer. cbv zeta. apply check_societies_raises. Qed.
End Report.

(** X15.  For a file that holds a list of objects: when the checks of
    [verify_lawyer_data] end without an exception, [issues_found] is the
    sum of the lengths of the four lists of the report.  A record adds at
    most one entry to [state_inconsistent] and [missing_oab_id] together,
    one to [not_processed] and one to [incomplete_societies], so the counter
    is at most three times the number of records (the percentage printed can
    reach 300). *)
Theorem verify_lawyer_data_counter_is_sum_of_lists
    (py_repr : json → string) (lawyers_data : list (gmap string json))
    (r : CheckerReport.report) :
  CheckerReport.verify_lawyer_data py_repr lawyers_data = Ret r →
  CheckerReport.issues_found r
  = (length (CheckerReport.state_inconsistent r)
     + length (CheckerReport.missing_oab_id r)
     + length (CheckerReport.not_processed r)
     + length (CheckerReport.incomplete_societies r))%nat
  ∧ (length (CheckerReport.state_inconsistent r)
     + length (CheckerReport.missing_oab_id r) <= length lawyers_data)%nat
  ∧ (length (CheckerReport.not_processed r) <= length lawyers_data)%nat
  ∧ (length (CheckerReport.incomplete_societies r) <= length lawyers_data)%nat
  ∧ (CheckerReport.issues_found r <= 3 * length lawyers_data)%nat.
Proof.
  intros Hrun. unfold CheckerReport.verify_lawyer_data in Hrun.
  assert (CheckerReport.counted CheckerReport.empty_report 0) as Hstart.
  { unfold CheckerReport.counted. simpl. lia. }
  destruct (verify_from_counted py_repr lawyers_data 0%nat _ r 0%nat Hstart Hrun)
    as (Hsum & Hfirst & Hsecond & Hthird).
  simpl in Hfirst, Hsecond, Hthird. repeat split; try done. lia.
Qed.

Lemma verify_lawyer_data_counter_is_sum_of_lists_witness :
  ∃ r,
    CheckerReport.verify_lawyer_data (λ _, "None") [∅] = Ret r
    ∧ CheckerReport.issues_found r
      = (length (CheckerReport.state_inconsistent r)
         + length (CheckerReport.missing_oab_id r)
         + length (CheckerReport.not_processed r)
         + length (CheckerReport.incomplete_societies r))%nat
    ∧ (length (CheckerReport.state_inconsistent r)
       + length (CheckerReport.missing_oab_id r) <= length [∅ : gmap string json])%nat
    ∧ (length (CheckerReport.not_processed r) <= length [∅ : gmap string json])%nat
    ∧ (length (CheckerReport.incomplete_societies r)
       <= length [∅ : gmap string json])%nat
    ∧ (CheckerReport.issues_found r <= 3 * length [∅ : gmap string json])%nat.
Proof.
  eexists. split; [reflexivity|].
  apply (verify_lawyer_data_counter_is_sum_of_lists (λ _, "None") [∅]).
  reflexivity.
Defined.

(** X16.  For a file that holds a list of objects, the checks of
    [verify_lawyer_data] end without an exception when the partnership
    lists of every record, where present, are values [len] accepts; an
    exception they raise is a TypeError; and they do raise for a record
    with a truthy [has_society] whose [society_basic_details] is present,
    falsy and not such a value (null, false or 0). *)
Theorem verify_lawyer_data_raises_only_on_unsized_lists
    (py_repr : json → string) (lawyers_data : list (gmap string json)) :
  (Forall CheckerReport.measurable lawyers_data →
   ∃ r, CheckerReport.verify_lawyer_data py_repr lawyers_data = Ret r)
  ∧ (∀ e, CheckerReport.verify_lawyer_data py_repr lawyers_data = Raise e →
          exn_class_of e = TypeError)
  ∧ (∀ lawyer v,
       lawyer ∈ lawyers_data →
       truthy (dict_get_default lawyer "has_society" (JBool false)) = true →
       lawyer !! "society_basic_details" = Some v →
       truthy v = false → CheckerReport.sized v = false →
       ∃ e, CheckerReport.verify_lawyer_data py_repr lawyers_data = Raise e).
Proof.
  unfold CheckerReport.verify_lawyer_data. generalize CheckerReport.empty_report.
  generalize 0%nat. split; [|split].
  - intros Hall. revert n r.
    induction Hall as [|lawyer rest Hm Hrest IH]; intros i r; [by exists r|].
    cbn [CheckerReport.verify_from].
    destruct (CheckerReport.verify_lawyer py_repr i lawyer r) as [r1|e] eqn:Hone.
    + apply IH.
    + apply verify_lawyer_raises in Hone as [_ Hone]. done.
  - revert n r. induction lawyers_data as [|lawyer rest IH]; intros i r e; [done|].
    cbn [CheckerReport.verify_from].
    destruct (CheckerReport.verify_lawyer py_repr i lawyer r) as [r1|e1] eqn:Hone.
    + apply IH.
    + intros [= <-]. by apply verify_lawyer_raises in Hone as [Hone _].
  - intros lawyer v Hin Hhas Hv Hfalse Hunsized. revert n r.
    induction lawyers_data as [|other rest IH]; intros i r;
      [by apply elem_of_nil in Hin|].
    cbn [CheckerReport.verify_from].
    apply elem_of_cons in Hin as [<-|Hin].
    + unfold CheckerReport.verify_lawyer, CheckerReport.check_societies. cbv zeta.
      unfold dict_get_default in *. rewrite Hhas, Hv.
      change (default (JList []) (Some v)) with v.
      rewrite Hfalse. cbn [negb orb].
      destruct (PyOps.len v) as [n|e] eqn:Hlen; [|by exists e].
      destruct v; simplify_eq/=.
    + destruct (CheckerReport.verify_lawyer py_repr i other r) as [r1|e1];
        [by apply IH|by exists e1].
Qed.

Lemma verify_lawyer_data_raises_only_on_unsized_lists_witness :
  ∃ e,
    CheckerReport.verify_lawyer_data (λ _, "None")
      [{[ "has_society" := JBool true; "society_basic_details" := JNull ]}]
    = Raise e.
Proof.
  apply (proj2 (proj2 (verify_lawyer_data_raises_only_on_unsized_lists (λ _, "None")
                         [{[ "has_society" := JBool true;
                             "society_basic_details" := JNull ]}]))
           {[ "has_society" := JBool true; "society_basic_details" := JNull ]} JNull).
  - left.
  - reflexivity.
  - reflexivity.
  - reflexivity.
  - reflexivity.
Defined.

(** ** Sessions are closed before they are replaced *)

Section Lifecycle.
Import Scraper Sessions.
Context (w : world).

Lemma lifecycle_snoc t ev : lifecycle (t ++ [ev]) = step (lifecycle t) ev.
Proof. unfold lifecycle. by rewrite foldl_app. Qed.

Lemma tidy_same_history st st' :
  trace st' = trace st →
  global_requests_session st' = global_requests_session st →
  sessions_built st' = sessions_built st →
  tidy st → tidy st'.
Proof. intros Ht Hg Hb (closed & Hl & Hs & Hc). exists closed. by rewrite Ht, Hg, Hb. Qed.

Lemma tidy_silent ev st :
  match ev with Slept _ | Invalidated => True | _ => False end →
  tidy st → tidy (emit ev st).
Proof.
  intros Hev (closed & Hl & Hs & Hc). exists closed. cbn [trace emit
    global_requests_session sessions_built].
  rewrite lifecycle_snoc, Hl. split; [|done]. by destruct ev.
Qed.

(** Closing the current session and emptying the cell. *)
Lemma tidy_close st n :
  tidy st → tidy (set_cell None n (close_current st)).
Proof.
  intros (closed & Hl & Hs & Hc). unfold close_current.
  destruct (global_requests_session st) as [s|] eqn:Hg.
  - exists (s :: closed). cbn [trace emit set_cell global_requests_session
      sessions_built option_list].
    rewrite lifecycle_snoc, Hl. change (option_list (Some s)) with [s]. cbn [step].
    rewrite bool_decide_eq_true_2 by (by left). split; [|split].
    + by rewrite filter_cons_False by (intros Hne; by apply Hne).
    + done.
    + intros s' [->|Hin]%elem_of_cons; [by apply Hs|by apply Hc].
  - exists closed. cbn [trace set_cell global_requests_session sessions_built].
    split; [exact Hl|]. split; [done|exact Hc].
Qed.

Lemma tidy_acquire st :
  tidy st →
  tidy (snd (get_requests_session_with_proxy_managed w st))
  ∧ (∀ s, fst (get_requests_session_with_proxy_managed w st) = Some s →
          global_requests_session (snd (get_requests_session_with_proxy_managed w st))
          = Some s).
Proof.
  intros Ht. unfold get_requests_session_with_proxy_managed.
  destruct (bool_decide (global_requests_session st = None)
            || (MAX_REQUESTS_PER_SESSION <=? requests_session_use_count st)%nat).
  - pose proof (tidy_close st 0 Ht) as (closed & Hl & Hs & Hc).
    cbn [trace set_cell global_requests_session sessions_built] in Hl, Hc.
    change (option_list None) with (@nil session) in Hl.
    assert (sessions_built (close_current st) = sessions_built st) as Hb.
    { unfold close_current. by destruct (global_requests_session st). }
    destruct (session_creation w (sessions_built (close_current st))); cbn [fst snd].
    + split; [|done]. exists closed.
      cbn [trace emit set_cell count_construction global_requests_session
           sessions_built option_list].
      rewrite lifecycle_snoc, Hl. cbn [step].
      rewrite bool_decide_eq_false_2 by (by intros ?%elem_of_nil).
      rewrite bool_decide_eq_false_2 by (intros Hin%Hc; lia).
      split; [done|]. split.
      * intros s [= <-]. lia.
      * intros s Hin%Hc. lia.
    + split; [|done]. exists closed.
      cbn [trace emit set_cell count_construction global_requests_session
           sessions_built option_list].
      split; [exact Hl|]. split; [done|]. intros s Hin%Hc. lia.
  - cbn [fst snd]. split; [|done]. by eapply tidy_same_history.
Qed.

Lemma tidy_force_new st : tidy st → tidy (force_new_session st).
Proof. intros Ht. unfold force_new_session. apply tidy_silent; [done|]. by apply tidy_close. Qed.

Lemma tidy_request s st :
  global_requests_session st = Some s → tidy st →
  tidy (emit (Requested s) (count_http_call st)).
Proof.
  intros Hg (closed & Hl & Hs & Hc). exists closed.
  cbn [trace emit count_http_call global_requests_session sessions_built].
  rewrite lifecycle_snoc, Hl, Hg. change (option_list (Some s)) with [s]. cbn [step].
  rewrite bool_decide_eq_true_2 by (by left).
  split; [done|]. split; [|exact Hc]. intros s' [= <-]. by apply Hs.
Qed.

Lemma tidy_try_request method url max_retries retry_delay attempt st :
  tidy st → tidy (snd (try_request w method url max_retries retry_delay attempt st)).
Proof.
  intros Ht. unfold try_request.
  destruct (tidy_acquire st Ht) as [Ht1 Hcur].
  destruct (get_requests_session_with_proxy_managed w st) as [[s|] st1];
    cbn [fst snd] in Ht1, Hcur.
  - specialize (Hcur s eq_refl).
    destruct (String.eqb (upper method) "POST" || String.eqb (upper method) "GET");
      [|done].
    pose proof (tidy_request s st1 Hcur Ht1) as Ht2.
    destruct (http w (http_calls st1)) as [e| |r]; [done| |].
    + destruct (attempt <? max_retries - 1)%nat; [|done]. by apply tidy_silent.
    + by destruct (raise_for_status r).
  - destruct (attempt <? max_retries - 1)%nat; [|done]. by apply tidy_silent.
Qed.

Lemma tidy_retry_loop method url max_retries retry_delay attempts : ∀ st,
  tidy st → tidy (snd (retry_loop w method url max_retries retry_delay attempts st)).
Proof.
  induction attempts as [|attempt rest IH]; intros st Ht; [done|].
  cbn [retry_loop].
  pose proof (tidy_try_request method url max_retries retry_delay attempt st Ht) as Ht1.
  destruct (try_request w method url max_retries retry_delay attempt st)
    as [[r| |e] st1]; cbn [snd] in Ht1.
  - done.
  - by apply IH.
  - assert (tidy (force_new_session
                    (log_error (if is_proxy_error e
                                then "ProxyError na URL " ++ url ++ ": " ++ exn_msg e
                                else exn_msg e) st1))) as Ht2.
    { apply tidy_force_new. by eapply tidy_same_history. }
    destruct (max_retries - 1 <=? attempt)%nat; [done|].
    apply IH. by apply tidy_silent.
Qed.
End Lifecycle.

(** X17.  The managed sessions of oab_scraper_modified.py follow a life
    cycle as long as every construction of a session goes through (the
    whole [try] block of [get_requests_session_with_proxy_managed], the
    probe of the egress address and its log included).  Starting from the
    empty cell, after any sequence of calls of
    [get_requests_session_with_proxy_managed] and [make_request_with_retry]:
    no session was created twice, every session that was closed had been
    open, every request was sent on a session that was open at that moment,
    and the only session left open is the current one; a session that is
    replaced was closed first.  A construction that raises after the new
    session was stored is outside this statement: its handler resets the
    cell without closing that session. *)
Theorem managed_sessions_follow_life_cycle (w : Scraper.world)
    (method url : string) (max_retries retry_delay : nat) (st : Scraper.state) :
  (∀ n, Scraper.session_creation w n = true) →
  Sessions.tidy Scraper.empty_cell
  ∧ (Sessions.tidy st →
     Sessions.tidy (snd (Scraper.get_requests_session_with_proxy_managed w st))
     ∧ Sessions.tidy
         (snd (Scraper.make_request_with_retry w method url max_retries retry_delay st))).
Proof.
  intros _. split.
  - exists []. repeat split; [done|intros s Hin]. by apply elem_of_nil in Hin.
  - intros Ht. split.
    + by apply tidy_acquire.
    + unfold Scraper.make_request_with_retry. by apply tidy_retry_loop.
Qed.

Lemma managed_sessions_follow_life_cycle_witness :
  Sessions.tidy
    (snd (Scraper.get_requests_session_with_proxy_managed
            Examples.world_proxy_error_then_ok Scraper.empty_cell))
  ∧ Sessions.tidy
      (snd (Scraper.make_request_with_retry Examples.world_proxy_error_then_ok
              "POST" "https://cna.oab.org.br/Home/Search" 4 2 Scraper.empty_cell)).
Proof.
  refine (proj2 (managed_sessions_follow_life_cycle Examples.world_proxy_error_then_ok
                   "POST" "https://cna.oab.org.br/Home/Search" 4 2 Scraper.empty_cell
                   _) _).
  - intros n. reflexivity.
  - exists []. split; [reflexivity|]. split.
    + intros s Hs. discriminate Hs.
    + intros s Hin. by apply elem_of_nil in Hin.
Defined.

(** ** The extracted fields are trimmed *)

Lemma rstrip_idempotent s : rstrip (rstrip s) = rstrip s.
Proof.
  induction s as [|c s IH]; [done|]. cbn [rstrip].
  destruct (String.eqb (rstrip s) "" && is_space_char c) eqn:Hc; [done|].
  cbn [rstrip]. by rewrite IH, Hc.
Qed.

Lemma lstrip_fixed_rstrip s : lstrip s = s → lstrip (rstrip s) = rstrip s.
Proof.
  destruct s as [|c s]; [done|]. cbn [lstrip rstrip].
  destruct (is_space_char c) eqn:Hc.
  - intros Hs. exfalso.
    assert (∀ t, String.length (lstrip t) <= String.length t)%nat as Hlen.
    { induction t as [|c' t IHt]; [done|]. cbn [lstrip].
      destruct (is_space_char c'); simpl; lia. }
    specialize (Hlen s). rewrite Hs in Hlen. simpl in Hlen. lia.
  - intros _. rewrite andb_false_r. cbn [lstrip]. by rewrite Hc.
Qed.

Lemma lstrip_idempotent s : lstrip (lstrip s) = lstrip s.
Proof.
  induction s as [|c s IH]; [done|]. cbn [lstrip].
  destruct (is_space_char c) eqn:Hc; [exact IH|]. cbn [lstrip]. by rewrite Hc.
Qed.

Lemma strip_idempotent s : strip (strip s) = strip s.
Proof.
  unfold strip. rewrite (lstrip_fixed_rstrip (lstrip s)) by apply lstrip_idempotent.
  apply rstrip_idempotent.
Qed.

Lemma labelled_field_trimmed label soup v :
  labelled_field label soup = Some v → strip v = v.
Proof.
  unfold labelled_field. destruct (Soup.find_labelled label soup) as [[parent b]|];
    [|discriminate].
  intros [= <-]. apply strip_idempotent.
Qed.

(** The no-break space U+00A0 is the two bytes C2 A0, and a text that
    holds one is not free of wide spaces. *)
Lemma wide_space_no_break :
  WideSpace.utf8 160 = String (ascii_of_nat 194) (String (ascii_of_nat 160) "")
  ∧ WideSpace.utf8 8239
    = String (ascii_of_nat 226) (String (ascii_of_nat 128) (String (ascii_of_nat 175) ""))
  ∧ length WideSpace.encodings = 19%nat
  ∧ WideSpace.free ("OAB" ++ WideSpace.utf8 160) = false
  ∧ WideSpace.free "Inscrição: 12345 " = true.
Proof. by vm_compute. Qed.

(** X18.  On a page none of whose strings holds a white-space character
    outside the ASCII range (a no-break space and the like, which Python
    strips too), every text field that [extract_modal_data] fills (the
    name, the registration, the region, the status, the address and the
    telephones) is trimmed: it neither starts nor ends with white space, so
    stripping it again changes nothing. *)
Theorem extract_modal_data_fields_are_trimmed (soup : Soup.node) (v : string) :
  forallb WideSpace.free (Soup.strings soup) = true →
  firm_name (extract_modal_data soup) = Some v
  ∨ inscricao (extract_modal_data soup) = Some v
  ∨ estado (extract_modal_data soup) = Some v
  ∨ situacao (extract_modal_data soup) = Some v
  ∨ endereco (extract_modal_data soup) = Some v
  ∨ telefones (extract_modal_data soup) = Some v →
  strip v = v ∧ lstrip v = v ∧ rstrip v = v.
Proof.
  intros _ Hfield.
  assert (strip v = v) as Hv.
  { unfold extract_modal_data in Hfield.
    cbn [firm_name inscricao estado situacao endereco telefones] in Hfield.
    destruct Hfield as [H|[H|[H|[H|[H|H]]]]];
      try (by eapply labelled_field_trimmed).
    - destruct (Soup.select_one_under "modal-title" "b" soup); [|discriminate].
      injection H as <-. apply strip_idempotent.
    - destruct (Soup.select_one_class "label" soup); [|discriminate].
      injection H as <-. apply strip_idempotent. }
  split; [exact Hv|]. rewrite <- Hv. unfold strip. split.
  - apply lstrip_fixed_rstrip, lstrip_idempotent.
  - apply rstrip_idempotent.
Qed.

Lemma extract_modal_data_fields_are_trimmed_witness :
  strip "SILVA E SOUZA ADVOGADOS" = "SILVA E SOUZA ADVOGADOS"
  ∧ lstrip "SILVA E SOUZA ADVOGADOS" = "SILVA E SOUZA ADVOGADOS"
  ∧ rstrip "SILVA E SOUZA ADVOGADOS" = "SILVA E SOUZA ADVOGADOS".
Proof.
  apply (extract_modal_data_fields_are_trimmed Examples.fixture_modal
           "SILVA E SOUZA ADVOGADOS").
  - by vm_compute.
  - left. by vm_compute.
Defined.

(** ** The browsers of get_initial_cookies *)

Section Browsers.
Import Cookies.
Context (outcome : nat → attempt_outcome) (built : nat → constructors).
Context (max_retries retry_delay : nat).

Lemma running_after_app t evs :
  running_after (t ++ evs) = foldl step (running_after t) evs.
Proof. unfold running_after. by rewrite foldl_app. Qed.

Lemma waits_app t1 t2 : waits (t1 ++ t2) = (waits t1 ++ waits t2)%list.
Proof. unfold waits. by rewrite omap_app. Qed.

Lemma waits_started d t : waits (Started d :: t) = waits t.
Proof. reflexivity. Qed.

Lemma waits_quit d t : waits (Quit d :: t) = waits t.
Proof. reflexivity. Qed.

Lemma waits_slept s t : waits (Slept s :: t) = s :: waits t.
Proof. reflexivity. Qed.

Lemma waits_abandoned bs : waits (map Abandoned bs) = [].
Proof. by induction bs. Qed.

Lemma left_running_app t1 t2 :
  left_running (t1 ++ t2) = (left_running t1 ++ left_running t2)%list.
Proof. unfold left_running. by rewrite omap_app. Qed.

Lemma left_running_abandoned bs : left_running (map Abandoned bs) = bs.
Proof.
  induction bs as [|b bs IH]; [done|].
  change (left_running (map Abandoned (b :: bs)))
    with (b :: left_running (map Abandoned bs)).
  by rewrite IH.
Qed.

(** The browsers that the constructors abandon are held by no one. *)
Lemma all_quit_abandon st bs : all_quit st → all_quit (emit (map Abandoned bs) st).
Proof.
  intros [Hrun Hold]. unfold all_quit, emit. cbn [trace started]. split.
  - rewrite running_after_app, Hrun. clear.
    induction bs as [|b bs IH]; [done|]. exact IH.
  - intros d Hin. apply elem_of_app in Hin as [Hin|Hin]; [by apply Hold|].
    exfalso. clear -Hin. induction bs as [|b bs IH]; [by apply elem_of_nil in Hin|].
    cbn [map] in Hin. apply elem_of_cons in Hin as [[=]|Hin]. by apply IH.
Qed.

Lemma abandoned_in_length o c : (length (abandoned_in o c) <= 2)%nat.
Proof.
  unfold abandoned_in. rewrite length_app.
  destruct (chrome_abandoned c), o, (firefox_abandoned c); cbn; lia.
Qed.

Lemma abandoned_over_attempts_length (l : list nat) :
  (length (flat_map (λ n, abandoned_in (outcome n) (built n)) l) <= 2 * length l)%nat.
Proof.
  induction l as [|n l IH]; [done|]. cbn [flat_map length]. rewrite length_app.
  pose proof (abandoned_in_length (outcome n) (built n)). lia.
Qed.

Lemma abandoned_over_attempts_none (l : list nat) :
  (∀ n, abandoned_in (outcome n) (built n) = []) →
  flat_map (λ n, abandoned_in (outcome n) (built n)) l = [].
Proof.
  intros Hnone. induction l as [|n l IH]; [done|]. cbn [flat_map].
  by rewrite Hnone, IH.
Qed.

(** A browser that is started, kept through some waits and quit. *)
Lemma all_quit_session st d sleeps t' :
  all_quit st → d = started st →
  Forall (λ ev, ∃ s, ev = Slept s) sleeps →
  t' = (trace st ++ Started d :: sleeps ++ [Quit d])%list →
  running_after t' = Some []
  ∧ ∀ d', Started d' ∈ t' → (d' < S (started st))%nat.
Proof.
  intros [Hrun Hold] -> Hsleeps ->. split.
  - rewrite running_after_app, Hrun. cbn [foldl step].
    rewrite bool_decide_eq_false_2 by (by intros ?%elem_of_nil).
    rewrite foldl_app.
    assert (foldl step (Some [started st]) sleeps = Some [started st]) as ->.
    { induction Hsleeps as [|ev rest [s ->] _ IH]; [done|]. exact IH. }
    cbn [foldl step]. rewrite bool_decide_eq_true_2 by (by left).
    by rewrite filter_cons_False by (intros Hne; by apply Hne).
  - intros d' Hin. apply elem_of_app in Hin as [Hin|Hin].
    + specialize (Hold d' Hin). lia.
    + apply elem_of_cons in Hin as [[= ->]|Hin]; [lia|].
      apply elem_of_app in Hin as [Hin|Hin].
      * rewrite Forall_forall in Hsleeps. by destruct (Hsleeps _ Hin) as [s ?].
      * apply elem_of_cons in Hin as [[=]|Hin]. by apply elem_of_nil in Hin.
Qed.

Lemma all_quit_sleeps st sleeps t' :
  all_quit st → Forall (λ ev, ∃ s, ev = Slept s) sleeps →
  t' = (trace st ++ sleeps)%list →
  running_after t' = Some [] ∧ ∀ d', Started d' ∈ t' → (d' < started st)%nat.
Proof.
  intros [Hrun Hold] Hsleeps ->. split.
  - rewrite running_after_app, Hrun.
    induction Hsleeps as [|ev rest [s ->] _ IH]; [done|]. exact IH.
  - intros d' Hin. apply elem_of_app in Hin as [Hin|Hin]; [by apply Hold|].
    rewrite Forall_forall in Hsleeps. by destruct (Hsleeps _ Hin) as [s ?].
Qed.

Lemma all_quit_after_browser st st' sleeps :
  all_quit st →
  trace st' = (trace st ++ Started (started st) :: sleeps ++ [Quit (started st)])%list →
  started st' = S (started st) →
  Forall is_sleep sleeps →
  all_quit st'.
Proof.
  intros Hq Ht Hs Hsl. unfold all_quit. rewrite Hs.
  by eapply (all_quit_session st (started st) sleeps).
Qed.

Lemma all_quit_after_sleeps st st' sleeps :
  all_quit st → trace st' = (trace st ++ sleeps)%list → started st' = started st →
  Forall is_sleep sleeps → all_quit st'.
Proof.
  intros Hq Ht Hs Hsl. unfold all_quit. rewrite Hs.
  by eapply (all_quit_sleeps st sleeps).
Qed.

Lemma slept_is_sleep s : is_sleep (Slept s).
Proof. by exists s. Qed.

(** The handler, after a browser was started and [sleeps] were made. *)
Lemma handle_with_browser attempt e st sleeps st1 :
  all_quit st → Forall is_sleep sleeps →
  trace st1 = (trace st ++ Started (started st) :: sleeps)%list →
  started st1 = S (started st) →
  ∃ how st',
    handle max_retries retry_delay attempt (Some (started st)) e st1 = (how, st')
    ∧ all_quit st' ∧ attempts_made st' = attempts_made st1 ∧ started st' = started st1
    ∧ trace st'
      = (trace st1
         ++ (if (attempt <? max_retries - 1)%nat then [Slept retry_delay] else [])
         ++ [Quit (started st)])%list
    ∧ match how with
      | Returns _ _ => False
      | Goes_on => (attempt < max_retries - 1)%nat
      | Raises e' =>
          (max_retries - 1 <= attempt)%nat
          ∧ e' = plain ("Failed to get initial cookies after "
                        ++ pretty max_retries ++ " attempts: " ++ exn_msg e)
      end.
Proof.
  intros Hq Hsl Ht Hs. unfold handle, quit, emit.
  destruct (Nat.ltb_spec attempt (max_retries - 1)) as [Hlt|Hlt].
  - eexists _, _. split; [reflexivity|]. cbn [attempts_made started trace].
    split; [|by rewrite <- app_assoc].
    eapply (all_quit_after_browser st _ (sleeps ++ [Slept retry_delay])); [done| |done|].
    + cbn [trace]. rewrite Ht, <- !app_assoc. reflexivity.
    + apply Forall_app. split; [done|]. repeat constructor. apply slept_is_sleep.
  - eexists _, _. split; [reflexivity|]. cbn [attempts_made started trace].
    split; [|done].
    eapply (all_quit_after_browser st _ sleeps); [done| |done|done].
    cbn [trace]. rewrite Ht, <- !app_assoc. reflexivity.
Qed.

Lemma handle_without_browser attempt e st :
  all_quit st →
  ∃ how st',
    handle max_retries retry_delay attempt None e st = (how, st')
    ∧ all_quit st' ∧ attempts_made st' = attempts_made st ∧ started st' = started st
    ∧ trace st'
      = (trace st
         ++ (if (attempt <? max_retries - 1)%nat then [Slept retry_delay] else []))%list
    ∧ match how with
      | Returns _ _ => False
      | Goes_on => (attempt < max_retries - 1)%nat
      | Raises e' =>
          (max_retries - 1 <= attempt)%nat
          ∧ e' = plain ("Failed to get initial cookies after "
                        ++ pretty max_retries ++ " attempts: " ++ exn_msg e)
      end.
Proof.
  intros Hq. unfold handle, quit, emit.
  destruct (Nat.ltb_spec attempt (max_retries - 1)) as [Hlt|Hlt].
  - eexists _, _. split; [reflexivity|]. cbn [attempts_made started trace].
    split; [|done].
    eapply (all_quit_after_sleeps st _ [Slept retry_delay]); [done|done|done|].
    repeat constructor. apply slept_is_sleep.
  - eexists _, _. split; [reflexivity|]. cbn [attempts_made started trace].
    split; [|by rewrite app_nil_r]. by destruct st.
Qed.

(** The attempt, from the answer of [get_driver_with_proxy] on. *)
Lemma attempt_with_step o attempt st :
  all_quit st →
  ∃ how st',
    attempt_with max_retries retry_delay o attempt st = (how, st')
    ∧ all_quit st'
    ∧ attempts_made st' = attempts_made st
    ∧ (started st' <= S (started st))%nat
    ∧ (∃ evs, trace st' = (trace st ++ evs)%list
              ∧ Forall (a_wait retry_delay) (waits evs)
              ∧ left_running evs = [])
    ∧ match how with
      | Returns cookie_dict token => pair_of o = Some (cookie_dict, token)
      | Goes_on => pair_of o = None ∧ (attempt < max_retries - 1)%nat
      | Raises e =>
          pair_of o = None ∧ (max_retries - 1 <= attempt)%nat
          ∧ ∃ msg, e = plain ("Failed to get initial cookies after "
                              ++ pretty max_retries ++ " attempts: " ++ msg)
      end.
Proof.
  intros Hq.
  assert (Hwait : ∀ sleeps : list event,
            Forall (λ ev, ∃ s, ev = Slept s ∧ a_wait retry_delay s) sleeps →
            Forall (a_wait retry_delay)
              (waits (sleeps
                      ++ (if (attempt <? max_retries - 1)%nat
                          then [Slept retry_delay] else []))%list)).
  { intros sleeps Hs. rewrite waits_app. apply Forall_app. split.
    - induction Hs as [|ev rest (s & -> & Hs) _ IH]; [constructor|].
      change (waits (Slept s :: rest)) with (s :: waits rest). by constructor.
    - destruct (attempt <? max_retries - 1)%nat; cbn; [|constructor].
      constructor; [by right|constructor]. }
  unfold attempt_with.
  destruct o as [e|e|e|cookie_dict value|cookie_dict fallback]; cbn [pair_of].
  - destruct (handle_without_browser attempt e st Hq)
      as (how & st' & -> & Hq' & Ha & Hs & Ht & Hhow).
    exists how, st'. split; [done|]. split; [done|]. split; [done|].
    split; [rewrite Hs; lia|]. split.
    + eexists. split; [exact Ht|]. split; [apply (Hwait []); constructor|].
      by destruct (attempt <? max_retries - 1)%nat.
    + destruct how as [| |e']; [done|done|]. destruct Hhow as [? ->]. eauto.
  - cbn [start_driver attempts_made started trace].
    edestruct (handle_with_browser attempt e st []) as (how & st' & -> & Hq' & Ha & Hs & Ht & Hhow);
      [done|constructor| |..].
    { cbn [trace]. reflexivity. }
    { reflexivity. }
    exists how, st'. split; [done|]. split; [done|]. split; [by rewrite Ha|].
    split; [rewrite Hs; cbn; lia|]. split.
    + eexists. split; [rewrite Ht; cbn [trace]; rewrite <- app_assoc; reflexivity|].
      split; [|by destruct (attempt <? max_retries - 1)%nat].
      cbn [app]. rewrite waits_started.
      rewrite waits_app. apply Forall_app. split; [apply (Hwait []); constructor|].
      cbn. constructor.
    + destruct how as [| |e']; [done|done|]. destruct Hhow as [? ->]. eauto.
  - cbn [start_driver attempts_made started trace].
    edestruct (handle_with_browser attempt e st [Slept 3])
      as (how & st' & -> & Hq' & Ha & Hs & Ht & Hhow);
      [done|repeat constructor; apply slept_is_sleep| |..].
    { unfold emit. cbn [trace]. rewrite <- app_assoc. reflexivity. }
    { reflexivity. }
    exists how, st'. split; [done|]. split; [done|]. split; [by rewrite Ha|].
    split; [rewrite Hs; cbn; lia|]. split.
    + eexists. split;
        [rewrite Ht; unfold emit; cbn [trace]; rewrite <- !app_assoc; reflexivity|].
      split; [|by destruct (attempt <? max_retries - 1)%nat].
      cbn [app]. rewrite waits_started, waits_slept.
      constructor; [by left|]. rewrite waits_app. apply Forall_app.
      split; [apply (Hwait []); constructor|]. cbn. constructor.
    + destruct how as [| |e']; [done|done|]. destruct Hhow as [? ->]. eauto.
  - cbn [start_driver attempts_made started trace]. unfold emit.
    cbn [attempts_made started trace].
    eexists _, _. split; [reflexivity|]. cbn [attempts_made started trace].
    split; [|split; [done|split; [lia|split; [|done]]]].
    + eapply (all_quit_after_browser st _ [Slept 3]); [done| |done|].
      * cbn [trace]. rewrite <- app_assoc. reflexivity.
      * repeat constructor. apply slept_is_sleep.
    + eexists. split; [rewrite <- app_assoc; reflexivity|]. split; [|done].
      cbn. constructor; [by left|constructor].
  - cbn [start_driver attempts_made started trace].
    assert (Hfail :
      ∃ how st',
        handle max_retries retry_delay attempt (Some (started st))
          (plain "Could not find verification token")
          (emit [Slept 3]
             {| attempts_made := attempts_made st; started := S (started st);
                trace := trace st ++ [Started (started st)] |}) = (how, st')
        ∧ all_quit st'
        ∧ attempts_made st' = attempts_made st
        ∧ (started st' <= S (started st))%nat
        ∧ (∃ evs, trace st' = (trace st ++ evs)%list
                  ∧ Forall (a_wait retry_delay) (waits evs)
                  ∧ left_running evs = [])
        ∧ match how with
          | Returns _ _ => False
          | Goes_on => (attempt < max_retries - 1)%nat
          | Raises e =>
              (max_retries - 1 <= attempt)%nat
              ∧ ∃ msg, e = plain ("Failed to get initial cookies after "
                                  ++ pretty max_retries ++ " attempts: " ++ msg)
          end).
    { edestruct (handle_with_browser attempt (plain "Could not find verification token")
                   st [Slept 3]
                   (emit [Slept 3]
                      {| attempts_made := attempts_made st;
                         started := S (started st);
                         trace := trace st ++ [Started (started st)] |}))
        as (how & st' & Hrun & Hq' & Ha & Hs & Ht & Hhow);
        [done|repeat constructor; apply slept_is_sleep| |..].
      { unfold emit. cbn [trace]. rewrite <- app_assoc. reflexivity. }
      { reflexivity. }
      exists how, st'. split; [exact Hrun|]. split; [done|]. split; [by rewrite Ha|].
      split; [rewrite Hs; cbn; lia|]. split.
      + eexists. split;
          [rewrite Ht; unfold emit; cbn [trace]; rewrite <- !app_assoc; reflexivity|].
        split; [|by destruct (attempt <? max_retries - 1)%nat].
        cbn [app]. rewrite waits_started, waits_slept.
        constructor; [by left|]. rewrite waits_app. apply Forall_app.
        split; [apply (Hwait []); constructor|]. cbn. constructor.
      + destruct how as [| |e']; [done|done|]. destruct Hhow as [? ->]. eauto. }
    destruct fallback as [value|]; [destruct (String.eqb value "") eqn:Hv|]; cbn [negb].
    + destruct Hfail as (how & st' & -> & ? & ? & ? & ? & Hhow).
      exists how, st'. repeat (split; [done|]). by destruct how.
    + unfold emit. cbn [attempts_made started trace].
      eexists _, _. split; [reflexivity|]. cbn [attempts_made started trace].
      split; [|split; [done|split; [lia|split; [|done]]]].
      * eapply (all_quit_after_browser st _ [Slept 3]); [done| |done|].
        -- cbn [trace]. rewrite <- !app_assoc. reflexivity.
        -- repeat constructor. apply slept_is_sleep.
      * eexists. split; [rewrite <- !app_assoc; reflexivity|]. split; [|done].
        cbn. constructor; [by left|constructor].
    + destruct Hfail as (how & st' & -> & ? & ? & ? & ? & Hhow).
      exists how, st'. repeat (split; [done|]). by destruct how.
Qed.

(** One pass of the loop. *)
Lemma pass_step attempt st :
  all_quit st →
  ∃ how st',
    pass outcome built max_retries retry_delay attempt st = (how, st')
    ∧ all_quit st'
    ∧ attempts_made st' = S (attempts_made st)
    ∧ (started st' <= S (started st))%nat
    ∧ (∃ evs, trace st' = (trace st ++ evs)%list
              ∧ Forall (a_wait retry_delay) (waits evs)
              ∧ left_running evs
                = abandoned_in (outcome (attempts_made st)) (built (attempts_made st)))
    ∧ match how with
      | Returns cookie_dict token =>
          pair_of (outcome (attempts_made st)) = Some (cookie_dict, token)
      | Goes_on =>
          pair_of (outcome (attempts_made st)) = None ∧ (attempt < max_retries - 1)%nat
      | Raises e =>
          pair_of (outcome (attempts_made st)) = None ∧ (max_retries - 1 <= attempt)%nat
          ∧ ∃ msg, e = plain ("Failed to get initial cookies after "
                              ++ pretty max_retries ++ " attempts: " ++ msg)
      end.
Proof.
  intros Hq. unfold pass. cbv zeta.
  set (bs := abandoned_in (outcome (attempts_made st)) (built (attempts_made st))).
  assert (Hq0 : all_quit (emit (map Abandoned bs) (begin st))).
  { apply all_quit_abandon. by destruct st. }
  destruct (attempt_with_step (outcome (attempts_made st)) attempt _ Hq0)
    as (how & st' & -> & Hq' & Ha & Hs & (evs & Ht & Hw & Hl) & Hhow).
  exists how, st'. split; [done|]. split; [done|]. split; [exact Ha|].
  split; [exact Hs|]. split; [|exact Hhow].
  exists (map Abandoned bs ++ evs)%list. split; [|split].
  - rewrite Ht. unfold emit, begin. cbn [trace]. by rewrite app_assoc.
  - rewrite waits_app, waits_abandoned. exact Hw.
  - rewrite left_running_app, left_running_abandoned, Hl. apply app_nil_r.
Qed.

(** The loop over the attempts that are left. *)
Lemma cookie_loop_spec n :
  ∀ a st, all_quit st → (a + n)%nat = max_retries →
  ∃ r st',
    cookie_loop outcome built max_retries retry_delay (seq a n) st = (r, st')
    ∧ all_quit st'
    ∧ (started st' <= started st + n)%nat
    ∧ (∃ evs, trace st' = (trace st ++ evs)%list
              ∧ Forall (a_wait retry_delay) (waits evs)
              ∧ (attempts_made st <= attempts_made st')%nat
              ∧ left_running evs
                = flat_map (λ i, abandoned_in (outcome i) (built i))
                    (seq (attempts_made st) (attempts_made st' - attempts_made st)))
    ∧ match r with
      | Ret None => n = 0%nat ∧ attempts_made st' = attempts_made st
      | Ret (Some p) =>
          ∃ i, (i < n)%nat
               ∧ (∀ j, (j < i)%nat → pair_of (outcome (attempts_made st + j)) = None)
               ∧ pair_of (outcome (attempts_made st + i)) = Some p
               ∧ attempts_made st' = (attempts_made st + S i)%nat
      | Raise e =>
          (1 <= n)%nat
          ∧ (∀ j, (j < n)%nat → pair_of (outcome (attempts_made st + j)) = None)
          ∧ attempts_made st' = (attempts_made st + n)%nat
          ∧ ∃ msg, e = plain ("Failed to get initial cookies after "
                              ++ pretty max_retries ++ " attempts: " ++ msg)
      end.
Proof.
  assert (Hone : ∀ st st1 evs1,
            attempts_made st1 = S (attempts_made st) →
            left_running evs1
              = abandoned_in (outcome (attempts_made st)) (built (attempts_made st)) →
            left_running evs1
              = flat_map (λ i, abandoned_in (outcome i) (built i))
                  (seq (attempts_made st) (attempts_made st1 - attempts_made st))).
  { intros st st1 evs1 Ha1 Hl1. rewrite Ha1.
    replace (S (attempts_made st) - attempts_made st)%nat with 1%nat by lia.
    cbn [seq flat_map]. by rewrite app_nil_r. }
  induction n as [|n IH]; intros a st Hq Hn.
  - exists (Ret None), st. cbn [seq cookie_loop]. split; [done|]. split; [done|].
    split; [lia|]. split; [|done]. exists []. split; [by rewrite app_nil_r|].
    split; [constructor|]. split; [lia|]. by rewrite Nat.sub_diag.
  - cbn [seq cookie_loop].
    destruct (pass_step a st Hq)
      as (how & st1 & -> & Hq1 & Ha1 & Hs1 & (evs1 & Ht1 & Hw1 & Hl1) & Hhow).
    destruct how as [cookie_dict token| |e].
    + exists (Ret (Some (cookie_dict, token))), st1. split; [done|]. split; [done|].
      split; [lia|]. split.
      { exists evs1. split; [done|]. split; [done|]. split; [lia|]. by apply Hone. }
      exists 0%nat. split; [lia|]. split; [intros j Hj; lia|].
      rewrite Nat.add_0_r. split; [done|lia].
    + destruct Hhow as [Hnone Hlt].
      destruct (IH (S a) st1 Hq1 ltac:(lia))
        as (r & st2 & -> & Hq2 & Hs2 & (evs2 & Ht2 & Hw2 & Ha2 & Hl2) & Hr).
      exists r, st2. split; [done|]. split; [done|]. split; [lia|]. split.
      { exists (evs1 ++ evs2)%list. split; [by rewrite Ht2, Ht1, app_assoc|].
        split; [rewrite waits_app; by apply Forall_app|]. split; [lia|].
        rewrite left_running_app, Hl1, Hl2, Ha1.
        replace (attempts_made st2 - attempts_made st)%nat
          with (S (attempts_made st2 - S (attempts_made st))) by lia.
        reflexivity. }
      destruct r as [[p|]|e].
      * destruct Hr as (i & Hi & Hbefore & Hat & Ha3). exists (S i).
        split; [lia|]. split; [|split].
        -- intros [|j] Hj; [by rewrite Nat.add_0_r|].
           replace (attempts_made st + S j)%nat with (attempts_made st1 + j)%nat by lia.
           apply Hbefore. lia.
        -- by replace (attempts_made st + S i)%nat with (attempts_made st1 + i)%nat by lia.
        -- lia.
      * destruct Hr as [-> _]. lia.
      * destruct Hr as (Hn1 & Hall & Ha3 & Hmsg). split; [lia|]. split; [|split; [lia|done]].
        intros [|j] Hj; [by rewrite Nat.add_0_r|].
        replace (attempts_made st + S j)%nat with (attempts_made st1 + j)%nat by lia.
        apply Hall. lia.
    + destruct Hhow as (Hnone & Hge & Hmsg).
      exists (Raise e), st1. split; [done|]. split; [done|]. split; [lia|].
      split.
      { exists evs1. split; [done|]. split; [done|]. split; [lia|]. by apply Hone. }
      split; [lia|]. split; [|split; [lia|done]].
      intros j Hj. assert (j = 0)%nat as -> by lia. by rewrite Nat.add_0_r.
Qed.
End Browsers.

(** X19.  [get_initial_cookies] calls [quit()] on every driver that
    [get_driver_with_proxy] hands to it: when it holds no driver before the
    call, it holds none after it, whether it returns or raises; no driver
    is obtained twice and none is quit that is not held.  The browsers
    that the call leaves running are exactly those that a constructor
    started and abandoned (a constructor that fails while it configures
    its browser returns None without [quit()]): at most two for each
    attempt, and none when no constructor abandons one.  The call makes at
    most [max_retries] attempts and obtains at most [max_retries] drivers,
    and every wait is the settle delay of three seconds or [retry_delay]. *)
Theorem get_initial_cookies_quits_every_driver
    (outcome : nat → Cookies.attempt_outcome) (built : nat → Cookies.constructors)
    (max_retries retry_delay : nat) (st : Cookies.state) :
  Cookies.all_quit st →
  ∃ r st',
    Cookies.get_initial_cookies outcome built max_retries retry_delay st = (r, st')
    ∧ Cookies.all_quit st'
    ∧ (Cookies.started st' <= Cookies.started st + max_retries)%nat
    ∧ (Cookies.attempts_made st <= Cookies.attempts_made st'
       <= Cookies.attempts_made st + max_retries)%nat
    ∧ ∃ evs, Cookies.trace st' = (Cookies.trace st ++ evs)%list
             ∧ Forall (Cookies.a_wait retry_delay) (Cookies.waits evs)
             ∧ Cookies.left_running evs
               = flat_map (λ n, Cookies.abandoned_in (outcome n) (built n))
                   (seq (Cookies.attempts_made st)
                      (Cookies.attempts_made st' - Cookies.attempts_made st))
             ∧ (length (Cookies.left_running evs) <= 2 * max_retries)%nat
             ∧ ((∀ n, Cookies.abandoned_in (outcome n) (built n) = []) →
                Cookies.left_running evs = []).
Proof.
  intros Hq. unfold Cookies.get_initial_cookies.
  destruct (cookie_loop_spec outcome built max_retries retry_delay max_retries 0 st Hq
              eq_refl)
    as (r & st' & Hrun & Hq' & Hs & (evs & Ht & Hw & Hle & Hl) & Hr).
  assert (Hmade : (Cookies.attempts_made st' <= Cookies.attempts_made st + max_retries)%nat).
  { destruct r as [[p|]|e].
    - destruct Hr as (i & ? & _ & _ & ->). lia.
    - destruct Hr as [_ ->]. lia.
    - destruct Hr as (_ & _ & -> & _). lia. }
  exists r, st'. split; [done|]. split; [done|]. split; [done|]. split; [lia|].
  exists evs. split; [done|]. split; [done|]. split; [done|]. split.
  - rewrite Hl.
    etransitivity; [apply abandoned_over_attempts_length|]. rewrite length_seq. lia.
  - intros Hnone. rewrite Hl. by apply abandoned_over_attempts_none.
Qed.

Lemma get_initial_cookies_quits_every_driver_witness :
  ∃ r st',
    Cookies.get_initial_cookies
      (λ n, match n with
            | O => Cookies.NoDriver (plain "Could not create webdriver with proxy")
            | _ => Cookies.TokenElement (JObj [("ASP.NET_SessionId", JStr "abc")])
                     (JStr "tok")
            end)
      (λ _, {| Cookies.chrome_abandoned := true; Cookies.firefox_abandoned := true |})
      4 2 Cookies.initial = (r, st')
    ∧ Cookies.all_quit st'
    ∧ (Cookies.started st' <= Cookies.started Cookies.initial + 4)%nat
    ∧ (Cookies.attempts_made Cookies.initial <= Cookies.attempts_made st'
       <= Cookies.attempts_made Cookies.initial + 4)%nat
    ∧ ∃ evs, Cookies.trace st' = (Cookies.trace Cookies.initial ++ evs)%list
             ∧ Forall (Cookies.a_wait 2) (Cookies.waits evs)
             ∧ Cookies.left_running evs
               = flat_map
                   (λ n, Cookies.abandoned_in
                           match n with
                           | O => Cookies.NoDriver
                                    (plain "Could not create webdriver with proxy")
                           | _ => Cookies.TokenElement
                                    (JObj [("ASP.NET_SessionId", JStr "abc")]) (JStr "tok")
                           end
                           {| Cookies.chrome_abandoned := true;
                              Cookies.firefox_abandoned := true |})
                   (seq (Cookies.attempts_made Cookies.initial)
                      (Cookies.attempts_made st' - Cookies.attempts_made Cookies.initial))
             ∧ (length (Cookies.left_running evs) <= 2 * 4)%nat
             ∧ ((∀ n, Cookies.abandoned_in
                        match n with
                        | O => Cookies.NoDriver
                                 (plain "Could not create webdriver with proxy")
                        | _ => Cookies.TokenElement
                                 (JObj [("ASP.NET_SessionId", JStr "abc")]) (JStr "tok")
                        end
                        {| Cookies.chrome_abandoned := true;
                           Cookies.firefox_abandoned := true |} = []) →
                Cookies.left_running evs = []).
Proof.
  apply (get_initial_cookies_quits_every_driver _ _ 4 2 Cookies.initial).
  split; [reflexivity|]. intros d Hin. by apply elem_of_nil in Hin.
Defined.

(** The run of that example: both constructors abandon their browser in
    the first attempt, which gets no driver; in the second Chrome is
    abandoned again and Firefox is the driver, which is quit.  Three
    browsers are left running. *)
Lemma get_initial_cookies_abandoned_example :
  let run :=
    Cookies.get_initial_cookies
      (λ n, match n with
            | O => Cookies.NoDriver (plain "Could not create webdriver with proxy")
            | _ => Cookies.TokenElement (JObj [("ASP.NET_SessionId", JStr "abc")])
                     (JStr "tok")
            end)
      (λ _, {| Cookies.chrome_abandoned := true; Cookies.firefox_abandoned := true |})
      4 2 Cookies.initial in
  fst run = Ret (Some (JObj [("ASP.NET_SessionId", JStr "abc")], JStr "tok"))
  ∧ Cookies.trace (snd run)
    = [Cookies.Abandoned Cookies.Chrome; Cookies.Abandoned Cookies.Firefox;
       Cookies.Slept 2; Cookies.Abandoned Cookies.Chrome; Cookies.Started 0;
       Cookies.Slept 3; Cookies.Quit 0]
  ∧ Cookies.running_after (Cookies.trace (snd run)) = Some []
  ∧ Cookies.left_running (Cookies.trace (snd run))
    = [Cookies.Chrome; Cookies.Firefox; Cookies.Chrome].
Proof. by vm_compute. Qed.

(** X20.  [get_initial_cookies] returns the cookies and the token of the
    first attempt, among the first [max_retries], that finds a token; an
    empty token of the fallback search counts as none.  When all
    [max_retries] attempts fail it raises a plain Exception whose text
    starts with [Failed to get initial cookies after <max_retries>
    attempts: ], and with [max_retries] 0 it returns None instead of a
    pair. *)
Theorem get_initial_cookies_outcome
    (outcome : nat → Cookies.attempt_outcome) (built : nat → Cookies.constructors)
    (max_retries retry_delay : nat) :
  match fst (Cookies.get_initial_cookies outcome built max_retries retry_delay
               Cookies.initial)
  with
  | Ret None => max_retries = 0%nat
  | Ret (Some p) =>
      ∃ i, (i < max_retries)%nat
           ∧ (∀ j, (j < i)%nat → Cookies.pair_of (outcome j) = None)
           ∧ Cookies.pair_of (outcome i) = Some p
  | Raise e =>
      (1 <= max_retries)%nat
      ∧ (∀ j, (j < max_retries)%nat → Cookies.pair_of (outcome j) = None)
      ∧ ∃ msg, e = plain ("Failed to get initial cookies after "
                          ++ pretty max_retries ++ " attempts: " ++ msg)
  end.
Proof.
  assert (Hq : Cookies.all_quit Cookies.initial).
  { split; [done|]. intros d Hin. by apply elem_of_nil in Hin. }
  unfold Cookies.get_initial_cookies.
  destruct (cookie_loop_spec outcome built max_retries retry_delay max_retries 0
              Cookies.initial Hq eq_refl) as (r & st' & -> & _ & _ & _ & Hr).
  cbn [fst]. destruct r as [[p|]|e].
  - destruct Hr as (i & ? & ? & ? & _). by exists i.
  - by destruct Hr.
  - destruct Hr as (? & ? & _ & ?). done.
Qed.

(** ** The records that main keeps *)

(** The search of the first script on a stored record: it returns a new
    record, enhanced from the one it was given, and leaves the others. *)
Lemma retry_delay_search_run (py_repr : json → string) (w : Pipeline.world)
    (schedule : nat → nat) (insc state cookies token : json)
    (original_record max_retries retry_delay : nat)
    (st : Pipeline.state) (record : gmap string json) :
  Pipeline.heap st !! original_record = Some record →
  ∃ b st',
    RetryDelay.search_lawyer_with_updates py_repr w schedule insc state cookies token
      original_record max_retries retry_delay st
    = (Ret (length (Pipeline.heap st), b), st')
    ∧ Pipeline.kept_from st record st'
    ∧ Pipeline.marked_processed (length (Pipeline.heap st)) st'.
Proof.
  intros Hrec. unfold RetryDelay.search_lawyer_with_updates.
  destruct (search_lawyer_with_updates_invariant py_repr w schedule true "lawyer_insc" true
              RetryDelay.get_modal_data_with_selenium false
              (λ s, Pipeline.kept_from st record s
                    ∧ Pipeline.marked_processed (length (Pipeline.heap st)) s)
              insc state cookies token original_record max_retries retry_delay st record)
    as (b & st' & Hrun & Hk & Hm).
  - apply and_on_heap; [apply kept_from_on_heap|apply marked_processed_on_heap].
  - intros key v st1 Hw [Hk Hm]. split.
    + apply kept_from_setitem; [by destruct Hw|done].
    + by apply marked_processed_setitem.
  - intros st1 Hh. split.
    + unfold Pipeline.kept_from. rewrite Hh. split; [|split].
      * rewrite length_app. simpl. lia.
      * intros j Hj. by rewrite lookup_app_l.
      * eexists. split; [by apply list_lookup_middle|].
        intros key Hkey. by apply initialised_frame_state.
    + unfold Pipeline.marked_processed. rewrite Hh. eexists.
      split; [by apply list_lookup_middle|]. apply marked_initialised.
  - exact Hrec.
  - by exists b, st'.
Qed.

Section MainRecords.
Import RetryDelayMain.
Context (py_repr : json → string) (w : world) (batch_file batch_base : string).

Lemma extends_refl h : extends h h.
Proof. by intros record fields. Qed.

Lemma extends_trans h1 h2 h3 : extends h1 h2 → extends h2 h3 → extends h1 h3.
Proof. intros H12 H23 record fields Hr. by apply H23, H12. Qed.

Lemma dictionaries_extends h h' records :
  extends h h' → Forall (λ record, is_Some (h !! record)) records →
  dictionaries h' records = dictionaries h records.
Proof.
  intros Hext Hall. unfold dictionaries. apply map_ext_Forall.
  eapply Forall_impl; [exact Hall|]. intros record [fields Hf]. cbn beta.
  by rewrite Hf, (Hext _ _ Hf).
Qed.

Lemma dictionaries_app h l1 l2 :
  dictionaries h (l1 ++ l2) = (dictionaries h l1 ++ dictionaries h l2)%list.
Proof. unfold dictionaries. by rewrite map_app. Qed.

Lemma failed_writes_app t1 t2 :
  failed_writes (t1 ++ t2) = (failed_writes t1 + failed_writes t2)%nat.
Proof. unfold failed_writes. by rewrite filter_app, length_app. Qed.

(** A call of the search from [main]. *)
Lemma search_step insc state_ record max_retries st fields :
  Pipeline.heap (pipeline st) !! record = Some fields →
  ∃ b p enhanced,
    search py_repr w insc state_ record max_retries st
    = (Ret (length (Pipeline.heap (pipeline st)), b), count_search (set_pipeline p st))
    ∧ extends (Pipeline.heap (pipeline st)) (Pipeline.heap p)
    ∧ Pipeline.heap p !! length (Pipeline.heap (pipeline st)) = Some enhanced
    ∧ enhanced_from fields enhanced.
Proof.
  intros Hrec. unfold search. cbv zeta.
  destruct (retry_delay_search_run py_repr (search_world w (searches st))
              (search_schedule w (searches st)) insc state_ (cookies st) (token st)
              record max_retries 2 (pipeline st) fields Hrec)
    as (b & p & -> & (Hlen & Hothers & enhanced & Hl & Hframe) & enhanced' & Hl' & Hm).
  rewrite Hl in Hl'. injection Hl' as <-.
  exists b, p, enhanced. split; [done|]. split; [|split; [done|by split]].
  intros j other Hj. rewrite Hothers; [done|]. by eapply lookup_lt_Some.
Qed.

(** A save of a list that is not empty. *)
Lemma save_step records batch_num st :
  records ≠ [] →
  ∃ name,
    (batch_num = None → final_name batch_base name)
    ∧ match write_failure w (files_opened st) with
      | None =>
          save_enhanced_lawyers_to_file w batch_base records batch_num false st
          = (Ret (Some name),
             open_file (Wrote name (Records (dictionaries (Pipeline.heap (pipeline st))
                                               records))) st)
      | Some e =>
          save_enhanced_lawyers_to_file w batch_base records batch_num false st
          = (Raise e, open_file (WriteFailed name) st)
      end.
Proof.
  intros Hne. unfold save_enhanced_lawyers_to_file.
  rewrite bool_decide_eq_false_2 by done. cbv zeta.
  eexists. split; [|by destruct (write_failure w (files_opened st))].
  intros ->. by eexists.
Qed.

(** The cookies are renewed, or the call raises; the records stay. *)
Lemma renew_cookies_step st :
  ∃ b,
    (∃ c t, renew_cookies w st = (Ret tt, set_session c t (set_browsers b st)))
    ∨ (∃ e, renew_cookies w st = (Raise e, set_browsers b st)).
Proof.
  unfold renew_cookies.
  destruct (Cookies.get_initial_cookies (cookie_outcome w) (cookie_constructors w) 4 2
              (browsers st))
    as [[[[c t]|]|e] b]; exists b; eauto.
Qed.

Lemma try_except_bind {A B} (m : M A) (k : A → M B) (handler : exn → M B) st :
  try_except (bind m k) handler st
  = match m st with
    | (Ret a, st1) => try_except (k a) handler st1
    | (Raise e, st1) => handler e st1
    end.
Proof. unfold try_except, bind. by destruct (m st) as [[a|e] st1]. Qed.

(** The handler of the loop: a line in the log, and the record itself. *)
Lemma handler_run msg record st :
  (log_error msg ;; append record) st
  = (Ret tt,
     set_enhanced_lawyers (enhanced_lawyers st ++ [record])
       (set_pipeline (snd (Pipeline.log_error msg (pipeline st))) st)).
Proof. reflexivity. Qed.

(** The end of a pass, once the search has given a record. *)
Lemma finish_record (handler : exn → M unit) record enhanced_record st fields enhanced :
  (∀ e st1, ∃ msg, handler e st1 = (log_error msg ;; append record) st1) →
  Pipeline.heap (pipeline st) !! record = Some fields →
  Pipeline.heap (pipeline st) !! enhanced_record = Some enhanced →
  enhanced_from fields enhanced →
  ∃ st' entries new,
    try_except
      (append enhanced_record ;;
       let* enhanced := items enhanced_record in
       let* sociedades_count :=
         λ st, (PyOps.len (dict_get_default enhanced "society_complete_details"
                             (JList [])), st) in
       (λ st,
          if (length (enhanced_lawyers st) mod BATCH_SIZE =? 0)%nat then
            let st := set_batch_counter (S (batch_counter st)) st in
            (save_enhanced_lawyers_to_file w batch_base (enhanced_lawyers st)
               (Some (batch_counter st)) false ;; ret tt) st
          else (Ret tt, st)) ;;
       pause) handler st
    = (Ret tt, st')
    ∧ Pipeline.heap (pipeline st') = Pipeline.heap (pipeline st)
    ∧ enhanced_lawyers st' = (enhanced_lawyers st ++ entries)%list
    ∧ entries_for fields (dictionaries (Pipeline.heap (pipeline st')) entries)
    ∧ Forall (λ l, is_Some (Pipeline.heap (pipeline st') !! l)) entries
    ∧ trace st' = (trace st ++ new)%list
    ∧ files_opened st' = (files_opened st + length new)%nat
    ∧ length entries = (1 + failed_writes new)%nat
    ∧ ((∀ n, write_failure w n = None) → failed_writes new = 0%nat).
Proof.
  intros Hhandler Hrec Henh Hfrom.
  assert (∃ l, dict_get_default enhanced "society_complete_details" (JList []) = JList l)
    as [l Hl].
  { destruct Hfrom as [(_ & _ & _ & l & Hl) _]. exists l.
    unfold dict_get_default. by rewrite Hl. }
  rewrite try_except_bind. cbn [append]. rewrite try_except_bind. cbn [items].
  cbn [pipeline set_enhanced_lawyers]. rewrite Henh.
  change (default ∅ (Some enhanced)) with enhanced.
  rewrite try_except_bind. rewrite Hl. cbn [PyOps.len].
  rewrite try_except_bind. cbn [enhanced_lawyers set_enhanced_lawyers].
  destruct (length (enhanced_lawyers st ++ [enhanced_record]) mod BATCH_SIZE =? 0)%nat.
  - cbv zeta. unfold bind at 1.
    destruct (save_step (enhanced_lawyers st ++ [enhanced_record])
                (Some (S (batch_counter st)))
                (set_batch_counter (S (batch_counter st))
                   (set_enhanced_lawyers (enhanced_lawyers st ++ [enhanced_record]) st)))
      as (name & _ & Hsave).
    { by destruct (enhanced_lawyers st). }
    cbn [files_opened set_batch_counter set_enhanced_lawyers enhanced_lawyers
         batch_counter] in Hsave |- *.
    destruct (write_failure w (files_opened st)) as [e|] eqn:Hfail.
    + rewrite Hsave. destruct (Hhandler e
        (open_file (WriteFailed name)
           (set_batch_counter (S (batch_counter st))
              (set_enhanced_lawyers (enhanced_lawyers st ++ [enhanced_record]) st))))
        as [msg ->].
      rewrite handler_run.
      eexists _, [enhanced_record; record], [WriteFailed name].
      split; [reflexivity|]. cbn. split; [done|]. split; [by rewrite <- app_assoc|].
      split; [|split; [|split; [done|split; [lia|split; [done|]]]]].
      * rewrite Hrec, Henh. right. exists enhanced. split; [done|by right].
      * repeat constructor; by eexists.
      * intros Hnone. by rewrite Hnone in Hfail.
    + rewrite Hsave. cbn [ret]. unfold try_except, pause.
      eexists _, [enhanced_record], [Wrote name _].
      split; [reflexivity|]. cbn. split; [done|]. split; [done|].
      split; [|split; [|split; [done|split; [lia|done]]]].
      * rewrite Henh. right. exists enhanced. split; [done|by left].
      * repeat constructor; by eexists.
  - unfold try_except, pause.
    eexists _, [enhanced_record], [].
    split; [reflexivity|]. cbn. split; [done|]. split; [done|].
    split; [|split; [|split; [by rewrite app_nil_r|split; [lia|done]]]].
    + rewrite Henh. right. exists enhanced. split; [done|by left].
    + repeat constructor; by eexists.
Qed.

(** One pass of the loop over the records to process. *)
Lemma process_record_step record st fields :
  Pipeline.heap (pipeline st) !! record = Some fields →
  ∃ st' entries new,
    process_record py_repr w batch_base record st = (Ret tt, st')
    ∧ extends (Pipeline.heap (pipeline st)) (Pipeline.heap (pipeline st'))
    ∧ enhanced_lawyers st' = (enhanced_lawyers st ++ entries)%list
    ∧ entries_for fields (dictionaries (Pipeline.heap (pipeline st')) entries)
    ∧ Forall (λ l, is_Some (Pipeline.heap (pipeline st') !! l)) entries
    ∧ trace st' = (trace st ++ new)%list
    ∧ files_opened st' = (files_opened st + length new)%nat
    ∧ length entries = (1 + failed_writes new)%nat
    ∧ ((∀ n, write_failure w n = None) → failed_writes new = 0%nat).
Proof.
  intros Hrec. unfold process_record. rewrite Hrec.
  change (default ∅ (Some fields)) with fields. cbv zeta.
  set (handler := λ e : exn, (log_error _ ;; append record)).
  assert (∀ e st1, ∃ msg, handler e st1 = (log_error msg ;; append record) st1)
    as Hhandler by (intros e st1; by eexists).
  destruct (negb (truthy (dict_get fields "oab_number"))
            || negb (truthy (dict_get fields "state"))).
  { unfold try_except. rewrite handler_run.
    eexists _, [record], []. split; [reflexivity|]. cbn.
    rewrite Hrec, app_nil_r.
    split; [apply extends_refl|]. split; [done|]. split; [by left|].
    split; [repeat constructor; by eexists|].
    split; [done|]. split; [lia|done]. }
  rewrite try_except_bind.
  destruct (search_step (dict_get fields "oab_number") (dict_get fields "state") record 4
              st fields Hrec) as (b & p & enhanced & -> & Hext & Hl & Hfrom).
  destruct b; cbn [negb].
  - (* the session is still valid *)
    unfold ret at 1. unfold bind at 1.
    edestruct (finish_record handler record (length (Pipeline.heap (pipeline st)))
                 (count_search (set_pipeline p st)) fields enhanced Hhandler)
      as (st' & entries & new & Hrun & Hh & Hrest); [by apply Hext|exact Hl|exact Hfrom|].
    cbn in Hh, Hrest.
    exists st', entries, new. split; [exact Hrun|]. split; [by rewrite Hh|exact Hrest].
  - (* the cookies are renewed and the search is made again *)
    rewrite try_except_bind. unfold bind at 1.
    destruct (renew_cookies_step (count_search (set_pipeline p st)))
      as [browsers' [(c & t & ->)|(e & ->)]].
    + assert (Pipeline.heap p !! record = Some fields) as Hrec1 by (by apply Hext).
      destruct (search_step (dict_get fields "oab_number") (dict_get fields "state")
                  record 2
                  (set_session c t (set_browsers browsers' (count_search (set_pipeline p st))))
                  fields Hrec1) as (b2 & p2 & enhanced2 & Hrun2 & Hext2 & Hl2 & Hfrom2).
      unfold bind at 1. rewrite Hrun2. cbn [ret fst].
      edestruct (finish_record handler record (length (Pipeline.heap p))
                   (count_search
                      (set_pipeline p2
                         (set_session c t
                            (set_browsers browsers' (count_search (set_pipeline p st))))))
                   fields enhanced2 Hhandler)
        as (st' & entries & new & Hrun & Hh & Hrest);
        [by apply Hext2|exact Hl2|exact Hfrom2|].
      cbn in Hh, Hrest.
      exists st', entries, new. split; [exact Hrun|].
      split; [rewrite Hh; by eapply extends_trans|exact Hrest].
    + destruct (Hhandler e (set_browsers browsers' (count_search (set_pipeline p st))))
        as [msg ->].
      rewrite handler_run.
      eexists _, [record], []. split; [reflexivity|]. cbn.
      rewrite (Hext _ _ Hrec), app_nil_r.
      split; [exact Hext|]. split; [done|]. split; [by left|].
      split; [repeat constructor; exists fields; by apply Hext|].
      split; [done|]. split; [lia|done].
Qed.

(** The loop over the records to process. *)
Lemma process_records_run records :
  ∀ st,
    Forall (λ record, is_Some (Pipeline.heap (pipeline st) !! record)) records →
    ∃ st' groups new,
      process_records py_repr w batch_base records st = (Ret tt, st')
      ∧ extends (Pipeline.heap (pipeline st)) (Pipeline.heap (pipeline st'))
      ∧ enhanced_lawyers st' = (enhanced_lawyers st ++ concat groups)%list
      ∧ Forall2 (λ fields group,
                   entries_for fields (dictionaries (Pipeline.heap (pipeline st')) group))
          (dictionaries (Pipeline.heap (pipeline st)) records) groups
      ∧ Forall (λ l, is_Some (Pipeline.heap (pipeline st') !! l)) (concat groups)
      ∧ trace st' = (trace st ++ new)%list
      ∧ files_opened st' = (files_opened st + length new)%nat
      ∧ length (concat groups) = (length records + failed_writes new)%nat
      ∧ ((∀ n, write_failure w n = None) → failed_writes new = 0%nat).
Proof.
  induction records as [|record rest IH]; intros st Hall.
  - exists st, [], []. cbn. rewrite !app_nil_r.
    split; [done|]. split; [apply extends_refl|]. repeat (split; [done|]). done.
  - apply Forall_cons in Hall as [[fields Hrec] Hrest].
    cbn [process_records]. unfold bind at 1.
    destruct (process_record_step record st fields Hrec)
      as (st1 & entries & new1 & -> & Hext1 & He1 & Hfor1 & Hsome1 & Ht1 & Hf1 & Hlen1 & Hno1).
    destruct (IH st1) as (st2 & groups & new2 & -> & Hext2 & He2 & Hfor2 & Hsome2 & Ht2
                          & Hf2 & Hlen2 & Hno2).
    { eapply Forall_impl; [exact Hrest|]. intros l [x Hx]. exists x. by apply Hext1. }
    exists st2, (entries :: groups), (new1 ++ new2)%list.
    split; [done|]. split; [by eapply extends_trans|].
    split; [by rewrite He2, He1, <- app_assoc|].
    split; [|split; [|split; [by rewrite Ht2, Ht1, <- app_assoc|split; [|split]]]].
    + cbn [dictionaries map]. rewrite Hrec. constructor.
      * change (default ∅ (Some fields)) with fields.
        by rewrite (dictionaries_extends _ _ entries Hext2 Hsome1).
      * fold (dictionaries (Pipeline.heap (pipeline st)) rest).
        rewrite <- (dictionaries_extends _ _ rest Hext1 Hrest). exact Hfor2.
    + cbn [concat]. apply Forall_app. split; [|done].
      eapply Forall_impl; [exact Hsome1|]. intros l [x Hx]. exists x. by apply Hext2.
    + rewrite Hf2, Hf1, length_app. lia.
    + cbn [concat]. rewrite length_app, failed_writes_app. cbn [length]. lia.
    + intros Hnone. rewrite failed_writes_app, Hno1, Hno2; done.
Qed.

(** The selection of the records goes through the store in order. *)
Lemma dictionaries_filter (f : gmap string json → bool) (b : bool)
    (h : list (gmap string json)) :
  dictionaries h (filter (λ record, f (default ∅ (h !! record)) = b) (seq 0 (length h)))
  = filter (λ fields, f fields = b) h.
Proof.
  assert (∀ h2 h1,
            dictionaries (h1 ++ h2)%list
              (filter (λ record, f (default ∅ ((h1 ++ h2)%list !! record)) = b)
                 (seq (length h1) (length h2)))
            = filter (λ fields, f fields = b) h2) as Hgen.
  { induction h2 as [|fields h2 IH]; intros h1; [done|].
    cbn [length seq]. rewrite !filter_cons.
    rewrite (list_lookup_middle h1 h2 fields (length h1)) by done.
    change (default ∅ (Some fields)) with fields.
    specialize (IH (h1 ++ [fields])%list).
    rewrite <- app_assoc, length_app, Nat.add_1_r in IH. cbn [app] in IH.
    destruct (decide (f fields = b)) as [Hf|Hf].
    - cbn [dictionaries map].
      rewrite (list_lookup_middle h1 h2 fields (length h1)) by done.
      change (default ∅ (Some fields)) with fields. f_equal. exact IH.
    - exact IH. }
  apply (Hgen h []).
Qed.

Lemma dictionaries_concat h (groups : list (list nat)) :
  dictionaries h (concat groups) = concat (map (dictionaries h) groups).
Proof.
  induction groups as [|g groups IH]; [done|].
  cbn [concat map]. by rewrite dictionaries_app, IH.
Qed.

Lemma dictionaries_length h records : length (dictionaries h records) = length records.
Proof. unfold dictionaries. by rewrite length_map. Qed.

(** The first cookies of a run: obtained when one of the first four
    attempts finds a token, and not otherwise. *)
Lemma first_cookies st :
  browsers st = Cookies.initial →
  (∃ c t b,
     renew_cookies w st = (Ret tt, set_session c t (set_browsers b st))
     ∧ ∃ j, (j < 4)%nat ∧ Cookies.pair_of (cookie_outcome w j) ≠ None)
  ∨ (∃ e b,
       renew_cookies w st = (Raise e, set_browsers b st)
       ∧ ∀ j, (j < 4)%nat → Cookies.pair_of (cookie_outcome w j) = None).
Proof.
  intros Hb. unfold renew_cookies, Cookies.get_initial_cookies. rewrite Hb.
  assert (Hq : Cookies.all_quit Cookies.initial).
  { split; [done|]. intros d Hin. by apply elem_of_nil in Hin. }
  destruct (cookie_loop_spec (cookie_outcome w) (cookie_constructors w) 4 2 4 0
              Cookies.initial Hq eq_refl)
    as (r & b & -> & _ & _ & _ & Hr).
  destruct r as [[[c t]|]|e].
  - left. exists c, t, b. split; [done|].
    destruct Hr as (i & Hi & _ & Hat & _). exists i. split; [done|].
    cbn in Hat. by rewrite Hat.
  - destruct Hr as [Hr _]. done.
  - right. exists e, b. split; [done|]. destruct Hr as (_ & Hall & _).
    intros j Hj. by apply (Hall j).
Qed.

Ltac try_except_step H :=
  match type of H with
  | context [try_except (bind ?m ?k) ?h ?s] => rewrite (try_except_bind m k h s) in H
  end.

(** The whole of [main], from the loaded records on. *)
Lemma main_run lawyers_data :
  let cleaned := map (RetryDelay.clean_record_state py_repr) lawyers_data in
  let skipped :=
    filter (λ fields, fst (RetryDelay.should_process_record fields) = false) cleaned in
  let to_process :=
    filter (λ fields, fst (RetryDelay.should_process_record fields) = true) cleaned in
  ∃ st' groups periodic final,
    main py_repr w batch_file batch_base (initial lawyers_data) = (Ret tt, st')
    ∧ listed st' = (skipped ++ concat groups)%list
    ∧ trace st' = (periodic ++ final)%list
    ∧ length (concat groups) = (length groups + failed_writes periodic)%nat
    ∧ ((∀ n, write_failure w n = None) → failed_writes periodic = 0%nat)
    ∧ ((to_process ≠ []
        ∧ (∀ j, (j < 4)%nat → Cookies.pair_of (cookie_outcome w j) = None)
        ∧ groups = [] ∧ trace st' = [])
       ∨ ((to_process = []
           ∨ ∃ j, (j < 4)%nat ∧ Cookies.pair_of (cookie_outcome w j) ≠ None)
          ∧ Forall2 entries_for to_process groups
          ∧ ((listed st' = [] ∧ final = [])
             ∨ ∃ name,
                 final_name batch_base name
                 ∧ match write_failure w (length periodic) with
                   | Some _ => final = [WriteFailed name]
                   | None =>
                       ∃ rest, final = Wrote name (Records (listed st')) :: rest
                               ∧ (length rest <= 1)%nat
                   end))).
Proof.
  intros cleaned skipped to_process.
  set (f := λ fields, fst (RetryDelay.should_process_record fields)).
  set (st1 := set_pipeline (Pipeline.set_heap cleaned (Pipeline.initial lawyers_data))
                (initial lawyers_data)).
  set (records_to_process :=
         filter (λ record, f (default ∅ (cleaned !! record)) = true)
           (seq 0 (length cleaned))).
  set (kept := filter (λ record, f (default ∅ (cleaned !! record)) = false)
                 (seq 0 (length cleaned))).
  set (st2 := set_enhanced_lawyers kept st1).
  assert (dictionaries cleaned kept = skipped) as Hkept
    by apply (dictionaries_filter f false cleaned).
  assert (dictionaries cleaned records_to_process = to_process) as Htodo
    by apply (dictionaries_filter f true cleaned).
  assert (Forall (λ record, is_Some (cleaned !! record)) kept) as Hkept_some.
  { apply Forall_forall. intros record Hin.
    apply list_elem_of_filter in Hin as [_ Hin]. apply elem_of_seq in Hin.
    apply lookup_lt_is_Some. lia. }
  assert (Forall (λ record, is_Some (cleaned !! record)) records_to_process) as Htodo_some.
  { apply Forall_forall. intros record Hin.
    apply list_elem_of_filter in Hin as [_ Hin]. apply elem_of_seq in Hin.
    apply lookup_lt_is_Some. lia. }
  destruct (main py_repr w batch_file batch_base (initial lawyers_data)) as [r st']
    eqn:Hrun.
  unfold main in Hrun. try_except_step Hrun.
  change (clean_states py_repr (initial lawyers_data)) with (Ret tt, st1) in Hrun.
  cbv beta iota in Hrun.
  try_except_step Hrun.
  change (select_records st1) with (Ret records_to_process, st2) in Hrun.
  cbv beta iota in Hrun.
  destruct (decide (records_to_process = [])) as [Hnil|Hsome].
  - (* nothing to process *)
    rewrite bool_decide_eq_true_2 in Hrun by done.
    assert (to_process = []) as Hnone by (by rewrite <- Htodo, Hnil).
    try_except_step Hrun. change (enhanced_lawyers st2) with kept in Hrun.
    destruct (decide (kept = [])) as [Hk|Hk].
    + unfold save_enhanced_lawyers_to_file in Hrun.
      rewrite bool_decide_eq_true_2 in Hrun by done.
      injection Hrun as <- <-.
      exists st2, [], [], []. split; [reflexivity|].
      change (listed st2) with (dictionaries cleaned kept). rewrite Hkept, app_nil_r.
      split; [done|]. split; [done|]. split; [done|]. split; [done|]. right.
      split; [by left|]. split; [rewrite Hnone; constructor|]. left.
      split; [|done]. by rewrite <- Hkept, Hk.
    + destruct (save_step kept None st2 Hk) as (name & Hname & Hsave).
      change (files_opened st2) with 0%nat in Hsave.
      destruct (write_failure w 0) as [e|] eqn:Hfail; rewrite Hsave in Hrun;
        injection Hrun as <- <-.
      * exists (open_file (WriteFailed name) st2), [], [], [WriteFailed name].
        split; [reflexivity|].
        change (listed (open_file (WriteFailed name) st2))
          with (dictionaries cleaned kept). rewrite Hkept, app_nil_r.
        split; [done|]. split; [done|]. split; [done|]. split; [done|]. right.
        split; [by left|]. split; [rewrite Hnone; constructor|]. right.
        exists name. split; [by apply Hname|]. cbn [length]. by rewrite Hfail.
      * eexists _, [], [], [Wrote name _].
        split; [reflexivity|].
        change (listed (open_file _ st2)) with (dictionaries cleaned kept).
        change (Pipeline.heap (pipeline st2)) with cleaned.
        rewrite Hkept, app_nil_r.
        split; [done|]. split; [done|]. split; [done|]. split; [done|]. right.
        split; [by left|]. split; [rewrite Hnone; constructor|]. right.
        exists name. split; [by apply Hname|]. cbn [length]. rewrite Hfail.
        exists []. split; [reflexivity|cbn; lia].
  - (* some records to process *)
    rewrite bool_decide_eq_false_2 in Hrun by done.
    assert (to_process ≠ []) as Hto.
    { intros Hnil. apply Hsome. apply (f_equal length) in Hnil.
      rewrite <- Htodo, dictionaries_length in Hnil. by destruct records_to_process. }
    try_except_step Hrun.
    destruct (first_cookies st2 eq_refl)
      as [(c & t & b & Hcookies & Hfound)|(e & b & Hcookies & Hnone)];
      rewrite Hcookies in Hrun.
    + set (st3 := set_session c t (set_browsers b st2)) in *.
      try_except_step Hrun.
      destruct (process_records_run records_to_process st3 Htodo_some)
        as (st4 & groups & periodic & Hloop & Hext & Henh & Hfor & Hsome4 & Ht & Hf & Hlen
            & Hno).
      rewrite Hloop in Hrun.
      change (Pipeline.heap (pipeline st3)) with cleaned in Hext, Hfor.
      change (enhanced_lawyers st3) with kept in Henh.
      change (trace st3) with (@nil event) in Ht.
      change (files_opened st3) with 0%nat in Hf. cbn [app] in Ht. cbn [Nat.add] in Hf.
      rewrite Htodo in Hfor.
      assert (length groups = length records_to_process) as Hgroups.
      { apply Forall2_length in Hfor. rewrite <- Hfor, <- Htodo. apply dictionaries_length. }
      assert (listed st4
              = (skipped ++ concat (map (dictionaries (Pipeline.heap (pipeline st4)))
                                      groups))%list) as Hlisted.
      { unfold listed. rewrite Henh, dictionaries_app, dictionaries_concat.
        by rewrite (dictionaries_extends _ _ kept Hext Hkept_some), Hkept. }
      assert (Forall2 entries_for to_process
                (map (dictionaries (Pipeline.heap (pipeline st4))) groups)) as Hfor'.
      { by apply Forall2_fmap_r. }
      assert (length (concat (map (dictionaries (Pipeline.heap (pipeline st4))) groups))
              = (length (map (dictionaries (Pipeline.heap (pipeline st4))) groups)
                 + failed_writes periodic)%nat) as Hlen'.
      { rewrite <- dictionaries_concat, dictionaries_length, length_map. lia. }
      assert (enhanced_lawyers st4 ≠ []) as Hne.
      { rewrite Henh. intros Hnil. apply (f_equal length) in Hnil.
        rewrite length_app in Hnil. cbn in Hnil.
        destruct records_to_process; [done|]. cbn in Hlen. lia. }
      try_except_step Hrun.
      rewrite bool_decide_eq_false_2 in Hrun by done. cbn [negb] in Hrun.
      destruct (save_step (enhanced_lawyers st4) None st4 Hne) as (name & Hname & Hsave).
      unfold bind at 1 in Hrun. rewrite Hf in Hsave.
      destruct (write_failure w (length periodic)) as [e|] eqn:Hfail;
        rewrite Hsave in Hrun.
      * injection Hrun as <- <-.
        exists (open_file (WriteFailed name) st4),
          (map (dictionaries (Pipeline.heap (pipeline st4))) groups), periodic,
          [WriteFailed name].
        split; [reflexivity|]. split; [exact Hlisted|]. split; [cbn; by rewrite Ht|].
        split; [exact Hlen'|]. split; [exact Hno|]. right.
        split; [by right|]. split; [exact Hfor'|]. right.
        exists name. split; [by apply Hname|]. by rewrite Hfail.
      * cbn [ret] in Hrun. fold (listed st4) in Hrun.
        set (st5 := open_file (Wrote name (Records (listed st4))) st4) in *.
        assert (∃ st6 rest,
                  (if negb (bool_decide (Pipeline.error_log (pipeline st5) = []))
                   then write_error_log w batch_file batch_base
                          (Pipeline.error_log (pipeline st5)) st5
                   else (Ret tt, st5))
                  = (match write_failure w (files_opened st5) with
                     | Some e =>
                         if negb (bool_decide (Pipeline.error_log (pipeline st5) = []))
                         then Raise e else Ret tt
                     | None => Ret tt
                     end, st6)
                  ∧ listed st6 = listed st4
                  ∧ trace st6 = (trace st5 ++ rest)%list
                  ∧ (length rest <= 1)%nat) as (st6 & rest & Hlog & Hl' & Ht' & Hrest).
        { destruct (bool_decide (Pipeline.error_log (pipeline st5) = [])); cbn [negb].
          - exists st5, []. rewrite app_nil_r.
            split; [by destruct (write_failure w (files_opened st5))|].
            split; [reflexivity|split; [reflexivity|cbn; lia]].
          - unfold write_error_log.
            destruct (write_failure w (files_opened st5)); eexists _, [_];
              (split; [reflexivity|]);
              (split; [reflexivity|split; [reflexivity|cbn; lia]]). }
        unfold try_except in Hrun. rewrite Hlog in Hrun.
        assert ((Ret tt, st6) = (r, st')) as Hend.
        { destruct (write_failure w (files_opened st5));
            [destruct (negb (bool_decide (Pipeline.error_log (pipeline st5) = [])))|];
            exact Hrun. }
        injection Hend as <- <-.
        exists st6, (map (dictionaries (Pipeline.heap (pipeline st4))) groups), periodic,
          (Wrote name (Records (listed st4)) :: rest).
        split; [reflexivity|].
        rewrite Hl'. split; [exact Hlisted|].
        split; [rewrite Ht'; cbn; by rewrite Ht, <- app_assoc|].
        split; [exact Hlen'|]. split; [exact Hno|]. right.
        split; [by right|]. split; [exact Hfor'|]. right.
        exists name. split; [by apply Hname|]. rewrite Hfail. by exists rest.
    + injection Hrun as <- <-.
      exists (set_browsers b st2), [], [], []. split; [reflexivity|].
      change (listed (set_browsers b st2)) with (dictionaries cleaned kept).
      rewrite Hkept, app_nil_r.
      split; [done|]. split; [done|]. split; [done|]. split; [done|]. by left.
Qed.
End MainRecords.

Lemma entries_for_length fields entries :
  RetryDelayMain.entries_for fields entries → (1 <= length entries)%nat.
Proof. intros [->|(enhanced & _ & [->| ->])]; cbn; lia. Qed.

Lemma groups_length tp groups :
  Forall2 RetryDelayMain.entries_for tp groups →
  (length groups <= length (concat groups))%nat.
Proof.
  induction 1 as [|fields g tp groups Hg _ IH]; [done|].
  cbn [concat length]. rewrite length_app. apply entries_for_length in Hg. lia.
Qed.

(** Without a surplus entry, every record has exactly one. *)
Lemma groups_single tp groups :
  Forall2 RetryDelayMain.entries_for tp groups →
  (length (concat groups) <= length groups)%nat →
  Forall2 (λ fields entry, entry = fields ∨ RetryDelayMain.enhanced_from fields entry)
    tp (concat groups).
Proof.
  induction 1 as [|fields g tp groups Hg Hrest IH]; [constructor|].
  cbn [concat length]. rewrite length_app. intros Hlen.
  pose proof (groups_length _ _ Hrest) as Hge.
  destruct Hg as [->|(enhanced & Hfrom & [->| ->])]; cbn [length app] in *.
  - constructor; [by left|]. apply IH. lia.
  - constructor; [by right|]. apply IH. lia.
  - lia.
Qed.

Lemma filter_partition_length {A} (f : A → bool) (l : list A) :
  (length (filter (λ x, f x = false) l) + length (filter (λ x, f x = true) l))%nat
  = length l.
Proof.
  induction l as [|x l IH]; [done|]. rewrite !filter_cons.
  destruct (f x); repeat case_decide; try done; cbn [length]; lia.
Qed.

Lemma selection_length py_repr lawyers_data :
  (length (RetryDelayMain.records_skipped py_repr lawyers_data)
   + length (RetryDelayMain.records_to_process py_repr lawyers_data))%nat
  = length lawyers_data.
Proof.
  unfold RetryDelayMain.records_skipped, RetryDelayMain.records_to_process.
  rewrite (filter_partition_length
             (λ fields, fst (RetryDelay.should_process_record fields))).
  unfold RetryDelayMain.cleaned. by rewrite length_map.
Qed.

(** X21.  [main] of the retry-delay script, from the loaded records on,
    never raises.  When records are to be processed and none of the first
    four attempts to get cookies finds a token, it ends without writing a
    file.  Otherwise [enhanced_lawyers] ends up holding the records that
    needed no processing, in the order of the file, and after them, for
    each record to process in order, the record itself, a record enhanced
    from it, or that enhanced record followed by the record itself; the list
    is longer than the file by exactly the number of periodic saves that
    raised.  The final save then writes this list, unless it raises. *)
Theorem retry_delay_main_accounts_for_every_record
    (py_repr : json → string) (w : RetryDelayMain.world) (batch_file batch_base : string)
    (lawyers_data : list (gmap string json)) :
  ∃ st' groups periodic final,
    RetryDelayMain.main py_repr w batch_file batch_base
      (RetryDelayMain.initial lawyers_data) = (Ret tt, st')
    ∧ RetryDelayMain.trace st' = (periodic ++ final)%list
    ∧ RetryDelayMain.listed st'
      = (RetryDelayMain.records_skipped py_repr lawyers_data ++ concat groups)%list
    ∧ ((RetryDelayMain.records_to_process py_repr lawyers_data ≠ []
        ∧ (∀ j, (j < 4)%nat →
                Cookies.pair_of (RetryDelayMain.cookie_outcome w j) = None)
        ∧ groups = [] ∧ RetryDelayMain.trace st' = [])
       ∨ ((RetryDelayMain.records_to_process py_repr lawyers_data = []
           ∨ ∃ j, (j < 4)%nat
                  ∧ Cookies.pair_of (RetryDelayMain.cookie_outcome w j) ≠ None)
          ∧ Forall2 RetryDelayMain.entries_for
              (RetryDelayMain.records_to_process py_repr lawyers_data) groups
          ∧ length (RetryDelayMain.listed st')
            = (length lawyers_data + RetryDelayMain.failed_writes periodic)%nat
          ∧ ((RetryDelayMain.listed st' = [] ∧ final = [])
             ∨ ∃ name,
                 RetryDelayMain.final_name batch_base name
                 ∧ match RetryDelayMain.write_failure w (length periodic) with
                   | Some _ => final = [RetryDelayMain.WriteFailed name]
                   | None =>
                       ∃ rest,
                         final
                         = RetryDelayMain.Wrote name
                             (RetryDelayMain.Records (RetryDelayMain.listed st')) :: rest
                         ∧ (length rest <= 1)%nat
                   end))).
Proof.
  destruct (main_run py_repr w batch_file batch_base lawyers_data)
    as (st' & groups & periodic & final & Hrun & Hlisted & Ht & Hlen & _ & Hcases).
  exists st', groups, periodic, final.
  split; [exact Hrun|]. split; [exact Ht|]. split; [exact Hlisted|].
  destruct Hcases as [Hfail|(Hok & Hfor & Hfinal)]; [by left|right].
  split; [exact Hok|]. split; [exact Hfor|]. split; [|exact Hfinal].
  assert (RetryDelayMain.listed st'
          = (RetryDelayMain.records_skipped py_repr lawyers_data ++ concat groups)%list)
    as Hlisted' by exact Hlisted.
  assert (Forall2 RetryDelayMain.entries_for
            (RetryDelayMain.records_to_process py_repr lawyers_data) groups)
    as Hfor' by exact Hfor.
  rewrite Hlisted', length_app, Hlen.
  pose proof (selection_length py_repr lawyers_data) as Hpart.
  apply Forall2_length in Hfor'. lia.
Qed.

(** X22.  When no writing of a file raises, the batch is not empty, and
    either no record is to be processed or one of the first four attempts
    to get cookies finds a token, [main] of the retry-delay script writes a
    final file with exactly one entry per record of the batch: first the
    records that needed no processing, then, for each record to process,
    the record itself or a record enhanced from it (marked as processed,
    the same outside the six enrichment fields). *)
Theorem retry_delay_main_final_file_has_one_entry_per_record
    (py_repr : json → string) (w : RetryDelayMain.world) (batch_file batch_base : string)
    (lawyers_data : list (gmap string json)) :
  (∀ n, RetryDelayMain.write_failure w n = None) →
  lawyers_data ≠ [] →
  (RetryDelayMain.records_to_process py_repr lawyers_data = []
   ∨ ∃ j, (j < 4)%nat ∧ Cookies.pair_of (RetryDelayMain.cookie_outcome w j) ≠ None) →
  ∃ st' periodic name processed rest,
    RetryDelayMain.main py_repr w batch_file batch_base
      (RetryDelayMain.initial lawyers_data) = (Ret tt, st')
    ∧ RetryDelayMain.trace st'
      = (periodic
         ++ RetryDelayMain.Wrote name
              (RetryDelayMain.Records
                 (RetryDelayMain.records_skipped py_repr lawyers_data ++ processed))
            :: rest)%list
    ∧ RetryDelayMain.final_name batch_base name
    ∧ Forall2 (λ fields entry,
                 entry = fields ∨ RetryDelayMain.enhanced_from fields entry)
        (RetryDelayMain.records_to_process py_repr lawyers_data) processed
    ∧ length (RetryDelayMain.records_skipped py_repr lawyers_data ++ processed)
      = length lawyers_data
    ∧ RetryDelayMain.failed_writes periodic = 0%nat.
Proof.
  intros Hwrites Hdata Hcookies.
  destruct (main_run py_repr w batch_file batch_base lawyers_data)
    as (st' & groups & periodic & final & Hrun & Hlisted & Ht & Hlen & Hno & Hcases).
  specialize (Hno Hwrites).
  destruct Hcases as [(Hto & Hnone & _)|(_ & Hfor & Hfinal)].
  { destruct Hcookies as [Hnil|(j & Hj & Hpair)]; [done|]. by specialize (Hnone j Hj). }
  assert (RetryDelayMain.listed st'
          = (RetryDelayMain.records_skipped py_repr lawyers_data ++ concat groups)%list)
    as Hlisted' by exact Hlisted.
  assert (Forall2 RetryDelayMain.entries_for
            (RetryDelayMain.records_to_process py_repr lawyers_data) groups)
    as Hfor' by exact Hfor.
  clear Hlisted Hfor. rename Hlisted' into Hlisted. rename Hfor' into Hfor.
  assert (length (RetryDelayMain.listed st') = length lawyers_data) as Hsize.
  { rewrite Hlisted, length_app, Hlen, Hno.
    pose proof (selection_length py_repr lawyers_data) as Hpart.
    pose proof (Forall2_length _ _ _ Hfor) as Hgroups. lia. }
  destruct Hfinal as [[Hnil _]|(name & Hname & Hfinal)].
  { rewrite Hnil in Hsize. by destruct lawyers_data. }
  rewrite Hwrites in Hfinal. destruct Hfinal as (rest & -> & _).
  exists st', periodic, name, (concat groups), rest.
  split; [exact Hrun|]. split; [by rewrite Ht, Hlisted|]. split; [exact Hname|].
  split; [apply groups_single; [exact Hfor|lia]|].
  split; [by rewrite <- Hlisted|exact Hno].
Qed.

Lemma retry_delay_main_final_file_has_one_entry_per_record_witness :
  ∃ st' periodic name processed rest,
    RetryDelayMain.main (λ _, "")
      {| RetryDelayMain.search_world := λ _, Examples.world_three_partnerships;
         RetryDelayMain.search_schedule := λ _ n, n;
         RetryDelayMain.cookie_outcome :=
           λ _, Cookies.TokenElement (JObj [("ASP.NET_SessionId", JStr "abc")])
                  (JStr "tok");
         RetryDelayMain.cookie_constructors :=
           λ _, {| Cookies.chrome_abandoned := false;
                   Cookies.firefox_abandoned := false |};
         RetryDelayMain.strftime := λ _, "20250101_000000";
         RetryDelayMain.write_failure := λ _, None |}
      "batches/lawyers_001.json" "lawyers_001"
      (RetryDelayMain.initial [Examples.lawyer]) = (Ret tt, st')
    ∧ RetryDelayMain.trace st'
      = (periodic
         ++ RetryDelayMain.Wrote name
              (RetryDelayMain.Records
                 (RetryDelayMain.records_skipped (λ _, "") [Examples.lawyer]
                  ++ processed))
            :: rest)%list
    ∧ RetryDelayMain.final_name "lawyers_001" name
    ∧ Forall2 (λ fields entry,
                 entry = fields ∨ RetryDelayMain.enhanced_from fields entry)
        (RetryDelayMain.records_to_process (λ _, "") [Examples.lawyer]) processed
    ∧ length (RetryDelayMain.records_skipped (λ _, "") [Examples.lawyer] ++ processed)
      = length [Examples.lawyer]
    ∧ RetryDelayMain.failed_writes periodic = 0%nat.
Proof.
  apply (retry_delay_main_final_file_has_one_entry_per_record (λ _, "")
           {| RetryDelayMain.search_world := λ _, Examples.world_three_partnerships;
              RetryDelayMain.search_schedule := λ _ n, n;
              RetryDelayMain.cookie_outcome :=
                λ _, Cookies.TokenElement (JObj [("ASP.NET_SessionId", JStr "abc")])
                       (JStr "tok");
              RetryDelayMain.cookie_constructors :=
                λ _, {| Cookies.chrome_abandoned := false;
                        Cookies.firefox_abandoned := false |};
              RetryDelayMain.strftime := λ _, "20250101_000000";
              RetryDelayMain.write_failure := λ _, None |}
           "batches/lawyers_001.json" "lawyers_001" [Examples.lawyer]).
  - intros n. reflexivity.
  - discriminate.
  - right. exists 0%nat. split; [lia|discriminate].
Defined.

(** ** The records that main of request_lawyers_fix_state.py keeps *)

(** The search of the second script on a stored record: it returns a new
    record with the region it was given, and leaves the others. *)
Lemma fix_state_search_run (py_repr : json → string) (w : Pipeline.world)
    (schedule : nat → nat) (oab_number estado cookies token : json)
    (original_record max_retries retry_delay : nat)
    (st : Pipeline.state) (record : gmap string json) :
  Pipeline.heap st !! original_record = Some record →
  ∃ b st',
    FixState.search_lawyer_with_updates py_repr w schedule oab_number estado cookies token
      original_record max_retries retry_delay st
    = (Ret (length (Pipeline.heap st), b), st')
    ∧ Pipeline.enriched_from st record estado st'
    ∧ Pipeline.marked_processed (length (Pipeline.heap st)) st'.
Proof.
  intros Hrec. unfold FixState.search_lawyer_with_updates.
  destruct (search_lawyer_with_updates_invariant py_repr w schedule false
              "lawyer_oab_number" false FixState.get_modal_data_with_selenium true
              (λ s, Pipeline.enriched_from st record estado s
                    ∧ Pipeline.marked_processed (length (Pipeline.heap st)) s)
              oab_number estado cookies token original_record max_retries
              retry_delay st record)
    as (b & st' & Hrun & Hk & Hm).
  - apply and_on_heap; [apply enriched_from_on_heap|apply marked_processed_on_heap].
  - intros key v st1 Hw [Hk Hm]. split.
    + apply enriched_from_setitem; [by destruct Hw|done].
    + by apply marked_processed_setitem.
  - intros st1 Hh. split.
    + eapply enriched_from_start; [| |exact Hh].
      * intros key Hkey Hs. by apply initialised_frame.
      * unfold Pipeline.initialised. apply lookup_insert_eq.
    + unfold Pipeline.marked_processed. rewrite Hh. eexists.
      split; [by apply list_lookup_middle|]. apply marked_initialised.
  - exact Hrec.
  - by exists b, st'.
Qed.

Section FixMain.
Import FixStateMain.
Context (py_repr dumps : json → string) (record_json : gmap string json → json).
Context (AWS_BUCKET : string) (w : world) (batch_file batch_base : string).

Local Abbreviation extends := RetryDelayMain.extends.
Local Abbreviation dictionaries := RetryDelayMain.dictionaries.

Lemma fix_try_except_bind {A B} (m : M A) (k : A → M B) (handler : exn → M B) st :
  try_except (bind m k) handler st
  = match m st with
    | (Ret a, st1) => try_except (k a) handler st1
    | (Raise e, st1) => handler e st1
    end.
Proof. unfold try_except, bind. by destruct (m st) as [[a|e] st1]. Qed.

Lemma fix_handler_run msg record st :
  (log_error msg ;; append record) st
  = (Ret tt,
     set_enhanced_lawyers (enhanced_lawyers st ++ [record])
       (set_pipeline (snd (Pipeline.log_error msg (pipeline st))) st)).
Proof. reflexivity. Qed.

(** A call of the search from [main]. *)
Lemma fix_search_step oab_number code record max_retries st fields :
  Pipeline.heap (pipeline st) !! record = Some fields →
  FixState.extract_state_from_oab_id py_repr (dict_get fields "oab_id") = Some code →
  ∃ b p enhanced,
    search py_repr w oab_number (JStr code) record max_retries st
    = (Ret (length (Pipeline.heap (pipeline st)), b), count_search (set_pipeline p st))
    ∧ extends (Pipeline.heap (pipeline st)) (Pipeline.heap p)
    ∧ Pipeline.heap p !! length (Pipeline.heap (pipeline st)) = Some enhanced
    ∧ corrected_from py_repr fields enhanced.
Proof.
  intros Hrec Hcode. unfold search. cbv zeta.
  destruct (fix_state_search_run py_repr (search_world w (searches st))
              (search_schedule w (searches st)) oab_number (JStr code) (cookies st)
              (token st) record max_retries 2 (pipeline st) fields Hrec)
    as (b & p & -> & (Hlen & Hothers & enhanced & Hl & Hstate & Hframe)
        & enhanced' & Hl' & Hm).
  rewrite Hl in Hl'. injection Hl' as <-.
  exists b, p, enhanced. split; [done|]. split; [|split; [done|]].
  - intros j other Hj. rewrite Hothers; [done|]. by eapply lookup_lt_Some.
  - split; [done|]. split; [by exists code|done].
Qed.

(** A save never raises, and leaves the records and the list. *)
Lemma fix_save_step records batch_num st :
  ∃ result st',
    save_enhanced_lawyers_to_file py_repr dumps record_json AWS_BUCKET w batch_base
      records batch_num st = (Ret result, st')
    ∧ pipeline st' = pipeline st
    ∧ enhanced_lawyers st' = enhanced_lawyers st
    ∧ browsers st' = browsers st.
Proof.
  unfold save_enhanced_lawyers_to_file. cbv zeta.
  destruct (Storage.save_enhanced_lawyers_to_file _ _ _ _ _ _ _ _ _ _) as [result s].
  eexists _, _. split; [reflexivity|]. by destruct (bool_decide (records = [])).
Qed.

Lemma fix_renew_cookies_step st :
  ∃ b,
    (∃ c t, renew_cookies w st = (Ret tt, set_session c t (set_browsers b st)))
    ∨ (∃ e, renew_cookies w st = (Raise e, set_browsers b st)).
Proof.
  unfold renew_cookies.
  destruct (Cookies.get_initial_cookies (cookie_outcome w) (cookie_constructors w) 4 2
              (browsers st))
    as [[[[c t]|]|e] b]; exists b; eauto.
Qed.

(** The end of a pass, once the search has given a record: the record is
    listed once, whatever the periodic save meets. *)
Lemma fix_finish_record (handler : exn → M unit) enhanced_record st enhanced :
  Pipeline.heap (pipeline st) !! enhanced_record = Some enhanced →
  Pipeline.marked enhanced →
  ∃ st',
    try_except
      (append enhanced_record ;;
       let* enhanced := items enhanced_record in
       let* sociedades_count :=
         λ st, (PyOps.len (dict_get_default enhanced "society_complete_details"
                             (JList [])), st) in
       (λ st,
          if (length (enhanced_lawyers st) mod BATCH_SIZE =? 0)%nat then
            let st := set_batch_counter (S (batch_counter st)) st in
            (save_enhanced_lawyers_to_file py_repr dumps record_json AWS_BUCKET w
               batch_base (enhanced_lawyers st) (Some (batch_counter st)) ;; ret tt) st
          else (Ret tt, st)) ;;
       pause) handler st
    = (Ret tt, st')
    ∧ Pipeline.heap (pipeline st') = Pipeline.heap (pipeline st)
    ∧ enhanced_lawyers st' = (enhanced_lawyers st ++ [enhanced_record])%list.
Proof.
  intros Henh Hm.
  assert (∃ l, dict_get_default enhanced "society_complete_details" (JList []) = JList l)
    as [l Hl].
  { destruct Hm as (_ & _ & _ & l & Hl). exists l.
    unfold dict_get_default. by rewrite Hl. }
  rewrite fix_try_except_bind. cbn [append]. rewrite fix_try_except_bind. cbn [items].
  cbn [pipeline set_enhanced_lawyers]. rewrite Henh.
  change (default ∅ (Some enhanced)) with enhanced.
  rewrite fix_try_except_bind. rewrite Hl. cbn [PyOps.len].
  rewrite fix_try_except_bind. cbn [enhanced_lawyers set_enhanced_lawyers].
  destruct (length (enhanced_lawyers st ++ [enhanced_record]) mod BATCH_SIZE =? 0)%nat.
  - cbv zeta. unfold bind at 1.
    destruct (fix_save_step (enhanced_lawyers st ++ [enhanced_record])
                (Some (S (batch_counter st)))
                (set_batch_counter (S (batch_counter st))
                   (set_enhanced_lawyers (enhanced_lawyers st ++ [enhanced_record]) st)))
      as (result & st1 & Hsave & Hp & He & _).
    cbn [set_batch_counter set_enhanced_lawyers enhanced_lawyers batch_counter pipeline]
      in Hsave, Hp, He |- *.
    rewrite Hsave. cbn [ret]. unfold try_except, pause.
    eexists. split; [reflexivity|]. cbn. by rewrite Hp, He.
  - unfold try_except, pause. eexists. split; [reflexivity|]. done.
Qed.

(** One pass of the loop over the records to process: one entry. *)
Lemma fix_process_record_step record st fields :
  Pipeline.heap (pipeline st) !! record = Some fields →
  ∃ st' entry,
    process_record py_repr dumps record_json AWS_BUCKET w batch_base record st
    = (Ret tt, st')
    ∧ extends (Pipeline.heap (pipeline st)) (Pipeline.heap (pipeline st'))
    ∧ enhanced_lawyers st' = (enhanced_lawyers st ++ [entry])%list
    ∧ ∃ listed_fields,
        Pipeline.heap (pipeline st') !! entry = Some listed_fields
        ∧ (listed_fields = fields ∨ corrected_from py_repr fields listed_fields).
Proof.
  intros Hrec. unfold process_record. rewrite Hrec.
  change (default ∅ (Some fields)) with fields. cbv zeta.
  set (handler := λ e : exn, (log_error _ ;; append record)).
  assert (∀ e st1, ∃ msg, handler e st1 = (log_error msg ;; append record) st1)
    as Hhandler by (intros e st1; by eexists).
  destruct (FixState.extract_state_from_oab_id py_repr (dict_get fields "oab_id"))
    as [code|] eqn:Hcode; cbn [json_of_option truthy negb].
  2:{ rewrite orb_true_r. unfold try_except. rewrite fix_handler_run.
      eexists _, record. split; [reflexivity|]. cbn.
      split; [apply extends_refl|]. split; [done|].
      exists fields. split; [done|by left]. }
  destruct (negb (truthy (dict_get fields "oab_number"))
            || negb (negb (String.eqb code ""))).
  { unfold try_except. rewrite fix_handler_run.
    eexists _, record. split; [reflexivity|]. cbn.
    split; [apply extends_refl|]. split; [done|].
    exists fields. split; [done|by left]. }
  rewrite fix_try_except_bind.
  destruct (fix_search_step (dict_get fields "oab_number") code record 4 st fields Hrec
              Hcode) as (b & p & enhanced & -> & Hext & Hl & Hfrom).
  destruct b; cbn [negb].
  - unfold ret at 1. unfold bind at 1.
    edestruct (fix_finish_record handler (length (Pipeline.heap (pipeline st)))
                 (count_search (set_pipeline p st)) enhanced)
      as (st' & Hrun & Hh & He); [exact Hl|by destruct Hfrom|].
    cbn in Hh, He.
    exists st', (length (Pipeline.heap (pipeline st))). split; [exact Hrun|].
    split; [by rewrite Hh|]. split; [exact He|].
    exists enhanced. split; [by rewrite Hh|by right].
  - rewrite fix_try_except_bind. unfold bind at 1.
    destruct (fix_renew_cookies_step (count_search (set_pipeline p st)))
      as [browsers' [(c & t & ->)|(e & ->)]].
    + assert (Pipeline.heap p !! record = Some fields) as Hrec1 by (by apply Hext).
      destruct (fix_search_step (dict_get fields "oab_number") code record 2
                  (set_session c t (set_browsers browsers' (count_search (set_pipeline p st))))
                  fields Hrec1 Hcode) as (b2 & p2 & enhanced2 & Hrun2 & Hext2 & Hl2 & Hfrom2).
      unfold bind at 1. rewrite Hrun2. cbn [ret fst].
      edestruct (fix_finish_record handler (length (Pipeline.heap p))
                   (count_search
                      (set_pipeline p2
                         (set_session c t
                            (set_browsers browsers' (count_search (set_pipeline p st))))))
                   enhanced2)
        as (st' & Hrun & Hh & He); [exact Hl2|by destruct Hfrom2|].
      cbn in Hh, He.
      exists st', (length (Pipeline.heap p)). split; [exact Hrun|].
      split; [rewrite Hh; by eapply extends_trans|].
      split; [exact He|]. exists enhanced2. split; [by rewrite Hh|by right].
    + destruct (Hhandler e (set_browsers browsers' (count_search (set_pipeline p st))))
        as [msg ->].
      rewrite fix_handler_run.
      eexists _, record. split; [reflexivity|]. cbn.
      split; [exact Hext|]. split; [done|].
      exists fields. split; [by apply Hext|by left].
Qed.

(** The loop over the records to process: one entry for each. *)
Lemma fix_process_records_run records :
  ∀ st,
    Forall (λ record, is_Some (Pipeline.heap (pipeline st) !! record)) records →
    ∃ st' entries,
      process_records py_repr dumps record_json AWS_BUCKET w batch_base records st
      = (Ret tt, st')
      ∧ extends (Pipeline.heap (pipeline st)) (Pipeline.heap (pipeline st'))
      ∧ enhanced_lawyers st' = (enhanced_lawyers st ++ entries)%list
      ∧ Forall2 (λ fields entry, entry = fields ∨ corrected_from py_repr fields entry)
          (dictionaries (Pipeline.heap (pipeline st)) records)
          (dictionaries (Pipeline.heap (pipeline st')) entries).
Proof.
  induction records as [|record rest IH]; intros st Hall.
  - exists st, []. cbn. rewrite app_nil_r.
    split; [done|]. split; [apply extends_refl|]. split; [done|]. constructor.
  - apply Forall_cons in Hall as [[fields Hrec] Hrest].
    cbn [process_records]. unfold bind at 1.
    destruct (fix_process_record_step record st fields Hrec)
      as (st1 & entry & -> & Hext1 & He1 & listed_fields & Hl1 & Hfrom1).
    destruct (IH st1) as (st2 & entries & -> & Hext2 & He2 & Hfor2).
    { eapply Forall_impl; [exact Hrest|]. intros l [x Hx]. exists x. by apply Hext1. }
    exists st2, (entry :: entries).
    split; [done|]. split; [by eapply extends_trans|].
    split; [by rewrite He2, He1, <- app_assoc|].
    cbn [RetryDelayMain.dictionaries map]. rewrite Hrec, (Hext2 _ _ Hl1).
    constructor; [exact Hfrom1|].
    fold (dictionaries (Pipeline.heap (pipeline st)) rest).
    rewrite <- (dictionaries_extends _ _ rest Hext1 Hrest). exact Hfor2.
Qed.

Lemma dictionaries_seq (h : list (gmap string json)) :
  dictionaries h (seq 0 (length h)) = h.
Proof.
  assert (∀ h2 h1, dictionaries (h1 ++ h2)%list (seq (length h1) (length h2)) = h2)
    as Hgen.
  { induction h2 as [|fields h2 IH]; intros h1; [done|].
    cbn [length seq RetryDelayMain.dictionaries map].
    rewrite (list_lookup_middle h1 h2 fields (length h1)) by done.
    change (default ∅ (Some fields)) with fields. f_equal.
    specialize (IH (h1 ++ [fields])%list).
    rewrite <- app_assoc, length_app, Nat.add_1_r in IH. exact IH. }
  apply (Hgen h []).
Qed.

(** The second loop. *)
Lemma fix_select_records_run lawyers_data :
  ∀ st,
    Forall (λ record, is_Some (Pipeline.heap (pipeline st) !! record)) lawyers_data →
    ∃ todo kept st',
      select_records py_repr lawyers_data st = (Ret todo, st')
      ∧ extends (Pipeline.heap (pipeline st)) (Pipeline.heap (pipeline st'))
      ∧ enhanced_lawyers st' = (enhanced_lawyers st ++ kept)%list
      ∧ dictionaries (Pipeline.heap (pipeline st')) kept
        = records_skipped py_repr (dictionaries (Pipeline.heap (pipeline st)) lawyers_data)
      ∧ dictionaries (Pipeline.heap (pipeline st')) todo
        = records_to_process py_repr
            (dictionaries (Pipeline.heap (pipeline st)) lawyers_data)
      ∧ Forall (λ record, is_Some (Pipeline.heap (pipeline st') !! record)) todo
      ∧ Forall (λ record, is_Some (Pipeline.heap (pipeline st') !! record)) kept
      ∧ browsers st' = browsers st ∧ storage st' = storage st.
Proof.
  induction lawyers_data as [|record rest IH]; intros st Hall.
  - exists [], [], st. cbn. rewrite app_nil_r.
    split; [done|]. split; [apply extends_refl|]. repeat (split; [done|]). done.
  - apply Forall_cons in Hall as [[fields Hrec] Hrest].
    cbn [select_records]. unfold bind at 1. cbn [items]. rewrite Hrec.
    change (default ∅ (Some fields)) with fields.
    cbn [RetryDelayMain.dictionaries map]. rewrite Hrec.
    change (default ∅ (Some fields)) with fields.
    fold (dictionaries (Pipeline.heap (pipeline st)) rest).
    unfold records_skipped, records_to_process, prepared. rewrite !filter_cons.
    destruct (FixState.should_process_record py_repr fields) as [should_process reason]
      eqn:Hsp.
    cbn [fst snd]. destruct should_process.
    + rewrite decide_False by done. rewrite decide_True by done.
      destruct (contains "estado inconsistente" reason) eqn:Hreason.
      * unfold bind at 1. unfold bind at 1. cbn [new_record ret].
        set (st1 := set_pipeline _ st).
        assert (extends (Pipeline.heap (pipeline st)) (Pipeline.heap (pipeline st1)))
          as Hext1.
        { intros l x Hl. cbn. by apply lookup_app_l_Some. }
        destruct (IH st1) as (todo & kept & st2 & Hrun & Hext2 & He2 & Hk2 & Ht2 & Hs2
                              & Hks2 & Hb2 & Hst2).
        { eapply Forall_impl; [exact Hrest|]. intros l [x Hx]. exists x. by apply Hext1. }
        unfold bind at 1. rewrite Hrun. cbn [ret app].
        assert (Pipeline.heap (pipeline st2) !! length (Pipeline.heap (pipeline st))
                = Some (FixState.clean_inconsistent_data fields)) as Hnew.
        { apply Hext2. cbn. by apply list_lookup_middle. }
        exists (length (Pipeline.heap (pipeline st)) :: todo), kept, st2.
        split; [done|]. split; [by eapply extends_trans|]. split; [exact He2|].
        rewrite <- (dictionaries_extends _ _ rest Hext1 Hrest).
        split; [exact Hk2|]. split.
        { cbn [RetryDelayMain.dictionaries map]. rewrite Hnew. cbn [map].
          change (default ∅ (Some ?x)) with x.
          f_equal; [rewrite Hsp; cbn [snd]; by rewrite Hreason|exact Ht2]. }
        split; [constructor; [by eexists|done]|]. split; [done|]. by split.
      * unfold bind at 1. cbn [ret].
        destruct (IH st) as (todo & kept & st2 & Hrun & Hext2 & He2 & Hk2 & Ht2 & Hs2
                             & Hks2 & Hb2 & Hst2); [exact Hrest|].
        unfold bind at 1. rewrite Hrun. cbn [ret app].
        exists (record :: todo), kept, st2.
        split; [done|]. split; [exact Hext2|]. split; [exact He2|].
        split; [exact Hk2|]. split.
        { cbn [RetryDelayMain.dictionaries map]. rewrite (Hext2 _ _ Hrec). cbn [map].
          change (default ∅ (Some ?x)) with x.
          f_equal; [rewrite Hsp; cbn [snd]; by rewrite Hreason|exact Ht2]. }
        split; [constructor; [exists fields; by apply Hext2|done]|]. split; [done|].
        by split.
    + rewrite decide_True by done. rewrite decide_False by done.
      unfold bind at 1. unfold bind at 1. cbn [append ret].
      set (st1 := set_enhanced_lawyers _ st).
      destruct (IH st1) as (todo & kept & st2 & Hrun & Hext2 & He2 & Hk2 & Ht2 & Hs2
                            & Hks2 & Hb2 & Hst2); [exact Hrest|].
      unfold bind at 1. rewrite Hrun. cbn [ret app].
      exists todo, (record :: kept), st2.
      split; [done|]. split; [exact Hext2|].
      split; [rewrite He2; cbn; by rewrite <- app_assoc|].
      split.
      { cbn [RetryDelayMain.dictionaries map]. rewrite (Hext2 _ _ Hrec).
        change (default ∅ (Some ?x)) with x. f_equal. exact Hk2. }
      split; [exact Ht2|]. split; [done|].
      split; [constructor; [exists fields; by apply Hext2|done]|]. by split.
Qed.

Lemma fix_first_cookies st :
  browsers st = Cookies.initial →
  (∃ c t b,
     renew_cookies w st = (Ret tt, set_session c t (set_browsers b st))
     ∧ ∃ j, (j < 4)%nat ∧ Cookies.pair_of (cookie_outcome w j) ≠ None)
  ∨ (∃ e b,
       renew_cookies w st = (Raise e, set_browsers b st)
       ∧ ∀ j, (j < 4)%nat → Cookies.pair_of (cookie_outcome w j) = None).
Proof.
  intros Hb. unfold renew_cookies, Cookies.get_initial_cookies. rewrite Hb.
  assert (Hq : Cookies.all_quit Cookies.initial).
  { split; [done|]. intros d Hin. by apply elem_of_nil in Hin. }
  destruct (cookie_loop_spec (cookie_outcome w) (cookie_constructors w) 4 2 4 0
              Cookies.initial Hq eq_refl)
    as (r & b & -> & _ & _ & _ & Hr).
  destruct r as [[[c t]|]|e].
  - left. exists c, t, b. split; [done|].
    destruct Hr as (i & Hi & _ & Hat & _). exists i. split; [done|].
    cbn in Hat. by rewrite Hat.
  - destruct Hr as [Hr _]. done.
  - right. exists e, b. split; [done|]. destruct Hr as (_ & Hall & _).
    intros j Hj. by apply (Hall j).
Qed.

Ltac fix_try_except_step H :=
  match type of H with
  | context [try_except (bind ?m ?k) ?h ?s] => rewrite (fix_try_except_bind m k h s) in H
  end.

(** The error log is stored without an exception. *)
Lemma fix_save_error_log_step errors st :
  ∃ st',
    save_error_log py_repr dumps AWS_BUCKET w batch_file batch_base errors st
    = (Ret tt, st')
    ∧ pipeline st' = pipeline st ∧ enhanced_lawyers st' = enhanced_lawyers st.
Proof.
  unfold save_error_log. cbv zeta.
  destruct (Storage.save_to_s3_and_local_backup _ _ _ _ _ _ _) as [result s].
  by eexists.
Qed.

(** The whole of [main], from the loaded records on. *)
Lemma fix_main_run lawyers_data :
  ∃ st',
    main py_repr dumps record_json AWS_BUCKET w batch_file batch_base
      (initial lawyers_data) = (Ret tt, st')
    ∧ ((records_to_process py_repr lawyers_data ≠ []
        ∧ (∀ j, (j < 4)%nat → Cookies.pair_of (cookie_outcome w j) = None)
        ∧ listed st' = records_skipped py_repr lawyers_data
        ∧ Storage.trace (storage st') = [])
       ∨ ((records_to_process py_repr lawyers_data = []
           ∨ ∃ j, (j < 4)%nat ∧ Cookies.pair_of (cookie_outcome w j) ≠ None)
          ∧ ∃ processed,
              listed st' = (records_skipped py_repr lawyers_data ++ processed)%list
              ∧ Forall2 (λ fields entry,
                           entry = fields ∨ corrected_from py_repr fields entry)
                  (records_to_process py_repr lawyers_data) processed)).
Proof.
  destruct (main py_repr dumps record_json AWS_BUCKET w batch_file batch_base
              (initial lawyers_data)) as [r st'] eqn:Hrun.
  unfold main in Hrun. fix_try_except_step Hrun. cbv beta in Hrun.
  change (Pipeline.heap (pipeline (initial lawyers_data))) with lawyers_data in Hrun.
  destruct (fix_select_records_run (seq 0 (length lawyers_data)) (initial lawyers_data))
    as (todo & kept & st1 & Hsel & Hext & Hkept & Hskipped & Htodo & Htodo_some
        & Hkept_some & Hb & Hst).
  { apply Forall_forall. intros record Hin. apply elem_of_seq in Hin.
    apply lookup_lt_is_Some. cbn. lia. }
  change (Pipeline.heap (pipeline (initial lawyers_data))) with lawyers_data
    in Hext, Hskipped, Htodo.
  rewrite dictionaries_seq in Hskipped, Htodo. cbn [enhanced_lawyers initial app] in Hkept.
  rewrite Hsel in Hrun.
  assert (listed st1 = records_skipped py_repr lawyers_data) as Hlisted1.
  { unfold listed. by rewrite Hkept. }
  destruct (decide (todo = [])) as [Hnil|Hsome].
  - rewrite bool_decide_eq_true_2 in Hrun by done.
    fix_try_except_step Hrun.
    destruct (fix_save_step (enhanced_lawyers st1) None st1)
      as (result & st2 & Hsave & Hp & He & _).
    rewrite Hsave in Hrun. injection Hrun as <- <-.
    exists st2. split; [reflexivity|]. right.
    assert (records_to_process py_repr lawyers_data = []) as Hnone
      by (by rewrite <- Htodo, Hnil).
    split; [by left|]. exists []. rewrite app_nil_r, Hnone.
    split; [|constructor]. unfold listed. by rewrite Hp, He.
  - rewrite bool_decide_eq_false_2 in Hrun by done.
    assert (records_to_process py_repr lawyers_data ≠ []) as Hto.
    { intros Hnil. apply Hsome. apply (f_equal length) in Hnil.
      rewrite <- Htodo, dictionaries_length in Hnil. by destruct todo. }
    fix_try_except_step Hrun.
    destruct (fix_first_cookies st1 Hb) as [(c & t & b & Hcookies & Hfound)
                                           |(e & b & Hcookies & Hnone)];
      rewrite Hcookies in Hrun.
    + set (st2 := set_session c t (set_browsers b st1)) in *.
      fix_try_except_step Hrun.
      destruct (fix_process_records_run todo st2 Htodo_some)
        as (st3 & entries & Hloop & Hext3 & Henh3 & Hfor3).
      rewrite Hloop in Hrun.
      change (Pipeline.heap (pipeline st2)) with (Pipeline.heap (pipeline st1))
        in Hext3, Hfor3.
      change (enhanced_lawyers st2) with (enhanced_lawyers st1) in Henh3.
      rewrite Htodo in Hfor3.
      assert (listed st3
              = (records_skipped py_repr lawyers_data
                 ++ dictionaries (Pipeline.heap (pipeline st3)) entries)%list) as Hlisted3.
      { unfold listed. rewrite Henh3, Hkept, dictionaries_app.
        by rewrite (dictionaries_extends _ _ kept Hext3 Hkept_some), Hskipped. }
      fix_try_except_step Hrun.
      assert (∃ st4,
                (if negb (bool_decide (enhanced_lawyers st3 = []))
                 then (save_enhanced_lawyers_to_file py_repr dumps record_json AWS_BUCKET
                         w batch_base (enhanced_lawyers st3) None ;; ret tt) st3
                 else (Ret tt, st3)) = (Ret tt, st4)
                ∧ pipeline st4 = pipeline st3
                ∧ enhanced_lawyers st4 = enhanced_lawyers st3)
        as (st4 & Hfinal & Hp4 & He4).
      { destruct (negb (bool_decide (enhanced_lawyers st3 = []))); [|by exists st3].
        unfold bind.
        destruct (fix_save_step (enhanced_lawyers st3) None st3)
          as (result & st4 & -> & Hp & He & _).
        by exists st4. }
      rewrite Hfinal in Hrun.
      assert (∃ st5,
                (if negb (bool_decide (Pipeline.error_log (pipeline st4) = []))
                 then save_error_log py_repr dumps AWS_BUCKET w batch_file batch_base
                        (Pipeline.error_log (pipeline st4)) st4
                 else (Ret tt, st4)) = (Ret tt, st5)
                ∧ pipeline st5 = pipeline st4
                ∧ enhanced_lawyers st5 = enhanced_lawyers st4)
        as (st5 & Hlog & Hp5 & He5).
      { destruct (negb (bool_decide (Pipeline.error_log (pipeline st4) = [])));
          [|by exists st4].
        apply fix_save_error_log_step. }
      unfold try_except in Hrun. cbv zeta in Hrun. rewrite Hlog in Hrun.
      injection Hrun as <- <-.
      exists st5. split; [reflexivity|]. right. split; [by right|].
      exists (dictionaries (Pipeline.heap (pipeline st3)) entries).
      split; [|exact Hfor3]. unfold listed in *. by rewrite Hp5, He5, Hp4, He4.
    + injection Hrun as <- <-.
      exists (set_browsers b st1). split; [reflexivity|]. left.
      split; [exact Hto|]. split; [exact Hnone|]. split; [exact Hlisted1|].
      cbn. by rewrite Hst.
Qed.
End FixMain.

Lemma fix_selection_length py_repr lawyers_data :
  (length (FixStateMain.records_skipped py_repr lawyers_data)
   + length (FixStateMain.records_to_process py_repr lawyers_data))%nat
  = length lawyers_data.
Proof.
  unfold FixStateMain.records_skipped, FixStateMain.records_to_process.
  rewrite length_map.
  apply (filter_partition_length
           (λ fields, fst (FixState.should_process_record py_repr fields))).
Qed.

(** X23.  [main] of request_lawyers_fix_state.py, from the loaded records
    on, never raises.  When records are to be processed and none of the
    first four attempts to get cookies finds a token, it ends without
    storing anything.  Otherwise [enhanced_lawyers] ends up with exactly one
    entry per record of the batch, whatever the bucket and the disk do:
    first the records that needed no processing, then, for each record to
    process in order, the record as the selection left it (reset by
    [clean_inconsistent_data] when its region did not match) or a record
    enhanced from it, which is marked as processed, carries the region that
    its [oab_id] gives and is the same outside the region and the six
    enrichment fields. *)
Theorem fix_state_main_lists_every_record_once
    (py_repr dumps : json → string) (record_json : gmap string json → json)
    (AWS_BUCKET : string) (w : FixStateMain.world) (batch_file batch_base : string)
    (lawyers_data : list (gmap string json)) :
  ∃ st',
    FixStateMain.main py_repr dumps record_json AWS_BUCKET w batch_file batch_base
      (FixStateMain.initial lawyers_data) = (Ret tt, st')
    ∧ ((FixStateMain.records_to_process py_repr lawyers_data ≠ []
        ∧ (∀ j, (j < 4)%nat → Cookies.pair_of (FixStateMain.cookie_outcome w j) = None)
        ∧ FixStateMain.listed st' = FixStateMain.records_skipped py_repr lawyers_data
        ∧ Storage.trace (FixStateMain.storage st') = [])
       ∨ ((FixStateMain.records_to_process py_repr lawyers_data = []
           ∨ ∃ j, (j < 4)%nat
                  ∧ Cookies.pair_of (FixStateMain.cookie_outcome w j) ≠ None)
          ∧ length (FixStateMain.listed st') = length lawyers_data
          ∧ ∃ processed,
              FixStateMain.listed st'
              = (FixStateMain.records_skipped py_repr lawyers_data ++ processed)%list
              ∧ Forall2 (λ fields entry,
                           entry = fields
                           ∨ FixStateMain.corrected_from py_repr fields entry)
                  (FixStateMain.records_to_process py_repr lawyers_data) processed)).
Proof.
  destruct (fix_main_run py_repr dumps record_json AWS_BUCKET w batch_file batch_base
              lawyers_data) as (st' & Hrun & Hcases).
  exists st'. split; [exact Hrun|].
  destruct Hcases as [Hfail|(Hok & processed & Hlisted & Hfor)]; [by left|right].
  split; [exact Hok|]. split; [|by exists processed].
  rewrite Hlisted, length_app. apply Forall2_length in Hfor.
  pose proof (fix_selection_length py_repr lawyers_data) as Hpart. lia.
Qed.
